(* ===== verification/_CoqProject ===== *)
-Q . S2P
Prelude.v
Str.v
Json.v
ToyJson.v
RefJson.v
Chain.v
Record.v
Backing.v
Storage.v
StorageSpec.v
Concurrent.v
Join.v
Codec.v
RefCodec.v
Upstream.v
Float64.v
Progress.v
Subscribe.v
Http.v
Socket.v
EthFetch.v
Backfill.v
BackfillLive.v
Serve.v
Health.v
Support.v
EthIngest.v
Handoff.v
EthRpc.v
PlatformIngest.v
PlatformLive.v
Mirror.v
PlatformRpc.v
EndToEnd.v
Bulk.v
Conn.v
Toml.v
Config.v
ConfigLayers.v
ConfigResolve.v
ConfigDebug.v
ConfigSpec.v
ConfigSecrets.v
ToyConfig.v
Metrics.v
Server.v
Replica.v
ReplicaLive.v
ReplicaSessions.v
ReplicaBlocks.v
Listener.v
Main.v
MainSpec.v
Witnesses.v
LiveWitnesses.v
ConfigWitnesses.v
SystemWitnesses.v
TestsCore.v
TestsServe.v
TestsPlatform.v
TestsEth.v
RefConfig.v
ExampleConfig.v
TestsConfig.v
TestsMetrics.v
Suite.v
TaskWitnesses.v
