(* ===== verification/Prelude.v ===== *)
(** * neve: a verification development

    neve mirrors Avalanche chains: it follows an upstream node's C-chain
    ([eth_*]) and P-chain ([platform.*]), stores every block as one record, and
    serves the stored history over JSON-RPC, WebSocket subscriptions and a bulk
    HTTP export.  This library models that program as executable Rocq
    definitions and proves what makes it correct.

    ** The program and its model

    Records.  [Record] (src/record.rs): a record is the JSON array
    [[block, logs]] (C-chain) or [[block, bytes, rewards]] (P-chain), read back
    by slicing without reparsing.  serde_json is the interface [Json.JsonLib]
    with the laws [Json.JsonLaws]; [ToyJson] implements it.  [Str] holds the
    Rust string functions the sources use.

    Storage.  [Storage] (src/storage.rs) keeps records by height in a
    blockstore and three indexes (hash to height, transaction to block and
    position, and the meta stamps) in fjall; both libraries are the interfaces
    of [Backing] with an in-memory implementation each.  [StorageSpec] gives the
    abstract store - finite maps from heights, hashes and transactions - and
    the refinement: whatever sequence of writes succeeds, every read returns
    what the maps say.  [Concurrent] takes the calls of many tasks apart into
    their atomic stages - the block write, the index commit, the two reads of a
    lookup by hash - and lets any task take its next one.

    The C-chain.  [EthFetch] (src/eth/ingest.rs, fetching) retries, paces and
    parses; [EthIngest] (src/eth/ingest.rs, sessions) turns socket frames into
    writes, through the join buffer [Join] (src/join.rs) when logs are
    ingested, and bootstraps a mirror; [Backfill] (src/eth/backfill.rs) fills
    the gap below the tip, after the bootstrap has signalled that it is over
    ([Handoff]: both tasks as programs over tokio's [Notify], the interface
    [NotifyLib]); [EthRpc] (src/eth/rpc.rs) answers [eth_*].

    The P-chain.  [Codec] (src/platform/codec.rs): CB58, hex, block type ids;
    the hex, bs58 and sha2 crates are the interfaces [HexLib] and [CodecLib].
    [PlatformIngest] (src/platform/ingest.rs and mod.rs) fetches both encodings
    of a block, cross-checks them and holds a reward proposal until the next
    block decides it; [Mirror] (src/platform/mirror.rs) fills a store from
    another neve; [PlatformRpc] (src/platform/rpc.rs) answers [platform.*].
    [Replica] runs a mirror of either chain against the server of another
    instance, request and frames included; [ReplicaLive] its tip, from the
    upstream's write to the mirror's; [ReplicaSessions] the sessions of a P-chain
    mirror one after the other, cut anywhere; [ReplicaBlocks] the live feed of a
    C-chain mirror.

    Shared parts.  [Chain] (src/chain.rs), [Upstream] (src/upstream.rs: pacer,
    throttling, frames), [Socket] (src/upstream.rs: the handshake and the first
    request), [Progress] (src/progress.rs), [Float64] (binary64), [Subscribe]
    (src/subscribe.rs), [Serve] (src/rpc.rs helpers and src/middleware.rs),
    [Health] (src/health.rs), [Bulk] (src/bulk.rs), [Conn] (src/conn.rs).
    [Http] is the ingest side's monad: the HTTP client is an interface, and a
    computation threads it with the trace of every request, reply, sleep and
    pacer slot, so that a theorem can say which reply a stored value came from.

    Configuration (src/config.rs).  [Toml] has the document tree and [set_path];
    [Config] the schema - command line, file, deserializers, built-in
    defaults, environment; [ConfigLayers] the merge (file, environment,
    deprecated flags, flags, [--set]) and the selection of chains;
    [ConfigResolve] endpoints, tokens, validation and the redacted rendering;
    [ConfigDebug] what [{:?}] shows, and the deferred start-up lines.
    The [toml] and [parse_duration] crates are the interface [ConfigLib], which
    [ToyConfig] implements.  [ConfigSpec] and [ConfigSecrets] hold the theorems.

    The process.  [Server] is the method table and the HTTP stack of src/rpc.rs,
    with the dispatch of both dialects, [Listener] its [serve] and accept loop;
    [Metrics] (src/metrics.rs) the samples
    every recording helper emits; [Main] (src/main.rs) the start-up from the
    command line to one pipeline per chain, and the shutdown; [MainSpec] its
    theorems.  [BackfillLive], [PlatformLive] and [EndToEnd] compose components:
    the loops of both chains reach the tip, and what they fetched is what clients
    are given.

    [Support] is the build script and the fixtures of the test suite
    (build.rs, src/test_support.rs).  [TestsCore], [TestsServe], [TestsPlatform],
    [TestsEth], [TestsConfig] and [TestsMetrics] are the unit tests at the end of
    each source file, as booleans over the definitions that model that file, and
    [Suite] puts them together.  They run on reference implementations of the
    libraries: [RefJson] (RFC 8259), [RefCodec] (SHA-256 and base58, proved to
    satisfy [CodecLaws]) and [RefConfig] (a subset of TOML, durations); the
    configuration tests read the annotated file of [ExampleConfig].

    [Witnesses], [LiveWitnesses], [ConfigWitnesses], [SystemWitnesses] and
    [TaskWitnesses] apply each property at a concrete input over the implementations of the interfaces.

    ** Conventions

    A [u64] is an [N], its saturating and wrapping operations written out
    ([sat_add], [sat_sub], [mod 2^64]).  Rust's [Result] is [result] with one
    [error] constructor per failure the code tells apart; error texts are not
    modelled, but for those the bulk export answers with.  [M S A] is state passing with [result].  Instants and durations
    are [N], in nanoseconds unless a definition says milliseconds; a function
    that reads the clock takes the reading as an argument.  A socket is a function
    from the first text sent on it to the messages it will deliver, and the idle
    watchdog is a predicate on waits.
    Where other tasks may write between two reads (replay, bulk export, fetches
    ahead of the backfill's writer) each read has its own snapshot of the store.

    ** What is proved

    - Storage: [storage_refinement]; which writes a failed [put] may leave
      behind ([put_failure_window]); a directory stays bound to its chain and
      network ([open_binds_chain_and_network], [open_refusals]).
    - Concurrency: however writes and reads interleave, reads see whole records
      and sound indexes ([concurrent_reads_sound]); a read after a write finds it
      ([read_after_put]), and completed writes have the effect of some sequence
      of them ([concurrent_puts_linearize]); the backfill never races the
      bootstrap, and its signal is never lost ([backfill_waits_for_bootstrap]).
    - Replication: a mirror's bootstrap from a neve terminates and copies it,
      byte for byte on the P-chain ([mirror_replicates]) and block by block on
      the C-chain, whose bootstrap starts above genesis
      ([oldblocks_replicates]); a P-chain mirror that follows makes
      the writes its upstream makes, and both stores answer alike
      ([mirror_stays_replica]), and so does a C-chain mirror
      ([blocks_stay_replicated]).  Whatever cut a P-chain mirror's sessions
      short, one bootstrap that runs undisturbed leaves it complete, and it never
      holds a record its upstream did not have ([mirror_heals]).
    - Records: elements read back exactly, bare blocks too ([record_roundtrip],
      [bare_block_reads]); IDs survive CB58, and nothing else is accepted
      ([cb58_sound_and_complete]).
    - Join: the buffer is bounded, writes the newest pair, and does not depend
      on which half arrives first ([join_cap], [join_writes_newest_pair],
      [join_order_independent]).
    - Ingest: nothing is written that the upstream did not answer or send for
      that height ([session_writes_sound], [fill_range_faithful],
      [p_fill_range_settles], [mirror_bootstrap_sound]); runs that report
      completion close the gap or reach their target ([fill_range_closes_gap],
      [bootstrap_ends_at_target]); what each backfill pass decides
      ([backfill_pass_decides]); the two sources of logs store the same bytes
      ([logs_sources_agree]); requests are bounded ([fetch_rpc_bounded],
      [aimd_envelope], [pacer_rate_bound]); the P-chain cross-check is exact
      ([verify_exact]).  With an upstream that answers and a disk that takes
      writes, every backfill pass moves the frontier until it is at the tip
      ([backfill_reaches_tip]); so does every P-chain pass, until the last
      settled block ([p_ingest_reaches_tip]).
    - From upstream to client: what a completed run fetched is what
      [eth_getBlockByNumber] and [eth_getLogs] answer ([backfilled_is_served]),
      and what [platform.getBlockByHeight] answers ([ingested_is_served]).
    - Configuration: every setting is the last override's, else the file's, the
      shared default's or the built-in one ([config_precedence]); an accepted
      configuration is well formed ([resolved_well_formed]); nothing printed
      depends on the token ([token_never_shown]), which a URL carries once
      ([token_added_once]); durations print and read back ([duration_roundtrip]).
    - The process: what runs is what is configured
      ([main_runs_what_is_configured]), a fresh mirror is anchored where its
      upstream starts ([mirror_anchors_at_upstream_floor]), every exit flushes
      every store ([shutdown_flushes_every_store]); the method table
      ([module_namespaces]); the listener serves exactly the sockets accepted
      before the shutdown, each with the bytes
      of its socket and reaped when silent ([served_connections]); over HTTP a
      height is answered exactly when it is stored or waits in the join buffer, and
      re-addressed with 421 otherwise ([miss_is_421_over_http]).
    - Metrics: whatever the helpers of src/metrics.rs record, the series are in a
      finite catalogue ([metrics_bounded]); the open-subscription gauge counts the live
      guards ([sub_gauge_exact]).
    - Serving: [eth_getLogs] is never partial ([get_logs_exact]); blocks and
      transactions are found, and the right ones ([block_lookups_agree],
      [tx_by_hash_returns_it], [get_block_self_verifying],
      [get_tx_returns_it]); replay and bulk export are gapless
      ([replay_gapless], [bulk_export_complete]) and refused otherwise; subscribers hear only of
      blocks that can be read ([announced_is_servable], [project_payload]); the
      421 rewrite and the health probe ([misdirected_iff_null_result],
      [health_probe_reads_back]); reported directory sizes are the saturated total
      of the files ([sum_dir_totals]); idle connections are closed exactly when
      silent ([reaped_exactly_when_silent]).
    - Conformance: the model passes the program's own unit tests, 203 of 204
      ([model_passes_the_unit_tests]).
    - [tx_index_position] and [bulk_empty_store] state behaviour of the code
      that its comments do not: the transaction index skips malformed entries,
      and an empty store answers a bulk request for height 0.

    ** Fuel and bounds

    [get_logs] takes [GETLOGS_TURNS] = 9 turns: an accepted range has at most
    2048 heights, read 256 at a time, and one turn ends the loop.  Loops over a
    socket take one turn more than it has messages, and each turn consumes at
    least one.  The replay and bulk loops take one turn per height and one to
    stop.  [fetch_chain_id] retries throttled requests without bound, so its
    result at a given fuel is an option, and so is that of [Main.fetch_identity],
    [Main.build_instance] and [Main.main], which call it.  Ranges are assumed to end below
    [u64::MAX], where the saturating increment of the height would make the
    source's loops repeat their last turn for ever.

    ** What is not modelled

    Log lines and their texts, but for what they reveal of the token; what
    jsonrpsee does between a socket and a method call (parsing, the connection
    budget, WebSocket framing) and hyper's HTTP; installing the metrics recorder
    and its periodic upkeep; the derived parser of the command line (clap), of
    which the tests have a reading of long options, and the full syntax of TOML;
    the help texts; formatting of durations, byte counts and timestamps but for
    what the tests need.  One unit test is left out,
    [hyper_keepalive_idle_connection_is_reaped] of src/conn.rs, which drives
    hyper over a socket; the reaper it exercises is [Conn]'s. *)

From Stdlib Require Import ZArith NArith Lia String Ascii Strings.Byte.
From stdpp Require Export base decidable countable option list gmap strings.

(** [length] is the list one; strings are measured through their bytes. *)
Abbreviation length := Datatypes.length.

(** Keep arithmetic and comparisons folded under [cbn]. *)
#[global] Arguments Ascii.eqb : simpl never.
#[global] Arguments String.eqb : simpl never.
#[global] Arguments String.append : simpl nomatch.
#[global] Arguments N.add : simpl never.
#[global] Arguments N.mul : simpl never.
#[global] Arguments N.sub : simpl never.
#[global] Arguments N.div : simpl never.
#[global] Arguments N.modulo : simpl never.
#[global] Arguments N.leb : simpl never.
#[global] Arguments N.ltb : simpl never.
#[global] Arguments N.eqb : simpl never.
#[global] Arguments N.min : simpl never.
#[global] Arguments N.max : simpl never.

(** ** Results

    Rust's [Result<T, E>] with the [?] operator.  [anyhow::Error] and
    [ErrorObjectOwned] values are modelled by the [error] constructors below,
    one per failure the code distinguishes; their rendered text is not. *)

Inductive error : Type :=
  (* storage.rs: meta stamps *)
  | EWrongChain (stored : string)
  | ELegacyNotC
  | EWrongIdentity (stored : string)
  | ENotUtf8
  | EFormatNotU32
  | EWrongFormat (stored want : N)
  | ENoNetworkStamp
  (* storage.rs: data path *)
  | EWrongArity (want got : N)
  | EBlockstore
  | EIndex
  | EBadIndexEntry
  (* record.rs *)
  | EDecodeRecord
  | EDecodeBareBlock
  | EShortRecord (got : N)
  (* ingest *)
  | EMissingHash
  | EBadHex
  | EHashLength
  | ESerialize
  | EHttp
  | EHttpStatus (status : N)
  | EThrottled
  | EMissingResult
  | EMalformedHex
  | EIdleTimeout
  | EStreamEnded
  | EVerification
  (* codec *)
  | EBadBase58
  | ECb58Length (got : N)
  | EChecksum
  | ENoHexPrefix
  | EUnknownEncoding
  (* serving *)
  | EStorageError (e : error)
  | ENoBlocksYet
  | EUnsupportedTag
  | EInvalidNumber
  | EInvalidQuantity
  | EFromAfterTo (from to : N)
  | ERangeTooLarge (span : N)
  | EBadStoredBlock
  | EBadStoredLogs
  | EBadBufferedBlock
  | EBadUint
  | EOutOfRange
  | EUnsupportedKind
  | EKindNotAvailable
  | ENoLiveRecords
  | EMissingFrom
  | EBeforeEarliest (start min : N)
  | EEndBeforeStart (e start : N)
  | EBeyondTip (e contig : N)
  | ENoChains
  | EText (msg : string)
  | EBadParams
  | EUnknownChain
  (* config.rs; [EAt] is the context naming the flag, variable or argument *)
  | EAt (origin : string) (e : error)
  | EConfigUnread
  | EConfigInvalid
  | EEmptySegment
  | ENotATable (head : string)
  | EEmptyKey
  | EChainsNotTable
  | EChainsEmpty
  | EAllDisabled
  | ENotBool
  | EIdleChain (key : string)
  | ESetSyntax
  | EFlagRange (flag : string)
  | EDefaultsEnabled
  | ESameDataDir (a b : string)
  | EEmptyBase
  | EEmptyToken
  | ETokenUnread
  | EMaxRps
  | EMustBePositive (key : string)
  | EBadUpstreamBase
  | EUnserializable
  | EPanic
  (* main.rs and rpc.rs *)
  | EFatalUpstream
  | EFilesystem
  | ENothingToServe
  | EMethodConflict.

Inductive result (A : Type) : Type :=
  | Ok (a : A)
  | Err (e : error).
Arguments Ok {A} a.
Arguments Err {A} e.

Definition result_bind {A B} (k : A -> result B) (r : result A) : result B :=
  match r with Ok a => k a | Err e => Err e end.

(** [map_err] and [ok_or]. *)
Definition map_err {A} (f : error -> error) (r : result A) : result A :=
  match r with Ok a => Ok a | Err e => Err (f e) end.

Definition ok_or {A} (o : option A) (e : error) : result A :=
  match o with Some a => Ok a | None => Err e end.

Definition is_ok {A} (r : result A) : bool :=
  match r with Ok _ => true | Err _ => false end.

Declare Scope neve_scope.
Delimit Scope neve_scope with neve.
Notation "'let?' x ':=' e 'in' k" := (result_bind (fun x => k) e)
  (at level 10, x pattern, e at level 200, k at level 200) : neve_scope.
Notation "'let??' x ':=' e 'in' k" := (match e with Some x => k | None => None end)
  (at level 10, x pattern, e at level 200, k at level 200) : neve_scope.
#[global] Open Scope neve_scope.

(** ** Fixed-width unsigned integers

    A [u64] (or [u32], [usize]) is an [N]; the operations the code uses are
    the saturating ones, written out with the width. *)

Definition u64_max : N := 18446744073709551615.
Definition u32_max : N := 4294967295.
Definition is_u64 (n : N) : Prop := (n <= u64_max)%N.

(** [u64::saturating_add], [saturating_sub], [saturating_mul].  Truncated
    subtraction on [N] is exactly saturation at 0. *)
Definition sat_add (a b : N) : N := N.min (a + b) u64_max.
Definition sat_sub (a b : N) : N := (a - b)%N.
Definition sat_mul (a b : N) : N := N.min (a * b) u64_max.

Lemma sat_add_exact a b : (a + b <= u64_max)%N -> sat_add a b = (a + b)%N.
Proof. unfold sat_add. lia. Qed.

Lemma sat_add_le a b : (sat_add a b <= a + b)%N.
Proof. unfold sat_add. lia. Qed.

Lemma sat_add_u64 a b : is_u64 (sat_add a b).
Proof. unfold sat_add, is_u64. lia. Qed.

Lemma sat_sub_u64 a b : is_u64 a -> is_u64 (sat_sub a b).
Proof. unfold sat_sub, is_u64. lia. Qed.

Lemma sat_succ_gt a : (a < u64_max)%N -> (a < sat_add a 1)%N.
Proof. unfold sat_add. lia. Qed.

Create HintDb neve.
#[export] Hint Resolve sat_add_u64 sat_sub_u64 sat_succ_gt : neve.
#[export] Hint Unfold is_u64 : neve.

(** Arithmetic goals that mention the saturating operations. *)
Ltac sat_lia :=
  unfold sat_add, sat_sub, sat_mul, is_u64, u64_max in *; lia.

(** ** Case analysis on the code's own matches and guards *)

Ltac destruct_match_in H :=
  match type of H with
  | context [match ?x with _ => _ end] => destruct x eqn:?
  end.

Ltac destruct_match :=
  match goal with
  | |- context [match ?x with _ => _ end] => destruct x eqn:?
  end.

(** Invert a computation known to have returned [Ok] (or [Some]). *)
Ltac inv_ok :=
  repeat match goal with
  | H : Ok _ = Ok _ |- _ => injection H as H; subst
  | H : Some _ = Some _ |- _ => injection H as H; subst
  | H : Ok _ = Err _ |- _ => discriminate H
  | H : Err _ = Ok _ |- _ => discriminate H
  | H : Some _ = None |- _ => discriminate H
  | H : None = Some _ |- _ => discriminate H
  | H : true = false |- _ => discriminate H
  | H : false = true |- _ => discriminate H
  | H : result_bind _ ?r = _ |- _ =>
      let E := fresh "E" in destruct r eqn:E; cbn [result_bind] in H
  end.

Lemma result_bind_ok {A B} (k : A -> result B) r b :
  result_bind k r = Ok b -> exists a, r = Ok a /\ k a = Ok b.
Proof. destruct r; cbn; [eauto | discriminate]. Qed.

(** ** Bytes *)

Abbreviation byte := Byte.byte.
Abbreviation bytes := (list Byte.byte).

#[global] Instance byte_eq_dec : EqDecision Byte.byte := Byte.byte_eq_dec.
#[global] Program Instance byte_countable : Countable Byte.byte :=
  inj_countable Byte.to_N Byte.of_N _.
Next Obligation. intros b. apply Byte.of_to_N. Qed.

Definition byte_of_N (n : N) : byte := default Byte.x00 (Byte.of_N n).

Lemma to_N_byte_of_N n : (n < 256)%N -> Byte.to_N (byte_of_N n) = n.
Proof.
  intros Hn. unfold byte_of_N.
  destruct (Byte.of_N n) as [b|] eqn:E; cbn.
  - by apply Byte.to_of_N.
  - apply Byte.of_N_None_iff in E. lia.
Qed.

Lemma byte_of_N_to_N b : byte_of_N (Byte.to_N b) = b.
Proof. unfold byte_of_N. by rewrite Byte.of_to_N. Qed.

(** [to_le_bytes] / [from_le_bytes] at a byte width, and the big-endian
    [from_be_bytes]. *)
Fixpoint to_le_bytes (w : nat) (v : N) : bytes :=
  match w with
  | O => []
  | S w => byte_of_N (v mod 256) :: to_le_bytes w (v / 256)
  end.

Fixpoint from_le_bytes (bs : bytes) : N :=
  match bs with
  | [] => 0
  | b :: bs => Byte.to_N b + 256 * from_le_bytes bs
  end.

Definition from_be_bytes (bs : bytes) : N := from_le_bytes (reverse bs).

Lemma length_to_le_bytes w v : length (to_le_bytes w v) = w.
Proof. revert v; induction w; intros v; cbn; [done | by rewrite IHw]. Qed.

Lemma from_to_le_bytes w v :
  from_le_bytes (to_le_bytes w v) = (v mod 256 ^ N.of_nat w)%N.
Proof.
  revert v; induction w as [|w IH]; intros v.
  - cbn. by rewrite N.mod_1_r.
  - cbn [to_le_bytes from_le_bytes]. rewrite IH, to_N_byte_of_N by (apply N.mod_lt; lia).
    rewrite Nat2N.inj_succ, N.pow_succ_r', N.Div0.mod_mul_r. done.
Qed.

Lemma from_to_le_u64 v : is_u64 v -> from_le_bytes (to_le_bytes 8 v) = v.
Proof.
  intros Hv. rewrite from_to_le_bytes. apply N.mod_small.
  unfold is_u64, u64_max in Hv. change (256 ^ N.of_nat 8)%N with 18446744073709551616%N. lia.
Qed.

Lemma from_to_le_u32 v : (v <= u32_max)%N -> from_le_bytes (to_le_bytes 4 v) = v.
Proof.
  intros Hv. rewrite from_to_le_bytes. apply N.mod_small.
  unfold u32_max in Hv. change (256 ^ N.of_nat 4)%N with 4294967296%N. lia.
Qed.

Lemma to_N_lt_256 b : (Byte.to_N b < 256)%N.
Proof. pose proof (Byte.to_N_bounded b). lia. Qed.

Lemma from_le_bytes_bound bs : (from_le_bytes bs < 256 ^ N.of_nat (length bs))%N.
Proof.
  induction bs as [|b bs IH]; [done|].
  cbn [from_le_bytes length]. rewrite Nat2N.inj_succ, N.pow_succ_r'.
  pose proof (to_N_lt_256 b). lia.
Qed.

#[global] Arguments to_le_bytes : simpl never.
#[global] Arguments from_le_bytes : simpl never.

(** ** Stateful, fallible operations

    [M S A]: a computation that threads a state [S] and may fail; the state
    reached before a failure is kept, as the code keeps it. *)

Definition M (S A : Type) : Type := S -> S * result A.

Definition ret {S A} (a : A) : M S A := fun s => (s, Ok a).
Definition fail {S A} (e : error) : M S A := fun s => (s, Err e).
Definition lift {S A} (r : result A) : M S A := fun s => (s, r).
Definition bind {S A B} (m : M S A) (k : A -> M S B) : M S B :=
  fun s => match m s with
           | (s', Ok a) => k a s'
           | (s', Err e) => (s', Err e)
           end.

Notation "'let!' x ':=' m 'in' k" := (bind m (fun x => k))
  (at level 10, x pattern, m at level 200, k at level 200) : neve_scope.

Lemma bind_ok {S A B} (m : M S A) (k : A -> M S B) s s' b :
  bind m k s = (s', Ok b) -> exists s1 a, m s = (s1, Ok a) /\ k a s1 = (s', Ok b).
Proof. unfold bind. destruct (m s) as [s1 [a|e]]; [eauto | done]. Qed.

(** ** Inclusive height ranges, [from..=to] *)

Definition heights (from to : N) : list N :=
  (fun i => (from + N.of_nat i)%N) <$> seq 0 (N.to_nat (to + 1 - from)).

Lemma elem_of_heights h from to : h ∈ heights from to <-> (from <= h <= to)%N.
Proof.
  unfold heights. rewrite list_elem_of_fmap. split.
  - intros (i & -> & Hi). apply elem_of_seq in Hi. lia.
  - intros Hh. exists (N.to_nat (h - from)). rewrite elem_of_seq. lia.
Qed.

Lemma heights_nil from to : (to < from)%N -> heights from to = [].
Proof. intros. unfold heights. by replace (N.to_nat (to + 1 - from)) with O by lia. Qed.

Lemma heights_cons from to :
  (from <= to)%N -> heights from to = from :: heights (from + 1) to.
Proof.
  intros Hle. unfold heights.
  replace (N.to_nat (to + 1 - from)) with (S (N.to_nat (to + 1 - (from + 1)))) by lia.
  cbn [seq fmap list_fmap]. f_equal; [lia|].
  rewrite <-fmap_S_seq, <-list_fmap_compose. apply list_fmap_ext. intros i x _; cbn. lia.
Qed.

Lemma heights_app from mid to :
  (from <= mid + 1)%N -> (mid <= to)%N ->
  heights from to = heights from mid ++ heights (mid + 1) to.
Proof.
  intros H1 H2. unfold heights.
  replace (N.to_nat (to + 1 - from))
    with (N.to_nat (mid + 1 - from) + N.to_nat (to + 1 - (mid + 1)))%nat by lia.
  rewrite seq_app, fmap_app. f_equal. cbn [Nat.add].
  rewrite <-(Nat.add_0_r (N.to_nat (mid + 1 - from))) at 1.
  rewrite <-fmap_add_seq, <-list_fmap_compose.
  apply list_fmap_ext. intros i x _; cbn. lia.
Qed.

Lemma length_heights from to : length (heights from to) = N.to_nat (to + 1 - from).
Proof. unfold heights. by rewrite length_fmap, length_seq. Qed.

(** ** UTF-8

    [std::str::from_utf8]: the validity check, then the same bytes as text. *)

Definition in_range (lo hi : N) (b : byte) : bool :=
  ((lo <=? Byte.to_N b) && (Byte.to_N b <=? hi))%N.
Definition cont (b : byte) : bool := in_range 128 191 b.

Fixpoint utf8_valid (bs : bytes) : bool :=
  match bs with
  | [] => true
  | a :: r0 =>
      if in_range 0 127 a then utf8_valid r0
      else match r0 with
      | [] => false
      | b :: r1 =>
          if in_range 194 223 a && cont b then utf8_valid r1
          else match r1 with
          | [] => false
          | c :: r2 =>
              if ((in_range 224 224 a && in_range 160 191 b)
                  || (in_range 225 236 a && cont b) || (in_range 238 239 a && cont b)
                  || (in_range 237 237 a && in_range 128 159 b)) && cont c
              then utf8_valid r2
              else match r2 with
              | [] => false
              | d :: r3 =>
                  ((in_range 240 240 a && in_range 144 191 b)
                   || (in_range 241 243 a && cont b)
                   || (in_range 244 244 a && in_range 128 143 b))
                  && cont c && cont d && utf8_valid r3
              end
          end
      end
  end.

Definition from_utf8 (bs : bytes) : result string :=
  if utf8_valid bs then Ok (string_of_list_byte bs) else Err ENotUtf8.
