(* ===== verification/Str.v ===== *)
(** * Rust string routines the code uses

    A [&str] is a [string].  This file writes out the standard-library
    functions the sources call on it: [strip_prefix], [trim_start_matches],
    [split_once], [split], [u64::from_str_radix], [str::parse::<u64>],
    [eq_ignore_ascii_case] and the [{}] / [{:x}] renderings of a [u64]. *)

From Stdlib Require Import ZArith NArith Lia String Ascii.
From S2P Require Import Prelude.

#[local] Open Scope string_scope.

(** ** Prefixes and splitting *)

(** [s.strip_prefix(p)]. *)
Fixpoint strip_prefix (p s : string) : option string :=
  match p, s with
  | EmptyString, _ => Some s
  | String a p, String b s => if Ascii.eqb a b then strip_prefix p s else None
  | String _ _, EmptyString => None
  end.

(** [s.trim_start_matches("0x")]: strips the prefix repeatedly. *)
Fixpoint trim_start_0x (s : string) : string :=
  match s with
  | String a (String b s') =>
      if (Ascii.eqb a "0" && Ascii.eqb b "x")%bool then trim_start_0x s' else s
  | _ => s
  end.

(** [s.split_once(c)] for a one-byte separator. *)
Fixpoint split_once (c : ascii) (s : string) : option (string * string) :=
  match s with
  | EmptyString => None
  | String a s =>
      if Ascii.eqb a c then Some (EmptyString, s)
      else match split_once c s with
           | Some (l, r) => Some (String a l, r)
           | None => None
           end
  end.

(** [s.split(c)]: always at least one piece. *)
Fixpoint split (c : ascii) (s : string) : list string :=
  match s with
  | EmptyString => [EmptyString]
  | String a s =>
      if Ascii.eqb a c then EmptyString :: split c s
      else match split c s with
           | p :: ps => String a p :: ps
           | [] => [String a EmptyString]
           end
  end.

Definition contains_char (c : ascii) (s : string) : bool :=
  match split_once c s with Some _ => true | None => false end.

Lemma split_once_app c l r :
  contains_char c l = false -> split_once c (l ++ String c r) = Some (l, r).
Proof.
  unfold contains_char. induction l as [|a l IH]; cbn.
  - by rewrite Ascii.eqb_refl.
  - destruct (Ascii.eqb a c); [done|].
    destruct (split_once c l) as [[]|] eqn:E; [done|]. intros _. by rewrite IH.
Qed.

Lemma split_once_Some c s l r :
  split_once c s = Some (l, r) -> s = l ++ String c r /\ contains_char c l = false.
Proof.
  revert l r; induction s as [|a s IH]; intros l r; cbn; [done|].
  destruct (Ascii.eqb_spec a c) as [->|Hne].
  - intros [= <- <-]. done.
  - destruct (split_once c s) as [[l' r']|] eqn:E; [|done].
    intros [= <- <-]. destruct (IH l' r' eq_refl) as [-> Hc].
    split; [done|]. unfold contains_char in *; cbn.
    destruct (Ascii.eqb_spec a c); [done|].
    by destruct (split_once c l') as [[]|].
Qed.

Lemma strip_prefix_app p s : strip_prefix p (p ++ s) = Some s.
Proof. induction p as [|a p IH]; cbn; [done|]. by rewrite Ascii.eqb_refl. Qed.

(** ** ASCII case folding *)

Definition to_ascii_lowercase (c : ascii) : ascii :=
  let n := N_of_ascii c in
  if ((65 <=? n) && (n <=? 90))%N then ascii_of_N (n + 32) else c.

(** [a.eq_ignore_ascii_case(b)]. *)
Fixpoint eq_ignore_ascii_case (a b : string) : bool :=
  match a, b with
  | EmptyString, EmptyString => true
  | String x a, String y b =>
      Ascii.eqb (to_ascii_lowercase x) (to_ascii_lowercase y) && eq_ignore_ascii_case a b
  | _, _ => false
  end.

Lemma eq_ignore_ascii_case_refl a : eq_ignore_ascii_case a a = true.
Proof. induction a as [|c a IH]; cbn; [done|]. by rewrite Ascii.eqb_refl. Qed.

Lemma eq_ignore_ascii_case_sym a b : eq_ignore_ascii_case a b = eq_ignore_ascii_case b a.
Proof.
  revert b; induction a as [|x a IH]; intros [|y b]; cbn; try done.
  by rewrite Ascii.eqb_sym, IH.
Qed.

Lemma eq_ignore_ascii_case_trans a b c :
  eq_ignore_ascii_case a b = true -> eq_ignore_ascii_case b c = true ->
  eq_ignore_ascii_case a c = true.
Proof.
  revert b c; induction a as [|x a IH]; intros [|y b] [|z c]; cbn; try done.
  rewrite !andb_true_iff, !Ascii.eqb_eq. intros [-> ?] [-> ?]. eauto.
Qed.

(** ** Numbers *)

(** [char::to_digit(radix)] on an ASCII character. *)
Definition alnum_value (c : ascii) : option N :=
  let n := N_of_ascii c in
  if ((48 <=? n) && (n <=? 57))%N then Some (n - 48)%N
  else if ((97 <=? n) && (n <=? 122))%N then Some (n - 87)%N
  else if ((65 <=? n) && (n <=? 90))%N then Some (n - 55)%N
  else None.

Definition digit_value (radix : N) (c : ascii) : option N :=
  match alnum_value c with
  | Some v => if (v <? radix)%N then Some v else None
  | None => None
  end.

(** The digit loop: checked multiply-and-add, [None] on an invalid digit or on
    overflow past [max]. *)
Fixpoint digits_value (max radix acc : N) (s : string) : option N :=
  match s with
  | EmptyString => Some acc
  | String c s =>
      match digit_value radix c with
      | Some d =>
          let acc' := (acc * radix + d)%N in
          if (acc' <=? max)%N then digits_value max radix acc' s else None
      | None => None
      end
  end.

(** [<uN>::from_str_radix(s, radix)]: a leading [+] is accepted, a bare sign and
    the empty string are not. *)
Definition from_str_radix (max radix : N) (s : string) : option N :=
  match s with
  | EmptyString => None
  | String "+" EmptyString => None
  | String "+" s' => digits_value max radix 0 s'
  | _ => digits_value max radix 0 s
  end.

Definition u64_from_hex (s : string) : option N := from_str_radix u64_max 16 s.
(** [s.parse::<u64>()]. *)
Definition parse_u64 (s : string) : option N := from_str_radix u64_max 10 s.
Definition parse_u32 (s : string) : option N := from_str_radix u32_max 10 s.

Definition digit_char (d : N) : ascii :=
  if (d <? 10)%N then ascii_of_N (48 + d) else ascii_of_N (87 + d).

Fixpoint render (fuel : nat) (radix n : N) (acc : string) : string :=
  match fuel with
  | O => acc
  | S fuel =>
      let acc' := String (digit_char (n mod radix)) acc in
      if (n / radix =? 0)%N then acc' else render fuel radix (n / radix) acc'
  end.

(** [n.to_string()] and [format!("{n:x}")]. 64 steps suffice: each divides by at
    least two. *)
Definition to_decimal (n : N) : string := render 64 10 n EmptyString.
Definition to_hex (n : N) : string := render 64 16 n EmptyString.
Definition hex_quantity (n : N) : string := "0x" ++ to_hex n.

Lemma alnum_value_char d : (d < 16)%N -> alnum_value (digit_char d) = Some d.
Proof.
  intros Hd. assert (Hin : In d (map N.of_nat (seq 0 16))).
  { apply in_map_iff. exists (N.to_nat d). split; [lia|]. apply in_seq. lia. }
  cbn in Hin. repeat destruct Hin as [<-|Hin]; done.
Qed.

Lemma digit_value_char radix d :
  (radix <= 16)%N -> (d < radix)%N -> digit_value radix (digit_char d) = Some d.
Proof.
  intros Hr Hd. unfold digit_value. rewrite alnum_value_char by lia.
  by rewrite (proj2 (N.ltb_lt _ _) Hd).
Qed.

Lemma render_nonempty fuel radix n acc :
  acc <> EmptyString -> render fuel radix n acc <> EmptyString.
Proof.
  revert n acc; induction fuel as [|fuel IH]; intros n acc Hacc; cbn; [done|].
  destruct (_ =? 0)%N; [done|]. apply IH. done.
Qed.

Lemma digits_value_render max radix fuel n acc :
  (2 <= radix <= 16)%N -> (n <= max)%N -> (n < 2 ^ N.of_nat fuel)%N ->
  digits_value max radix 0 (render fuel radix n acc) = digits_value max radix n acc.
Proof.
  intros Hr. revert n acc; induction fuel as [|fuel IH]; intros n acc Hn Hf.
  - cbn in *. assert (n = 0)%N as -> by lia. done.
  - cbn [render]. pose proof (N.div_mod n radix ltac:(lia)) as Hdm.
    pose proof (N.mod_lt n radix ltac:(lia)) as Hlt.
    assert (Hstep : digits_value max radix (n / radix) (String (digit_char (n mod radix)) acc)
                    = digits_value max radix n acc).
    { cbn [digits_value]. rewrite digit_value_char by lia.
      replace (n / radix * radix + n mod radix)%N with n by lia.
      by rewrite (proj2 (N.leb_le _ _) Hn). }
    destruct (N.eqb_spec (n / radix) 0) as [Hz|Hz].
    + rewrite Hz in Hstep. done.
    + rewrite IH; [done| |].
      * apply N.le_trans with n; [|done]. apply N.Div0.div_le_upper_bound. nia.
      * apply N.Div0.div_lt_upper_bound.
        rewrite Nat2N.inj_succ, N.pow_succ_r' in Hf. nia.
Qed.

Lemma render_not_plus fuel radix n acc :
  (2 <= radix <= 16)%N -> (fuel <> 0)%nat ->
  match render fuel radix n acc with
  | String c _ => Ascii.eqb c "+" = false
  | EmptyString => False
  end.
Proof.
  intros Hr. revert n acc.
  assert (Hd : forall d, (d < radix)%N -> Ascii.eqb (digit_char d) "+" = false).
  { intros d Hd. pose proof (digit_value_char radix d ltac:(lia) Hd) as Hv.
    destruct (Ascii.eqb_spec (digit_char d) "+") as [E|]; [|done].
    rewrite E in Hv. done. }
  induction fuel as [|fuel IH]; intros n acc Hf; [done|]. cbn [render].
  pose proof (N.mod_lt n radix ltac:(lia)).
  destruct (_ =? 0)%N; [by apply Hd|].
  destruct fuel as [|fuel]; [cbn; by apply Hd|]. apply IH. done.
Qed.

(** Rendering then parsing gives the number back, in either radix. *)
Lemma from_str_radix_render radix n :
  (2 <= radix <= 16)%N -> (n <= u64_max)%N ->
  from_str_radix u64_max radix (render 64 radix n EmptyString) = Some n.
Proof.
  intros Hr Hn.
  pose proof (render_not_plus 64 radix n EmptyString Hr ltac:(lia)) as Hp.
  pose proof (digits_value_render u64_max radix 64 n EmptyString Hr Hn) as Hd.
  destruct (render 64 radix n EmptyString) as [|c s] eqn:E; [done|].
  unfold from_str_radix. cbn [digits_value] in Hd.
  assert (Hgoal : digits_value u64_max radix 0 (String c s) = Some n).
  { apply Hd. unfold u64_max in Hn. change (2 ^ N.of_nat 64)%N with 18446744073709551616%N. lia. }
  destruct c as [[] [] [] [] [] [] [] []]; try exact Hgoal. cbn in Hp. done.
Qed.

Lemma u64_from_to_hex n : is_u64 n -> u64_from_hex (to_hex n) = Some n.
Proof. intros. apply from_str_radix_render; [lia|done]. Qed.

Lemma parse_to_decimal n : is_u64 n -> parse_u64 (to_decimal n) = Some n.
Proof. intros. apply from_str_radix_render; [lia|done]. Qed.

Lemma digits_value_bound max radix acc s n :
  (acc <= max)%N -> digits_value max radix acc s = Some n -> (n <= max)%N.
Proof.
  revert acc; induction s as [|c s IH]; intros acc Ha; cbn.
  - by intros [= <-].
  - destruct (digit_value radix c); [|done].
    destruct (N.leb_spec (acc * radix + n0) max); [|done]. by apply IH.
Qed.

Lemma from_str_radix_bound max radix s n :
  from_str_radix max radix s = Some n -> (n <= max)%N.
Proof.
  intros H. assert (exists s', digits_value max radix 0 s' = Some n) as [s' Hs'].
  { destruct s as [|c [|c' s]]; [done| |];
      destruct c as [[] [] [] [] [] [] [] []]; try done; eauto. }
  eapply digits_value_bound; [|done]. lia.
Qed.

(** ** Strings as bytes *)

Definition str_bytes (s : string) : bytes := list_byte_of_string s.
Definition bytes_str (b : bytes) : string := string_of_list_byte b.

Lemma bytes_str_of_bytes s : bytes_str (str_bytes s) = s.
Proof. apply string_of_list_byte_of_string. Qed.

Lemma str_bytes_of_str b : str_bytes (bytes_str b) = b.
Proof. apply list_byte_of_string_of_list_byte. Qed.

(** ** Trimming and searching *)

(** [trim_end_matches('/')] *)
Fixpoint trim_end_slash (s : string) : string :=
  match s with
  | EmptyString => EmptyString
  | String c s =>
      match trim_end_slash s with
      | EmptyString => if Ascii.eqb c "/" then EmptyString else String c EmptyString
      | t => String c t
      end
  end.

(** [trim_start_matches('/')] *)
Fixpoint trim_start_slash (s : string) : string :=
  match s with
  | String c s' => if Ascii.eqb c "/" then trim_start_slash s' else s
  | EmptyString => EmptyString
  end.

(** [s.starts_with(p)] and [s.contains(p)]. *)
Definition starts_with (p s : string) : bool :=
  match strip_prefix p s with Some _ => true | None => false end.

Fixpoint contains (p s : string) : bool :=
  starts_with p s || match s with String _ s => contains p s | EmptyString => false end.

(** [s.replace(p, r)] for a non-empty [p]: left to right, without overlap.  Each
    turn consumes at least one byte. *)
Fixpoint replace_loop (fuel : nat) (p r s : string) : string :=
  match fuel with
  | O => s
  | S fuel =>
      match strip_prefix p s with
      | Some rest => r ++ replace_loop fuel p r rest
      | None => match s with
                | String c s => String c (replace_loop fuel p r s)
                | EmptyString => EmptyString
                end
      end
  end.

Definition replace (p r s : string) : string := replace_loop (S (String.length s)) p r s.

(** The part before the first byte among [stops]. *)
Fixpoint until (stops : list ascii) (s : string) : string :=
  match s with
  | EmptyString => EmptyString
  | String c s' => if decide (c ∈ stops) then EmptyString else String c (until stops s')
  end.

(** One leading Unicode [White_Space] character, in UTF-8. *)
Definition strip_ws (s : string) : option string :=
  match str_bytes s with
  | Byte.x09 :: r | Byte.x0a :: r | Byte.x0b :: r | Byte.x0c :: r | Byte.x0d :: r | Byte.x20 :: r
  | Byte.xc2 :: Byte.x85 :: r | Byte.xc2 :: Byte.xa0 :: r
  | Byte.xe1 :: Byte.x9a :: Byte.x80 :: r
  | Byte.xe2 :: Byte.x80 :: Byte.xa8 :: r | Byte.xe2 :: Byte.x80 :: Byte.xa9 :: r
  | Byte.xe2 :: Byte.x80 :: Byte.xaf :: r | Byte.xe2 :: Byte.x81 :: Byte.x9f :: r
  | Byte.xe3 :: Byte.x80 :: Byte.x80 :: r => Some (bytes_str r)
  | Byte.xe2 :: Byte.x80 :: b :: r => if in_range 128 138 b then Some (bytes_str r) else None
  | _ => None
  end.

(** [trim_start], [trim_end] and [trim]. *)
Fixpoint trim_start_loop (fuel : nat) (s : string) : string :=
  match fuel with
  | O => s
  | S fuel => match strip_ws s with Some r => trim_start_loop fuel r | None => s end
  end.

Definition trim_start (s : string) : string := trim_start_loop (String.length s) s.

Fixpoint trim_end (s : string) : string :=
  if String.eqb (trim_start s) EmptyString then EmptyString
  else match s with
       | String c s => String c (trim_end s)
       | EmptyString => EmptyString
       end.

Definition trim (s : string) : string := trim_end (trim_start s).

(** [str::parse::<bool>] *)
Definition parse_bool (s : string) : option bool :=
  if String.eqb s "true" then Some true
  else if String.eqb s "false" then Some false else None.

(** ** Maps with string keys *)

(** [BTreeMap::insert] on a map listed in key order. *)
Fixpoint btree_insert {A} (k : string) (v : A) (m : list (string * A)) : list (string * A) :=
  match m with
  | [] => [(k, v)]
  | (k', v') :: m =>
      match String.compare k k' with
      | Lt => (k, v) :: (k', v') :: m
      | Eq => (k, v) :: m
      | Gt => (k', v') :: btree_insert k v m
      end
  end.

Fixpoint assoc {A} (k : string) (m : list (string * A)) : option A :=
  match m with
  | [] => None
  | (k', v) :: m => if String.eqb k k' then Some v else assoc k m
  end.

Lemma assoc_btree_insert_eq {A} k (v : A) m : assoc k (btree_insert k v m) = Some v.
Proof.
  induction m as [|[k' v'] m IH]; cbn; [by rewrite String.eqb_refl|].
  destruct (String.compare k k') eqn:E; cbn; rewrite ?String.eqb_refl; [done|done|].
  destruct (String.eqb_spec k k') as [->|_]; [|done].
  pose proof (String.compare_antisym k' k') as Ha. rewrite E in Ha. done.
Qed.

Lemma assoc_btree_insert_ne {A} k k' (v : A) m :
  k <> k' -> assoc k' (btree_insert k v m) = assoc k' m.
Proof.
  intros Hne. induction m as [|[k0 v0] m IH]; cbn.
  - by rewrite (proj2 (String.eqb_neq k' k)) by congruence.
  - destruct (String.compare k k0) eqn:E; cbn.
    + apply String.compare_eq_iff in E as <-. by rewrite (proj2 (String.eqb_neq k' k)) by congruence.
    + by rewrite (proj2 (String.eqb_neq k' k)) by congruence.
    + by destruct (String.eqb k' k0).
Qed.
