(* ===== verification/Json.v ===== *)
(** * JSON values and the [serde_json] interface

    [Value] has the constructors of [serde_json::Value], which the sources
    match on; its accessors ([get], [as_str], [as_array], [as_u64], [pointer])
    are written out.  Parsing and printing belong to the [serde_json] crate:
    they are the operations of the class [JsonLib], and what the code relies
    on about them is the class [JsonLaws].  [ToyJson] is one concrete
    implementation that satisfies the laws, used by the witnesses. *)

From Stdlib Require Import ZArith NArith Lia String Ascii.
From S2P Require Import Prelude Str.

(** ** Values *)

(** [serde_json::Number]: a [u64], a negative [i64], or a float (its bits). *)
Inductive Number : Type :=
  | PosInt (n : N)
  | NegInt (z : Z)
  | Float (bits : N).

#[local] Set Warnings "-register-all".

(** An [Object] is a [BTreeMap<String, Value>] listed in key order. *)
Inductive Value : Type :=
  | Null
  | VBool (b : bool)
  | VNumber (n : Number)
  | VString (s : string)
  | VArray (items : list Value)
  | VObject (fields : list (string * Value)).

(** Induction with hypotheses for the nested lists. *)
Fixpoint Value_ind' (P : Value -> Prop)
    (HNull : P Null) (HBool : forall b, P (VBool b)) (HNum : forall n, P (VNumber n))
    (HStr : forall s, P (VString s))
    (HArr : forall items, Forall P items -> P (VArray items))
    (HObj : forall fields, Forall (fun kv => P kv.2) fields -> P (VObject fields))
    (v : Value) : P v :=
  match v with
  | Null => HNull
  | VBool b => HBool b
  | VNumber n => HNum n
  | VString s => HStr s
  | VArray items =>
      HArr items
        ((fix go l : Forall P l :=
            match l with
            | [] => Forall_nil_2 _
            | x :: l => Forall_cons_2 _ _ _ (Value_ind' P HNull HBool HNum HStr HArr HObj x) (go l)
            end) items)
  | VObject fields =>
      HObj fields
        ((fix go l : Forall (fun kv => P kv.2) l :=
            match l with
            | [] => Forall_nil_2 _
            | kv :: l =>
                Forall_cons_2 _ _ _ (Value_ind' P HNull HBool HNum HStr HArr HObj kv.2) (go l)
            end) fields)
  end.

(** ** Accessors *)

Fixpoint fields_get (k : string) (fields : list (string * Value)) : option Value :=
  match fields with
  | [] => None
  | (k', v) :: fields => if String.eqb k k' then Some v else fields_get k fields
  end.

(** [v.get(k)] for a string key. *)
Definition get (k : string) (v : Value) : option Value :=
  match v with VObject fields => fields_get k fields | _ => None end.

Definition as_str (v : Value) : option string :=
  match v with VString s => Some s | _ => None end.

Definition as_array (v : Value) : option (list Value) :=
  match v with VArray items => Some items | _ => None end.

Definition as_u64 (v : Value) : option N :=
  match v with VNumber (PosInt n) => Some n | _ => None end.

Definition is_null (v : Value) : bool :=
  match v with Null => true | _ => false end.

Definition get_str (k : string) (v : Value) : option string := get k v ≫= as_str.
Definition get_array (k : string) (v : Value) : option (list Value) := get k v ≫= as_array.
Definition get_u64 (k : string) (v : Value) : option N := get k v ≫= as_u64.

(** [v.pointer("/a/b/…")] along keys that are not array indices. *)
Fixpoint pointer (path : list string) (v : Value) : option Value :=
  match path with
  | [] => Some v
  | k :: path => get k v ≫= pointer path
  end.

(** In-place update of a field through [get_mut]; absent keys stay absent. *)
Fixpoint fields_update (k : string) (f : Value -> Value) (fields : list (string * Value))
    : list (string * Value) :=
  match fields with
  | [] => []
  | (k', v) :: fields =>
      if String.eqb k k' then (k', f v) :: fields else (k', v) :: fields_update k f fields
  end.

Definition update (k : string) (f : Value -> Value) (v : Value) : Value :=
  match v with VObject fields => VObject (fields_update k f fields) | _ => v end.

(** [map.remove(k)]. *)
Fixpoint fields_remove (k : string) (fields : list (string * Value)) : list (string * Value) :=
  match fields with
  | [] => []
  | (k', v) :: fields =>
      if String.eqb k k' then fields_remove k fields else (k', v) :: fields_remove k fields
  end.

Definition remove (k : string) (v : Value) : Value :=
  match v with VObject fields => VObject (fields_remove k fields) | _ => v end.

Lemma fields_get_update_eq k f fields :
  fields_get k (fields_update k f fields) = f <$> fields_get k fields.
Proof.
  induction fields as [|[k' v] fields IH]; cbn; [done|].
  destruct (String.eqb k k') eqn:E; cbn; rewrite E; [done|]. exact IH.
Qed.

Lemma fields_get_update_ne k k' f fields :
  k <> k' -> fields_get k' (fields_update k f fields) = fields_get k' fields.
Proof.
  intros Hne. induction fields as [|[k'' v] fields IH]; cbn; [done|].
  destruct (String.eqb_spec k k'') as [<-|]; cbn.
  - destruct (String.eqb_spec k' k) as [->|]; done.
  - by rewrite IH.
Qed.

Lemma get_update_eq k f v : get k (update k f v) = f <$> get k v.
Proof. destruct v; cbn; try done. apply fields_get_update_eq. Qed.

Lemma get_update_ne k k' f v : k <> k' -> get k' (update k f v) = get k' v.
Proof. intros. destruct v; cbn; try done. by apply fields_get_update_ne. Qed.

Lemma fields_get_remove_eq k fields : fields_get k (fields_remove k fields) = None.
Proof.
  induction fields as [|[k' v] fields IH]; cbn; [done|].
  destruct (String.eqb k k') eqn:E; cbn; [done|]. by rewrite E.
Qed.

Lemma fields_get_remove_ne k k' fields :
  k <> k' -> fields_get k' (fields_remove k fields) = fields_get k' fields.
Proof.
  intros Hne. induction fields as [|[k'' v] fields IH]; cbn; [done|].
  destruct (String.eqb_spec k k'') as [<-|]; cbn.
  - rewrite IH. destruct (String.eqb_spec k' k) as [->|]; done.
  - by rewrite IH.
Qed.

Lemma get_remove_eq k v : get k (remove k v) = None.
Proof. destruct v; cbn; try done. apply fields_get_remove_eq. Qed.

Lemma get_remove_ne k k' v : k <> k' -> get k' (remove k v) = get k' v.
Proof. intros. destruct v; cbn; try done. by apply fields_get_remove_ne. Qed.

(** ** Values that print and parse back exactly

    Object keys strictly ascending (a [BTreeMap] always is), no float -
    [serde_json]'s default float parsing is only approximately inverse to its
    printing - and nested at most [budget] deep: the parser gives up at its
    recursion limit of 128. *)
Fixpoint keys_ascend (fields : list (string * Value)) : bool :=
  match fields with
  | (k, _) :: (((k', _) :: _) as rest) =>
      (match String.compare k k' with Lt => true | _ => false end) && keys_ascend rest
  | _ => true
  end.

Fixpoint json_wf_at (budget : nat) (v : Value) : bool :=
  match v with
  | Null | VBool _ | VString _ => true
  | VNumber (Float _) => false
  | VNumber _ => true
  | VArray items => match budget with O => false | S b => forallb (json_wf_at b) items end
  | VObject fields =>
      match budget with
      | O => false
      | S b => keys_ascend fields && forallb (fun kv => json_wf_at b kv.2) fields
      end
  end.

Definition json_wf (v : Value) : bool := json_wf_at 127 v.

#[global] Arguments json_wf : simpl never.

Lemma json_wf_at_mono v : forall b b', (b <= b')%nat -> json_wf_at b v = true -> json_wf_at b' v = true.
Proof.
  induction v as [| |n| |items IH|fields IH] using Value_ind'; intros [|d] [|d'] Hle; cbn; try done; try lia.
  - rewrite !forallb_forall. intros Hall x Hx. rewrite Forall_forall in IH.
    eapply (IH x (proj2 (list_elem_of_In _ _) Hx)); [|by apply Hall]. lia.
  - rewrite !andb_true_iff, !forallb_forall. intros [Hk Hall]. split; [done|]. intros x Hx.
    rewrite Forall_forall in IH. eapply (IH x (proj2 (list_elem_of_In _ _) Hx)); [|by apply Hall]. lia.
Qed.

Lemma json_wf_items b items :
  json_wf_at (S b) (VArray items) = true <-> Forall (fun v => json_wf_at b v = true) items.
Proof.
  cbn [json_wf_at]. rewrite forallb_forall, Forall_forall. split; intros Hall x Hx; apply Hall; by apply list_elem_of_In.
Qed.

Lemma json_wf_array items :
  json_wf (VArray items) = true <-> Forall (fun v => json_wf_at 126 v = true) items.
Proof. exact (json_wf_items 126 items). Qed.

Lemma json_wf_field b k fields v :
  forallb (fun kv => json_wf_at b kv.2) fields = true -> fields_get k fields = Some v -> json_wf_at b v = true.
Proof.
  induction fields as [|[k' v'] fields IH]; cbn; [done|]. intros [H1 H2]%andb_true_iff.
  destruct (String.eqb k k'); [by intros [= <-]|by apply IH].
Qed.

Lemma json_wf_get b k v w : json_wf_at (S b) v = true -> get k v = Some w -> json_wf_at b w = true.
Proof.
  destruct v as [| | | | |fields]; try done. cbn [json_wf_at]. intros [_ Hf]%andb_true_iff. by apply json_wf_field.
Qed.

Lemma json_wf_get_126 k v w : json_wf v = true -> get k v = Some w -> json_wf_at 126 w = true.
Proof. exact (json_wf_get 126 k v w). Qed.

Lemma json_wf_weaken b v : (b <= 127)%nat -> json_wf_at b v = true -> json_wf v = true.
Proof. apply json_wf_at_mono. Qed.

(** ** The serde_json interface *)

(** A borrowed [&RawValue] is a sub-slice of the input: offset and length. *)
Definition span : Type := nat * nat.

Definition slice (s : span) (b : bytes) : bytes := take s.2 (drop s.1 b).

Definition comma : byte := Byte.x2c.
Definition lbracket : byte := Byte.x5b.
Definition rbracket : byte := Byte.x5d.
Definition lbrace : byte := Byte.x7b.

Fixpoint commas (es : list bytes) : bytes :=
  match es with
  | [] => []
  | [e] => e
  | e :: es => e ++ comma :: commas es
  end.

(** The JSON text of an array whose element texts are [es]. *)
Definition array_text (es : list bytes) : bytes := lbracket :: commas es ++ [rbracket].

(** Where each element of [array_text es] sits. *)
Fixpoint element_spans (start : nat) (es : list bytes) : list span :=
  match es with
  | [] => []
  | e :: es => (start, length e) :: element_spans (start + length e + 1) es
  end.

Class JsonLib : Type := {
  (** exactly one serialized JSON value, with no surrounding whitespace *)
  json_text : bytes -> Prop;
  (** [serde_json::from_slice::<Value>] *)
  from_slice : bytes -> option Value;
  (** [serde_json::to_vec] *)
  to_vec : Value -> option bytes;
  (** [serde_json::from_slice::<&RawValue>] *)
  raw_value : bytes -> option span;
  (** [serde_json::from_slice::<Vec<&RawValue>>] *)
  raw_array : bytes -> option (list span)
}.

Class JsonLaws (J : JsonLib) : Prop := {
  to_vec_total : forall v, is_Some (to_vec v);
  to_vec_text : forall v b, to_vec v = Some b -> json_text b;
  to_vec_empty_array : to_vec (VArray []) = Some [lbracket; rbracket];
  from_to_vec : forall v b, json_wf v = true -> to_vec v = Some b -> from_slice b = Some v;
  text_utf8 : forall b, json_text b -> utf8_valid b = true;
  empty_array_text : json_text [lbracket; rbracket];
  array_text_text : forall es, Forall json_text es -> json_text (array_text es);
  raw_value_text : forall b, json_text b -> raw_value b = Some (0, length b);
  raw_array_text : forall es,
    es <> [] -> Forall json_text es -> raw_array (array_text es) = Some (element_spans 1 es);
  from_slice_array : forall es vs,
    Forall json_text es -> Forall2 (fun e v => from_slice e = Some v) es vs ->
    json_wf (VArray vs) = true -> from_slice (array_text es) = Some (VArray vs)
}.

(** ** Slicing an array text gives its elements back *)

Lemma slice_app_mid (pre e post : bytes) :
  slice (length pre, length e) (pre ++ e ++ post) = e.
Proof. unfold slice; cbn. by rewrite drop_app_length, take_app_length. Qed.

Lemma element_spans_slice (es : list bytes) : forall (pre post : bytes) i e,
  es !! i = Some e ->
  exists s, element_spans (length pre) es !! i = Some s /\
    slice s (pre ++ commas es ++ post) = e.
Proof.
  induction es as [|e0 es IH]; intros pre post i e Hi; [done|].
  destruct i as [|i]; cbn in Hi.
  - injection Hi as <-. exists (length pre, length e0). split; [done|].
    destruct es as [|e1 es]; cbn [commas]; [apply slice_app_mid|].
    rewrite <-(app_assoc e0). apply slice_app_mid.
  - destruct es as [|e1 es]; [done|].
    destruct (IH (pre ++ e0 ++ [comma]) post i e Hi) as (s & Hs & Hsl).
    exists s. split.
    + cbn [element_spans] in *. rewrite !length_app in Hs. cbn [length] in Hs.
      replace (length pre + length e0 + 1) with (length pre + (length e0 + 1)) by lia. done.
    + rewrite <-Hsl. f_equal. change (commas (e0 :: e1 :: es)) with (e0 ++ comma :: commas (e1 :: es)).
      by rewrite <-!app_assoc.
Qed.

Lemma array_text_slice es i e :
  es !! i = Some e ->
  exists s, element_spans 1 es !! i = Some s /\ slice s (array_text es) = e.
Proof. intros Hi. exact (element_spans_slice es [lbracket] [rbracket] i e Hi). Qed.

Lemma length_element_spans start es : length (element_spans start es) = length es.
Proof. revert start; induction es; intros; cbn; auto. Qed.

Lemma element_spans_lookup_None start es i :
  es !! i = None -> element_spans start es !! i = None.
Proof. rewrite !lookup_ge_None, length_element_spans. done. Qed.
