(* ===== verification/ToyJson.v ===== *)
(** * A concrete [JsonLib]

    An implementation of the [serde_json] interface that satisfies [JsonLaws].
    It prints a value as a JSON string literal of binary digits and parses that
    back, and it splits arrays with a scanner that tracks nesting and string
    literals.  It only serves to instantiate the interface in witnesses. *)

From Stdlib Require Import ZArith NArith Lia String Ascii.
From S2P Require Import Prelude Str Json.

(** ** Values are countable *)

#[global] Instance Number_eq_dec : EqDecision Number.
Proof. solve_decision. Defined.

Definition leaf : Type := bool + (N + Z + N) + string.

Definition number_leaf (n : Number) : N + Z + N :=
  match n with PosInt n => inl (inl n) | NegInt z => inl (inr z) | Float b => inr b end.

Definition leaf_number (x : N + Z + N) : Number :=
  match x with inl (inl n) => PosInt n | inl (inr z) => NegInt z | inr b => Float b end.

Fixpoint value_tree (v : Value) : gen_tree leaf :=
  match v with
  | Null => GenNode 0 []
  | VBool b => GenLeaf (inl (inl b))
  | VNumber n => GenLeaf (inl (inr (number_leaf n)))
  | VString s => GenLeaf (inr s)
  | VArray items => GenNode 1 (map value_tree items)
  | VObject fields => GenNode 2 (map (fun kv => GenNode 3 [GenLeaf (inr kv.1); value_tree kv.2]) fields)
  end.

Fixpoint tree_value (t : gen_tree leaf) : Value :=
  match t with
  | GenLeaf (inl (inl b)) => VBool b
  | GenLeaf (inl (inr n)) => VNumber (leaf_number n)
  | GenLeaf (inr s) => VString s
  | GenNode 1 ts => VArray (map tree_value ts)
  | GenNode 2 ts =>
      VObject (map (fun t => match t with
                             | GenNode 3 [GenLeaf (inr k); t'] => (k, tree_value t')
                             | _ => (EmptyString, Null)
                             end) ts)
  | _ => Null
  end.

Lemma tree_value_tree v : tree_value (value_tree v) = v.
Proof.
  induction v as [| | [] | |items IH|fields IH] using Value_ind'; cbn; try done.
  - f_equal. induction IH; cbn; by f_equal.
  - f_equal. induction IH as [|[k v] fields Hv _ IHl]; cbn; [done|]. cbn in Hv. by rewrite Hv, IHl.
Qed.

#[global] Instance Value_eq_dec : EqDecision Value.
Proof.
  intros v w. destruct (decide (value_tree v = value_tree w)) as [E|E].
  - left. by rewrite <-(tree_value_tree v), <-(tree_value_tree w), E.
  - right. congruence.
Defined.

#[global] Program Instance Value_countable : Countable Value :=
  inj_countable' value_tree tree_value _.
Next Obligation. intros v. apply tree_value_tree. Qed.

(** ** Printing and parsing *)

Definition quote : byte := Byte.x22.
Definition backslash : byte := Byte.x5c.

Fixpoint positive_digits (p : positive) : bytes :=
  match p with
  | xH => []
  | xO p => Byte.x30 :: positive_digits p
  | xI p => Byte.x31 :: positive_digits p
  end.

Fixpoint digits_positive (b : bytes) : positive :=
  match b with
  | [] => xH
  | c :: b => if decide (c = Byte.x30) then xO (digits_positive b) else xI (digits_positive b)
  end.

Lemma digits_positive_digits p : digits_positive (positive_digits p) = p.
Proof. induction p as [p IH|p IH|]; cbn; [| |done]; by rewrite IH. Qed.

Definition toy_to_vec (v : Value) : option bytes :=
  match v with
  | VArray [] => Some [lbracket; rbracket]
  | _ => Some (quote :: positive_digits (encode v) ++ [quote])
  end.

Lemma toy_to_vec_cases v :
  (v = VArray [] /\ toy_to_vec v = Some [lbracket; rbracket]) \/
  toy_to_vec v = Some (quote :: positive_digits (encode v) ++ [quote]).
Proof. destruct v as [| | | |[|]|]; auto. Qed.

(** ** Scanning *)

(** Nesting depth, whether inside a string literal, whether just after a
    backslash there. *)
Definition scan_state : Type := nat * bool * bool.
Definition scan_init : scan_state := (0, false, false).

(** One byte; [None] at a separator or closer that belongs to the enclosing
    array. *)
Definition scan_step (st : scan_state) (c : byte) : option scan_state :=
  match st with
  | (d, true, true) => Some (d, true, false)
  | (d, true, false) =>
      if decide (c = backslash) then Some (d, true, true)
      else if decide (c = quote) then Some (d, false, false)
      else Some (d, true, false)
  | (d, false, _) =>
      if decide (c = quote) then Some (d, true, false)
      else if decide (c = lbracket \/ c = lbrace) then Some (S d, false, false)
      else if decide (c = rbracket \/ c = Byte.x7d) then
        match d with S d => Some (d, false, false) | O => None end
      else if decide (c = comma) then
        match d with S _ => Some (d, false, false) | O => None end
      else Some (d, false, false)
  end.

Fixpoint scan (st : scan_state) (b : bytes) : option scan_state :=
  match b with
  | [] => Some st
  | c :: b => match scan_step st c with Some st => scan st b | None => None end
  end.

Definition ascii_only (b : bytes) : bool := forallb (in_range 0 127) b.

Definition toy_text (b : bytes) : Prop :=
  b <> [] /\ scan scan_init b = Some scan_init /\ ascii_only b = true.

Definition toy_raw_value (b : bytes) : option span :=
  if decide (b <> [] /\ scan scan_init b = Some scan_init /\ ascii_only b = true)
  then Some (0, length b) else None.

Lemma ascii_utf8 b : ascii_only b = true -> utf8_valid b = true.
Proof.
  induction b as [|c b IH]; cbn [ascii_only forallb utf8_valid]; [done|].
  intros [-> Hb]%andb_true_iff. by apply IH.
Qed.

Lemma ascii_app b1 b2 : ascii_only (b1 ++ b2) = ascii_only b1 && ascii_only b2.
Proof. apply forallb_app. Qed.

Fixpoint scan_elems (b : bytes) (start pos : nat) (st : scan_state) : option (list span) :=
  match b with
  | [] => None
  | c :: b =>
      match scan_step st c with
      | Some st => scan_elems b start (S pos) st
      | None =>
          if decide (st <> scan_init) then None
          else if decide (c = comma) then
            cons (start, pos - start) <$> scan_elems b (S pos) (S pos) scan_init
          else if decide (c = rbracket /\ b = []) then Some [(start, pos - start)]
          else None
      end
  end.

Definition toy_raw_array (b : bytes) : option (list span) :=
  match b with
  | c :: b =>
      if decide (c = lbracket) then
        if decide (b = [rbracket]) then Some [] else scan_elems b 1 1 scan_init
      else None
  | [] => None
  end.

Lemma scan_app st b1 b2 : scan st (b1 ++ b2) = scan st b1 ≫= fun st => scan st b2.
Proof.
  revert st; induction b1 as [|c b1 IH]; intros st; cbn; [done|].
  destruct (scan_step st c); cbn; auto.
Qed.

Lemma scan_elems_run b1 b2 start pos st st' :
  scan st b1 = Some st' ->
  scan_elems (b1 ++ b2) start pos st = scan_elems b2 start (pos + length b1) st'.
Proof.
  revert pos st; induction b1 as [|c b1 IH]; intros pos st; cbn.
  - intros [= ->]. f_equal. lia.
  - destruct (scan_step st c) as [st1|]; [|done]. intros H. rewrite (IH _ _ H). f_equal. lia.
Qed.

Lemma scan_elems_commas es start :
  es <> [] -> Forall toy_text es ->
  scan_elems (commas es ++ [rbracket]) start start scan_init = Some (element_spans start es).
Proof.
  intros Hne Hall. revert start Hne. induction Hall as [|e es (He & Hs & _) Hall IH]; intros start Hne; [done|].
  destruct es as [|e1 es].
  - cbn [commas element_spans]. rewrite (scan_elems_run _ _ _ _ _ _ Hs). cbn.
    repeat f_equal. lia.
  - change (commas (e :: e1 :: es)) with (e ++ comma :: commas (e1 :: es)).
    rewrite <-app_assoc, (scan_elems_run _ _ _ _ _ _ Hs).
    cbn -[commas element_spans]. rewrite IH by done.
    cbn [element_spans fmap option_fmap option_map].
    replace (start + length e + 1) with (S (start + length e)) by lia.
    repeat f_equal. lia.
Qed.

(** Scanning is insensitive to the enclosing depth. *)
Lemma scan_shift b d s e d' s' e' :
  scan (d, s, e) b = Some (d', s', e') -> scan (S d, s, e) b = Some (S d', s', e').
Proof.
  revert d s e. induction b as [|c b IH]; intros d s e; cbn [scan].
  - by intros [= -> -> ->].
  - destruct (scan_step (d, s, e) c) as [[[d1 s1] e1]|] eqn:E; [|done].
    assert (scan_step (S d, s, e) c = Some (S d1, s1, e1)) as ->; [|apply IH].
    destruct s, e; cbn in *; repeat case_decide; try (by simplify_eq); destruct d; by simplify_eq.
Qed.

Lemma scan_commas es :
  Forall toy_text es -> scan (1, false, false) (commas es) = Some (1, false, false).
Proof.
  induction 1 as [|e es (He & Hs & _) Hall IH]; [done|].
  apply scan_shift in Hs. destruct es as [|e1 es]; [done|].
  change (commas (e :: e1 :: es)) with (e ++ comma :: commas (e1 :: es)).
  rewrite scan_app, Hs. cbn -[commas]. exact IH.
Qed.

Lemma ascii_commas es : Forall toy_text es -> ascii_only (commas es) = true.
Proof.
  induction 1 as [|e es (He & _ & Ha) Hall IH]; [done|].
  destruct es as [|e1 es]; [done|].
  change (commas (e :: e1 :: es)) with (e ++ comma :: commas (e1 :: es)).
  rewrite ascii_app, Ha. exact IH.
Qed.

Lemma ascii_digits p : ascii_only (positive_digits p) = true.
Proof. induction p; cbn; done. Qed.

Lemma scan_digits p st : scan (0, true, false) (positive_digits p ++ st) = scan (0, true, false) st.
Proof. induction p; cbn; done. Qed.

(** An array is split and its elements parsed in turn; they are shorter. *)
Fixpoint toy_parse (fuel : nat) (b : bytes) : option Value :=
  match b with
  | [] => None
  | c :: b' =>
      if decide (c = quote) then decode (digits_positive (take (length b' - 1) b'))
      else match fuel with
           | O => None
           | S fuel =>
               spans ← toy_raw_array b;
               VArray <$> mapM (fun s => toy_parse fuel (slice s b)) spans
           end
  end.

Definition toy_from_slice (b : bytes) : option Value := toy_parse (length b) b.

Lemma toy_parse_mono n : forall m b v, (n <= m)%nat -> toy_parse n b = Some v -> toy_parse m b = Some v.
Proof.
  induction n as [|n IH]; intros m b v Hle; destruct b as [|c b]; try done; destruct m as [|m]; try lia; try done;
    cbn [toy_parse]; destruct (decide (c = quote)); try done.
  destruct (toy_raw_array (c :: b)) as [spans|]; [|done]. cbn [mbind option_bind].
  destruct (mapM (fun s => toy_parse n (slice s (c :: b))) spans) as [vs|] eqn:E; [|done].
  intros [= <-]. apply mapM_Some in E.
  assert (Em : mapM (fun s => toy_parse m (slice s (c :: b))) spans = Some vs); [|by rewrite Em].
  apply mapM_Some. eapply Forall2_impl; [exact E|]. intros s w Hw. eapply IH; [lia|done].
Qed.

Lemma toy_from_to_vec v b : toy_to_vec v = Some b -> toy_from_slice b = Some v.
Proof.
  destruct (toy_to_vec_cases v) as [[-> ->]| ->]; intros [= <-]; [done|].
  unfold toy_from_slice. set (n := length _). destruct n; cbn [toy_parse];
  (rewrite decide_True by done;
  rewrite length_app; cbn [length]; replace (_ + 1 - 1) with (length (positive_digits (encode v))) by lia;
  rewrite take_app_length, digits_positive_digits; apply decode_encode).
Qed.

Lemma toy_raw_array_text es :
  es <> [] -> Forall toy_text es -> toy_raw_array (array_text es) = Some (element_spans 1 es).
Proof.
  intros Hne Hes. unfold toy_raw_array, array_text.
  rewrite decide_True, decide_False; [by apply scan_elems_commas| |done].
  destruct Hes as [|e es (He & _) _]; [done|]. intros Hb. destruct e as [|c e]; [done|].
  destruct es; cbn in Hb; simplify_list_eq; by destruct e.
Qed.

Lemma length_commas es e : e ∈ es -> (length e <= length (commas es))%nat.
Proof.
  induction es as [|e0 es IH]; [by intros ?%not_elem_of_nil|]. intros [->|Hin]%elem_of_cons.
  - destruct es; cbn [commas]; rewrite ?length_app; lia.
  - destruct es as [|e1 es]; [by apply not_elem_of_nil in Hin|].
    change (commas (e0 :: e1 :: es)) with (e0 ++ comma :: commas (e1 :: es)). rewrite length_app. cbn [length].
    specialize (IH Hin). lia.
Qed.

Lemma toy_parse_array es vs :
  Forall toy_text es -> Forall2 (fun e v => toy_from_slice e = Some v) es vs ->
  toy_from_slice (array_text es) = Some (VArray vs).
Proof.
  intros Ht Hv. destruct (decide (es = [])) as [->|Hne]; [by inversion Hv|].
  unfold toy_from_slice. change (length (array_text es)) with (S (length (commas es ++ [rbracket]))).
  rewrite length_app. unfold array_text at 1. cbn [toy_parse]. fold (array_text es). rewrite decide_False by done.
  rewrite toy_raw_array_text by done. cbn [mbind option_bind].
  assert (Em : mapM (fun s => toy_parse (length (commas es) + length [rbracket]) (slice s (array_text es)))
                 (element_spans 1 es) = Some vs); [|by rewrite Em].
  apply mapM_Some, Forall2_same_length_lookup_2.
  { rewrite length_element_spans. by eapply Forall2_length. }
  intros i s v Hs Hvi. destruct (Forall2_lookup_r _ _ _ _ _ Hv Hvi) as (e & He & Hp).
  destruct (array_text_slice es i e He) as (s' & Hs' & Hsl). rewrite Hs in Hs'. injection Hs' as <-.
  rewrite Hsl. eapply toy_parse_mono; [|exact Hp].
  apply list_elem_of_lookup_2, length_commas in He. lia.
Qed.

Definition ToyJson : JsonLib := {|
  json_text := toy_text;
  from_slice := toy_from_slice;
  to_vec := toy_to_vec;
  raw_value := toy_raw_value;
  raw_array := toy_raw_array
|}.

Lemma ToyJson_laws : JsonLaws ToyJson.
Proof.
  split; cbn.
  - intros v. destruct (toy_to_vec_cases v) as [[_ ->]| ->]; by eexists.
  - intros v b. destruct (toy_to_vec_cases v) as [[_ ->]| ->]; intros [= <-]; [by repeat split|]. split; [done|]. split; [exact (scan_digits _ [quote])|].
    change (ascii_only (positive_digits (encode v) ++ [quote]) = true).
    by rewrite ascii_app, ascii_digits.
  - done.
  - intros v b _. apply toy_from_to_vec.
  - intros b (_ & _ & Ha). by apply ascii_utf8.
  - by repeat split.
  - intros es Hes. split; [done|]. split.
    + change (scan (1, false, false) (commas es ++ [rbracket]) = Some scan_init).
      by rewrite scan_app, scan_commas by done.
    + change (ascii_only (commas es ++ [rbracket]) = true).
      by rewrite ascii_app, ascii_commas.
  - intros b Hb. unfold toy_raw_value. by rewrite decide_True.
  - intros es Hne Hes. by apply toy_raw_array_text.
  - intros es vs Ht Hv _. by apply toy_parse_array.
Qed.
