(* ===== verification/RefJson.v ===== *)
(** * A reference JSON codec

    RFC 8259 as [serde_json] implements it, executable: the compact printer, and
    the parser of values, of raw values and of arrays of raw values, with the
    nesting limit of 128.  Numbers are integers - a text with a fraction or an
    exponent is not read, nor printed.  The crate itself is not modelled: this
    instance of its interface is what the unit tests of the program are run
    against (the [Tests] files), beside the one whose laws are proved. *)

From Stdlib Require Import ZArith NArith Lia String Ascii.
From S2P Require Import Prelude Str Json.

(** ** Printing *)

Definition bytes_of_N (ns : list N) : bytes := map byte_of_N ns.

Definition hex_digit (n : N) : N := if (n <? 10)%N then (48 + n)%N else (87 + n)%N.

(** The escapes of a string: quote, backslash and the control characters. *)
Definition escape (b : byte) : bytes :=
  let n := Byte.to_N b in
  bytes_of_N (
    if (n =? 34)%N then [92; 34]
    else if (n =? 92)%N then [92; 92]
    else if (n =? 8)%N then [92; 98]
    else if (n =? 9)%N then [92; 116]
    else if (n =? 10)%N then [92; 110]
    else if (n =? 12)%N then [92; 102]
    else if (n =? 13)%N then [92; 114]
    else if (n <? 32)%N then [92; 117; 48; 48; hex_digit (n / 16); hex_digit (n mod 16)]
    else [n])%N.

Definition string_text (s : string) : bytes :=
  (bytes_of_N [34%N] ++ concat (map escape (str_bytes s)) ++ bytes_of_N [34%N])%list.

(** [print_items f items]: the printed items, between commas. *)
Section Items.
Context {A : Type} (f : A -> option bytes).

Fixpoint print_items (items : list A) : option bytes :=
  match items with
  | [] => Some []
  | [x] => f x
  | x :: items => b ← f x; rest ← print_items items; Some (b ++ comma :: rest)
  end.

End Items.

Fixpoint ref_to_vec (v : Value) : option bytes :=
  match v with
  | Null => Some (str_bytes "null")
  | VBool b => Some (str_bytes (if b then "true" else "false"))
  | VNumber (PosInt n) => Some (str_bytes (to_decimal n))
  | VNumber (NegInt z) => Some (str_bytes ("-" ++ to_decimal (Z.to_N (- z))))
  | VNumber (Float _) => None
  | VString s => Some (string_text s)
  | VArray items => b ← print_items ref_to_vec items; Some (lbracket :: b ++ [rbracket])
  | VObject fields =>
      b ← print_items (fun kv => w ← ref_to_vec kv.2; Some (string_text kv.1 ++ Byte.x3a :: w)) fields;
      Some (lbrace :: b ++ [Byte.x7d])
  end.

(** ** Parsing *)

Definition is_json_ws (b : byte) : bool :=
  match b with Byte.x20 | Byte.x09 | Byte.x0a | Byte.x0d => true | _ => false end.

Fixpoint skip_ws (b : bytes) : bytes :=
  match b with
  | c :: r => if is_json_ws c then skip_ws r else b
  | [] => []
  end.

Definition hex4 (a b c d : byte) : option N :=
  a ← digit_value 16 (ascii_of_byte a); b ← digit_value 16 (ascii_of_byte b);
  c ← digit_value 16 (ascii_of_byte c); d ← digit_value 16 (ascii_of_byte d);
  Some (((a * 16 + b) * 16 + c) * 16 + d)%N.

(** The UTF-8 bytes of a code point. *)
Definition utf8_encode (n : N) : bytes :=
  bytes_of_N (
    if (n <? 128)%N then [n]
    else if (n <? 2048)%N then [192 + n / 64; 128 + n mod 64]
    else if (n <? 65536)%N then [224 + n / 4096; 128 + (n / 64) mod 64; 128 + n mod 64]
    else [240 + n / 262144; 128 + (n / 4096) mod 64; 128 + (n / 64) mod 64; 128 + n mod 64])%N.

Definition simple_escape (b : byte) : option byte :=
  match b with
  | Byte.x22 => Some Byte.x22 | Byte.x5c => Some Byte.x5c | Byte.x2f => Some Byte.x2f
  | Byte.x62 => Some Byte.x08 | Byte.x66 => Some Byte.x0c | Byte.x6e => Some Byte.x0a
  | Byte.x72 => Some Byte.x0d | Byte.x74 => Some Byte.x09
  | _ => None
  end.

(** The characters of a string, up to its closing quote. *)
Fixpoint parse_chars (b : bytes) : option (bytes * bytes) :=
  match b with
  | [] => None
  | c :: r =>
      if Byte.eqb c Byte.x22 then Some ([], r)
      else if Byte.eqb c Byte.x5c then
        match r with
        | [] => None
        | e :: r =>
            if Byte.eqb e Byte.x75 then
              match r with
              | h1 :: h2 :: h3 :: h4 :: r =>
                  n ← hex4 h1 h2 h3 h4;
                  if ((55296 <=? n) && (n <? 56320))%N then
                    match r with
                    | b1 :: b2 :: l1 :: l2 :: l3 :: l4 :: r =>
                        m ← hex4 l1 l2 l3 l4;
                        if (Byte.eqb b1 Byte.x5c && Byte.eqb b2 Byte.x75 && (56320 <=? m)%N && (m <? 57344)%N) then
                          '(s, rest) ← parse_chars r;
                          Some ((utf8_encode (65536 + (n - 55296) * 1024 + (m - 56320)) ++ s)%list, rest)
                        else None
                    | _ => None
                    end
                  else if ((56320 <=? n) && (n <? 57344))%N then None
                  else '(s, rest) ← parse_chars r; Some ((utf8_encode n ++ s)%list, rest)
              | _ => None
              end
            else c ← simple_escape e; '(s, rest) ← parse_chars r; Some (c :: s, rest)
        end
      else if in_range 0 31 c then None
      else '(s, rest) ← parse_chars r; Some (c :: s, rest)
  end.

Definition parse_string (b : bytes) : option (string * bytes) :=
  '(s, rest) ← parse_chars b;
  if utf8_valid s then Some (bytes_str s, rest) else None.

Fixpoint take_digits (b : bytes) : bytes * bytes :=
  match b with
  | c :: r => if in_range 48 57 c then let '(d, rest) := take_digits r in (c :: d, rest) else ([], b)
  | [] => ([], [])
  end.

(** The first byte is one of these. *)
Definition starts (cs b : bytes) : bool :=
  match b with c :: _ => existsb (Byte.eqb c) cs | [] => false end.

(** An integer: no leading zero, no fraction, no exponent. *)
Definition parse_int (b : bytes) : option (N * bytes) :=
  let '(d, rest) := take_digits b in
  match d with
  | [] => None
  | c :: d' =>
      if (Byte.eqb c Byte.x30 && (0 <? length d')%nat) || starts [Byte.x2e; Byte.x65; Byte.x45] rest then None
      else n ← from_str_radix (10 ^ 40) 10 (bytes_str d); Some (n, rest)
  end.

Definition parse_number (b : bytes) : option (Value * bytes) :=
  if starts [Byte.x2d] b then
    '(n, rest) ← parse_int (drop 1 b);
    if ((n =? 0) || (9223372036854775808 <? n))%N then None
    else Some (VNumber (NegInt (- Z.of_N n)), rest)
  else '(n, rest) ← parse_int b; if (u64_max <? n)%N then None else Some (VNumber (PosInt n), rest).

Fixpoint strip_bytes (p b : bytes) : option bytes :=
  match p, b with
  | [], _ => Some b
  | x :: p, y :: b => if bool_decide (x = y) then strip_bytes p b else None
  | _ :: _, [] => None
  end.

(** Items up to the closing byte, each read by [item], commas between. *)
Section Lists.
Context {A : Type} (item : bytes -> option (A * bytes)) (close : byte).

Fixpoint parse_items (fuel : nat) (b : bytes) : option (list A * bytes) :=
  match fuel with
  | O => None
  | S fuel =>
      '(x, rest) ← item b;
      match skip_ws rest with
      | c :: rest =>
          if bool_decide (c = close) then Some ([x], rest)
          else if bool_decide (c = comma) then
            '(xs, rest) ← parse_items fuel (skip_ws rest); Some (x :: xs, rest)
          else None
      | [] => None
      end
  end.

Definition parse_list (b : bytes) : option (list A * bytes) :=
  match skip_ws b with
  | c :: rest => if bool_decide (c = close) then Some ([], rest) else parse_items (length b) (skip_ws b)
  | [] => None
  end.

End Lists.

(** A key, a colon and a value. *)
Definition parse_field {A} (value : bytes -> option (A * bytes)) (b : bytes) : option ((string * A) * bytes) :=
  let b := skip_ws b in
  if starts [Byte.x22] b then
    '(k, rest) ← parse_string (drop 1 b);
    let rest := skip_ws rest in
    if starts [Byte.x3a] rest then '(v, rest) ← value (drop 1 rest); Some ((k, v), rest) else None
  else None.

(** One value, at most [depth] deep. *)
Fixpoint parse_value (depth : nat) (b : bytes) : option (Value * bytes) :=
  let b := skip_ws b in
  if starts [Byte.x6e] b then rest ← strip_bytes (str_bytes "null") b; Some (Null, rest)
  else if starts [Byte.x74] b then rest ← strip_bytes (str_bytes "true") b; Some (VBool true, rest)
  else if starts [Byte.x66] b then rest ← strip_bytes (str_bytes "false") b; Some (VBool false, rest)
  else if starts [Byte.x22] b then '(s, rest) ← parse_string (drop 1 b); Some (VString s, rest)
  else if starts [Byte.x5b] b then
    match depth with
    | O => None
    | S depth => '(items, rest) ← parse_list (parse_value depth) rbracket (drop 1 b); Some (VArray items, rest)
    end
  else if starts [Byte.x7b] b then
    match depth with
    | O => None
    | S depth =>
        '(fields, rest) ← parse_list (parse_field (parse_value depth)) Byte.x7d (drop 1 b);
        Some (VObject (foldl (fun m kv => btree_insert kv.1 kv.2 m) [] fields), rest)
    end
  else parse_number b.

Definition at_end (b : bytes) : bool := match skip_ws b with [] => true | _ => false end.

Definition ref_from_slice (b : bytes) : option Value :=
  '(v, rest) ← parse_value 127 b; if at_end rest then Some v else None.

(** The span of the value that starts, past white space, at [b], the end of a
    text of [len] bytes. *)
Definition raw_item (depth len : nat) (b : bytes) : option (span * bytes) :=
  let start := skip_ws b in
  '(_, rest) ← parse_value depth start;
  Some ((len - length start, length start - length rest)%nat, rest).

Definition ref_raw_value (b : bytes) : option span :=
  '(s, rest) ← raw_item 127 (length b) b; if at_end rest then Some s else None.

Definition ref_raw_array (b : bytes) : option (list span) :=
  let start := skip_ws b in
  if starts [Byte.x5b] start then
    '(spans, rest) ← parse_list (raw_item 126 (length b)) rbracket (drop 1 start);
    if at_end rest then Some spans else None
  else None.

(** One value, without white space around it. *)
Definition ref_text (b : bytes) : Prop := ref_raw_value b = Some (0, length b)%nat.

Definition RefJson : JsonLib := {|
  json_text := ref_text; from_slice := ref_from_slice; to_vec := ref_to_vec;
  raw_value := ref_raw_value; raw_array := ref_raw_array
|}.

(** ** Literals *)

(** A text as the tests write it, with its double quotes spelled as single
    ones. *)
Definition raw (s : string) : bytes :=
  map (fun b => if bool_decide (b = Byte.x27) then Byte.x22 else b) (str_bytes s).

(** [json!] *)
Definition json (s : string) : Value := default Null (ref_from_slice (raw s)).

Example reads_back :
  ref_to_vec (json "{ 'b':[1, -2,true ,null],'a':'x\n\u0041' , 'b':{}}") = Some (raw "{'a':'x\nA','b':{}}").
Proof. vm_compute. reflexivity. Qed.

Example reads_spans :
  ref_raw_array (raw "[ {'a':[1]} ,']' , 3]") = Some [(2, 9); (13, 3); (19, 1)]%nat.
Proof. vm_compute. reflexivity. Qed.

Example refuses :
  map ref_from_slice [raw "[1,]"; raw "{'a'}"; raw "01"; raw "nul"; raw "'a"; raw "1 2"; raw ""] = replicate 7 None.
Proof. vm_compute. reflexivity. Qed.
