(* ===== verification/Chain.v ===== *)
(** * Chains and networks (src/chain.rs)

    The [Chain] and [Network] enums, the choices that follow from them, and
    [normalize_chains]. *)

From Stdlib Require Import ZArith NArith Lia String Ascii Sorting.Sorted.
From S2P Require Import Prelude Str.

#[local] Open Scope string_scope.

Inductive Network : Type := Mainnet | Testnet.
Inductive Chain : Type := C | P.

#[global] Instance Chain_eq_dec : EqDecision Chain.
Proof. solve_decision. Defined.
#[global] Instance Network_eq_dec : EqDecision Network.
Proof. solve_decision. Defined.

(** A path is its list of components; [join] appends one. *)
Definition path : Type := list string.
Definition join (p : path) (c : string) : path := (p ++ [c])%list.

Definition network_as_str (n : Network) : string :=
  match n with Mainnet => "mainnet" | Testnet => "testnet" end.

Definition host (n : Network) : string :=
  match n with Mainnet => "api.avax.network" | Testnet => "api.avax-test.network" end.

Definition default_data_dir (n : Network) : path :=
  ["."; "blockstore-data-" ++ network_as_str n].

Definition default_base_url (n : Network) : string := "https://" ++ host n.

Definition ALL : list Chain := [C; P].

Definition as_str (c : Chain) : string := match c with C => "c" | P => "p" end.

Definition rpc_path (c : Chain) : string :=
  match c with C => "/ext/bc/C/rpc" | P => "/ext/bc/P" end.

Definition ws_path (c : Chain) : option string :=
  match c with C => Some "/ext/bc/C/ws" | P => None end.

Definition data_dir (c : Chain) (base : path) : path :=
  match c with C => base | P => join base (as_str P) end.

Definition publishes_live_records (c : Chain) : bool :=
  match c with C => false | P => true end.

Definition format_version (c : Chain) : N :=
  match c with C => 1 | P => 1 end.

(** [LogsSource]: where a block's logs come from. *)
Inductive LogsSource : Type := Receipts | GetLogs.

#[global] Instance LogsSource_eq_dec : EqDecision LogsSource.
Proof. solve_decision. Defined.

(** ** [normalize_chains] *)

(** The derived [Ord]: declaration order. *)
Definition chain_le (a b : Chain) : Prop :=
  match a, b with P, C => False | _, _ => True end.

#[global] Instance chain_le_dec a b : Decision (chain_le a b).
Proof. destruct a, b; cbn; apply _. Defined.

(** [if !out.contains(&chain) { out.push(chain) }] over the selection. *)
Fixpoint dedup_chains (out chains : list Chain) : list Chain :=
  match chains with
  | [] => out
  | c :: chains => dedup_chains (if decide (c ∈ out) then out else out ++ [c])%list chains
  end.

(** [sort_unstable] on the result, as an insertion sort: with duplicates gone
    and a total order there is only one sorted arrangement. *)
Fixpoint sort_insert (c : Chain) (l : list Chain) : list Chain :=
  match l with
  | [] => [c]
  | d :: l => if decide (chain_le c d) then c :: d :: l else d :: sort_insert c l
  end.

Definition sort_chains (l : list Chain) : list Chain := foldr sort_insert [] l.

Definition normalize_chains (chains : list Chain) : result (list Chain) :=
  let out := dedup_chains [] chains in
  match out with
  | [] => Err ENoChains
  | _ => Ok (sort_chains out)
  end.

(** ** Facts *)

Lemma as_str_inj c d : as_str c = as_str d -> c = d.
Proof. by destruct c, d. Qed.

Lemma data_dir_inj base c d : data_dir c base = data_dir d base -> c = d.
Proof.
  assert (Hj : join base (as_str P) <> base).
  { intros H. apply (f_equal length) in H. unfold join in H. rewrite length_app in H. cbn in H. lia. }
  destruct c, d; cbn [data_dir]; intros H; try done; by destruct Hj.
Qed.

Lemma dedup_chains_spec out chains :
  NoDup out ->
  NoDup (dedup_chains out chains) /\
  forall c, c ∈ dedup_chains out chains <-> c ∈ out \/ c ∈ chains.
Proof.
  revert out; induction chains as [|c chains IH]; intros out Hnd; cbn [dedup_chains].
  - split; [done|]. set_solver.
  - case_decide as Hin.
    + destruct (IH out Hnd) as [? Hel]. split; [done|]. intros d. rewrite Hel. set_solver.
    + destruct (IH (out ++ [c])%list) as [? Hel].
      { apply NoDup_app. repeat split; [done| |apply NoDup_singleton]. set_solver. }
      split; [done|]. intros d. rewrite Hel. set_solver.
Qed.

Lemma sort_insert_perm c l : sort_insert c l ≡ₚ c :: l.
Proof.
  induction l as [|d l IH]; cbn; [done|]. case_decide; [done|].
  rewrite IH. apply Permutation_swap.
Qed.

Lemma sort_chains_perm l : sort_chains l ≡ₚ l.
Proof.
  induction l as [|c l IH]; cbn; [done|]. by rewrite sort_insert_perm, IH.
Qed.

(** A duplicate-free list of chains is sorted into one of four shapes. *)
Lemma sort_chains_canonical l :
  NoDup l ->
  sort_chains l =
    ((if decide (C ∈ l) then [C] else []) ++ (if decide (P ∈ l) then [P] else []))%list.
Proof.
  intros Hnd.
  destruct l as [|a [|b [|c l]]].
  - done.
  - by destruct a.
  - apply NoDup_cons in Hnd as [Hab _]. destruct a, b; try done; exfalso; set_solver.
  - exfalso. rewrite !NoDup_cons in Hnd. destruct a, b, c; set_solver.
Qed.

(** [normalize_chains] turns any selection into the canonical instance
    layout: it fails exactly on the empty selection, and otherwise returns each
    selected chain once, C before P, so the result depends only on which chains
    were named and not on their order or repetition. *)
Theorem normalize_chains_canonical chains :
  normalize_chains chains =
    match chains with
    | [] => Err ENoChains
    | _ => Ok ((if decide (C ∈ chains) then [C] else []) ++
               (if decide (P ∈ chains) then [P] else []))%list
    end.
Proof.
  unfold normalize_chains.
  destruct (dedup_chains_spec [] chains (NoDup_nil_2)) as [Hnd Hel].
  destruct (dedup_chains [] chains) as [|d out] eqn:E.
  - destruct chains as [|c chains]; [done|]. exfalso.
    assert (Hc : c ∈ @nil Chain) by (apply Hel; set_solver). set_solver.
  - destruct chains as [|c chains].
    { exfalso. assert (Hd : d ∈ @nil Chain) by (destruct (proj1 (Hel d)); set_solver). set_solver. }
    rewrite sort_chains_canonical by done. do 2 f_equal.
    + apply decide_ext. rewrite Hel. set_solver.
    + apply decide_ext. rewrite Hel. set_solver.
Qed.
