(* ===== verification/Record.v ===== *)
(** * The on-disk record codec (src/record.rs)

    A stored value is a JSON array whose element 0 is the block and whose
    trailing elements are the chain's derived data, or, in stores written
    before the combined record, the bare block object.  Elements are handed
    out as sub-slices ([span]s) of the stored bytes and never reserialised. *)

From Stdlib Require Import ZArith NArith Lia String Ascii.
From S2P Require Import Prelude Str Json Chain.

Definition BLOCK : nat := 0.
Definition C_LOGS : nat := 1.
Definition P_BYTES : nat := 1.
Definition EMPTY_ARRAY : bytes := [lbracket; rbracket].

Definition arity (c : Chain) : nat := match c with C => 2 | P => 3 end.

(** ** Writing *)

(** The loop of [encode]: push a comma before every element but the first. *)
Fixpoint encode_loop (i : nat) (elements : list bytes) (out : bytes) : bytes :=
  match elements with
  | [] => out
  | e :: elements =>
      let out := if (0 <? i)%nat then out ++ [comma] else out in
      encode_loop (S i) elements (out ++ e)
  end.

Definition encode (elements : list bytes) : bytes :=
  encode_loop 0 elements [lbracket] ++ [rbracket].

(** ** Reading *)

(** [u8::is_ascii_whitespace]. *)
Definition is_ascii_whitespace (b : byte) : bool :=
  match b with
  | Byte.x20 | Byte.x09 | Byte.x0a | Byte.x0c | Byte.x0d => true
  | _ => false
  end.

(** The first non-whitespace byte decides between the two layouts. *)
Definition is_bare_block (record : bytes) : bool :=
  match List.find (fun b => negb (is_ascii_whitespace b)) record with
  | Some b => bool_decide (b = lbrace)
  | None => false
  end.

Definition is_combined_record (value : bytes) : bool := negb (is_bare_block value).

(** A [Range<usize>] over the record, and the view of one element: the whole
    record kept alive plus the range. *)
Record Element : Type := { el_record : bytes; el_start : nat; el_end : nat }.

(** [deref]: [self.record.get(start..end).unwrap_or_default()]. *)
Definition deref (el : Element) : bytes :=
  if decide (el_start el <= el_end el /\ el_end el <= length (el_record el))%nat
  then take (el_end el - el_start el) (drop (el_start el) (el_record el))
  else [].

Section WithJson.
Context {J : JsonLib}.

Definition split (record : bytes) : result (list span) :=
  match raw_array record with
  | None => Err EDecodeRecord
  | Some parts =>
      if decide (length parts < 2)%nat then Err (EShortRecord (N.of_nat (length parts)))
      else Ok parts
  end.

Definition element (record : bytes) (idx : nat) : result (option span) :=
  if is_bare_block record then
    if decide (idx <> BLOCK) then Ok None
    else match raw_value record with
         | Some block => Ok (Some block)
         | None => Err EDecodeBareBlock
         end
  else
    let? parts := split record in
    Ok (parts !! idx).

(** The start is the address delta, the end is start plus length. *)
Definition element_span (record : bytes) (idx : nat) : result (option (nat * nat)) :=
  let? part := element record idx in
  match part with
  | None => Ok None
  | Some (start, len) => Ok (Some (start, start + len)%nat)
  end.

Definition at_ (record : bytes) (idx : nat) : result (option Element) :=
  let? s := element_span record idx in
  match s with
  | None => Ok None
  | Some (start, stop) => Ok (Some {| el_record := record; el_start := start; el_end := stop |})
  end.

End WithJson.

(** ** Facts about the writer *)

Lemma encode_loop_commas es i out :
  encode_loop i es out =
    match es with
    | [] => out
    | _ => (if (0 <? i)%nat then out ++ [comma] else out) ++ commas es
    end.
Proof.
  revert i out; induction es as [|e es IH]; intros i out; [done|].
  cbn [encode_loop]. rewrite IH. destruct es as [|e1 es]; [done|].
  change (0 <? S i)%nat with true. cbn iota.
  change (commas (e :: e1 :: es)) with (e ++ comma :: commas (e1 :: es)).
  by rewrite <-!app_assoc.
Qed.

Lemma encode_array_text es : encode es = array_text es.
Proof. unfold encode, array_text. rewrite encode_loop_commas. by destruct es. Qed.

Lemma encode_not_bare es : is_bare_block (encode es) = false.
Proof. rewrite encode_array_text. done. Qed.

Lemma encode_combined es : is_combined_record (encode es) = true.
Proof. unfold is_combined_record. by rewrite encode_not_bare. Qed.

Lemma length_encode_pos es : encode es <> [].
Proof. rewrite encode_array_text. done. Qed.

(** ** Facts about the reader *)

Section Reader.
Context {J : JsonLib} {JL : JsonLaws J}.

Lemma split_encode es :
  (2 <= length es)%nat -> Forall json_text es -> split (encode es) = Ok (element_spans 1 es).
Proof.
  intros Hlen Hes. unfold split. rewrite encode_array_text, raw_array_text;
    [|by destruct es; [cbn in Hlen; lia|]|done].
  rewrite decide_False; [done|]. rewrite length_element_spans. lia.
Qed.

Lemma element_encode es idx :
  (2 <= length es)%nat -> Forall json_text es ->
  element (encode es) idx = Ok (element_spans 1 es !! idx).
Proof. intros. unfold element. by rewrite encode_not_bare, split_encode. Qed.

Lemma slice_deref record s :
  (s.1 + s.2 <= length record)%nat ->
  deref {| el_record := record; el_start := s.1; el_end := s.1 + s.2 |} = slice s record.
Proof.
  intros Hs. unfold deref; cbn. rewrite decide_True by lia. unfold slice. f_equal. lia.
Qed.

Lemma slice_in_range s e record :
  slice s record = e -> length e = s.2 -> e <> [] -> (s.1 + s.2 <= length record)%nat.
Proof.
  intros <- Hl Hne. unfold slice in *. rewrite length_take, length_drop in Hl.
  destruct (decide (s.2 = 0)%nat) as [E|]; [|lia]. rewrite E in Hne. done.
Qed.

Lemma element_spans_bound es start i s :
  element_spans start es !! i = Some s -> (s.1 + s.2 <= start + length (commas es))%nat.
Proof.
  revert start i; induction es as [|e es IH]; intros start i; [done|].
  destruct i as [|i]; cbn [element_spans].
  - intros [= <-]. cbn. destruct es; cbn [commas]; [lia|]. rewrite length_app. lia.
  - intros H. destruct es as [|e1 es]; [done|]. apply IH in H.
    change (commas (e :: e1 :: es)) with (e ++ comma :: commas (e1 :: es)).
    rewrite length_app. cbn [length]. lia.
Qed.

(** Reading element [idx] of a record built from [es]. *)
Lemma at_encode es idx :
  (2 <= length es)%nat -> Forall json_text es ->
  match es !! idx with
  | Some e => exists el, at_ (encode es) idx = Ok (Some el) /\ deref el = e
  | None => at_ (encode es) idx = Ok None
  end.
Proof.
  intros Hlen Hes. unfold at_, element_span. rewrite element_encode by done. cbn [result_bind].
  destruct (es !! idx) as [e|] eqn:Ei.
  - destruct (array_text_slice _ _ _ Ei) as ([st ln] & Hs & Hsl). rewrite Hs. cbn [result_bind].
    eexists; split; [done|]. rewrite encode_array_text.
    rewrite (slice_deref _ (st, ln)); [exact Hsl|].
    apply element_spans_bound in Hs. unfold array_text. cbn [length]. rewrite length_app. cbn in *. lia.
  - by rewrite element_spans_lookup_None.
Qed.

End Reader.

(** ** Properties *)

Section Properties.
Context {J : JsonLib} {JL : JsonLaws J}.

(** C9: reading back any element of a record written by [encode] gives exactly
    the bytes that were stored, through the zero-copy [Element] view; an index
    past the record reads as absent, not as an error. *)
Theorem record_roundtrip es idx :
  (2 <= length es)%nat -> Forall json_text es ->
  (match at_ (encode es) idx with
   | Ok (Some el) => Ok (Some (deref el))
   | Ok None => Ok None
   | Err e => Err e
   end) = Ok (es !! idx).
Proof.
  intros Hlen Hes. pose proof (at_encode es idx Hlen Hes) as H.
  destruct (es !! idx) as [e|]; [destruct H as (el & -> & ->) | rewrite H]; done.
Qed.

(** A value written before the combined record (a bare block object) is
    served whole as element 0, and every derived element of it is absent -
    never an empty array - while [is_combined_record] refuses it. *)
Theorem bare_block_reads value :
  is_bare_block value = true -> json_text value ->
  (exists el, at_ value BLOCK = Ok (Some el) /\ deref el = value) /\
  (forall idx, (0 < idx)%nat -> at_ value idx = Ok None) /\
  is_combined_record value = false.
Proof.
  intros Hb Ht. unfold at_, element_span, element, is_combined_record. rewrite Hb.
  split; [|split].
  - rewrite decide_False by (intros Hn; by apply Hn). rewrite raw_value_text by done. cbn.
    eexists; split; [done|]. etransitivity; [apply (slice_deref value (0, length value)); cbn; lia|].
    unfold slice; cbn. by rewrite drop_0, firstn_all.
  - intros idx Hidx. rewrite decide_True; [done|]. unfold BLOCK. lia.
  - done.
Qed.

End Properties.
