(* ===== verification/Backing.v ===== *)
(** * The storage engines below neve

    [blockdb]'s [Store] and [fjall]'s [Database] are third-party: their
    operations are the classes [Blockstore] and [Fjall], and what
    src/storage.rs relies on about them is [BlockstoreLaws] and [FjallLaws].
    [MapStore] and [MapDb] are in-memory implementations that satisfy the laws;
    the witnesses run on them. *)

From Stdlib Require Import ZArith NArith Lia String Ascii.
From S2P Require Import Prelude.

(** ** blockdb *)

Class Blockstore : Type := {
  Store : Type;
  (** [Store::open] with [truncate: true] and [minimum_height] *)
  store_create : N -> option Store;
  (** [Store::open] on existing files *)
  store_reopen : Store -> option Store;
  min_block_height : Store -> N;
  (** highest [H] such that every block in [[min_block_height, H]] is present *)
  store_max_contiguous : Store -> N;
  height_highwater : Store -> N;
  read_block : Store -> N -> result (option bytes);
  write_block : Store -> N -> bytes -> Store * result unit
}.

Section Present.
Context {B : Blockstore}.

Definition present (s : Store) (h : N) : Prop := exists b, read_block s h = Ok (Some b).

End Present.

Class BlockstoreLaws (B : Blockstore) : Prop := {
  create_min : forall m s, store_create m = Some s -> min_block_height s = m;
  create_empty : forall m s h, store_create m = Some s -> read_block s h = Ok None;
  write_same : forall s h b s', write_block s h b = (s', Ok tt) -> read_block s' h = Ok (Some b);
  write_other : forall s h b s' r h',
    write_block s h b = (s', r) -> h' <> h -> read_block s' h' = read_block s h';
  write_min : forall s h b s' r,
    write_block s h b = (s', r) -> min_block_height s' = min_block_height s;
  present_min : forall s h, present s h -> (min_block_height s <= h)%N;
  present_highwater : forall s h, present s h -> (h <= height_highwater s)%N;
  highwater_present : forall s h, present s h -> present s (height_highwater s);
  contiguous_ge : forall s,
    present s (min_block_height s) -> (min_block_height s <= store_max_contiguous s)%N;
  contiguous_present : forall s h,
    present s (min_block_height s) ->
    (min_block_height s <= h <= store_max_contiguous s)%N -> present s h;
  contiguous_maximal : forall s,
    present s (min_block_height s) -> ~ present s (store_max_contiguous s + 1)%N;
  reopen_read : forall s s' h, store_reopen s = Some s' -> read_block s' h = read_block s h;
  reopen_min : forall s s', store_reopen s = Some s' -> min_block_height s' = min_block_height s
}.

(** ** fjall *)

Inductive keyspace : Type := KMeta | KHash | KTx.

#[global] Instance keyspace_eq_dec : EqDecision keyspace.
Proof. solve_decision. Defined.
#[global] Instance keyspace_countable : Countable keyspace.
Proof.
  refine (inj_countable' (fun k => match k with KMeta => 0 | KHash => 1 | KTx => 2 end)%nat
    (fun n => match n with O => KMeta | 1%nat => KHash | _ => KTx end) _).
  by intros [].
Defined.

Definition batch : Type := list (keyspace * bytes * bytes).

(** The value a batch leaves at a key: its last write there. *)
Fixpoint batch_value (ks : keyspace) (k : bytes) (bt : batch) : option bytes :=
  match bt with
  | [] => None
  | (ks', k', v) :: bt =>
      match batch_value ks k bt with
      | Some v => Some v
      | None => if decide (ks' = ks /\ k' = k) then Some v else None
      end
  end.

Class Fjall : Type := {
  Db : Type;
  db_get : Db -> keyspace -> bytes -> result (option bytes);
  db_insert : keyspace -> bytes -> bytes -> M Db unit;
  (** [batch.commit()] *)
  db_commit : batch -> M Db unit;
  (** [persist(PersistMode::SyncAll)] *)
  db_persist : M Db unit
}.

Class FjallLaws (F : Fjall) : Prop := {
  insert_ok : forall db ks k v db' ks' k',
    db_insert ks k v db = (db', Ok tt) ->
    db_get db' ks' k' = if decide (ks' = ks /\ k' = k) then Ok (Some v) else db_get db ks' k';
  commit_ok : forall db bt db' ks k,
    db_commit bt db = (db', Ok tt) ->
    db_get db' ks k = match batch_value ks k bt with
                      | Some v => Ok (Some v)
                      | None => db_get db ks k
                      end;
  (** the batch is all-or-nothing *)
  commit_err : forall db bt db' e ks k,
    db_commit bt db = (db', Err e) -> db_get db' ks k = db_get db ks k;
  persist_get : forall db db' r ks k,
    db_persist db = (db', r) -> db_get db' ks k = db_get db ks k
}.

Lemma batch_value_app ks k b1 b2 :
  batch_value ks k (b1 ++ b2) =
    match batch_value ks k b2 with Some v => Some v | None => batch_value ks k b1 end.
Proof.
  induction b1 as [|[[ks' k'] v] b1 IH]; cbn; [by destruct (batch_value ks k b2)|].
  rewrite IH. by destruct (batch_value ks k b2).
Qed.

(** ** In-memory implementations *)

Record map_store : Type := { ms_min : N; ms_blocks : gmap N bytes }.

(** Follow the run of present heights upward from [h]. *)
Fixpoint run_up (fuel : nat) (blocks : gmap N bytes) (h : N) : N :=
  match fuel with
  | O => h
  | S fuel => match blocks !! (h + 1)%N with
              | Some _ => run_up fuel blocks (h + 1)
              | None => h
              end
  end.

Definition highest (blocks : gmap N bytes) : N := foldr N.max 0%N (elements (dom blocks)).

Definition ms_write (s : map_store) (h : N) (b : bytes) : map_store * result unit :=
  if decide (h < ms_min s)%N then (s, Err EBlockstore)
  else ({| ms_min := ms_min s; ms_blocks := <[h := b]> (ms_blocks s) |}, Ok tt).

Definition ms_read (s : map_store) (h : N) : result (option bytes) :=
  Ok (if decide (h < ms_min s)%N then None else ms_blocks s !! h).

Definition MapStore : Blockstore := {|
  Store := map_store;
  store_create m := Some {| ms_min := m; ms_blocks := ∅ |};
  store_reopen s := Some s;
  min_block_height := ms_min;
  store_max_contiguous s := run_up (size (ms_blocks s)) (ms_blocks s) (ms_min s);
  height_highwater s := highest (ms_blocks s);
  read_block := ms_read;
  write_block := ms_write
|}.

#[local] Existing Instance MapStore.

Lemma ms_present (s : map_store) h :
  present (B := MapStore) s h <-> (ms_min s <= h)%N /\ is_Some (ms_blocks s !! h).
Proof.
  unfold present; cbn. unfold ms_read. split.
  - intros [b [= Hb]]. case_decide; [done|]. rewrite Hb. split; [lia|eauto].
  - intros [Hle [b Hb]]. exists b. rewrite decide_False by lia. by rewrite Hb.
Qed.

Lemma run_up_ge fuel blocks h : (h <= run_up fuel blocks h)%N.
Proof.
  revert h; induction fuel as [|fuel IH]; intros h; cbn; [lia|].
  destruct (blocks !! (h + 1)%N); [|lia]. specialize (IH (h + 1)%N). lia.
Qed.

Lemma run_up_present fuel blocks h h' :
  is_Some (blocks !! h) -> (h <= h' <= run_up fuel blocks h)%N -> is_Some (blocks !! h').
Proof.
  revert h; induction fuel as [|fuel IH]; intros h Hh Hr; cbn in Hr.
  - by replace h' with h by lia.
  - destruct (blocks !! (h + 1)%N) eqn:E.
    + destruct (decide (h' = h)) as [->|]; [done|]. apply (IH (h + 1)%N); [eauto|lia].
    + by replace h' with h by lia.
Qed.

(** Either the run stops at a hole, or every height it passed is stored. *)
Lemma run_up_stops fuel blocks h :
  blocks !! (run_up fuel blocks h + 1)%N = None \/
  run_up fuel blocks h = (h + N.of_nat fuel)%N /\
    forall i, (1 <= i <= fuel)%nat -> is_Some (blocks !! (h + N.of_nat i)%N).
Proof.
  revert h; induction fuel as [|fuel IH]; intros h; cbn.
  - right. split; [lia|]. intros. lia.
  - destruct (blocks !! (h + 1)%N) eqn:E; [|by left].
    destruct (IH (h + 1)%N) as [?|[-> Hi]]; [by left|right]. split; [lia|].
    intros i Hi'. destruct (decide (i = 1)%nat) as [->|]; [eauto|].
    replace (h + N.of_nat i)%N with (h + 1 + N.of_nat (i - 1))%N by lia. apply Hi. lia.
Qed.

Lemma run_up_maximal blocks h :
  is_Some (blocks !! h) -> blocks !! (run_up (size blocks) blocks h + 1)%N = None.
Proof.
  intros Hh. destruct (run_up_stops (size blocks) blocks h) as [?|[_ Hi]]; [done|]. exfalso.
  assert (Hsub : list_to_set (heights h (h + N.of_nat (size blocks))) ⊆ dom blocks).
  { intros x Hx. apply elem_of_list_to_set, elem_of_heights in Hx. apply elem_of_dom.
    destruct (decide (x = h)) as [->|]; [done|].
    replace x with (h + N.of_nat (N.to_nat (x - h)))%N by lia. apply Hi. lia. }
  apply subseteq_size in Hsub. rewrite size_dom, size_list_to_set in Hsub.
  - rewrite length_heights in Hsub. lia.
  - unfold heights. apply NoDup_fmap_2; [intros ???; lia|apply NoDup_seq].
Qed.

Lemma highest_ge blocks h : is_Some (blocks !! h) -> (h <= highest blocks)%N.
Proof.
  intros Hh. apply elem_of_dom, elem_of_elements in Hh. unfold highest.
  induction (elements (dom blocks)) as [|x l IH]; [set_solver|]. cbn.
  apply elem_of_cons in Hh as [->|Hh]; [lia|]. specialize (IH Hh). lia.
Qed.

Lemma highest_in blocks h : is_Some (blocks !! h) -> is_Some (blocks !! highest blocks).
Proof.
  intros Hh. apply elem_of_dom, elem_of_elements. apply elem_of_dom, elem_of_elements in Hh.
  unfold highest. revert Hh. generalize (elements (dom blocks)) as l. clear.
  assert (Hgen : forall l, l <> [] -> foldr N.max 0%N l ∈ l).
  { induction l as [|x l IH]; intros Hne; [done|]. cbn.
    destruct l as [|y l]; [cbn; rewrite N.max_0_r; set_solver|].
    destruct (N.max_spec x (foldr N.max 0%N (y :: l))) as [[_ ->]|[_ ->]]; [|set_solver].
    right. by apply IH. }
  intros l Hh. apply Hgen. intros ->. by apply not_elem_of_nil in Hh.
Qed.

Lemma MapStore_laws : BlockstoreLaws MapStore.
Proof.
  split.
  - intros m s [= <-]. done.
  - intros m s h [= <-]. cbn. unfold ms_read; cbn. rewrite lookup_empty. by case_decide.
  - intros s h b s'. cbn. unfold ms_write, ms_read. case_decide as Hlt; [done|]. intros [= <-]; cbn.
    rewrite decide_False by done. by rewrite lookup_insert_eq.
  - intros s h b s' r h'. cbn. unfold ms_write, ms_read. case_decide as Hlt; intros [= <- _] Hne; [done|]; cbn.
    by rewrite lookup_insert_ne.
  - intros s h b s' r. cbn. unfold ms_write. case_decide; by intros [= <- _].
  - intros s h. rewrite ms_present. by intros [].
  - intros s h. rewrite ms_present. intros [_ Hh]. by apply highest_ge.
  - intros s h. rewrite !ms_present. intros [Hle Hh]; cbn. split; [|by eapply highest_in].
    apply highest_ge in Hh. lia.
  - intros s. rewrite ms_present; cbn. intros _. apply run_up_ge.
  - intros s h. rewrite !ms_present; cbn. intros [_ Hm] Hr. split; [lia|]. by eapply run_up_present.
  - intros s. rewrite !ms_present; cbn. intros [_ Hm] [_ Hn]. rewrite run_up_maximal in Hn by done.
    by destruct Hn.
  - intros s s' h [= <-]. done.
  - intros s s' [= <-]. done.
Qed.

Definition MapDb : Fjall := {|
  Db := gmap (keyspace * bytes) bytes;
  db_get db ks k := Ok (db !! (ks, k));
  db_insert ks k v db := (<[(ks, k) := v]> db, Ok tt);
  db_commit bt db := (foldl (fun db e => <[e.1 := e.2]> db) db bt, Ok tt);
  db_persist db := (db, Ok tt)
|}.

#[local] Existing Instance MapDb.

Lemma foldl_insert_lookup (bt : batch) (db : gmap (keyspace * bytes) bytes) ks k :
  foldl (fun db e => <[e.1 := e.2]> db) db bt !! (ks, k) =
    match batch_value ks k bt with Some v => Some v | None => db !! (ks, k) end.
Proof.
  revert db; induction bt as [|[[ks' k'] v] bt IH]; intros db; cbn; [done|].
  rewrite IH. destruct (batch_value ks k bt); [done|].
  rewrite lookup_insert. repeat case_decide; naive_solver.
Qed.

Lemma MapDb_laws : FjallLaws MapDb.
Proof.
  split.
  - intros db ks k v db' ks' k' [= <-]. cbn. rewrite lookup_insert.
    repeat case_decide; naive_solver.
  - intros db bt db' ks k [= <-]. cbn. rewrite foldl_insert_lookup.
    by destruct (batch_value ks k bt).
  - done.
  - intros db db' r ks k [= <- _]. done.
Qed.
