(* ===== verification/Storage.v ===== *)
(** * The store (src/storage.rs)

    [Storage] pairs a [blockdb] store, opened lazily by the first write, with a
    [fjall] database holding the [meta], [hash_to_height] and [tx_to_block]
    keyspaces.  Operations that write are in the state monad [M] so that the
    state reached before a failure - in particular between the block write and
    the index commit - is visible. *)

From Stdlib Require Import ZArith NArith Lia String Ascii.
From S2P Require Import Prelude Str Json Chain Record Backing.

Definition FORMAT_VERSION_KEY : bytes := str_bytes "format_version".
Definition IDENTITY_KEY : bytes := str_bytes "chain_id".
Definition CHAIN_KEY : bytes := str_bytes "chain".

Section Storage.
Context {B : Blockstore} {F : Fjall} {J : JsonLib}.

(** ** The [meta] stamps *)

Definition meta_get (k : bytes) : M Db (option bytes) :=
  fun db => (db, db_get db KMeta k).

(** The three guards of [verify_and_stamp_meta], in order. *)
Definition check_chain (chain : Chain) (populated : bool) (stored_chain : option bytes)
    : result unit :=
  match stored_chain with
  | Some slice =>
      let? stored := from_utf8 slice in
      if decide (stored <> Chain.as_str chain) then Err (EWrongChain stored) else Ok tt
  | None =>
      if populated && negb (bool_decide (chain = C)) then Err ELegacyNotC else Ok tt
  end.

Definition check_identity (identity : string) (stored_identity : option bytes) : result unit :=
  match stored_identity with
  | Some slice =>
      let? stored := from_utf8 slice in
      if decide (stored <> identity) then Err (EWrongIdentity stored) else Ok tt
  | None => Ok tt
  end.

Definition check_format (chain : Chain) (has_block_data : bool)
    (stored_identity stored_fmt : option bytes) : result unit :=
  let want_fmt := format_version chain in
  match stored_fmt with
  | Some slice =>
      let? stored := from_utf8 slice in
      let? stored_ver := ok_or (parse_u32 stored) EFormatNotU32 in
      if decide (stored_ver <> want_fmt) then Err (EWrongFormat stored_ver want_fmt) else Ok tt
  | None =>
      match stored_identity with
      | Some _ => Ok tt
      | None => if has_block_data then Err ENoNetworkStamp else Ok tt
      end
  end.

Definition insert_if_none (stored : option bytes) (k v : bytes) : M Db unit :=
  match stored with None => db_insert KMeta k v | Some _ => ret tt end.

Definition verify_and_stamp_meta (chain : Chain) (identity : string) (has_block_data : bool)
    : M Db unit :=
  let! stored_identity := meta_get IDENTITY_KEY in
  let! stored_fmt := meta_get FORMAT_VERSION_KEY in
  let! stored_chain := meta_get CHAIN_KEY in
  let populated :=
    has_block_data || bool_decide (is_Some stored_identity) || bool_decide (is_Some stored_fmt) in
  let! _ := lift (check_chain chain populated stored_chain) in
  let! _ := lift (check_identity identity stored_identity) in
  let! _ := lift (check_format chain has_block_data stored_identity stored_fmt) in
  let! _ := insert_if_none stored_chain CHAIN_KEY (str_bytes (Chain.as_str chain)) in
  let! _ := insert_if_none stored_identity IDENTITY_KEY (str_bytes identity) in
  let! _ := insert_if_none stored_fmt FORMAT_VERSION_KEY
              (str_bytes (to_decimal (format_version chain))) in
  if bool_decide (stored_chain = None) || bool_decide (stored_identity = None)
     || bool_decide (stored_fmt = None)
  then db_persist else ret tt.

(** ** The storage handle *)

Record Storage : Type := {
  st_chain : Chain;
  (** [None] until something has been written *)
  st_store : option Store;
  st_db : Db;
  st_anchor_floor : option N
}.

Definition set_store (s : Store) (st : Storage) : Storage :=
  {| st_chain := st_chain st; st_store := Some s; st_db := st_db st;
     st_anchor_floor := st_anchor_floor st |}.

Definition set_db (db : Db) (st : Storage) : Storage :=
  {| st_chain := st_chain st; st_store := st_store st; st_db := db;
     st_anchor_floor := st_anchor_floor st |}.

(** What is on disk before an open: the block files, if [blockdb.idx] exists,
    and the index database. *)
Record Disk : Type := { disk_store : option Store; disk_db : Db }.

Definition open (chain : Chain) (identity : string) (anchor_floor : option N)
    : M Disk Storage := fun d =>
  let has_block_data := bool_decide (is_Some (disk_store d)) in
  match verify_and_stamp_meta chain identity has_block_data (disk_db d) with
  | (db, Err e) => ({| disk_store := disk_store d; disk_db := db |}, Err e)
  | (db, Ok _) =>
      let d' := {| disk_store := disk_store d; disk_db := db |} in
      let opened store := {| st_chain := chain; st_store := store; st_db := db;
                             st_anchor_floor := anchor_floor |} in
      match disk_store d with
      | Some s => match store_reopen s with
                  | Some s' => (d', Ok (opened (Some s')))
                  | None => (d', Err EBlockstore)
                  end
      | None => (d', Ok (opened None))
      end
  end.

(** ** Reads *)

Definition high_water (st : Storage) : N :=
  match st_store st with Some s => height_highwater s | None => 0 end.

Definition is_empty (st : Storage) : bool := bool_decide (st_store st = None).

Definition min_height (st : Storage) : N :=
  match st_store st with Some s => min_block_height s | None => 0 end.

Definition max_contiguous_height (st : Storage) : N :=
  match st_store st with Some s => store_max_contiguous s | None => 0 end.

Definition get_element (st : Storage) (height : N) (idx : nat) : result (option Element) :=
  match st_store st with
  | None => Ok None
  | Some store =>
      if decide (height < min_block_height store \/ height_highwater store < height)%N
      then Ok None
      else
        let? arc := read_block store height in
        match arc with
        | Some arc => at_ arc idx
        | None => Ok None
        end
  end.

Definition get_by_height (st : Storage) (height : N) : result (option Element) :=
  get_element st height BLOCK.

Definition height_of_hash (st : Storage) (hash : bytes) : result (option N) :=
  let? slice := db_get (st_db st) KHash hash in
  match slice with
  | None => Ok None
  | Some slice =>
      if decide (length slice = 8)%nat then Ok (Some (from_le_bytes slice))
      else Err EBadIndexEntry
  end.

Definition get_by_hash (st : Storage) (hash : bytes) : result (option Element) :=
  let? h := height_of_hash st hash in
  match h with
  | Some height => get_by_height st height
  | None => Ok None
  end.

Definition get_record (st : Storage) (height : N) : result (option bytes) :=
  match st_store st with
  | None => Ok None
  | Some store =>
      if decide (height < min_block_height store \/ height_highwater store < height)%N
      then Ok None
      else
        let? arc := read_block store height in
        match arc with
        | Some arc => if is_combined_record arc then Ok (Some arc) else Ok None
        | None => Ok None
        end
  end.

(** The loop of [read_element_range]: stops at the first height that is missing
    or has no such element. *)
Fixpoint read_range_loop (store : Store) (idx : nat) (hs : list N) (out : list bytes)
    : result (option (list bytes)) :=
  match hs with
  | [] => Ok (Some out)
  | height :: hs =>
      let? arc := read_block store height in
      match arc with
      | None => Ok None
      | Some arc =>
          let? part := element arc idx in
          match part with
          | None => Ok None
          | Some part => read_range_loop store idx hs (out ++ [slice part arc])
          end
      end
  end.

Definition read_element_range (st : Storage) (from to : N) (idx : nat)
    : result (option (list bytes)) :=
  match st_store st with
  | None => Ok None
  | Some store => read_range_loop store idx (heights from to) []
  end.

Definition get_tx_location (st : Storage) (tx_hash : bytes) : result (option (N * N)) :=
  let? slice := db_get (st_db st) KTx tx_hash in
  match slice with
  | None => Ok None
  | Some slice =>
      if decide (length slice = 12)%nat then
        Ok (Some (from_le_bytes (take 8 slice), from_le_bytes (drop 8 slice)))
      else Err EBadIndexEntry
  end.

(** ** Writes *)

(** The floor of a freshly created store: the anchor when it is set and not
    above the block being written, else the block itself. *)
Definition anchor_for (st : Storage) (height : N) : N :=
  match st_anchor_floor st with
  | Some f => if (f <=? height)%N then f else height
  | None => height
  end.

(** Stage 1, under the write lock: open on first use, then write the record. *)
Definition put_block (height : N) (combined : bytes) : M Storage unit := fun st =>
  match st_store st with
  | Some s => let '(s', r) := write_block s height combined in (set_store s' st, r)
  | None =>
      match store_create (anchor_for st height) with
      | None => (st, Err EBlockstore)
      | Some s => let '(s', r) := write_block s height combined in (set_store s' st, r)
      end
  end.

(** The 12-byte [tx_to_block] value; the index is cast [as u32]. *)
Definition tx_value (height : N) (idx : nat) : bytes :=
  to_le_bytes 8 height ++ to_le_bytes 4 (N.of_nat idx mod 2 ^ 32).

Definition index_batch (height : N) (hash : bytes) (tx_hashes : list bytes) : batch :=
  (KHash, hash, to_le_bytes 8 height)
    :: imap (fun idx tx => (KTx, tx, tx_value height idx)) tx_hashes.

(** Stage 2: one atomic batch over both indexes. *)
Definition put_index (height : N) (hash : bytes) (tx_hashes : list bytes) : M Storage unit :=
  fun st =>
    let '(db, r) := db_commit (index_batch height hash tx_hashes) (st_db st) in
    (set_db db st, r).

Definition put (height : N) (hash : bytes) (tx_hashes elements : list bytes)
    : M Storage unit := fun st =>
  let want := arity (st_chain st) in
  if decide (length elements <> want)
  then (st, Err (EWrongArity (N.of_nat want) (N.of_nat (length elements))))
  else (let! _ := put_block height (encode elements) in
        put_index height hash tx_hashes) st.

Definition persist : M Storage unit := fun st =>
  let '(db, r) := db_persist (st_db st) in (set_db db st, r).

End Storage.

#[global] Arguments index_batch : simpl never.
#[global] Arguments tx_value : simpl never.
