(* ===== verification/StorageSpec.v ===== *)
(** * What the store promises

    An abstract store - a finite map from heights to record elements and two
    finite index maps - and the refinement theorems: [put] implements
    insertion, the reads implement lookup, and the indexes never dangle.  The
    [meta] stamps keep a store bound to one chain and one network. *)

From Stdlib Require Import ZArith NArith Lia String Ascii.
From S2P Require Import Prelude Str Json Chain Record Backing Storage.

(** ** Lists of key-value writes *)

Section Writes.
Context {K V : Type} `{Countable K}.

Fixpoint last_value (k : K) (kvs : list (K * V)) : option V :=
  match kvs with
  | [] => None
  | (k', v) :: kvs =>
      match last_value k kvs with
      | Some v => Some v
      | None => if decide (k' = k) then Some v else None
      end
  end.

Definition insert_all (kvs : list (K * V)) (m : gmap K V) : gmap K V :=
  foldl (fun m kv => <[kv.1 := kv.2]> m) m kvs.

Lemma insert_all_lookup kvs m k :
  insert_all kvs m !! k =
    match last_value k kvs with Some v => Some v | None => m !! k end.
Proof.
  unfold insert_all. revert m; induction kvs as [|[k' v] kvs IH]; intros m; cbn; [done|].
  rewrite IH. destruct (last_value k kvs); [done|].
  rewrite lookup_insert. by case_decide.
Qed.

Lemma last_value_in k kvs v : last_value k kvs = Some v -> (k, v) ∈ kvs.
Proof.
  induction kvs as [|[k' v'] kvs IH]; cbn; [done|].
  destruct (last_value k kvs).
  - intros [= ->]. right. by apply IH.
  - case_decide as E; [|done]. intros [= ->]. subst. left.
Qed.

Lemma last_value_nodup k kvs v :
  NoDup kvs.*1 -> (k, v) ∈ kvs -> last_value k kvs = Some v.
Proof.
  induction kvs as [|[k' v'] kvs IH]; cbn; [by rewrite elem_of_nil|].
  rewrite NoDup_cons, elem_of_cons. intros [Hn Hnd] [[= -> ->]|Hin].
  - destruct (last_value k' kvs) as [w|] eqn:E.
    + apply last_value_in in E. destruct Hn. apply list_elem_of_fmap. by exists (k', w).
    + by rewrite decide_True.
  - by rewrite IH.
Qed.

End Writes.

(** ** The abstract store *)

Record Abs : Type := {
  a_blocks : gmap N (list bytes);
  a_hash : gmap bytes N;
  a_tx : gmap bytes (N * N)
}.

Definition abs_empty : Abs := {| a_blocks := ∅; a_hash := ∅; a_tx := ∅ |}.

(** Every transaction of a block with its height and position. *)
Definition tx_entries (height : N) (tx_hashes : list bytes) : list (bytes * (N * N)) :=
  imap (fun i tx => (tx, (height, N.of_nat i))) tx_hashes.

(** The two stages of a write. *)
Definition abs_block (height : N) (elements : list bytes) (a : Abs) : Abs :=
  {| a_blocks := <[height := elements]> (a_blocks a); a_hash := a_hash a; a_tx := a_tx a |}.

Definition abs_index (height : N) (hash : bytes) (tx_hashes : list bytes) (a : Abs) : Abs :=
  {| a_blocks := a_blocks a;
     a_hash := <[hash := height]> (a_hash a);
     a_tx := insert_all (tx_entries height tx_hashes) (a_tx a) |}.

Definition abs_put (height : N) (hash : bytes) (tx_hashes elements : list bytes) (a : Abs) : Abs :=
  {| a_blocks := <[height := elements]> (a_blocks a);
     a_hash := <[hash := height]> (a_hash a);
     a_tx := insert_all (tx_entries height tx_hashes) (a_tx a) |}.

(** Every index entry points at a stored height. *)
Definition index_sound (a : Abs) : Prop :=
  (forall k h, a_hash a !! k = Some h -> is_Some (a_blocks a !! h)) /\
  (forall k h i, a_tx a !! k = Some (h, i) -> is_Some (a_blocks a !! h)).

Lemma elem_of_tx_entries height txs tx h i :
  (tx, (h, i)) ∈ tx_entries height txs <->
  h = height /\ exists n, i = N.of_nat n /\ txs !! n = Some tx.
Proof.
  unfold tx_entries. rewrite elem_of_lookup_imap. split.
  - intros (n & x & [= -> -> ->] & Hx). eauto.
  - intros (-> & n & -> & Hn). eauto.
Qed.

Lemma tx_entries_keys height txs : (tx_entries height txs).*1 = txs.
Proof.
  unfold tx_entries. rewrite fmap_imap. apply list_eq. intros i.
  rewrite list_lookup_imap. by destruct (txs !! i).
Qed.

Lemma index_sound_empty : index_sound abs_empty.
Proof. split; intros; cbn in *; by simplify_map_eq. Qed.

Lemma index_sound_put height hash txs es a :
  index_sound a -> index_sound (abs_put height hash txs es a).
Proof.
  intros [Hh Ht]. split; cbn.
  - intros k h. rewrite !lookup_insert. repeat case_decide; naive_solver.
  - intros k h i. rewrite insert_all_lookup, lookup_insert.
    destruct (last_value k _) eqn:E.
    + intros [= ->]. apply last_value_in, elem_of_tx_entries in E as [-> _].
      rewrite decide_True by done. eauto.
    + case_decide; naive_solver.
Qed.

(** ** Refinement *)

Section Refinement.
Context {B : Blockstore} {F : Fjall} {J : JsonLib}.

Definition stored (st : Storage) (h : N) : result (option bytes) :=
  match st_store st with Some s => read_block s h | None => Ok None end.

(** A record this build writes for the chain: the right number of elements,
    each one JSON text. *)
Definition record_ok (c : Chain) (es : list bytes) : Prop :=
  length es = arity c /\ Forall json_text es.

Definition tx_bytes (loc : N * N) : bytes := to_le_bytes 8 loc.1 ++ to_le_bytes 4 (loc.2 mod 2 ^ 32).

Record refines (st : Storage) (a : Abs) : Prop := {
  ref_blocks : forall h, stored st h = Ok (encode <$> a_blocks a !! h);
  ref_hash : forall k, db_get (st_db st) KHash k = Ok (to_le_bytes 8 <$> a_hash a !! k);
  ref_tx : forall k, db_get (st_db st) KTx k = Ok (tx_bytes <$> a_tx a !! k);
  ref_records : forall h es, a_blocks a !! h = Some es -> record_ok (st_chain st) es;
  ref_hash_u64 : forall k h, a_hash a !! k = Some h -> is_u64 h;
  ref_tx_range : forall k h i, a_tx a !! k = Some (h, i) -> is_u64 h /\ (i <= u32_max)%N
}.

(** The same but for the heights where [P] does not hold, about whose records
    nothing is said. *)
Record refines_on (P : N -> Prop) (st : Storage) (a : Abs) : Prop := {
  ro_blocks : forall h, P h -> stored st h = Ok (encode <$> a_blocks a !! h);
  ro_hash : forall k, db_get (st_db st) KHash k = Ok (to_le_bytes 8 <$> a_hash a !! k);
  ro_tx : forall k, db_get (st_db st) KTx k = Ok (tx_bytes <$> a_tx a !! k);
  ro_records : forall h es, a_blocks a !! h = Some es -> record_ok (st_chain st) es;
  ro_hash_u64 : forall k h, a_hash a !! k = Some h -> is_u64 h;
  ro_tx_range : forall k h i, a_tx a !! k = Some (h, i) -> is_u64 h /\ (i <= u32_max)%N
}.

Lemma refines_refines_on st a : refines st a <-> refines_on (fun _ => True) st a.
Proof. split; intros [????]; split; eauto. Qed.

Lemma refines_on_weaken (P Q : N -> Prop) st a :
  (forall h, Q h -> P h) -> refines_on P st a -> refines_on Q st a.
Proof. intros HPQ [????]. split; eauto. Qed.

(** The bytes a read hands out. *)
Definition view (r : result (option Element)) : result (option bytes) :=
  match r with Ok o => Ok (deref <$> o) | Err e => Err e end.

Lemma arity_ge_2 c : (2 <= arity c)%nat.
Proof. destruct c; cbn; lia. Qed.

Lemma index_batch_hash height hash txs k :
  batch_value KHash k (index_batch height hash txs) =
    if decide (hash = k) then Some (to_le_bytes 8 height) else None.
Proof.
  unfold index_batch. cbn [batch_value].
  assert (batch_value KHash k (imap (fun idx tx => (KTx, tx, tx_value height idx)) txs) = None) as ->.
  { generalize (tx_value height) as f. induction txs as [|tx txs IH]; intros f; cbn; [done|].
    change (imap _ txs) with (imap (fun idx tx => (KTx, tx, (f ∘ S) idx)) txs).
    by rewrite IH, decide_False by naive_solver. }
  repeat case_decide; naive_solver.
Qed.

Lemma index_batch_tx height hash txs k :
  batch_value KTx k (index_batch height hash txs) =
    tx_bytes <$> last_value k (tx_entries height txs).
Proof.
  unfold index_batch. cbn [batch_value].
  rewrite (decide_False (P := KHash = KTx /\ _)) by naive_solver.
  assert (Hgen : forall n, batch_value KTx k (imap (fun idx tx => (KTx, tx, tx_value height (n + idx))) txs)
            = tx_bytes <$> last_value k (imap (fun i tx => (tx, (height, N.of_nat (n + i)))) txs)).
  { induction txs as [|tx txs IH]; intros n; [done|].
    cbn [imap batch_value last_value]. specialize (IH (S n)).
    assert (Hs : forall (A : Type) (f : nat -> bytes -> A),
              imap ((fun i tx => f (n + i) tx) ∘ S) txs = imap (fun i tx => f (S n + i) tx) txs).
    { intros A f. apply imap_ext. intros i x _. cbn. f_equal. lia. }
    rewrite (Hs _ (fun i tx => (KTx, tx, tx_value height i))), IH.
    rewrite (Hs _ (fun i tx => (tx, (height, N.of_nat i)))).
    destruct (last_value k _); [done|]. cbn [fmap option_fmap option_map]. rewrite Nat.add_0_r.
    repeat case_decide; naive_solver. }
  specialize (Hgen 0%nat). cbn [Nat.add] in Hgen. unfold tx_entries. rewrite Hgen.
  by destruct (last_value k _).
Qed.

(** ** Stage 1 and stage 2 of [put] *)

Context {BL : BlockstoreLaws B} {FL : FjallLaws F} {JL : JsonLaws J}.

Lemma put_block_ok height combined st st' :
  put_block height combined st = (st', Ok tt) ->
  st_chain st' = st_chain st /\ st_db st' = st_db st /\
  forall h, stored st' h = if decide (h = height) then Ok (Some combined) else stored st h.
Proof.
  unfold put_block. intros Hp.
  assert (exists s s', write_block s height combined = (s', Ok tt) /\ st' = set_store s' st /\
            forall h, read_block s h = stored st h) as (s & s' & Hw & -> & Hs).
  { destruct (st_store st) as [s|] eqn:Es.
    - destruct (write_block s height combined) as [s' r] eqn:Ew. simplify_eq.
      exists s, s'. unfold stored. by rewrite Es.
    - destruct (store_create _) as [s|] eqn:Ec; [|done].
      destruct (write_block s height combined) as [s' r] eqn:Ew. simplify_eq.
      exists s, s'. split; [done|]. split; [done|]. intros h.
      unfold stored. rewrite Es. by eapply create_empty. }
  split; [done|]. split; [done|]. intros h. unfold stored at 1. cbn.
  case_decide as Hh; subst; [by eapply write_same|].
  rewrite <-Hs. by eapply write_other.
Qed.

Lemma put_block_err height combined st st' e :
  put_block height combined st = (st', Err e) ->
  st_chain st' = st_chain st /\ st_db st' = st_db st /\
  forall h, h <> height -> stored st' h = stored st h.
Proof.
  unfold put_block, stored.
  destruct (st_store st) as [s|] eqn:Es.
  - destruct (write_block s height combined) as [s' r] eqn:Ew. intros [= <- ->]. cbn.
    repeat split; try done. intros h Hne. by eapply write_other.
  - destruct (store_create _) as [s|] eqn:Ec.
    + destruct (write_block s height combined) as [s' r] eqn:Ew. intros [= <- ->]. cbn.
      repeat split; try done. intros h Hne. erewrite write_other by done. by eapply create_empty.
    + intros [= <- <-]. rewrite Es. done.
Qed.

Lemma put_index_ok height hash txs st st' :
  put_index height hash txs st = (st', Ok tt) ->
  st_chain st' = st_chain st /\ st_store st' = st_store st /\
  forall ks k, db_get (st_db st') ks k =
    match batch_value ks k (index_batch height hash txs) with
    | Some v => Ok (Some v)
    | None => db_get (st_db st) ks k
    end.
Proof.
  unfold put_index. destruct (db_commit _ _) as [db r] eqn:E. intros [= <- ->]. cbn.
  repeat split; try done. intros ks k. by apply commit_ok.
Qed.

Lemma put_ok height hash txs es st st' :
  put height hash txs es st = (st', Ok tt) ->
  length es = arity (st_chain st) /\
  exists st1, put_block height (encode es) st = (st1, Ok tt) /\
              put_index height hash txs st1 = (st', Ok tt).
Proof.
  unfold put. case_decide as Hl; [done|]. intros Hb. split; [lia|].
  apply bind_ok in Hb as (st1 & [] & H1 & H2). eauto.
Qed.

(** Stage 1 inserts the record; stage 2 commits the two indexes. *)
Lemma put_block_refines_on P height es st st' a :
  refines_on P st a -> record_ok (st_chain st) es ->
  put_block height (encode es) st = (st', Ok tt) ->
  refines_on P st' (abs_block height es a).
Proof.
  intros [Hb Hh Ht Hr Hhu Htr] Hes Hp. destruct (put_block_ok _ _ _ _ Hp) as (Hc & Hd & Hs).
  split; cbn; rewrite ?Hc, ?Hd; try done.
  - intros h HP. rewrite Hs, lookup_insert. repeat case_decide; naive_solver.
  - intros h es'. rewrite lookup_insert. case_decide; [by intros [= <-]|apply Hr].
Qed.

Lemma put_block_err_refines_on (P : N -> Prop) height combined st st' e a :
  refines_on P st a -> ~ P height ->
  put_block height combined st = (st', Err e) ->
  refines_on P st' a.
Proof.
  intros [Hb Hh Ht Hr Hhu Htr] HP Hp. destruct (put_block_err _ _ _ _ _ Hp) as (Hc & Hd & Hs).
  split; rewrite ?Hc, ?Hd; try done.
  intros h HPh. rewrite Hs by (by intros ->). by apply Hb.
Qed.

Lemma put_index_refines_on P height hash txs st st' a :
  refines_on P st a -> is_u64 height -> (N.of_nat (length txs) <= u32_max)%N ->
  put_index height hash txs st = (st', Ok tt) ->
  refines_on P st' (abs_index height hash txs a).
Proof.
  intros [Hb Hh Ht Hr Hhu Htr] Hu Htx Hp. destruct (put_index_ok _ _ _ _ _ Hp) as (Hc & Hs & Hd).
  split; cbn; rewrite ?Hc; try done.
  - intros h. unfold stored. rewrite Hs. apply Hb.
  - intros k. rewrite Hd, index_batch_hash, Hh, lookup_insert. by case_decide.
  - intros k. rewrite Hd, index_batch_tx, Ht, insert_all_lookup. by destruct (last_value k _).
  - intros k h. rewrite lookup_insert. case_decide; [naive_solver|apply Hhu].
  - intros k h i. rewrite insert_all_lookup. destruct (last_value k _) eqn:E; [|apply Htr].
    intros [= ->]. apply last_value_in, elem_of_tx_entries in E as (-> & n & -> & Hn).
    split; [done|]. apply lookup_lt_Some in Hn. lia.
Qed.

Lemma put_index_err_refines_on P height hash txs st st' e a :
  refines_on P st a -> put_index height hash txs st = (st', Err e) -> refines_on P st' a.
Proof.
  intros [Hb Hh Ht Hr Hhu Htr]. unfold put_index. destruct (db_commit _ _) as [db r] eqn:E.
  intros [= <- ->]. split; cbn; try done; intros k; rewrite (commit_err _ _ _ _ _ _ E); auto.
Qed.

Lemma put_refines height hash txs es st st' a :
  refines st a -> is_u64 height -> Forall json_text es -> (N.of_nat (length txs) <= u32_max)%N ->
  put height hash txs es st = (st', Ok tt) ->
  refines st' (abs_put height hash txs es a).
Proof.
  rewrite !refines_refines_on. intros Hr Hu Hes Htx Hput.
  apply put_ok in Hput as (Hlen & st1 & Hp1 & Hp2).
  apply (put_block_refines_on _ _ _ _ _ _ Hr) in Hp1; [|done].
  by apply (put_index_refines_on _ _ _ _ _ _ _ Hp1).
Qed.

(** ** Reads of a refined store *)

Lemma stored_get_element st h idx :
  get_element st h idx =
    (let? arc := stored st h in
     match arc with Some arc => at_ arc idx | None => Ok None end)
  \/ exists e, stored st h = Err e /\ get_element st h idx = Ok None.
Proof.
  unfold get_element, stored. destruct (st_store st) as [s|]; [|by left].
  case_decide as Hr; [|by left].
  destruct (read_block s h) as [[b|]|e] eqn:E; [|by left|right; eauto].
  exfalso. assert (Hp : present s h) by (by exists b).
  apply present_min in Hp as Hm. apply present_highwater in Hp. lia.
Qed.

Lemma get_element_refines_on (P : N -> Prop) st a h idx :
  refines_on P st a -> P h ->
  view (get_element st h idx) = Ok (a_blocks a !! h ≫= fun es => es !! idx).
Proof.
  intros Hr HP. destruct (stored_get_element st h idx) as [->|(e & He & _)];
    [|by rewrite (ro_blocks _ _ _ Hr) in He].
  rewrite (ro_blocks _ _ _ Hr) by done. cbn [result_bind].
  destruct (a_blocks a !! h) as [es|] eqn:E; cbn; [|done].
  destruct (ro_records _ _ _ Hr _ _ E) as [Hlen Hes].
  pose proof (arity_ge_2 (st_chain st)).
  pose proof (at_encode es idx ltac:(lia) Hes) as Hat.
  destruct (es !! idx) as [e|]; [destruct Hat as (el & -> & <-)|rewrite Hat]; done.
Qed.

Lemma get_element_refines st a h idx :
  refines st a ->
  view (get_element st h idx) = Ok (a_blocks a !! h ≫= fun es => es !! idx).
Proof. rewrite refines_refines_on. intros Hr. by apply (get_element_refines_on _ _ _ _ _ Hr). Qed.

Lemma height_of_hash_refines_on P st a k :
  refines_on P st a -> height_of_hash st k = Ok (a_hash a !! k).
Proof.
  intros Hr. unfold height_of_hash. rewrite (ro_hash _ _ _ Hr).
  destruct (a_hash a !! k) as [h|] eqn:E; cbn -[to_le_bytes]; [|done].
  rewrite decide_True by apply length_to_le_bytes.
  by rewrite from_to_le_u64 by (eapply ro_hash_u64; eauto).
Qed.

Lemma height_of_hash_refines st a k :
  refines st a -> height_of_hash st k = Ok (a_hash a !! k).
Proof. rewrite refines_refines_on. apply height_of_hash_refines_on. Qed.

Lemma get_tx_location_refines_on P st a k :
  refines_on P st a -> get_tx_location st k = Ok (a_tx a !! k).
Proof.
  intros Hr. unfold get_tx_location. rewrite (ro_tx _ _ _ Hr).
  destruct (a_tx a !! k) as [[h i]|] eqn:E; cbn -[to_le_bytes]; [|done].
  destruct (ro_tx_range _ _ _ Hr _ _ _ E) as [Hh Hi].
  unfold tx_bytes; cbn [fst snd].
  rewrite decide_True by (by rewrite length_app, !length_to_le_bytes).
  rewrite take_app_length', drop_app_length' by (by rewrite length_to_le_bytes).
  rewrite from_to_le_u64 by done. rewrite N.mod_small.
  - by rewrite from_to_le_u32.
  - unfold u32_max in Hi. change (2 ^ 32)%N with 4294967296%N. lia.
Qed.

Lemma get_tx_location_refines st a k :
  refines st a -> get_tx_location st k = Ok (a_tx a !! k).
Proof. rewrite refines_refines_on. apply get_tx_location_refines_on. Qed.

Lemma read_range_loop_refines st a store idx hs out :
  refines st a -> st_store st = Some store ->
  read_range_loop store idx hs out =
    Ok ((fun l => out ++ l) <$> mapM (fun h => a_blocks a !! h ≫= fun es => es !! idx) hs).
Proof.
  intros Hr Hs. revert out. induction hs as [|h hs IH]; intros out; cbn [read_range_loop mapM].
  { cbn. by rewrite app_nil_r. }
  pose proof (ref_blocks _ _ Hr h) as Hb. unfold stored in Hb. rewrite Hs in Hb. rewrite Hb.
  cbn [result_bind]. destruct (a_blocks a !! h) as [es|] eqn:E; cbn; [|done].
  destruct (ref_records _ _ Hr _ _ E) as [Hlen Hes]. pose proof (arity_ge_2 (st_chain st)).
  rewrite element_encode by (done || lia). cbn [result_bind].
  destruct (es !! idx) as [e|] eqn:Ei; cbn.
  - destruct (array_text_slice _ _ _ Ei) as (s & -> & Hsl).
    rewrite IH, encode_array_text, Hsl. destruct (mapM _ hs); cbn; [|done].
    by rewrite <-app_assoc.
  - by rewrite element_spans_lookup_None.
Qed.

Lemma read_element_range_refines st a from to idx :
  refines st a -> st_store st <> None ->
  read_element_range st from to idx =
    Ok (mapM (fun h => a_blocks a !! h ≫= fun es => es !! idx) (heights from to)).
Proof.
  intros Hr Hs. unfold read_element_range. destruct (st_store st) as [store|] eqn:E; [|done].
  rewrite (read_range_loop_refines st a) by done. by destruct (mapM _ _).
Qed.

Lemma get_record_refines st a h :
  refines st a -> get_record st h = Ok (encode <$> a_blocks a !! h).
Proof.
  intros Hr. pose proof (ref_blocks _ _ Hr h) as Hb. unfold get_record, stored in *.
  destruct (st_store st) as [s|]; [|done]. case_decide as Hrange.
  - destruct (a_blocks a !! h) as [es|] eqn:E; [|done]. exfalso.
    assert (Hp : present s h) by (by eexists).
    apply present_min in Hp as Hm. apply present_highwater in Hp. lia.
  - rewrite Hb. cbn [result_bind]. destruct (a_blocks a !! h) as [es|]; cbn; [|done].
    by rewrite encode_combined.
Qed.

Lemma refines_present st a (s : Store) h :
  refines st a -> st_store st = Some s -> present s h -> is_Some (a_blocks a !! h).
Proof.
  intros Hr Hs [b Hb]. pose proof (ref_blocks _ _ Hr h) as H. unfold stored in H.
  rewrite Hs, Hb in H. destruct (a_blocks a !! h); [by eexists|done].
Qed.

End Refinement.

(** ** Sequences of writes *)

Section Traces.
Context {B : Blockstore} {F : Fjall} {J : JsonLib}.

(** The arguments of one [put] call. *)
Record PutCmd : Type := {
  cmd_height : N; cmd_hash : bytes; cmd_txs : list bytes; cmd_elements : list bytes
}.

Definition cmd_ok (c : PutCmd) : Prop :=
  is_u64 (cmd_height c) /\ Forall json_text (cmd_elements c) /\
  (N.of_nat (length (cmd_txs c)) <= u32_max)%N.

Definition run_put (c : PutCmd) : M Storage unit :=
  put (cmd_height c) (cmd_hash c) (cmd_txs c) (cmd_elements c).

Fixpoint run_puts (cs : list PutCmd) : M Storage unit :=
  match cs with
  | [] => ret tt
  | c :: cs => let! _ := run_put c in run_puts cs
  end.

Definition abs_run (cs : list PutCmd) (a : Abs) : Abs :=
  foldl (fun a c => abs_put (cmd_height c) (cmd_hash c) (cmd_txs c) (cmd_elements c) a) a cs.

(** ** Where the indexes point *)

Lemma last_value_some {K V} `{EqDecision K} (k : K) (v : V) kvs :
  (k, v) ∈ kvs -> is_Some (last_value k kvs).
Proof.
  induction kvs as [|[k' v'] kvs IH]; [by intros ?%not_elem_of_nil|]. cbn.
  intros [[= -> ->]|Hin]%elem_of_cons.
  - destruct (last_value k' kvs); [eauto|]. rewrite decide_True by done. eauto.
  - destruct (IH Hin) as [w ->]. eauto.
Qed.

(** Distinct heights: the transaction index points at the block that wrote it. *)
Lemma abs_run_tx cs k h i :
  NoDup (cmd_height <$> cs) -> a_tx (abs_run cs abs_empty) !! k = Some (h, i) ->
  exists c n, c ∈ cs /\ cmd_height c = h /\ i = N.of_nat n /\ cmd_txs c !! n = Some k /\
    a_blocks (abs_run cs abs_empty) !! h = Some (cmd_elements c).
Proof.
  induction cs as [|c cs IH] using rev_ind; [by intros _; cbn; rewrite lookup_empty|].
  unfold abs_run. rewrite fmap_app, foldl_app. cbn [fmap list_fmap foldl].
  rewrite NoDup_app. intros (Hnd & Hdisj & _). fold (abs_run cs abs_empty). cbn [a_tx a_blocks abs_put].
  rewrite insert_all_lookup. destruct (last_value k _) as [p|] eqn:El.
  - intros [= ->]. apply last_value_in, elem_of_tx_entries in El as (-> & n & -> & Hn).
    exists c, n. rewrite lookup_insert_eq. split; [set_solver|]. done.
  - intros Hk. destruct (IH Hnd Hk) as (c' & n & Hin & Hh & -> & Hn & Hb).
    exists c', n. split; [set_solver|]. split; [done|]. split; [done|]. split; [done|].
    rewrite lookup_insert_ne; [done|]. intros Heq. apply (Hdisj h).
    + apply list_elem_of_fmap. by exists c'.
    + rewrite <- Heq. apply elem_of_cons. by left.
Qed.

Lemma abs_run_tx_some cs c n k :
  c ∈ cs -> cmd_txs c !! n = Some k -> is_Some (a_tx (abs_run cs abs_empty) !! k).
Proof.
  induction cs as [|c' cs IH] using rev_ind; [by intros ?%not_elem_of_nil|]. intros Hin Hn.
  unfold abs_run. rewrite foldl_app. cbn [foldl]. fold (abs_run cs abs_empty). cbn [a_tx abs_put].
  rewrite insert_all_lookup. destruct (last_value k _) as [p|] eqn:El; [eauto|].
  apply elem_of_app in Hin as [Hin|[->|?%not_elem_of_nil]%elem_of_cons]; [by apply IH| |done].
  destruct (last_value_some k (cmd_height c', N.of_nat n) (tx_entries (cmd_height c') (cmd_txs c'))) as [w Hw].
  { apply elem_of_tx_entries. eauto. }
  congruence.
Qed.

Lemma abs_run_hash_height cs k h :
  a_hash (abs_run cs abs_empty) !! k = Some h -> exists c, c ∈ cs /\ cmd_height c = h.
Proof.
  induction cs as [|d cs IH] using rev_ind; [by cbn; rewrite lookup_empty|].
  unfold abs_run. rewrite foldl_app. cbn [foldl]. fold (abs_run cs abs_empty). cbn [a_hash abs_put].
  destruct (decide (cmd_hash d = k)) as [<-|Hne].
  - rewrite lookup_insert_eq. intros [= Hh]. exists d. split; [set_solver|done].
  - rewrite lookup_insert_ne by done. intros Hk. destruct (IH Hk) as (c' & Hin & Hh). exists c'. set_solver.
Qed.

(** Distinct heights: the hash index points at the record that wrote it. *)
Lemma abs_run_hash cs k h :
  NoDup (cmd_height <$> cs) -> a_hash (abs_run cs abs_empty) !! k = Some h ->
  exists c, c ∈ cs /\ cmd_hash c = k /\ a_blocks (abs_run cs abs_empty) !! h = Some (cmd_elements c).
Proof.
  induction cs as [|c cs IH] using rev_ind; [by intros _; cbn; rewrite lookup_empty|].
  unfold abs_run. rewrite fmap_app, foldl_app. cbn [fmap list_fmap foldl].
  rewrite NoDup_app. intros (Hnd & Hdisj & _). fold (abs_run cs abs_empty). cbn [a_hash a_blocks abs_put].
  destruct (decide (cmd_hash c = k)) as [<-|Hne].
  - rewrite lookup_insert_eq. intros [= <-]. exists c. rewrite lookup_insert_eq. split; [set_solver|done].
  - rewrite lookup_insert_ne by done. intros Hk. destruct (IH Hnd Hk) as (c' & Hin & Hh & Hb).
    exists c'. split; [set_solver|]. split; [done|].
    destruct (decide (cmd_height c = h)) as [<-|]; [|by rewrite lookup_insert_ne].
    exfalso. destruct (abs_run_hash_height _ _ _ Hk) as (d & Hd & Hdh). apply (Hdisj (cmd_height c)).
    + apply list_elem_of_fmap. by exists d.
    + apply elem_of_cons. by left.
Qed.

Lemma abs_run_hash_some cs c :
  c ∈ cs -> is_Some (a_hash (abs_run cs abs_empty) !! cmd_hash c).
Proof.
  induction cs as [|d cs IH] using rev_ind; [by intros ?%not_elem_of_nil|]. intros Hin.
  unfold abs_run. rewrite foldl_app. cbn [foldl]. fold (abs_run cs abs_empty). cbn [a_hash abs_put].
  destruct (decide (cmd_hash d = cmd_hash c)) as [->|Hne]; [rewrite lookup_insert_eq; eauto|].
  rewrite lookup_insert_ne by done.
  apply elem_of_app in Hin as [Hin|[->|?%not_elem_of_nil]%elem_of_cons]; [by apply IH|done|done].
Qed.

(** A store nothing has been written to. *)
Definition fresh (st : Storage) : Prop :=
  st_store st = None /\
  (forall k, db_get (st_db st) KHash k = Ok None) /\
  (forall k, db_get (st_db st) KTx k = Ok None).

Context {BL : BlockstoreLaws B} {FL : FjallLaws F} {JL : JsonLaws J}.

Lemma fresh_refines st : fresh st -> refines st abs_empty.
Proof.
  intros (Hs & Hh & Ht). split; cbn; try (intros; by simplify_map_eq).
  intros h. unfold stored. by rewrite Hs, lookup_empty.
Qed.

Lemma run_puts_refines cs st st' a :
  refines st a -> index_sound a -> Forall cmd_ok cs -> run_puts cs st = (st', Ok tt) ->
  refines st' (abs_run cs a) /\ index_sound (abs_run cs a).
Proof.
  revert st a; induction cs as [|c cs IH]; intros st a Hr Hi Hok; cbn [run_puts].
  - intros [= <-]. done.
  - intros Hrun. apply bind_ok in Hrun as (st1 & [] & H1 & H2).
    apply Forall_cons in Hok as [(Hu & Hj & Ht) Hok].
    apply (IH st1); [by eapply put_refines|by apply index_sound_put|done|done].
Qed.

(** C1: after any sequence of successful writes to a fresh store, every read
    agrees with the abstract store: an element read returns exactly the bytes
    last written at that height, the hash and transaction indexes return the
    last height and position written for a key, and a by-hash read returns the
    block of the height it resolves to - an index entry never dangles. *)
Theorem storage_refinement cs st st' :
  fresh st -> Forall cmd_ok cs -> run_puts cs st = (st', Ok tt) ->
  let a := abs_run cs abs_empty in
  (forall h idx, view (get_element st' h idx) = Ok (a_blocks a !! h ≫= fun es => es !! idx)) /\
  (forall k, height_of_hash st' k = Ok (a_hash a !! k)) /\
  (forall k, get_tx_location st' k = Ok (a_tx a !! k)) /\
  (forall k h, a_hash a !! k = Some h ->
     exists es block, a_blocks a !! h = Some es /\ es !! BLOCK = Some block /\
       view (get_by_hash st' k) = Ok (Some block)).
Proof.
  intros Hf Hok Hrun a; subst a.
  destruct (run_puts_refines cs st st' abs_empty (fresh_refines _ Hf) index_sound_empty Hok Hrun)
    as [Hr [Hs _]].
  split; [|split; [|split]].
  - intros. by apply get_element_refines.
  - intros. by apply height_of_hash_refines.
  - intros. by apply get_tx_location_refines.
  - intros k h Hk. destruct (Hs k h Hk) as [es Hes].
    destruct (ref_records _ _ Hr _ _ Hes) as [Hlen _].
    destruct (lookup_lt_is_Some_2 es BLOCK) as [block Hb].
    { pose proof (arity_ge_2 (st_chain st')). unfold BLOCK. lia. }
    exists es, block. split; [done|]. split; [done|].
    unfold get_by_hash. rewrite (height_of_hash_refines st' _ k Hr), Hk. cbn [result_bind].
    unfold get_by_height. rewrite (get_element_refines st' _ h BLOCK Hr), Hes. cbn. by rewrite Hb.
Qed.

(** C30: the failure window of [put].  When the index commit fails after the
    block write, the height is served by height, every element of it, but the hash
    and transaction indexes answer exactly as before the call; when the element
    count is wrong, nothing changes at all.  However a [put] fails, no other height
    and no index entry changes. *)
Theorem put_failure_window height hash txs es st st' e :
  Forall json_text es -> put height hash txs es st = (st', Err e) ->
  (length es <> arity (st_chain st) -> st' = st) /\
  (forall k, height_of_hash st' k = height_of_hash st k) /\
  (forall k, get_tx_location st' k = get_tx_location st k) /\
  (forall h, h <> height -> stored st' h = stored st h) /\
  (forall st1 idx, length es = arity (st_chain st) -> put_block height (encode es) st = (st1, Ok tt) ->
     view (get_element st' height idx) = Ok (es !! idx)).
Proof.
  intros Hes. unfold put. case_decide as Hl.
  { intros [= <- _]. repeat split; try done. }
  unfold bind. destruct (put_block height (encode es) st) as [st1 [[]|e1]] eqn:E1.
  - unfold put_index. destruct (db_commit _ _) as [db r] eqn:Ec. intros [= <- ->].
    destruct (put_block_ok _ _ _ _ E1) as (Hc & Hd & Hs). rewrite Hd in Ec.
    split_and!; [done| | | |].
    + intros k. unfold height_of_hash; cbn. by erewrite commit_err by done.
    + intros k. unfold get_tx_location; cbn. by erewrite commit_err by done.
    + intros h Hne. change (stored (set_db db st1) h) with (stored st1 h). by rewrite Hs, decide_False.
    + intros st2 idx Hlen [= <-].
      destruct (stored_get_element (set_db db st1) height idx) as [->|(e' & He' & _)].
      2:{ unfold stored in He'; cbn in He'. change (stored st1 height = Err e') in He'.
          rewrite Hs, decide_True in He' by done. done. }
      change (stored (set_db db st1) height) with (stored st1 height).
      rewrite Hs, decide_True by done. cbn [result_bind].
      pose proof (arity_ge_2 (st_chain st)).
      pose proof (at_encode es idx ltac:(lia) Hes) as Hat.
      destruct (es !! idx); [destruct Hat as (el & -> & <-)|rewrite Hat]; done.
  - intros [= <- <-]. destruct (put_block_err _ _ _ _ _ E1) as (Hc & Hd & Hs).
    split; [done|]. unfold height_of_hash, get_tx_location. rewrite Hd. by split_and!.
Qed.

(** ** Contiguity *)

(** The store holds its own floor, so the contiguous frontier is meaningful. *)
Definition anchored (st : Storage) : Prop :=
  exists s, st_store st = Some s /\ present s (min_block_height s).

Lemma put_height_present height hash txs es st st' :
  put height hash txs es st = (st', Ok tt) ->
  exists s, st_store st' = Some s /\ read_block s height = Ok (Some (encode es)) /\
    (forall h b, stored st h = Ok (Some b) -> present s h).
Proof.
  intros Hp. apply put_ok in Hp as (_ & st1 & Hp1 & Hp2).
  destruct (put_block_ok _ _ _ _ Hp1) as (_ & _ & Hs1).
  destruct (put_index_ok _ _ _ _ _ Hp2) as (_ & Hs2 & _).
  pose proof (Hs1 height) as Hh. rewrite decide_True in Hh by done.
  unfold stored in Hh, Hs1. rewrite Hs2. destruct (st_store st1) as [s|] eqn:E; [|done].
  exists s. split; [done|]. split; [done|]. intros h b Hb. unfold present. rewrite Hs1.
  case_decide; eauto.
Qed.

Lemma put_min height hash txs es st st' s :
  put height hash txs es st = (st', Ok tt) -> st_store st = Some s -> min_height st' = min_block_height s.
Proof.
  intros Hp Hs. apply put_ok in Hp as (_ & st1 & Hp1 & Hp2).
  destruct (put_index_ok _ _ _ _ _ Hp2) as (_ & Hs2 & _). unfold min_height. rewrite Hs2.
  unfold put_block in Hp1. rewrite Hs in Hp1.
  destruct (write_block s height (encode es)) as [s' r] eqn:Ew. simplify_eq. cbn.
  by eapply write_min.
Qed.

Lemma contiguous_at_least (s : Store) (h : N) :
  (forall h', (min_block_height s <= h' <= h)%N -> present s h') ->
  (min_block_height s <= h)%N -> (h <= store_max_contiguous s)%N.
Proof.
  intros Hall Hle. destruct (N.le_gt_cases h (store_max_contiguous s)) as [|Hgt]; [done|].
  assert (Hm : present s (min_block_height s)) by (apply Hall; lia).
  exfalso. apply (contiguous_maximal s Hm). apply Hall. pose proof (contiguous_ge s Hm). lia.
Qed.

(** Writing the next height moves the frontier to at least that height, and
    the store stays anchored. *)
Lemma put_next_contiguous hash txs es st st' :
  anchored st ->
  put (max_contiguous_height st + 1) hash txs es st = (st', Ok tt) ->
  anchored st' /\ (max_contiguous_height st + 1 <= max_contiguous_height st')%N.
Proof.
  intros (s & Hs & Hm) Hp.
  assert (Hmc : max_contiguous_height st = store_max_contiguous s) by (unfold max_contiguous_height; by rewrite Hs).
  rewrite Hmc in *.
  destruct (put_height_present _ _ _ _ _ _ Hp) as (s' & Hs' & Hread & Hkeep).
  pose proof (put_min _ _ _ _ _ _ _ Hp Hs) as Hmin. unfold min_height in Hmin. rewrite Hs' in Hmin.
  assert (Hall : forall h, (min_block_height s' <= h <= store_max_contiguous s + 1)%N -> present s' h).
  { intros h Hh. destruct (decide (h = store_max_contiguous s + 1)%N) as [->|]; [by eexists|].
    rewrite Hmin in Hh. destruct (contiguous_present s h Hm) as [b Hb]; [lia|].
    apply (Hkeep h b). unfold stored. by rewrite Hs. }
  pose proof (contiguous_ge s Hm) as Hge. split.
  - exists s'. split; [done|]. apply Hall. lia.
  - unfold max_contiguous_height. rewrite Hs'. apply contiguous_at_least; [done|lia].
Qed.

(** A later write never moves the frontier back. *)
Lemma put_contiguous_mono height hash txs es st st' :
  anchored st -> put height hash txs es st = (st', Ok tt) ->
  anchored st' /\ (max_contiguous_height st <= max_contiguous_height st')%N.
Proof.
  intros (s & Hs & Hm) Hp.
  destruct (put_height_present _ _ _ _ _ _ Hp) as (s' & Hs' & _ & Hkeep).
  pose proof (put_min _ _ _ _ _ _ _ Hp Hs) as Hmin. unfold min_height in Hmin. rewrite Hs' in Hmin.
  unfold max_contiguous_height. rewrite Hs, Hs'. pose proof (contiguous_ge s Hm) as Hge.
  assert (Hall : forall h, (min_block_height s' <= h <= store_max_contiguous s)%N -> present s' h).
  { intros h Hh. rewrite Hmin in Hh. destruct (contiguous_present s h Hm Hh) as [b Hb].
    apply (Hkeep h b). unfold stored. by rewrite Hs. }
  split; [|apply contiguous_at_least; [done|lia]].
  exists s'. split; [done|]. apply Hall. lia.
Qed.

(** A height that is present and no more than one past the frontier is within
    the frontier. *)
Lemma frontier_reaches st h b :
  anchored st -> stored st h = Ok (Some b) -> (h <= max_contiguous_height st + 1)%N ->
  (h <= max_contiguous_height st)%N.
Proof.
  intros (s & Hs & Hm). unfold stored, max_contiguous_height. rewrite Hs. intros Hb Hle.
  destruct (decide (h = store_max_contiguous s + 1)%N) as [->|]; [|lia].
  exfalso. apply (contiguous_maximal s Hm). by exists b.
Qed.

(** The frontier lies between the floor and the highest height. *)
Lemma anchored_min st : anchored st -> (min_height st <= max_contiguous_height st)%N.
Proof.
  intros (s & Hs & Hm). unfold min_height, max_contiguous_height. rewrite Hs. by apply contiguous_ge.
Qed.

Lemma anchored_highwater st : anchored st -> (max_contiguous_height st <= high_water st)%N.
Proof.
  intros (s & Hs & Hm). unfold max_contiguous_height, high_water. rewrite Hs.
  apply present_highwater. apply contiguous_present; [done|]. split; [by apply contiguous_ge|lia].
Qed.

(** ** Stores that only move by [put]s of one kind *)

Definition evolves (Q : PutCmd -> Prop) (st st' : Storage) (r : result unit) : Prop :=
  exists cs, Forall Q cs /\ run_puts cs st = (st', r).

Lemma evolves_refl Q st : evolves Q st st (Ok tt).
Proof. by exists []. Qed.

Lemma evolves_one (Q : PutCmd -> Prop) c st st' r : Q c -> run_put c st = (st', r) -> evolves Q st st' r.
Proof.
  intros Hc Hr. exists [c]. split; [by repeat constructor|]. cbn [run_puts]. unfold bind. rewrite Hr.
  by destruct r as [[]|].
Qed.

Lemma run_puts_app cs1 cs2 st st1 :
  run_puts cs1 st = (st1, Ok tt) -> run_puts (cs1 ++ cs2) st = run_puts cs2 st1.
Proof.
  revert st; induction cs1 as [|c cs1 IH]; intros st; cbn [run_puts app]; [by intros [= ->]|].
  intros Hrun. apply bind_ok in Hrun as (st2 & [] & H1 & H2). unfold bind. rewrite H1. by apply IH.
Qed.

Lemma evolves_trans Q st st1 st2 r :
  evolves Q st st1 (Ok tt) -> evolves Q st1 st2 r -> evolves Q st st2 r.
Proof.
  intros (cs1 & H1 & E1) (cs2 & H2 & E2). exists (cs1 ++ cs2). split; [by apply Forall_app|].
  by rewrite (run_puts_app cs1 cs2 st st1).
Qed.

(** The first write of a store with no floor above it anchors it there. *)
Lemma put_first_anchored height hash txs es st st' :
  st_store st = None -> anchor_for st height = height ->
  put height hash txs es st = (st', Ok tt) ->
  anchored st' /\ min_height st' = height /\ (height <= max_contiguous_height st')%N.
Proof.
  intros Hs Ha Hp. pose proof Hp as Hp'. apply put_ok in Hp' as (_ & st1 & Hp1 & Hp2).
  destruct (put_index_ok _ _ _ _ _ Hp2) as (_ & Hs2 & _).
  unfold put_block in Hp1. rewrite Hs, Ha in Hp1.
  destruct (store_create height) as [s0|] eqn:Ec; [|done].
  destruct (write_block s0 height (encode es)) as [s r] eqn:Ew. simplify_eq. cbn in Hs2.
  assert (Hmin : min_block_height s = height) by (rewrite (write_min _ _ _ _ _ Ew); by eapply create_min).
  assert (Hpr : present s (min_block_height s)) by (rewrite Hmin; eexists; by eapply write_same).
  unfold anchored, min_height, max_contiguous_height. rewrite Hs2. repeat split; eauto.
  rewrite <-Hmin. by apply contiguous_ge.
Qed.

End Traces.

(** ** The [meta] stamps *)

Section Stamps.
Context {B : Blockstore} {F : Fjall} {J : JsonLib}.

(** The database carries the three stamps of this chain and network. *)
Definition stamped (chain : Chain) (identity : string) (db : Db) : Prop :=
  (exists c, db_get db KMeta CHAIN_KEY = Ok (Some c) /\ bytes_str c = Chain.as_str chain) /\
  (exists i, db_get db KMeta IDENTITY_KEY = Ok (Some i) /\ bytes_str i = identity) /\
  (exists f, db_get db KMeta FORMAT_VERSION_KEY = Ok (Some f) /\
             parse_u32 (bytes_str f) = Some (format_version chain)).

Lemma from_utf8_ok b s : from_utf8 b = Ok s -> bytes_str b = s.
Proof. unfold from_utf8. destruct (utf8_valid b); [by intros [= <-]|done]. Qed.

Context {FL : FjallLaws F}.

Lemma check_chain_ok chain pop c :
  check_chain chain pop (Some c) = Ok tt -> bytes_str c = Chain.as_str chain.
Proof.
  unfold check_chain. intros H. apply result_bind_ok in H as (s & Hs & H).
  apply from_utf8_ok in Hs. subst. by case_decide.
Qed.

Lemma check_identity_ok identity i :
  check_identity identity (Some i) = Ok tt -> bytes_str i = identity.
Proof.
  unfold check_identity. intros H. apply result_bind_ok in H as (s & Hs & H).
  apply from_utf8_ok in Hs. subst. by case_decide.
Qed.

Lemma check_format_ok chain hbd i f :
  check_format chain hbd i (Some f) = Ok tt ->
  parse_u32 (bytes_str f) = Some (format_version chain).
Proof.
  unfold check_format. intros H. apply result_bind_ok in H as (s & Hs & H).
  apply result_bind_ok in H as (v & Hv & H). apply from_utf8_ok in Hs. subst.
  case_decide as Hd; [done|]. destruct (parse_u32 _) as [w|]; [|done].
  injection Hv as ->. by f_equal.
Qed.

(** One conditional stamp: the key is set afterwards, other keys are not
    touched. *)
Lemma insert_if_none_ok o k v db db' :
  db_get db KMeta k = Ok o -> insert_if_none o k v db = (db', Ok tt) ->
  db_get db' KMeta k = Ok (Some (default v o)) /\
  forall k', k' <> k -> db_get db' KMeta k' = db_get db KMeta k'.
Proof.
  intros Ho. destruct o as [w|]; cbn.
  - intros [= <-]. done.
  - intros Hi. split.
    + rewrite (insert_ok _ _ _ _ _ _ _ Hi). by rewrite decide_True.
    + intros k' Hne. rewrite (insert_ok _ _ _ _ _ _ _ Hi). rewrite decide_False; naive_solver.
Qed.

Lemma keys_distinct :
  CHAIN_KEY <> IDENTITY_KEY /\ CHAIN_KEY <> FORMAT_VERSION_KEY /\ IDENTITY_KEY <> FORMAT_VERSION_KEY.
Proof. by vm_compute. Qed.

Lemma format_version_stamp chain :
  parse_u32 (bytes_str (str_bytes (to_decimal (format_version chain)))) = Some (format_version chain).
Proof. rewrite bytes_str_of_bytes. by destruct chain. Qed.

Lemma verify_and_stamp_ok chain identity hbd db db' :
  verify_and_stamp_meta chain identity hbd db = (db', Ok tt) -> stamped chain identity db'.
Proof.
  destruct keys_distinct as (H1 & H2 & H3).
  unfold verify_and_stamp_meta. intros H.
  apply bind_ok in H as (d1 & oi & Hi & H). unfold meta_get in Hi. injection Hi as <- Hi.
  apply bind_ok in H as (d2 & ofm & Hf & H). unfold meta_get in Hf. injection Hf as <- Hf.
  apply bind_ok in H as (d3 & oc & Hc & H). unfold meta_get in Hc. injection Hc as <- Hc.
  apply bind_ok in H as (d4 & [] & Hcc & H). unfold lift in Hcc. injection Hcc as <- Hcc.
  apply bind_ok in H as (d5 & [] & Hci & H). unfold lift in Hci. injection Hci as <- Hci.
  apply bind_ok in H as (d6 & [] & Hcf & H). unfold lift in Hcf. injection Hcf as <- Hcf.
  apply bind_ok in H as (d7 & [] & Hs1 & H).
  apply bind_ok in H as (d8 & [] & Hs2 & H).
  apply bind_ok in H as (d9 & [] & Hs3 & H).
  destruct (insert_if_none_ok _ _ _ _ _ Hc Hs1) as [G1 O1].
  destruct (insert_if_none_ok oi IDENTITY_KEY _ d7 d8 ltac:(by rewrite O1) Hs2) as [G2 O2].
  destruct (insert_if_none_ok ofm FORMAT_VERSION_KEY _ d8 d9 ltac:(by rewrite O2, O1) Hs3) as [G3 O3].
  assert (Hfin : forall k, db_get db' KMeta k = db_get d9 KMeta k).
  { intros k. destruct (_ || _) in H; [by eapply persist_get|by injection H as ->]. }
  rewrite <-O2 in G1 by done. rewrite <-O3 in G1 by done. rewrite <-O3 in G2 by done.
  rewrite <-Hfin in G1, G2, G3. split; [|split]; eexists; (split; [done|]).
  - destruct oc; cbn; [by eapply check_chain_ok|]. apply bytes_str_of_bytes.
  - destruct oi; cbn; [by eapply check_identity_ok|]. apply bytes_str_of_bytes.
  - destruct ofm; cbn; [by eapply check_format_ok|]. apply format_version_stamp.
Qed.

(** Opening a stamped database succeeds only for the chain and network it is
    stamped with. *)
Lemma verify_stamped_only c1 i1 c2 i2 hbd db db' :
  stamped c1 i1 db -> verify_and_stamp_meta c2 i2 hbd db = (db', Ok tt) -> c1 = c2 /\ i1 = i2.
Proof.
  intros ((c & Hc & Hcs) & (i & Hi & His) & (f & Hf & _)).
  unfold verify_and_stamp_meta, bind, meta_get, lift. rewrite Hi, Hf, Hc.
  destruct (check_chain _ _ _) as [[]|] eqn:E1; [|done].
  destruct (check_identity _ _) as [[]|] eqn:E2; [|done]. intros _.
  apply check_chain_ok in E1. apply check_identity_ok in E2.
  split; [apply as_str_inj|]; congruence.
Qed.

Lemma open_ok chain identity anchor d d' st :
  open chain identity anchor d = (d', Ok st) ->
  exists hbd, verify_and_stamp_meta chain identity hbd (disk_db d) = (st_db st, Ok tt).
Proof.
  unfold open. set (hbd := bool_decide _). intros H. exists hbd.
  destruct (verify_and_stamp_meta _ _ _ _) as [db [[]|]]; [|done].
  destruct (disk_store d) as [s|]; [destruct (store_reopen s)|]; by simplify_eq.
Qed.

Lemma index_batch_meta height hash txs k : batch_value KMeta k (index_batch height hash txs) = None.
Proof.
  unfold index_batch. cbn [batch_value].
  assert (batch_value KMeta k (imap (fun idx tx => (KTx, tx, tx_value height idx)) txs) = None) as ->.
  { generalize (tx_value height) as f. induction txs as [|tx txs IH]; intros f; cbn; [done|].
    change (imap _ txs) with (imap (fun idx tx => (KTx, tx, (f ∘ S) idx)) txs).
    by rewrite IH, decide_False by naive_solver. }
  rewrite decide_False; naive_solver.
Qed.

Lemma put_meta height hash txs es st st' r k :
  put height hash txs es st = (st', r) -> db_get (st_db st') KMeta k = db_get (st_db st) KMeta k.
Proof.
  unfold put. case_decide; [by intros [= <- _]|]. unfold bind.
  assert (Hdb : forall st1 r1, put_block height (encode es) st = (st1, r1) -> st_db st1 = st_db st).
  { intros st1 r1. unfold put_block.
    destruct (st_store st) as [s|].
    - destruct (write_block s height _). by intros [= <- _].
    - destruct (store_create _) as [s|]; [|by intros [= <- _]].
      destruct (write_block s height _). by intros [= <- _]. }
  destruct (put_block height (encode es) st) as [st1 [[]|e]] eqn:E1.
  - unfold put_index. destruct (db_commit _ _) as [db r'] eqn:Ec. intros [= <- <-]. cbn.
    rewrite (Hdb _ _ eq_refl) in Ec. destruct r' as [[]|e].
    + rewrite (commit_ok _ _ _ _ _ Ec). by rewrite index_batch_meta.
    + by erewrite commit_err by done.
  - intros [= <- _]. by rewrite (Hdb _ _ eq_refl).
Qed.

Lemma run_puts_meta cs st st' r k :
  run_puts cs st = (st', r) -> db_get (st_db st') KMeta k = db_get (st_db st) KMeta k.
Proof.
  revert st; induction cs as [|c cs IH]; intros st; cbn [run_puts].
  - by intros [= <- _].
  - unfold bind. destruct (run_put c st) as [st1 [[]|]] eqn:E; apply (fun H => put_meta _ _ _ _ _ _ _ k H) in E.
    + intros H. rewrite (IH _ H). done.
    + by intros [= <- _].
Qed.

(** C31: a data directory is bound to one chain and one network for good.  Once
    [open] has succeeded, then after any writes - successful or not - a later
    [open] of the same directory succeeds only with the same chain and the same
    network identity. *)
Theorem open_binds_chain_and_network c1 i1 a1 d d1 st1 cs st2 r c2 i2 a2 d3 st3 :
  open c1 i1 a1 d = (d1, Ok st1) ->
  run_puts cs st1 = (st2, r) ->
  open c2 i2 a2 {| disk_store := st_store st2; disk_db := st_db st2 |} = (d3, Ok st3) ->
  c1 = c2 /\ i1 = i2.
Proof.
  intros H1 Hp H2. apply open_ok in H1 as (h1 & H1). apply open_ok in H2 as (h2 & H2).
  apply verify_and_stamp_ok in H1.
  assert (Hst : stamped c1 i1 (st_db st2)).
  { unfold stamped in *. by rewrite !(run_puts_meta cs st1 st2 r _ Hp). }
  by eapply verify_stamped_only.
Qed.

(** The three stamps a disk carries: network identity, format version, chain. *)
Definition carries_stamps (d : Disk) (identity format chain : option bytes) : Prop :=
  db_get (disk_db d) KMeta IDENTITY_KEY = Ok identity /\
  db_get (disk_db d) KMeta FORMAT_VERSION_KEY = Ok format /\
  db_get (disk_db d) KMeta CHAIN_KEY = Ok chain.

(** What [open] refuses without touching the disk: block data with no
    network stamp (nothing says which network it is from), a populated store
    with no chain stamp opened as anything but the C-chain, and a stored format
    version other than this build's. *)
Theorem open_refusals chain identity anchor d i f c :
  carries_stamps d i f c ->
  (is_Some (disk_store d) /\ i = None /\ f = None) \/
  (c = None /\ chain <> C /\ (is_Some (disk_store d) \/ is_Some i \/ is_Some f)) \/
  (exists b, f = Some b /\ parse_u32 (bytes_str b) <> Some (format_version chain)) ->
  exists e, open chain identity anchor d = (d, Err e).
Proof.
  intros (Hi & Hf & Hc) Hcase. unfold open, verify_and_stamp_meta, bind, meta_get, lift.
  rewrite Hi, Hf, Hc. destruct d as [ds db]; cbn [disk_store disk_db] in *.
  destruct (check_chain _ _ _) as [[]|e1] eqn:E1; [|eauto].
  destruct (check_identity _ _) as [[]|e2] eqn:E2; [|eauto].
  destruct (check_format _ _ _ _) as [[]|e3] eqn:E3; [|eauto]. exfalso.
  destruct Hcase as [(Hd & -> & ->)|[(-> & Hne & Hpop)|(b & -> & Hb)]].
  - cbn in E3. rewrite bool_decide_true in E3 by done. done.
  - cbn in E1. rewrite (bool_decide_false (chain = C)) in E1 by done.
    destruct Hpop as [H|[H|H]]; rewrite (bool_decide_true _ H) in E1;
      rewrite ?orb_true_r in E1; done.
  - by apply check_format_ok in E3.
Qed.

End Stamps.
