(* ===== verification/Concurrent.v ===== *)
(** * Concurrent use of one store (src/storage.rs)

    One [Storage] handle is shared by every task of a chain: the live session,
    the backfill and the bootstrap write to it while the RPC handlers read.  A
    [put] is two atomic stages - the block write under the write lock, then the
    commit of the index batch - and a read by hash is two reads, of the index
    and of the block; between the stages any other task may run.  A [Task] is
    one call in progress, [task_step] its next atomic stage, and [sched] lets
    any task of a pool take its next stage.

    The invariant [coherent_pool] relates every reachable state to an abstract
    store and to the list of writes in the order of their index commits, which
    is where a [put] takes effect. *)

From Stdlib Require Import ZArith NArith Lia String Ascii.
From stdpp Require Import relations.
From S2P Require Import Prelude Str Json Chain Record Backing Storage StorageSpec.

Section Tasks.
Context {B : Blockstore} {F : Fjall} {J : JsonLib}.

(** ** Calls in progress *)

Inductive Task : Type :=
  (* [put], before its block write *)
  | PutReady (c : PutCmd)
  (* the record is written, its index batch is not committed *)
  | PutWritten (c : PutCmd)
  (* the block write, or the arity check before it, failed *)
  | PutRefused (c : PutCmd) (e : error)
  (* the commit was attempted: what [put] returned *)
  | PutReturned (c : PutCmd) (r : result unit)
  (* [get_by_hash], before the index lookup *)
  | GetReady (hash : bytes)
  (* the index named this height *)
  | GetAt (hash : bytes) (height : N)
  | GetReturned (hash : bytes) (r : result (option Element)).

(** The next atomic stage of a call; [None] once it has returned. *)
Definition task_step (t : Task) (st : Storage) : option (Storage * Task) :=
  match t with
  | PutReady c =>
      let want := arity (st_chain st) in
      if decide (length (cmd_elements c) <> want)
      then Some (st, PutRefused c (EWrongArity (N.of_nat want) (N.of_nat (length (cmd_elements c)))))
      else Some match put_block (cmd_height c) (encode (cmd_elements c)) st with
                | (st, Ok _) => (st, PutWritten c)
                | (st, Err e) => (st, PutRefused c e)
                end
  | PutWritten c =>
      let '(st, r) := put_index (cmd_height c) (cmd_hash c) (cmd_txs c) st in
      Some (st, PutReturned c r)
  | GetReady hash =>
      Some (st, match height_of_hash st hash with
                | Ok (Some height) => GetAt hash height
                | Ok None => GetReturned hash (Ok None)
                | Err e => GetReturned hash (Err e)
                end)
  | GetAt hash height => Some (st, GetReturned hash (get_by_height st height))
  | PutRefused _ _ | PutReturned _ _ | GetReturned _ _ => None
  end.

(** Two stages, with nothing in between. *)
Definition run_alone (t : Task) (st : Storage) : Storage * Task :=
  let step '(st, t) := default (st, t) (task_step t st) in step (step (st, t)).

(** What the caller of a finished call got. *)
Definition put_outcome (t : Task) : option (result unit) :=
  match t with PutRefused _ e => Some (Err e) | PutReturned _ r => Some r | _ => None end.
Definition get_outcome (t : Task) : option (result (option Element)) :=
  match t with GetReturned _ r => Some r | _ => None end.

(** ** The pool *)

Inductive sched : Storage * list Task -> Storage * list Task -> Prop :=
  | sched_task i t st pool st' t' :
      pool !! i = Some t -> task_step t st = Some (st', t') ->
      sched (st, pool) (st', <[i := t']> pool).

(** A schedule as the list of the tasks that move. *)
Fixpoint run_schedule (moves : list nat) (s : Storage * list Task) : Storage * list Task :=
  match moves with
  | [] => s
  | i :: moves =>
      run_schedule moves
        match s.2 !! i ≫= fun t => task_step t s.1 with
        | Some (st', t') => (st', <[i := t']> s.2)
        | None => s
        end
  end.

(** The writes of a pool that have passed their first stage, and those that
    have taken effect. *)
Definition written (pool : list Task) : list PutCmd :=
  omap (fun t => match t with PutWritten c | PutReturned c _ => Some c | _ => None end) pool.
Definition committed (pool : list Task) : list PutCmd :=
  omap (fun t => match t with PutReturned c (Ok _) => Some c | _ => None end) pool.
Definition puts (pool : list Task) : list PutCmd :=
  omap (fun t => match t with
                 | PutReady c | PutWritten c | PutRefused c _ | PutReturned c _ => Some c
                 | _ => None end) pool.

(** No block write failed at this height. *)
Definition whole (pool : list Task) (h : N) : Prop :=
  forall c e, PutRefused c e ∈ pool -> cmd_height c <> h.

(** A call that has not begun, with arguments the program gives. *)
Definition starting (t : Task) : Prop :=
  match t with PutReady c => cmd_ok c | GetReady _ => True | _ => False end.

(** ** A call left alone is the function *)

Lemma put_alone c st :
  put_outcome (run_alone (PutReady c) st).2 = Some (run_put c st).2 /\
  (run_alone (PutReady c) st).1 = (run_put c st).1.
Proof.
  unfold run_alone, run_put, put. cbn -[put_block put_index decide]. case_decide; [done|].
  unfold bind. destruct (put_block _ _ st) as [st1 [[]|e]]; cbn -[put_index]; [|done].
  by destruct (put_index _ _ _ st1) as [st2 r].
Qed.

Lemma get_alone hash st :
  get_outcome (run_alone (GetReady hash) st).2 = Some (get_by_hash st hash) /\
  (run_alone (GetReady hash) st).1 = st.
Proof.
  unfold run_alone, get_by_hash. cbn -[height_of_hash].
  by destruct (height_of_hash st hash) as [[h|]|e].
Qed.

Lemma run_schedule_sched moves s : rtc sched s (run_schedule moves s).
Proof.
  revert s; induction moves as [|i moves IH]; intros [st pool]; cbn; [done|].
  destruct (pool !! i) as [t|] eqn:Et; cbn; [|apply IH].
  destruct (task_step t st) as [[st' t']|] eqn:Es; cbn; [|apply IH].
  eapply rtc_l; [|apply IH]. by econstructor.
Qed.

End Tasks.

(** ** How pools grow *)

Section Growth.
Context {B : Blockstore} {F : Fjall} {J : JsonLib}.

Lemma insert_middle {A} (l : list A) i x y :
  l !! i = Some x -> exists l1 l2, l = l1 ++ x :: l2 /\ <[i := y]> l = l1 ++ y :: l2.
Proof.
  intros Hi. exists (take i l), (drop (S i) l). split; [by rewrite take_drop_middle|].
  rewrite insert_take_drop by (by eapply lookup_lt_Some). done.
Qed.

Lemma omap_middle {A C} (f : A -> option C) l1 x l2 :
  omap f (l1 ++ x :: l2) ≡ₚ option_list (f x) ++ omap f (l1 ++ l2).
Proof.
  rewrite !omap_app. cbn. destruct (f x); cbn; [|done].
  by rewrite Permutation_middle.
Qed.

(** What has been done stays done. *)
Record grows_to (pool pool' : list Task) : Prop := {
  gt_written : forall c, c ∈ written pool -> c ∈ written pool';
  gt_committed : forall c, c ∈ committed pool -> c ∈ committed pool';
  gt_refused : forall c e, PutRefused c e ∈ pool -> PutRefused c e ∈ pool'
}.

Lemma grows_to_refl pool : grows_to pool pool.
Proof. by split. Qed.

Lemma grows_to_trans p1 p2 p3 : grows_to p1 p2 -> grows_to p2 p3 -> grows_to p1 p3.
Proof. intros [] []. split; eauto. Qed.

Lemma task_step_keeps t st st' t' :
  task_step t st = Some (st', t') ->
  puts [t'] = puts [t] /\
  (forall c, c ∈ written [t] -> c ∈ written [t']) /\ committed [t] = [] /\
  (forall c e, t <> PutRefused c e).
Proof.
  destruct t; cbn; try done.
  - case_decide; [|destruct (put_block _ _ st) as [st1 [[]|e]]]; intros [= <- <-];
      (split; [done|]; split; [set_solver|]; done).
  - destruct (put_index _ _ _ st) as [st1 [[]|e]]; intros [= <- <-];
      (split; [done|]; split; [set_solver|]; done).
  - destruct (height_of_hash st hash) as [[h|]|e]; intros [= <- <-];
      (split; [done|]; split; [set_solver|]; done).
  - intros [= <- <-]. split; [done|]. split; [set_solver|]. done.
Qed.

Lemma omap_middle_elem {A C} (f : A -> option C) l1 x l2 c :
  c ∈ omap f (l1 ++ x :: l2) <-> c ∈ omap f [x] \/ c ∈ omap f (l1 ++ l2).
Proof. rewrite omap_middle, elem_of_app. cbn. destruct (f x); cbn; set_solver. Qed.

Lemma sched_inv st pool st' pool' :
  sched (st, pool) (st', pool') ->
  exists i t t', pool !! i = Some t /\ task_step t st = Some (st', t') /\ pool' = <[i := t']> pool.
Proof. inversion 1; subst. eauto 10. Qed.

Lemma sched_grows st pool st' pool' :
  sched (st, pool) (st', pool') -> grows_to pool pool' /\ puts pool' ≡ₚ puts pool.
Proof.
  intros (i & t & t' & Hi & Ht & ->)%sched_inv.
  destruct (insert_middle pool i t t' Hi) as (l1 & l2 & -> & ->).
  destruct (task_step_keeps _ _ _ _ Ht) as (Hp & Hw & Hc & Hr). split; [split|].
  - intros c. unfold written. rewrite !omap_middle_elem. intros [?|?]; [left; by apply Hw|by right].
  - intros c. unfold committed. rewrite !omap_middle_elem. intros [?|?]; [|by right].
    unfold committed in Hc. rewrite Hc in *. set_solver.
  - intros c e. rewrite !elem_of_app, !elem_of_cons. naive_solver.
  - unfold puts in *. rewrite !omap_middle. cbn in Hp. f_equiv.
    destruct t, t'; cbn in *; try done; by injection Hp as ->.
Qed.

Lemma rtc_sched_grows s s' :
  rtc sched s s' -> grows_to s.2 s'.2 /\ puts s'.2 ≡ₚ puts s.2.
Proof.
  induction 1 as [s|[st1 p1] [st2 p2] [st3 p3] Hs _ [IHg IHp]].
  - split; [apply grows_to_refl|done].
  - apply sched_grows in Hs as [Hg Hp]. split; [by eapply grows_to_trans|].
    by rewrite IHp.
Qed.

Lemma whole_shrinks pool pool' h : grows_to pool pool' -> whole pool' h -> whole pool h.
Proof. intros [_ _ Hr] Hw c e Hin. by eapply Hw, Hr. Qed.

End Growth.

(** ** The invariant *)

Section Invariant.
Context {B : Blockstore} {F : Fjall} {J : JsonLib}.

(** What the store held before the pool began. *)
Variable a0 : Abs.

(** The records written at a height, and the heights and positions the indexes
    were told for a key. *)
Definition wrote (pool : list Task) (h : N) (es : list bytes) : Prop :=
  a_blocks a0 !! h = Some es \/
  exists c, c ∈ written pool /\ cmd_height c = h /\ cmd_elements c = es.
(** The record on disk: the last one written, or the one from before when none
    has been. *)
Definition holds (pool : list Task) (h : N) (es : list bytes) : Prop :=
  a_blocks a0 !! h = Some es /\ (forall c, c ∈ written pool -> cmd_height c <> h) \/
  exists c, c ∈ written pool /\ cmd_height c = h /\ cmd_elements c = es.
Definition points (pool : list Task) (k : bytes) (h : N) : Prop :=
  a_hash a0 !! k = Some h \/
  exists c, c ∈ committed pool /\ cmd_hash c = k /\ cmd_height c = h.
Definition locates (pool : list Task) (k : bytes) (h i : N) : Prop :=
  a_tx a0 !! k = Some (h, i) \/
  exists c n, c ∈ committed pool /\ cmd_height c = h /\ i = N.of_nat n /\ cmd_txs c !! n = Some k.

(** What a read by hash may return: nothing, or - when no block write failed at
    the height it was sent to - the block of a record written there. *)
Definition found (pool : list Task) (k : bytes) (r : result (option Element)) : Prop :=
  exists h, points pool k h /\
    (whole pool h -> exists el es, r = Ok (Some el) /\ wrote pool h es /\ es !! BLOCK = Some (deref el)).
Definition served (pool : list Task) (k : bytes) (r : result (option Element)) : Prop :=
  r = Ok None \/ found pool k r.

Definition task_fine (pool : list Task) (t : Task) : Prop :=
  match t with
  | PutReady c | PutWritten c | PutRefused c _ | PutReturned c _ => cmd_ok c
  | GetReady _ => True
  | GetAt k h => points pool k h
  | GetReturned k r => served pool k r
  end.

(** The abstract store with these records. *)
Definition with_blocks (blocks : gmap N (list bytes)) (a : Abs) : Abs :=
  {| a_blocks := blocks; a_hash := a_hash a; a_tx := a_tx a |}.

(** [blocks] are the records on disk, [log] the writes in the order of their
    index commits. *)
Record coherent_pool (blocks : gmap N (list bytes)) (log : list PutCmd)
    (st : Storage) (pool : list Task) : Prop := {
  cp_refines : refines_on (whole pool) st (with_blocks blocks (abs_run log a0));
  cp_log : log ≡ₚ committed pool;
  cp_holds : forall h es, blocks !! h = Some es -> holds pool h es;
  cp_kept : forall h, is_Some (a_blocks a0 !! h) -> is_Some (blocks !! h);
  cp_written : forall c, c ∈ written pool -> is_Some (blocks !! cmd_height c);
  cp_tasks : Forall (task_fine pool) pool
}.

Lemma holds_wrote pool h es : holds pool h es -> wrote pool h es.
Proof. intros [[? _]|?]; [by left|by right]. Qed.

Lemma committed_written pool c : c ∈ committed pool -> c ∈ written pool.
Proof.
  unfold committed, written. rewrite !list_elem_of_omap.
  intros (t & Ht & E). exists t. split; [done|]. destruct t as [| | |? [[]|]| | |]; naive_solver.
Qed.

(** *** Knowledge about a pool survives its growth *)

Lemma wrote_grows p p' h es : grows_to p p' -> wrote p h es -> wrote p' h es.
Proof. intros [Hw _ _]. unfold wrote. naive_solver. Qed.

Lemma points_grows p p' k h : grows_to p p' -> points p k h -> points p' k h.
Proof. intros [_ Hc _]. unfold points. naive_solver. Qed.

Lemma found_grows p p' k r : grows_to p p' -> found p k r -> found p' k r.
Proof.
  intros Hg (h & Hp & Hs). exists h. split; [by eapply points_grows|].
  intros Hw. destruct (Hs (whole_shrinks _ _ _ Hg Hw)) as (el & es & ? & ? & ?).
  exists el, es. split; [done|]. split; [by eapply wrote_grows|done].
Qed.

Lemma served_grows p p' k r : grows_to p p' -> served p k r -> served p' k r.
Proof. intros Hg [->|?]; [by left|right]. by eapply found_grows. Qed.

Lemma task_fine_grows p p' t : grows_to p p' -> task_fine p t -> task_fine p' t.
Proof. intros Hg. destruct t; cbn; eauto using points_grows, served_grows. Qed.

(** *** The index is where the log says *)

Lemma abs_run_points log k h :
  a_hash (abs_run log a0) !! k = Some h ->
  a_hash a0 !! k = Some h \/ exists c, c ∈ log /\ cmd_hash c = k /\ cmd_height c = h.
Proof.
  induction log as [|c log IH] using rev_ind; [by left|].
  unfold abs_run. rewrite foldl_app. cbn [foldl]. fold (abs_run log a0). cbn [a_hash abs_put].
  rewrite lookup_insert. case_decide as Hk.
  - intros [= <-]. right. exists c. set_solver.
  - intros [?|(c' & ? & ?)]%IH; [by left|right]. exists c'. set_solver.
Qed.

Lemma abs_run_points_some log k :
  is_Some (a_hash a0 !! k) \/ (exists c, c ∈ log /\ cmd_hash c = k) ->
  is_Some (a_hash (abs_run log a0) !! k).
Proof.
  induction log as [|c log IH] using rev_ind.
  - intros [?|(c & ?%not_elem_of_nil & _)]; done.
  - unfold abs_run. rewrite foldl_app. cbn [foldl]. fold (abs_run log a0). cbn [a_hash abs_put].
    intros H. rewrite lookup_insert. case_decide; [eauto|]. apply IH. set_solver.
Qed.

Lemma abs_run_locates log k h i :
  a_tx (abs_run log a0) !! k = Some (h, i) ->
  a_tx a0 !! k = Some (h, i) \/
  exists c n, c ∈ log /\ cmd_height c = h /\ i = N.of_nat n /\ cmd_txs c !! n = Some k.
Proof.
  induction log as [|c log IH] using rev_ind; [by left|].
  unfold abs_run. rewrite foldl_app. cbn [foldl]. fold (abs_run log a0). cbn [a_tx abs_put].
  rewrite insert_all_lookup. destruct (last_value k _) as [p|] eqn:El.
  - intros [= ->]. apply last_value_in, elem_of_tx_entries in El as (-> & n & -> & Hn).
    right. exists c, n. set_solver.
  - intros [?|(c' & n & ? & ?)]%IH; [by left|right]. exists c', n. set_solver.
Qed.

(** The records a sequence of writes leaves. *)
Lemma abs_run_blocks log h :
  (exists c, c ∈ log /\ cmd_height c = h /\ a_blocks (abs_run log a0) !! h = Some (cmd_elements c)) \/
  (forall c, c ∈ log -> cmd_height c <> h) /\ a_blocks (abs_run log a0) !! h = a_blocks a0 !! h.
Proof.
  induction log as [|c log IH] using rev_ind; [right; split; [by intros ? ?%not_elem_of_nil|done]|].
  unfold abs_run. rewrite foldl_app. cbn [foldl]. fold (abs_run log a0). cbn [a_blocks abs_put].
  rewrite lookup_insert. case_decide as Hh; [left; exists c; set_solver|].
  destruct IH as [(c' & ? & ?)|[Hn ?]]; [left; exists c'; set_solver|right].
  split; [|done]. intros c' [?| ->%list_elem_of_singleton]%elem_of_app; [by apply Hn|done].
Qed.

Lemma coherent_points blocks log st pool k h :
  coherent_pool blocks log st pool -> height_of_hash st k = Ok (Some h) -> points pool k h.
Proof.
  intros Hc. rewrite (height_of_hash_refines_on _ _ _ _ (cp_refines _ _ _ _ Hc)). intros [= E].
  apply abs_run_points in E as [?|(c & Hin & ?)]; [by left|right]. exists c.
  by rewrite <-(cp_log _ _ _ _ Hc).
Qed.

Lemma coherent_present blocks log st pool k h :
  index_sound a0 -> coherent_pool blocks log st pool -> points pool k h -> is_Some (blocks !! h).
Proof.
  intros [Hi _] Hc [Hk|(c & Hin & _ & <-)].
  - by eapply cp_kept, Hi.
  - by eapply cp_written, committed_written.
Qed.

(** *** Every stage preserves it *)

Context {BL : BlockstoreLaws B} {FL : FjallLaws F} {JL : JsonLaws J}.
Hypothesis a0_sound : index_sound a0.

Lemma written_insert pool i t t' c :
  pool !! i = Some t -> c ∈ written (<[i := t']> pool) -> c ∈ written [t'] \/ c ∈ written pool.
Proof.
  intros Hi. destruct (insert_middle pool i t t' Hi) as (l1 & l2 & -> & ->).
  unfold written. rewrite !omap_middle_elem. naive_solver.
Qed.

Lemma committed_insert pool i t t' :
  pool !! i = Some t -> committed [t] = [] ->
  committed (<[i := t']> pool) ≡ₚ committed [t'] ++ committed pool.
Proof.
  intros Hi Ht. destruct (insert_middle pool i t t' Hi) as (l1 & l2 & -> & ->).
  unfold committed in *. rewrite !omap_middle. cbn in *.
  destruct (match t with PutReturned c (Ok _) => Some c | _ => None end); [done|]. cbn.
  by destruct (match t' with PutReturned c (Ok _) => Some c | _ => None end).
Qed.

(** A stage that writes no record: what is left to show is the store and the
    task's own new state. *)
Lemma coherent_stage blocks log log' st st' pool i t t' :
  coherent_pool blocks log st pool -> pool !! i = Some t -> committed [t] = [] ->
  grows_to pool (<[i := t']> pool) ->
  (forall c, c ∈ written [t'] -> c ∈ written pool) ->
  log' = log ++ committed [t'] ->
  refines_on (whole (<[i := t']> pool)) st' (with_blocks blocks (abs_run log' a0)) ->
  task_fine (<[i := t']> pool) t' ->
  coherent_pool blocks log' st' (<[i := t']> pool).
Proof.
  intros [Hr Hl Hw Hk Hp Ht] Hi Hct Hg Hwt -> Hr' Hf. split; try done.
  - by rewrite (committed_insert _ _ _ _ Hi Hct), Hl, Permutation_app_comm.
  - intros h es [[? Hn]|(c & ? & ?)]%Hw.
    + left. split; [done|]. intros c [?%Hwt|?]%(written_insert _ _ _ _ _ Hi); by apply Hn.
    + right. exists c. split; [by apply Hg|done].
  - intros c Hc. destruct (written_insert _ _ _ _ _ Hi Hc) as [?%Hwt|?]; by apply Hp.
  - apply Forall_insert; [|done]. eapply Forall_impl; [done|]. intros t0. by apply task_fine_grows.
Qed.

Lemma coherent_quiet blocks log st st' pool i t t' :
  coherent_pool blocks log st pool -> pool !! i = Some t -> committed [t] = [] ->
  grows_to pool (<[i := t']> pool) ->
  written [t'] = [] -> committed [t'] = [] ->
  refines_on (whole (<[i := t']> pool)) st' (with_blocks blocks (abs_run log a0)) ->
  task_fine (<[i := t']> pool) t' ->
  coherent_pool blocks log st' (<[i := t']> pool).
Proof.
  intros Hc Hi Hct Hg Hwt Hct' Hr Hf. eapply coherent_stage; eauto.
  - rewrite Hwt. by intros c ?%not_elem_of_nil.
  - by rewrite Hct', app_nil_r.
Qed.

Lemma coherent_write blocks log st st' pool i c :
  coherent_pool blocks log st pool -> pool !! i = Some (PutReady c) ->
  grows_to pool (<[i := PutWritten c]> pool) ->
  length (cmd_elements c) = arity (st_chain st) ->
  put_block (cmd_height c) (encode (cmd_elements c)) st = (st', Ok tt) ->
  coherent_pool (<[cmd_height c := cmd_elements c]> blocks) log st' (<[i := PutWritten c]> pool).
Proof.
  intros [Hr Hl Hw Hk Hp Ht] Hi Hg Hlen Hput.
  assert (Hok : cmd_ok c) by exact (Forall_lookup_1 _ _ _ _ Ht Hi).
  assert (Hin : c ∈ written (<[i := PutWritten c]> pool)).
  { unfold written. apply list_elem_of_omap. exists (PutWritten c). split; [|done].
    apply list_elem_of_insert. by eapply lookup_lt_Some. }
  split.
  - eapply refines_on_weaken; [intros h; by apply whole_shrinks|].
    apply (put_block_refines_on _ _ _ _ _ _ Hr); [split; [done|apply Hok]|done].
  - by rewrite (committed_insert _ _ _ _ Hi eq_refl), Hl.
  - intros h es. rewrite lookup_insert. case_decide as Hh.
    + intros [= <-]. right. eauto.
    + intros [[? Hn]|(c' & ? & ?)]%Hw.
      * left. split; [done|]. intros c' [->%list_elem_of_singleton|?]%(written_insert _ _ _ _ _ Hi); [done|by apply Hn].
      * right. exists c'. split; [by apply Hg|done].
  - intros h Hh. rewrite lookup_insert. case_decide; eauto.
  - intros c' [Hc'|Hc']%(written_insert _ _ _ _ _ Hi).
    + apply list_elem_of_singleton in Hc' as ->. rewrite lookup_insert_eq. eauto.
    + rewrite lookup_insert. case_decide; [eauto|by apply Hp].
  - apply Forall_insert; [|done]. eapply Forall_impl; [done|]. intros t0. by apply task_fine_grows.
Qed.

(** A read of the height the index named. *)
Lemma get_found blocks log st pool k h :
  coherent_pool blocks log st pool -> points pool k h -> whole pool h ->
  exists el es, get_by_height st h = Ok (Some el) /\ wrote pool h es /\ es !! BLOCK = Some (deref el).
Proof.
  intros Hc Hpt Hwh.
  destruct (coherent_present _ _ _ _ _ _ a0_sound Hc Hpt) as [es Hes].
  pose proof (get_element_refines_on _ _ _ h BLOCK (cp_refines _ _ _ _ Hc) Hwh) as Hg.
  cbn [with_blocks a_blocks] in Hg. rewrite Hes in Hg. cbn [mbind option_bind] in Hg.
  destruct (ro_records _ _ _ (cp_refines _ _ _ _ Hc) h es Hes) as [Hlen _].
  destruct (lookup_lt_is_Some_2 es BLOCK) as [b Hb]; [rewrite Hlen; pose proof (arity_ge_2 (st_chain st)); unfold BLOCK; lia|].
  rewrite Hb in Hg. unfold view in Hg. unfold get_by_height.
  destruct (get_element st h BLOCK) as [[el|]|e]; try done. injection Hg as Hg.
  exists el, es. rewrite Hb, Hg. split; [done|]. split; [by eapply holds_wrote, cp_holds|done].
Qed.

Lemma coherent_step blocks log st pool st' pool' :
  coherent_pool blocks log st pool -> sched (st, pool) (st', pool') ->
  exists blocks' log', coherent_pool blocks' log' st' pool'.
Proof.
  intros Hc Hs. destruct (sched_grows _ _ _ _ Hs) as [Hg _].
  destruct (sched_inv _ _ _ _ Hs) as (i & t & t' & Hi & Ht & ->).
  destruct (task_step_keeps _ _ _ _ Ht) as (_ & _ & Hct & _).
  pose proof (Forall_lookup_1 _ _ _ _ (cp_tasks _ _ _ _ Hc) Hi) as Hf.
  assert (Hweak : refines_on (whole (<[i := t']> pool)) st (with_blocks blocks (abs_run log a0))).
  { eapply refines_on_weaken; [intros h; by apply whole_shrinks|apply Hc]. }
  destruct t as [c|c|c e|c r|k|k h|k r]; cbn [task_step] in Ht; try done.
  - case_decide as Hlen.
    { simplify_eq. exists blocks, log. by eapply coherent_quiet. }
    destruct (put_block _ _ st) as [st1 [[]|e]] eqn:Ep; simplify_eq.
    + eexists _, log. eapply coherent_write; eauto.
    + exists blocks, log. eapply coherent_quiet; [done..| |done].
      eapply put_block_err_refines_on; [done| |done].
      intros Hw. eapply (Hw c e); [|done]. apply list_elem_of_insert. by eapply lookup_lt_Some.
  - destruct (put_index _ _ _ st) as [st1 r] eqn:Ep. simplify_eq.
    exists blocks, (log ++ committed [PutReturned c r]).
    assert (Hwr : c ∈ written pool).
    { apply list_elem_of_omap. exists (PutWritten c). split; [by eapply list_elem_of_lookup_2|done]. }
    eapply coherent_stage; eauto; [by intros ? ->%list_elem_of_singleton|].
    destruct r as [[]|e]; cbn [committed omap list_omap app].
    + unfold abs_run. rewrite foldl_app.
      apply (put_index_refines_on _ _ _ _ _ _ _ Hweak); [apply Hf|apply Hf|done].
    + rewrite app_nil_r. by eapply put_index_err_refines_on.
  - simplify_eq. exists blocks, log.
    destruct (height_of_hash st' k) as [[h|]|e] eqn:Eh.
    + eapply coherent_quiet; [done..|]. eapply points_grows; [done|]. by eapply coherent_points.
    + eapply coherent_quiet; [done..|]. by left.
    + by rewrite (height_of_hash_refines_on _ _ _ _ Hweak) in Eh.
  - simplify_eq. exists blocks, log. eapply coherent_quiet; [done..|].
    eapply served_grows; [done|]. right. exists h. split; [done|]. by eapply get_found.
Qed.

Lemma coherent_start st pool :
  refines st a0 -> Forall starting pool -> coherent_pool (a_blocks a0) [] st pool.
Proof.
  intros Hr Hp.
  assert (Hn : forall c, c ∉ written pool).
  { intros c (t & Ht & E)%list_elem_of_omap. rewrite Forall_forall in Hp. apply Hp in Ht. by destruct t. }
  split.
  - apply refines_refines_on in Hr. destruct a0. eapply refines_on_weaken; [|apply Hr]. done.
  - destruct (committed pool) as [|c l] eqn:E; [done|]. destruct (Hn c).
    apply committed_written. rewrite E. apply list_elem_of_here.
  - intros h es Hb. left. split; [done|]. by intros c ?%Hn.
  - done.
  - by intros c ?%Hn.
  - eapply Forall_impl; [done|]. by intros [].
Qed.

Lemma coherent_reachable st0 pool0 st pool :
  refines st0 a0 -> Forall starting pool0 -> rtc sched (st0, pool0) (st, pool) ->
  exists blocks log, coherent_pool blocks log st pool.
Proof.
  intros Hr Hp Hs. change (exists blocks log, coherent_pool blocks log (st, pool).1 (st, pool).2).
  revert Hs. generalize (st, pool) as s. apply rtc_ind_r.
  - exists (a_blocks a0), []. by apply coherent_start.
  - intros [st1 p1] [st2 p2] _ Hs (bs & log & Hc). by eapply coherent_step.
Qed.

End Invariant.

(** ** What concurrent callers can rely on *)

Section Claims.
Context {B : Blockstore} {F : Fjall} {J : JsonLib}.

(** Every write of the pool has returned success. *)
Definition succeeded (t : Task) : Prop :=
  match t with
  | PutReady _ | PutWritten _ | PutRefused _ _ => False
  | PutReturned _ r => r = Ok tt
  | _ => True
  end.

Lemma succeeded_committed pool : Forall succeeded pool -> committed pool = puts pool.
Proof.
  induction 1 as [|t pool Ht _ IH]; [done|]. unfold committed, puts in *. cbn.
  destruct t as [| | |? r| | |]; try done. cbn in Ht. subst. by rewrite IH.
Qed.

(** When a height determines its record, the records on disk are those of the
    log. *)
Lemma coherent_blocks a0 blocks log st pool h :
  coherent_pool a0 blocks log st pool -> committed pool = puts pool ->
  (forall c c', c ∈ log -> c' ∈ log -> cmd_height c = cmd_height c' -> cmd_elements c = cmd_elements c') ->
  blocks !! h = a_blocks (abs_run log a0) !! h.
Proof.
  intros Hc Hcom Hsame.
  assert (Hw : forall c, c ∈ written pool <-> c ∈ log).
  { intros c. rewrite (cp_log _ _ _ _ _ Hc). split; [|apply committed_written].
    rewrite Hcom. unfold written, puts. rewrite !list_elem_of_omap. intros (t & Ht & E).
    exists t. split; [done|]. by destruct t. }
  destruct (abs_run_blocks a0 log h) as [(c & Hin & Hh & ->)|[Hn ->]].
  - destruct (cp_written _ _ _ _ _ Hc c) as [es Hes]; [by apply Hw|]. rewrite Hh in Hes. rewrite Hes. f_equal.
    destruct (cp_holds _ _ _ _ _ Hc h es Hes) as [[_ Hn]|(c' & Hin' & Hh' & <-)].
    + by destruct (Hn c); [apply Hw|].
    + apply Hsame; [by apply Hw|done|congruence].
  - destruct (blocks !! h) as [es|] eqn:E.
    + destruct (cp_holds _ _ _ _ _ Hc h es E) as [[-> _]|(c & Hin & Hh & _)]; [done|]. by destruct (Hn c); [apply Hw|].
    + symmetry. apply eq_None_not_Some. intros Hk. apply (cp_kept _ _ _ _ _ Hc) in Hk. rewrite E in Hk. by destruct Hk.
Qed.
Context {BL : BlockstoreLaws B} {FL : FjallLaws F} {JL : JsonLaws J}.

(** C3: However any number of writes and reads are interleaved, stage by
    stage, and whichever of them fail: a height no block write failed at reads as
    one whole record that some call wrote there (or that was there before), or
    as absent when none has been written; the hash and transaction indexes name
    only heights of writes that took effect, every write that took effect is in
    the index, and an index entry never dangles; and a read by hash that raced
    with the writes returned nothing or the block of such a record. *)
Theorem concurrent_reads_sound a0 st0 pool0 st pool :
  refines st0 a0 -> index_sound a0 -> Forall starting pool0 ->
  rtc sched (st0, pool0) (st, pool) ->
  (forall h, whole pool h ->
     exists o, (forall idx, view (get_element st h idx) = Ok (o ≫= fun es => es !! idx)) /\
       match o with
       | Some es => holds a0 pool h es
       | None => a_blocks a0 !! h = None /\ forall c, c ∈ written pool -> cmd_height c <> h
       end) /\
  (forall k, exists o, height_of_hash st k = Ok o /\
     match o with
     | Some h => points a0 pool k h /\ (whole pool h -> exists el, get_by_height st h = Ok (Some el))
     | None => a_hash a0 !! k = None /\ forall c, c ∈ committed pool -> cmd_hash c <> k
     end) /\
  (forall k h i, get_tx_location st k = Ok (Some (h, i)) -> locates a0 pool k h i) /\
  (forall k r, GetReturned k r ∈ pool -> served a0 pool k r).
Proof.
  intros Hr Hi Hp Hs. destruct (coherent_reachable a0 Hi _ _ _ _ Hr Hp Hs) as (blocks & log & Hc).
  pose proof (cp_refines _ _ _ _ _ Hc) as Hro. split; [|split; [|split]].
  - intros h Hw. exists (blocks !! h). split; [intros idx; by apply (get_element_refines_on _ _ _ _ _ Hro)|].
    destruct (blocks !! h) as [es|] eqn:E; [by eapply cp_holds|]. split.
    + apply eq_None_not_Some. intros Hk. apply (cp_kept _ _ _ _ _ Hc) in Hk. rewrite E in Hk. by destruct Hk.
    + intros c Hin <-. apply (cp_written _ _ _ _ _ Hc) in Hin. rewrite E in Hin. by destruct Hin.
  - intros k. eexists. split; [apply (height_of_hash_refines_on _ _ _ _ Hro)|]. cbn [with_blocks a_hash].
    destruct (a_hash (abs_run log a0) !! k) as [h|] eqn:E.
    + assert (Hpt : points a0 pool k h).
      { eapply coherent_points; [done|]. by rewrite (height_of_hash_refines_on _ _ _ _ Hro), <-E. }
      split; [done|]. intros Hw.
      destruct (get_found a0 Hi _ _ _ _ _ _ Hc Hpt Hw) as (el & es & ? & _). eauto.
    + apply eq_None_not_Some in E. split.
      * apply eq_None_not_Some. intros Hk. apply E, abs_run_points_some. by left.
      * intros c Hin <-. apply E, abs_run_points_some. right. exists c.
        by rewrite (cp_log _ _ _ _ _ Hc).
  - intros k h i. rewrite (get_tx_location_refines_on _ _ _ _ Hro). intros [= E].
    apply abs_run_locates in E as [?|(c & n & Hin & ?)]; [by left|right]. exists c, n.
    by rewrite <-(cp_log _ _ _ _ _ Hc).
  - intros k r Hin. pose proof (cp_tasks _ _ _ _ _ Hc) as Ht. rewrite Forall_forall in Ht.
    apply (Ht _ Hin).
Qed.

(** C2: Once every write has taken effect, the store is one that the same
    writes, made one after the other in some order, would have left - the order
    of their index commits - as long as two writes of one height carry the same
    record.  So tasks that fetch the same height at the same time (the live
    session and the backfill) do no harm, and the reads of [storage_refinement]
    hold of the result. *)
Theorem concurrent_puts_linearize a0 st0 pool0 st pool :
  refines st0 a0 -> index_sound a0 -> Forall starting pool0 ->
  (forall c c', c ∈ puts pool0 -> c' ∈ puts pool0 ->
     cmd_height c = cmd_height c' -> cmd_elements c = cmd_elements c') ->
  rtc sched (st0, pool0) (st, pool) ->
  Forall succeeded pool ->
  exists order, order ≡ₚ puts pool0 /\ refines st (abs_run order a0).
Proof.
  intros Hr Hi Hp Hsame Hs Hall. destruct (coherent_reachable a0 Hi _ _ _ _ Hr Hp Hs) as (blocks & log & Hc).
  destruct (rtc_sched_grows _ _ Hs) as [_ Hperm]. cbn [snd] in Hperm.
  assert (Hlog : log ≡ₚ puts pool) by (by rewrite (cp_log _ _ _ _ _ Hc), succeeded_committed).
  exists log. split; [by rewrite Hlog|]. apply refines_refines_on.
  assert (Hb : blocks = a_blocks (abs_run log a0)).
  { apply map_eq. intros h. eapply coherent_blocks; [done|by apply succeeded_committed|]. intros c c' Hin Hin'.
    apply Hsame; by rewrite <-Hperm, <-Hlog. }
  pose proof (cp_refines _ _ _ _ _ Hc) as Hro. rewrite Hb in Hro.
  destruct (abs_run log a0). eapply refines_on_weaken; [|apply Hro].
  intros h _ c e Hin. rewrite Forall_forall in Hall. by apply Hall in Hin.
Qed.

(** A read of the hash of a write that has taken effect. *)
Definition finds (a0 : Abs) (c : PutCmd) (pool : list Task) (t : Task) : Prop :=
  match t with
  | GetReady k => k = cmd_hash c
  | GetAt k h => points a0 pool k h
  | GetReturned k r => found a0 pool k r
  | _ => False
  end.

Lemma finds_step a0 blocks log c i t st pool st' pool' :
  index_sound a0 -> coherent_pool a0 blocks log st pool -> c ∈ committed pool ->
  sched (st, pool) (st', pool') -> pool !! i = Some t -> finds a0 c pool t ->
  exists t', pool' !! i = Some t' /\ finds a0 c pool' t'.
Proof.
  intros Hi Hc Hcom Hs Ht Hf. destruct (sched_grows _ _ _ _ Hs) as [Hg _].
  destruct (sched_inv _ _ _ _ Hs) as (j & u & u' & Hj & Hu & ->).
  destruct (decide (i = j)) as [<-|Hne].
  - simplify_eq. exists u'. split; [by apply list_lookup_insert_eq, lookup_lt_is_Some_1|].
    destruct t as [| | | |k|k h|k r]; cbn [finds task_step] in *; try done; simplify_eq.
    + destruct (abs_run_points_some a0 log (cmd_hash c)) as [h Hh].
      { right. exists c. by rewrite (cp_log _ _ _ _ _ Hc). }
      pose proof (height_of_hash_refines_on _ _ _ (cmd_hash c) (cp_refines _ _ _ _ _ Hc)) as E.
      cbn [with_blocks a_hash] in E. rewrite Hh in E. rewrite E in *.
      eapply points_grows; [done|]. by eapply coherent_points.
    + eapply found_grows; [done|]. exists h. split; [done|]. by eapply get_found.
  - exists t. split; [by rewrite list_lookup_insert_ne|].
    destruct t; cbn in *; eauto using points_grows, found_grows.
Qed.

(** A read that begins after a write has returned finds its block: the
    write's hash is in the index for good, and the height it names stays
    readable, whatever else is going on. *)
Theorem read_after_put a0 st0 pool0 s1 s2 i c r :
  refines st0 a0 -> index_sound a0 -> Forall starting pool0 ->
  rtc sched (st0, pool0) s1 -> c ∈ committed s1.2 -> s1.2 !! i = Some (GetReady (cmd_hash c)) ->
  rtc sched s1 s2 -> s2.2 !! i = Some (GetReturned (cmd_hash c) r) -> (forall h, whole s2.2 h) ->
  exists el, r = Ok (Some el).
Proof.
  intros Hr Hi Hp Hs1 Hcom Hget Hs2 Hend Hall.
  assert (Hf : exists t, s2.2 !! i = Some t /\ finds a0 c s2.2 t).
  { clear Hend Hall. revert s2 Hs2. apply rtc_ind_r; [by exists (GetReady (cmd_hash c))|].
    intros [st p] [st' p'] Hs Hstep (t & Ht & Hf).
    destruct (coherent_reachable a0 Hi st0 pool0 st p Hr Hp) as (bs & log & Hc); [by etrans|].
    assert (Hcom' : c ∈ committed p) by (by apply (rtc_sched_grows _ _ Hs)).
    by eapply finds_step. }
  destruct Hf as (t & Ht & Hf). simplify_eq. destruct Hf as (h & _ & Hf).
  destruct (Hf (Hall h)) as (el & es & -> & _). eauto.
Qed.

End Claims.
