(* ===== verification/Join.v ===== *)
(** * The block/logs join buffer (src/join.rs)

    [JoinBuffer] holds at most [max_entries] half-records keyed by height.  The
    code decides under the lock ([on_block_act], [on_logs_act]: the pending map
    and what to do next) and acts after releasing it ([apply]). Instants are
    [N]; metrics are dropped except the gauges of [sample]. *)

From Stdlib Require Import ZArith NArith Lia String Ascii.
From S2P Require Import Prelude Str Json Chain Record Backing Storage StorageSpec.

Inductive Half : Type := HBlock | HLog.

Definition half_as_str (h : Half) : string :=
  match h with HBlock => "block" | HLog => "log" end.

Inductive JoinOutcome : Type := Completed | Buffered | Deferred.

#[global] Instance JoinOutcome_eq_dec : EqDecision JoinOutcome.
Proof. solve_decision. Defined.

Record PendingBlock : Type := {
  pb_hash : bytes; pb_tx_hashes : list bytes; pb_bytes : bytes; pb_since : N
}.
Record PendingLogs : Type := { pl_bytes : bytes; pl_since : N }.

Inductive Pending : Type :=
  | PBlock (b : PendingBlock)
  | PLogs (l : PendingLogs).

(** The decision made under the lock. *)
Inductive WriteAct : Type :=
  | AWrite (hash : bytes) (tx_hashes : list bytes) (block_bytes logs : bytes)
           (first : Half) (since : N)
  | ABuffered
  | ADeferred.

Abbreviation pending_map := (gmap N Pending).

(** ** Decisions *)

Definition on_block_act (max_entries : nat) (now : N) (height : N) (hash : bytes)
    (tx_hashes : list bytes) (block_bytes : bytes) (pending : pending_map)
    : pending_map * WriteAct :=
  let removed := pending !! height in
  let pending := delete height pending in
  let block since := PBlock {| pb_hash := hash; pb_tx_hashes := tx_hashes;
                               pb_bytes := block_bytes; pb_since := since |} in
  match removed with
  | Some (PLogs logs) =>
      (pending, AWrite hash tx_hashes block_bytes (pl_bytes logs) HLog (pl_since logs))
  | Some (PBlock prev) => (<[height := block (pb_since prev)]> pending, ABuffered)
  | None =>
      if (max_entries <=? size pending)%nat then (∅, ADeferred)
      else (<[height := block now]> pending, ABuffered)
  end.

Definition on_logs_act (max_entries : nat) (now : N) (height : N) (logs_bytes : bytes)
    (pending : pending_map) : pending_map * WriteAct :=
  let removed := pending !! height in
  let pending := delete height pending in
  let logs since := PLogs {| pl_bytes := logs_bytes; pl_since := since |} in
  match removed with
  | Some (PBlock block) =>
      (pending, AWrite (pb_hash block) (pb_tx_hashes block) (pb_bytes block) logs_bytes
                  HBlock (pb_since block))
  | Some (PLogs prev) => (<[height := logs (pl_since prev)]> pending, ABuffered)
  | None =>
      if (max_entries <=? size pending)%nat then (∅, ADeferred)
      else (<[height := logs now]> pending, ABuffered)
  end.

(** The gauges of [sample]: per-half counts, bytes and oldest age, and the
    capacity. *)
Record Gauges : Type := {
  g_block_count : nat; g_log_count : nat; g_block_bytes : nat; g_log_bytes : nat;
  g_block_oldest : N; g_log_oldest : N; g_capacity : nat
}.

Definition is_block (p : Pending) : bool := match p with PBlock _ => true | PLogs _ => false end.
Definition is_logs (p : Pending) : bool := match p with PBlock _ => false | PLogs _ => true end.
Definition block_len (p : Pending) : option nat :=
  match p with PBlock b => Some (length (pb_bytes b)) | PLogs _ => None end.
Definition logs_len (p : Pending) : option nat :=
  match p with PLogs l => Some (length (pl_bytes l)) | PBlock _ => None end.
Definition block_since (p : Pending) : option N :=
  match p with PBlock b => Some (pb_since b) | PLogs _ => None end.
Definition logs_since (p : Pending) : option N :=
  match p with PLogs l => Some (pl_since l) | PBlock _ => None end.

Definition sum_list (l : list nat) : nat := foldr Nat.add 0%nat l.
(** [Iterator::min]. *)
Definition min_list (l : list N) : option N :=
  foldr (fun x o => Some (match o with Some y => N.min x y | None => x end)) None l.

Definition sample (max_entries : nat) (now : N) (pending : pending_map) : Gauges :=
  let values := (map_to_list pending).*2 in
  let age t := sat_sub now t in
  {| g_block_count := length (List.filter is_block values);
     g_log_count := length (List.filter is_logs values);
     g_block_bytes := sum_list (omap block_len values);
     g_log_bytes := sum_list (omap logs_len values);
     g_block_oldest := match min_list (omap block_since values) with Some t => age t | None => 0 end;
     g_log_oldest := match min_list (omap logs_since values) with Some t => age t | None => 0 end;
     g_capacity := max_entries |}.

(** ** The buffer over a store *)

Section Join.
Context {B : Blockstore} {F : Fjall} {J : JsonLib}.

Record JoinBuffer : Type := {
  jb_storage : Storage;
  jb_max_entries : nat;
  jb_pending : pending_map
}.

Definition new (storage : Storage) (max_entries : nat) : JoinBuffer :=
  {| jb_storage := storage; jb_max_entries := max_entries; jb_pending := ∅ |}.

Definition set_pending (p : pending_map) (j : JoinBuffer) : JoinBuffer :=
  {| jb_storage := jb_storage j; jb_max_entries := jb_max_entries j; jb_pending := p |}.

Definition set_storage (st : Storage) (j : JoinBuffer) : JoinBuffer :=
  {| jb_storage := st; jb_max_entries := jb_max_entries j; jb_pending := jb_pending j |}.

(** After the lock is released: the durable write, or nothing. *)
Definition apply (height : N) (act : WriteAct) : M JoinBuffer JoinOutcome := fun j =>
  match act with
  | AWrite hash tx_hashes block_bytes logs _ _ =>
      let '(st, r) := put height hash tx_hashes [block_bytes; logs] (jb_storage j) in
      (set_storage st j, match r with Ok _ => Ok Completed | Err e => Err e end)
  | ABuffered => (j, Ok Buffered)
  | ADeferred => (j, Ok Deferred)
  end.

Definition on_block (now : N) (height : N) (hash : bytes) (tx_hashes : list bytes)
    (block_bytes : bytes) : M JoinBuffer JoinOutcome := fun j =>
  let '(p, act) := on_block_act (jb_max_entries j) now height hash tx_hashes block_bytes
                     (jb_pending j) in
  apply height act (set_pending p j).

Definition on_logs (now : N) (height : N) (logs_bytes : bytes) : M JoinBuffer JoinOutcome := fun j =>
  let '(p, act) := on_logs_act (jb_max_entries j) now height logs_bytes (jb_pending j) in
  apply height act (set_pending p j).

Definition jb_len (j : JoinBuffer) : nat := size (jb_pending j).
Definition jb_is_empty (j : JoinBuffer) : bool := (jb_len j =? 0)%nat.
Definition jb_chain (j : JoinBuffer) : string := Chain.as_str (st_chain (jb_storage j)).

Definition buffered_block (j : JoinBuffer) (height : N) : option bytes :=
  match jb_pending j !! height with
  | Some (PBlock b) => Some (pb_bytes b)
  | _ => None
  end.

End Join.

(** ** The cap *)

Lemma size_delete_le (p : pending_map) h : (size (delete h p) <= size p)%nat.
Proof.
  destruct (p !! h) as [x|] eqn:E.
  - rewrite map_size_delete_Some by (by eexists). lia.
  - by rewrite delete_id.
Qed.

Lemma size_replace (p : pending_map) h x y :
  p !! h = Some x -> size (<[h := y]> (delete h p)) = size p.
Proof.
  intros E. rewrite map_size_insert_None by apply lookup_delete_eq.
  rewrite map_size_delete_Some by (by eexists). assert (size p <> 0)%nat; [|lia].
  intros Hz. apply map_size_empty_inv in Hz. by simplify_map_eq.
Qed.

Lemma size_add (p : pending_map) h y (max : nat) :
  p !! h = None -> (max <=? size (delete h p))%nat = false ->
  (size (<[h := y]> (delete h p)) <= max)%nat.
Proof.
  intros E Hm. rewrite delete_id in * by done. rewrite map_size_insert_None by done.
  apply Nat.leb_gt in Hm. lia.
Qed.

Lemma on_block_act_cap max now h hash txs b p :
  (size p <= max)%nat -> (size (on_block_act max now h hash txs b p).1 <= max)%nat.
Proof.
  intros Hs. unfold on_block_act. pose proof (size_delete_le p h).
  destruct (p !! h) as [[pb|pl]|] eqn:E; cbn.
  - by rewrite (size_replace _ _ _ _ E).
  - lia.
  - destruct (max <=? _)%nat eqn:Em; cbn; [rewrite map_size_empty; lia|by apply size_add].
Qed.

Lemma on_logs_act_cap max now h b p :
  (size p <= max)%nat -> (size (on_logs_act max now h b p).1 <= max)%nat.
Proof.
  intros Hs. unfold on_logs_act. pose proof (size_delete_le p h).
  destruct (p !! h) as [[pb|pl]|] eqn:E; cbn.
  - lia.
  - by rewrite (size_replace _ _ _ _ E).
  - destruct (max <=? _)%nat eqn:Em; cbn; [rewrite map_size_empty; lia|by apply size_add].
Qed.

(** ** Traces of deliveries *)

(** One half delivered by a source. *)
Inductive Delivery : Type :=
  | DBlock (now height : N) (hash : bytes) (tx_hashes : list bytes) (block_bytes : bytes)
  | DLogs (now height : N) (logs_bytes : bytes).

Definition delivery_height (d : Delivery) : N :=
  match d with DBlock _ h _ _ _ => h | DLogs _ h _ => h end.

(** The newest halves delivered for a height, newest delivery first. *)
Fixpoint newest_block (h : N) (hist : list Delivery) : option (bytes * list bytes * bytes) :=
  match hist with
  | [] => None
  | DBlock _ h' hash txs b :: hist => if decide (h' = h) then Some (hash, txs, b) else newest_block h hist
  | DLogs _ _ _ :: hist => newest_block h hist
  end.

Fixpoint newest_logs (h : N) (hist : list Delivery) : option bytes :=
  match hist with
  | [] => None
  | DLogs _ h' l :: hist => if decide (h' = h) then Some l else newest_logs h hist
  | DBlock _ _ _ _ _ :: hist => newest_logs h hist
  end.

Section Traces.
Context {B : Blockstore} {F : Fjall} {J : JsonLib}.

Definition deliver (d : Delivery) : M JoinBuffer JoinOutcome :=
  match d with
  | DBlock now h hash txs b => on_block now h hash txs b
  | DLogs now h l => on_logs now h l
  end.

Definition delivery_act (max : nat) (d : Delivery) (p : pending_map) : pending_map * WriteAct :=
  match d with
  | DBlock now h hash txs b => on_block_act max now h hash txs b p
  | DLogs now h l => on_logs_act max now h l p
  end.

Lemma deliver_act d j :
  deliver d j =
    let '(p, act) := delivery_act (jb_max_entries j) d (jb_pending j) in
    apply (delivery_height d) act (set_pending p j).
Proof. by destruct d. Qed.

(** States reachable from a new buffer, with the deliveries made so far (newest
    first).  A failing write leaves a reachable state too. *)
Inductive reachable (st0 : Storage) (max : nat) : list Delivery -> JoinBuffer -> Prop :=
  | reach_new : reachable st0 max [] (new st0 max)
  | reach_step hist j d j' r :
      reachable st0 max hist j -> deliver d j = (j', r) -> reachable st0 max (d :: hist) j'.

Lemma apply_pending h act j j' r :
  apply h act j = (j', r) -> jb_pending j' = jb_pending j /\ jb_max_entries j' = jb_max_entries j.
Proof.
  destruct act; cbn; [|by intros [= <- _]|by intros [= <- _]].
  destruct (put _ _ _ _ _). by intros [= <- _].
Qed.

Lemma deliver_pending d j j' r :
  deliver d j = (j', r) ->
  jb_pending j' = (delivery_act (jb_max_entries j) d (jb_pending j)).1 /\
  jb_max_entries j' = jb_max_entries j.
Proof.
  rewrite deliver_act. destruct (delivery_act _ _ _) as [p act].
  intros H. by apply apply_pending in H.
Qed.

(** Every buffered half is the newest one delivered for its height. *)
Definition pending_newest (hist : list Delivery) (p : pending_map) : Prop :=
  forall h x, p !! h = Some x ->
    match x with
    | PBlock b => newest_block h hist = Some (pb_hash b, pb_tx_hashes b, pb_bytes b)
    | PLogs l => newest_logs h hist = Some (pl_bytes l)
    end.

Lemma delivery_act_other max d p h :
  h <> delivery_height d ->
  (delivery_act max d p).1 !! h = p !! h \/ (delivery_act max d p).1 !! h = None.
Proof.
  intros Hne. destruct d as [now h0 hash txs b|now h0 l]; cbn in *;
    unfold on_block_act, on_logs_act;
    destruct (p !! h0) as [[pb|pl]|]; cbn; try case_match; cbn; simplify_map_eq; auto.
Qed.

Lemma newest_other h d hist :
  h <> delivery_height d ->
  newest_block h (d :: hist) = newest_block h hist /\ newest_logs h (d :: hist) = newest_logs h hist.
Proof. intros Hne. destruct d; cbn in *; rewrite ?decide_False; done. Qed.

Lemma delivery_act_newest max d hist p :
  pending_newest hist p -> pending_newest (d :: hist) (delivery_act max d p).1.
Proof.
  intros Hp h x Hx. destruct (decide (h = delivery_height d)) as [->|Hne].
  - destruct d as [now h0 hash txs b|now h0 l]; cbn in *;
      unfold on_block_act, on_logs_act in Hx;
      destruct (p !! h0) as [[pb|pl]|]; cbn in Hx; try case_match; cbn in Hx;
      simplify_map_eq; cbn; by rewrite ?decide_True by done.
  - destruct (newest_other h d hist Hne) as [-> ->].
    destruct (delivery_act_other max d p h Hne) as [E|E]; rewrite E in Hx; [by apply Hp|done].
Qed.

Lemma reachable_inv st0 max hist j :
  reachable st0 max hist j ->
  jb_max_entries j = max /\ (size (jb_pending j) <= max)%nat /\ pending_newest hist (jb_pending j).
Proof.
  induction 1 as [|hist j d j' r _ (Hm & Hs & Hn) Hd].
  - cbn. split; [done|]. split; [rewrite map_size_empty; lia|]. intros h x Hx. by simplify_map_eq.
  - apply deliver_pending in Hd as [-> ->]. rewrite Hm. split; [done|]. split.
    + destruct d; [by apply on_block_act_cap|by apply on_logs_act_cap].
    + by apply delivery_act_newest.
Qed.

(** Whatever is delivered, in whatever order, and whether or not the
    store's writes succeed, the buffer never holds more than [max_entries]
    heights. *)
Theorem join_cap st0 max hist j :
  reachable st0 max hist j -> (size (jb_pending j) <= max)%nat.
Proof. intros H. by apply reachable_inv in H as (_ & ? & _). Qed.

(** C16: only complete records of one height reach the store, built from the
    newest halves.  A delivery that writes does one [put] at its own height,
    with the newest block and the newest logs delivered for that height, and
    removes the height from the buffer; any other delivery leaves the store
    alone, and a deferred one empties the buffer. *)
Theorem join_writes_newest_pair st0 max hist j d j' r :
  reachable st0 max hist j -> deliver d j = (j', r) ->
  (exists hash txs block logs,
     newest_block (delivery_height d) (d :: hist) = Some (hash, txs, block) /\
     newest_logs (delivery_height d) (d :: hist) = Some logs /\
     put (delivery_height d) hash txs [block; logs] (jb_storage j)
       = (jb_storage j', match r with Ok _ => Ok tt | Err e => Err e end) /\
     (r = Ok Completed \/ exists e, r = Err e) /\
     jb_pending j' = delete (delivery_height d) (jb_pending j)) \/
  (r = Ok Buffered /\ jb_storage j' = jb_storage j /\
     is_Some (jb_pending j' !! delivery_height d)) \/
  (r = Ok Deferred /\ jb_storage j' = jb_storage j /\ jb_pending j' = ∅).
Proof.
  intros Hr Hd. apply reachable_inv in Hr as (_ & _ & Hn). rewrite deliver_act in Hd.
  destruct d as [now h hash txs b|now h l]; cbn [delivery_act delivery_height] in *;
    [unfold on_block_act in Hd|unfold on_logs_act in Hd];
    destruct (jb_pending j !! h) as [[pb|pl]|] eqn:E; cbn in Hd;
    try (destruct (_ <=? _)%nat in Hd; cbn in Hd);
    try (injection Hd as <- <-; right; first [left; split; [done|]; split; [done|];
           cbn; rewrite lookup_insert_eq; by eexists | by right]);
    destruct (put _ _ _ _ _) as [st' [[]|e]] eqn:Ep; injection Hd as <- <-; left;
    specialize (Hn h _ E); cbn in Hn; cbn [newest_block newest_logs jb_storage set_storage set_pending jb_pending];
    rewrite ?decide_True by done; do 4 eexists; repeat split; eauto.
Qed.

End Traces.

(** ** Arrival order *)

Section Order.
Context {B : Blockstore} {F : Fjall} {J : JsonLib}.

Lemma on_block_then_logs t1 t2 h hash txs b l (j : JoinBuffer) :
  jb_pending j !! h = None -> (size (jb_pending j) < jb_max_entries j)%nat ->
  (let! _ := on_block t1 h hash txs b in on_logs t2 h l) j =
    apply h (AWrite hash txs b l HBlock t1) (set_pending (delete h (jb_pending j)) j).
Proof.
  intros Hn Hs. unfold bind, on_block, on_block_act. rewrite Hn, delete_id by done.
  rewrite (proj2 (Nat.leb_gt _ _) Hs). cbn. unfold on_logs, on_logs_act. cbn.
  by rewrite lookup_insert_eq, delete_insert_eq, delete_id.
Qed.

Lemma on_logs_then_block t1 t2 h hash txs b l (j : JoinBuffer) :
  jb_pending j !! h = None -> (size (jb_pending j) < jb_max_entries j)%nat ->
  (let! _ := on_logs t1 h l in on_block t2 h hash txs b) j =
    apply h (AWrite hash txs b l HLog t1) (set_pending (delete h (jb_pending j)) j).
Proof.
  intros Hn Hs. unfold bind, on_logs, on_logs_act. rewrite Hn, delete_id by done.
  rewrite (proj2 (Nat.leb_gt _ _) Hs). cbn. unfold on_block, on_block_act. cbn.
  by rewrite lookup_insert_eq, delete_insert_eq, delete_id.
Qed.

(** C26: the join does not depend on which half arrives first, nor on when.
    For a height not yet buffered and with room in the buffer, block-then-logs
    and logs-then-block end in the same state with the same result: one [put]
    of the pair, the buffer as it was. *)
Theorem join_order_independent t1 t2 t3 t4 h hash txs b l (j : JoinBuffer) :
  jb_pending j !! h = None -> (size (jb_pending j) < jb_max_entries j)%nat ->
  (let! _ := on_block t1 h hash txs b in on_logs t2 h l) j =
  (let! _ := on_logs t3 h l in on_block t4 h hash txs b) j /\
  (let! _ := on_block t1 h hash txs b in on_logs t2 h l) j =
    let '(st, r) := put h hash txs [b; l] (jb_storage j) in
    (set_storage st j, match r with Ok _ => Ok Completed | Err e => Err e end).
Proof.
  intros Hn Hs. rewrite on_block_then_logs, on_logs_then_block by done. split; [done|].
  cbn. rewrite delete_id by done. by destruct j, (put _ _ _ _ _).
Qed.

End Order.

(** ** Gauges *)

Lemma filter_partition (l : list Pending) :
  (length (List.filter is_block l) + length (List.filter is_logs l))%nat = length l.
Proof. induction l as [|[b|p] l IH]; cbn; lia. Qed.

(** The two count gauges account for every buffered height. *)
Lemma sample_counts max now p :
  (g_block_count (sample max now p) + g_log_count (sample max now p))%nat = size p.
Proof.
  unfold sample; cbn. rewrite filter_partition, length_fmap. apply length_map_to_list.
Qed.

Lemma min_list_spec (l : list N) t :
  min_list l = Some t -> t ∈ l /\ forall x, x ∈ l -> (t <= x)%N.
Proof.
  revert t; induction l as [|y l IH]; intros t; [done|].
  change (min_list (y :: l)) with (Some (match min_list l with Some m => N.min y m | None => y end)).
  destruct (min_list l) as [m|] eqn:E.
  - intros [= <-]. destruct (IH m eq_refl) as [Hin Hle]. split.
    + destruct (N.le_gt_cases y m); [rewrite N.min_l by lia|rewrite N.min_r by lia]; set_solver.
    + intros x [->|Hx]%elem_of_cons; [lia|]. specialize (Hle x Hx). lia.
  - intros [= <-]. assert (l = []) as -> by (destruct l as [|z l]; [done|]; cbn in E; by destruct (min_list l)).
    split; [set_solver|]. intros x Hx. assert (x = y) by set_solver. lia.
Qed.
