(* ===== verification/Codec.v ===== *)
(** * P-chain IDs and byte encodings (src/platform/codec.rs)

    SHA-256, base58 and hex come from the crates [sha2], [bs58] and [hex]:
    they are the operations of [HexLib] and [CodecLib], with the documented
    facts the code relies on as [HexLaws] and [CodecLaws]. *)

From Stdlib Require Import ZArith NArith Lia String Ascii.
From S2P Require Import Prelude Str.

(** ** The crates *)

Class HexLib : Type := {
  (** [hex::encode] *)
  hex_encode : bytes -> string;
  (** [hex::decode] *)
  hex_decode : string -> option bytes
}.

Class HexLaws (H : HexLib) : Prop := {
  hex_decode_encode : forall b, hex_decode (hex_encode b) = Some b
}.

Class CodecLib : Type := {
  (** [Sha256::digest] *)
  sha256_digest : bytes -> bytes;
  (** [bs58::encode(..).into_string()] *)
  bs58_encode : bytes -> string;
  (** [bs58::decode(..).into_vec()] *)
  bs58_decode : string -> option bytes
}.

Class CodecLaws (L : CodecLib) : Prop := {
  sha256_length : forall b, length (sha256_digest b) = 32%nat;
  bs58_decode_encode : forall b, bs58_decode (bs58_encode b) = Some b
}.

Definition CHECKSUM_LEN : nat := 4.

(** ** Block kinds *)

Inductive BlockKind : Type := Proposal | Commit | Abort | Other.

#[global] Instance BlockKind_eq_dec : EqDecision BlockKind.
Proof. solve_decision. Defined.

Definition TYPE_ID_OFFSET : nat := 2.

(** [bytes.get(2..6)], read as a big-endian [u32]. *)
Definition block_kind (b : bytes) : BlockKind :=
  if decide (TYPE_ID_OFFSET + 4 <= length b)%nat then
    let raw := take 4 (drop TYPE_ID_OFFSET b) in
    let id := from_be_bytes raw in
    if decide (id = 0 \/ id = 29)%N then Proposal
    else if decide (id = 2 \/ id = 31)%N then Commit
    else if decide (id = 1 \/ id = 30)%N then Abort
    else Other
  else Other.

(** ** Which encoding a caller asked for *)

Inductive Encoding : Type := Hex | Hexc | Hexnc | EJson.

#[global] Instance Encoding_eq_dec : EqDecision Encoding.
Proof. solve_decision. Defined.

Definition encoding_parse (s : option string) : result Encoding :=
  match s with
  | None => Ok Hex
  | Some s =>
      if String.eqb s "hex" then Ok Hex
      else if String.eqb s "hexc" then Ok Hexc
      else if String.eqb s "hexnc" then Ok Hexnc
      else if String.eqb s "json" then Ok EJson
      else Err EUnknownEncoding
  end.

Definition encoding_as_str (e : Encoding) : string :=
  match e with Hex => "hex" | Hexc => "hexc" | Hexnc => "hexnc" | EJson => "json" end.

Section Codec.
Context {H : HexLib} {L : CodecLib}.

Definition sha256 (b : bytes) : bytes := sha256_digest b.

(** The last four bytes of the digest. *)
Definition checksum (payload : bytes) : bytes :=
  let digest := sha256 payload in
  drop (length digest - CHECKSUM_LEN) digest.

Definition cb58_encode (id : bytes) : string := bs58_encode (id ++ checksum id).

Definition cb58_decode (s : string) : result bytes :=
  match bs58_decode s with
  | None => Err EBadBase58
  | Some raw =>
      if decide (length raw <> 32 + CHECKSUM_LEN)%nat
      then Err (ECb58Length (N.of_nat (length raw)))
      else
        let payload := take 32 raw in
        let got := drop 32 raw in
        if decide (got <> checksum payload) then Err EChecksum else Ok payload
  end.

Definition block_id_of (b : bytes) : string := cb58_encode (sha256 b).

Definition hexnc_decode (s : string) : result bytes :=
  match strip_prefix "0x" s with
  | None => Err ENoHexPrefix
  | Some body => ok_or (hex_decode body) EBadHex
  end.

Definition hex_with_checksum (b : bytes) : string :=
  ("0x" ++ hex_encode (b ++ checksum b))%string.

Definition render_bytes (e : Encoding) (b : bytes) : option string :=
  match e with
  | Hex | Hexc => Some (hex_with_checksum b)
  | Hexnc => Some ("0x" ++ hex_encode b)%string
  | EJson => None
  end.

End Codec.

(** ** Facts *)

Section Facts.
Context {H : HexLib} {L : CodecLib} {HL : HexLaws H} {LL : CodecLaws L}.

Lemma length_checksum b : length (checksum b) = CHECKSUM_LEN.
Proof. unfold checksum, sha256. rewrite length_drop, sha256_length. done. Qed.

Lemma cb58_roundtrip id : length id = 32%nat -> cb58_decode (cb58_encode id) = Ok id.
Proof.
  intros Hid. unfold cb58_decode, cb58_encode. rewrite bs58_decode_encode.
  rewrite decide_False; [|by rewrite length_app, Hid, length_checksum; intros []].
  rewrite take_app_length', drop_app_length' by done. by rewrite decide_False by naive_solver.
Qed.

Lemma cb58_decode_ok s id :
  cb58_decode s = Ok id -> length id = 32%nat /\ bs58_decode s = Some (id ++ checksum id).
Proof.
  unfold cb58_decode. destruct (bs58_decode s) as [raw|]; [|done].
  case_decide as Hlen; [done|]. case_decide as Hc; [done|]. intros [= <-].
  rewrite <-Hc, take_drop. split; [|done]. rewrite length_take, Hlen. done.
Qed.

Lemma block_id_decodes b : cb58_decode (block_id_of b) = Ok (sha256 b).
Proof. apply cb58_roundtrip. apply sha256_length. Qed.

Lemma hexnc_roundtrip b : hexnc_decode ("0x" ++ hex_encode b)%string = Ok b.
Proof. unfold hexnc_decode. rewrite strip_prefix_app. by rewrite hex_decode_encode. Qed.

Lemma encoding_roundtrip e : encoding_parse (Some (encoding_as_str e)) = Ok e.
Proof. by destruct e. Qed.

(** C40: CB58 is a checked encoding of exactly the 32-byte IDs.  Every ID survives the
    round trip, so no two share a spelling; and a text is accepted exactly when its
    base58 payload is 32 bytes followed by their own checksum, which are then the ID:
    a payload of another length, or one whose last four bytes are anything else, is
    refused. *)
Theorem cb58_sound_and_complete :
  (forall id, length id = 32%nat -> cb58_decode (cb58_encode id) = Ok id) /\
  (forall id1 id2, length id1 = 32%nat -> length id2 = 32%nat ->
     cb58_encode id1 = cb58_encode id2 -> id1 = id2) /\
  (forall s id, cb58_decode s = Ok id <->
     length id = 32%nat /\ bs58_decode s = Some (id ++ checksum id)%list) /\
  (forall s raw, bs58_decode s = Some raw -> (length raw <> 36%nat \/ drop 32 raw <> checksum (take 32 raw)) ->
     exists e, cb58_decode s = Err e).
Proof.
  split_and!.
  - apply cb58_roundtrip.
  - intros id1 id2 H1 H2 He. apply (f_equal cb58_decode) in He.
    rewrite !cb58_roundtrip in He by done. by injection He.
  - intros s id. split; [apply cb58_decode_ok|]. intros [Hl Hd]. rewrite <- (cb58_roundtrip id Hl).
    unfold cb58_decode, cb58_encode. by rewrite Hd, bs58_decode_encode.
  - intros s raw Hd Hbad. destruct (cb58_decode s) as [id|e] eqn:E; [|by exists e]. exfalso.
    apply cb58_decode_ok in E as [Hl Hr]. rewrite Hd in Hr. injection Hr as ->.
    rewrite length_app, length_checksum, Hl in Hbad. rewrite take_app_length', drop_app_length' in Hbad by done.
    by destruct Hbad.
Qed.

(** The byte encodings of a stored block all carry the stored bytes:
    [hexnc] decodes back to them, [hex] and [hexc] to them followed by their
    four-byte checksum, and [json] renders no bytes at all. *)
Theorem render_bytes_decodes e b :
  match render_bytes e b with
  | Some s => hexnc_decode s = Ok (if decide (e = Hexnc) then b else b ++ checksum b)
  | None => e = EJson
  end.
Proof.
  destruct e; cbn [render_bytes]; unfold hex_with_checksum; rewrite ?hexnc_roundtrip; done.
Qed.

End Facts.

(** ** Concrete implementations for witnesses *)

Module Toy.

Definition nibble (n : N) : ascii := digit_char n.

Fixpoint hex_enc (b : bytes) : string :=
  match b with
  | [] => EmptyString
  | x :: b =>
      String (nibble (Byte.to_N x / 16)) (String (nibble (Byte.to_N x mod 16)) (hex_enc b))
  end.

Fixpoint hex_dec (s : string) : option bytes :=
  match s with
  | EmptyString => Some []
  | String a (String c s) =>
      match digit_value 16 a, digit_value 16 c, hex_dec s with
      | Some hi, Some lo, Some r => Some (byte_of_N (hi * 16 + lo) :: r)
      | _, _, _ => None
      end
  | String _ EmptyString => None
  end.

Lemma hex_dec_enc b : hex_dec (hex_enc b) = Some b.
Proof.
  induction b as [|x b IH]; [done|]. cbn [hex_enc hex_dec]. pose proof (to_N_lt_256 x).
  unfold nibble. rewrite !digit_value_char, IH.
  - rewrite N.mul_comm, <-N.div_mod by done. by rewrite byte_of_N_to_N.
  - lia.
  - apply N.mod_lt. done.
  - lia.
  - apply N.Div0.div_lt_upper_bound. lia.
Qed.

Definition ToyHex : HexLib := {| hex_encode := hex_enc; hex_decode := hex_dec |}.

Lemma ToyHex_laws : HexLaws ToyHex.
Proof. split. exact hex_dec_enc. Qed.

Definition ToyCodec : CodecLib := {|
  sha256_digest b := take 32 (b ++ replicate 32 Byte.x00);
  bs58_encode := hex_enc;
  bs58_decode := hex_dec
|}.

Lemma ToyCodec_laws : CodecLaws ToyCodec.
Proof.
  split.
  - intros b. unfold sha256_digest, ToyCodec. rewrite length_take, length_app, length_replicate. lia.
  - exact hex_dec_enc.
Qed.

End Toy.
