(* ===== verification/RefCodec.v ===== *)
(** * Reference hashing and base58

    SHA-256 as FIPS 180-4 gives it and base58 with the Bitcoin alphabet,
    executable: the algorithms behind the [sha2] and [bs58] crates.  The laws the
    development assumes of those crates are proved here of the algorithms, so the
    codec's theorems hold of real digests and real identifiers, and the unit
    tests run on real chain data. *)

From Stdlib Require Import ZArith NArith Lia String Ascii.
From S2P Require Import Prelude Str Codec.

(** ** SHA-256 *)

Definition w32 (n : N) : N := (n mod 2 ^ 32)%N.
Definition add32 (a b : N) : N := w32 (a + b).
Definition rotr (x n : N) : N := N.lor (N.shiftr x n) (w32 (N.shiftl x (32 - n))).

Definition K256 : list N := [
   1116352408; 1899447441; 3049323471; 3921009573; 961987163; 1508970993;
   2453635748; 2870763221; 3624381080; 310598401; 607225278; 1426881987;
   1925078388; 2162078206; 2614888103; 3248222580; 3835390401; 4022224774;
   264347078; 604807628; 770255983; 1249150122; 1555081692; 1996064986;
   2554220882; 2821834349; 2952996808; 3210313671; 3336571891; 3584528711;
   113926993; 338241895; 666307205; 773529912; 1294757372; 1396182291;
   1695183700; 1986661051; 2177026350; 2456956037; 2730485921; 2820302411;
   3259730800; 3345764771; 3516065817; 3600352804; 4094571909; 275423344;
   430227734; 506948616; 659060556; 883997877; 958139571; 1322822218;
   1537002063; 1747873779; 1955562222; 2024104815; 2227730452; 2361852424;
   2428436474; 2756734187; 3204031479; 3329325298
]%N.

Record Digest : Type := { da : N; db : N; dc : N; dd : N; de : N; df : N; dg : N; dh : N }.

Definition H256 : Digest := Build_Digest 1779033703 3144134277 1013904242 2773480762 1359893119 2600822924 528734635 1541459225.

(** One round: the word of the schedule and the constant. *)
Definition round (w k : N) (s : Digest) : Digest :=
  let s1 := N.lxor (N.lxor (rotr (de s) 6) (rotr (de s) 11)) (rotr (de s) 25) in
  let ch := N.lxor (N.land (de s) (df s)) (N.land (N.lxor (de s) 4294967295) (dg s)) in
  let t1 := w32 (dh s + s1 + ch + k + w) in
  let s0 := N.lxor (N.lxor (rotr (da s) 2) (rotr (da s) 13)) (rotr (da s) 22) in
  let maj := N.lxor (N.lxor (N.land (da s) (db s)) (N.land (da s) (dc s))) (N.land (db s) (dc s)) in
  {| da := w32 (t1 + s0 + maj); db := da s; dc := db s; dd := dc s;
     de := add32 (dd s) t1; df := de s; dg := df s; dh := dg s |}.

(** The next word of the schedule from the last sixteen. *)
Definition next_word (ws : list N) : N :=
  let w i := nth i ws 0%N in
  let s0 := N.lxor (N.lxor (rotr (w 1%nat) 7) (rotr (w 1%nat) 18)) (N.shiftr (w 1%nat) 3) in
  let s1 := N.lxor (N.lxor (rotr (w 14%nat) 17) (rotr (w 14%nat) 19)) (N.shiftr (w 14%nat) 10) in
  w32 (w 0%nat + s0 + w 9%nat + s1).

Fixpoint rounds (ks : list N) (ws : list N) (s : Digest) : Digest :=
  match ks with
  | [] => s
  | k :: ks => rounds ks (tl ws ++ [next_word ws]) (round (nth 0 ws 0%N) k s)
  end.

Definition add_digest (s t : Digest) : Digest :=
  Build_Digest (add32 (da s) (da t)) (add32 (db s) (db t)) (add32 (dc s) (dc t)) (add32 (dd s) (dd t))
               (add32 (de s) (de t)) (add32 (df s) (df t)) (add32 (dg s) (dg t)) (add32 (dh s) (dh t)).

(** Big-endian words of four bytes. *)
Fixpoint be_words (n : nat) (b : bytes) : list N :=
  match n with
  | O => []
  | S n => from_be_bytes (take 4 b) :: be_words n (drop 4 b)
  end.

Definition compress (s : Digest) (block : bytes) : Digest := add_digest s (rounds K256 (be_words 16 block) s).

Definition pad256 (b : bytes) : bytes :=
  (b ++ [Byte.x80] ++ replicate (Z.to_nat ((55 - Z.of_nat (length b)) mod 64)) Byte.x00
     ++ reverse (to_le_bytes 8 (8 * N.of_nat (length b))))%list.

Fixpoint blocks64 (n : nat) (b : bytes) : list bytes :=
  match n with O => [] | S n => take 64 b :: blocks64 n (drop 64 b) end.

Definition be4 (n : N) : bytes := reverse (to_le_bytes 4 n).

Definition sha256 (b : bytes) : bytes :=
  let p := pad256 b in
  let s := foldl compress H256 (blocks64 (length p / 64) p) in
  (be4 (da s) ++ be4 (db s) ++ be4 (dc s) ++ be4 (dd s) ++ be4 (de s) ++ be4 (df s) ++ be4 (dg s) ++ be4 (dh s))%list.

Lemma sha256_32 b : length (sha256 b) = 32%nat.
Proof. unfold sha256, be4. by rewrite !length_app, !length_reverse, !length_to_le_bytes. Qed.

(** The examples of the standard: the empty message, one block and two. *)
Example sha256_vectors :
  map (fun s => Toy.hex_enc (sha256 (str_bytes s)))
    [""; "abc"; "abcdbcdecdefdefgefghfghighijhijkijkljklmklmnlmnomnopnopq"]%string =
  ["e3b0c44298fc1c149afbf4c8996fb92427ae41e4649b934ca495991b7852b855";
   "ba7816bf8f01cfea414140de5dae2223b00361a396177a9cb410ff61f20015ad";
   "248d6a61d20638b8e5c026930c3e6039a33ce45964ff2167f6ecedd419db06c1"]%string.
Proof. vm_compute. reflexivity. Qed.

(** ** Positional notation *)

(** Least significant digit first, no leading zero. *)
Fixpoint digits_le (fuel : nat) (k n : N) : list N :=
  match fuel with
  | O => []
  | S fuel => if (n =? 0)%N then [] else (n mod k)%N :: digits_le fuel k (n / k)
  end.

Definition digits (k n : N) : list N := digits_le (N.size_nat n) k n.

Fixpoint value_le (k : N) (ds : list N) : N :=
  match ds with [] => 0%N | d :: ds => (d + k * value_le k ds)%N end.

Lemma value_digits_le k fuel : (2 <= k)%N -> forall n, (n < 2 ^ N.of_nat fuel)%N -> value_le k (digits_le fuel k n) = n.
Proof.
  intros Hk. induction fuel as [|fuel IH]; intros n Hn; [cbn in *; lia|].
  cbn [digits_le]. destruct (N.eqb_spec n 0) as [->|Hne]; [done|]. cbn [value_le].
  rewrite Nat2N.inj_succ, N.pow_succ_r' in Hn. rewrite IH.
  - rewrite N.add_comm. symmetry. apply N.div_mod'.
  - apply N.Div0.div_lt_upper_bound. nia.
Qed.

Lemma size_bound n : (n < 2 ^ N.of_nat (N.size_nat n))%N.
Proof.
  destruct n as [|p]; [cbn; lia|]. cbn [N.size_nat].
  induction p as [p IH|p IH|]; cbn [Pos.size_nat]; [rewrite Nat2N.inj_succ, N.pow_succ_r'; lia..|done].
Qed.

Lemma value_digits k n : (2 <= k)%N -> value_le k (digits k n) = n.
Proof. intros Hk. apply value_digits_le; [done|]. apply size_bound. Qed.

Lemma digits_value_le k ds : (2 <= k)%N -> Forall (fun d => (d < k)%N) ds -> last ds <> Some 0%N ->
  forall fuel, (value_le k ds < 2 ^ N.of_nat fuel)%N -> digits_le fuel k (value_le k ds) = ds.
Proof.
  intros Hk. induction 1 as [|d ds Hd Hds IH]; intros Hl fuel Hf; [by destruct fuel|].
  assert (Hpos : (0 < value_le k (d :: ds))%N).
  { clear IH Hf. revert d Hd Hl. induction Hds as [|e ds He Hds IH]; intros d Hd Hl; cbn [value_le] in *.
    - cbn in Hl. assert (d <> 0%N) by congruence. lia.
    - specialize (IH e He Hl). nia. }
  destruct fuel as [|fuel]; [change (2 ^ N.of_nat 0)%N with 1%N in Hf; lia|]. rewrite Nat2N.inj_succ, N.pow_succ_r' in Hf.
  cbn [digits_le]. destruct (N.eqb_spec (value_le k (d :: ds)) 0) as [E|_]; [lia|].
  cbn [value_le] in *. rewrite N.mul_comm, N.Div0.mod_add, N.div_add, N.mod_small, N.div_small by lia.
  f_equal. rewrite N.add_0_l. apply IH; [|nia].
  destruct ds; [done|exact Hl].
Qed.

Lemma digits_value k ds : (2 <= k)%N -> Forall (fun d => (d < k)%N) ds -> last ds <> Some 0%N ->
  digits k (value_le k ds) = ds.
Proof. intros Hk Hds Hl. apply digits_value_le; [done..|]. apply size_bound. Qed.

Lemma digits_le_lt k fuel : (2 <= k)%N -> forall n, Forall (fun d => (d < k)%N) (digits_le fuel k n).
Proof.
  intros Hk. induction fuel as [|fuel IH]; intros n; cbn; [constructor|]. destruct (n =? 0)%N; [constructor|].
  constructor; [apply N.mod_lt; lia|apply IH].
Qed.

Lemma digits_le_last k fuel : (2 <= k)%N -> forall n, (n < 2 ^ N.of_nat fuel)%N -> last (digits_le fuel k n) <> Some 0%N.
Proof.
  intros Hk. induction fuel as [|fuel IH]; intros n Hn; [done|]. cbn [digits_le].
  destruct (N.eqb_spec n 0) as [|Hne]; [done|]. rewrite Nat2N.inj_succ, N.pow_succ_r' in Hn.
  assert (Hq : (n / k < 2 ^ N.of_nat fuel)%N) by (apply N.Div0.div_lt_upper_bound; nia).
  specialize (IH _ Hq). destruct (digits_le fuel k (n / k)) as [|d ds] eqn:E; [|exact IH].
  intros [= Hm]. pose proof (value_digits_le k fuel Hk _ Hq) as Hv. rewrite E in Hv. cbn in Hv.
  pose proof (N.div_mod' n k). lia.
Qed.

(** ** Base58 *)

Definition alphabet : string := "123456789ABCDEFGHJKLMNPQRSTUVWXYZabcdefghijkmnopqrstuvwxyz".

Definition b58_char (d : N) : ascii := default "1"%char (String.get (N.to_nat d) alphabet).

Fixpoint index_of (c : ascii) (s : string) : option N :=
  match s with
  | EmptyString => None
  | String c' s => if Ascii.eqb c c' then Some 0%N else N.succ <$> index_of c s
  end.

Definition b58_digit (c : ascii) : option N := index_of c alphabet.

Lemma b58_digit_char d : (d < 58)%N -> b58_digit (b58_char d) = Some d.
Proof.
  intros Hd. assert (Hall : forallb (fun i => bool_decide (b58_digit (b58_char (N.of_nat i)) = Some (N.of_nat i))) (seq 0 58) = true)
    by (vm_compute; reflexivity).
  rewrite forallb_forall in Hall. specialize (Hall (N.to_nat d)). rewrite N2Nat.id in Hall.
  eapply bool_decide_eq_true, Hall. apply in_seq. lia.
Qed.

(** The leading zeros of a list, and the rest. *)
Fixpoint span_zeros (l : list N) : nat * list N :=
  match l with
  | d :: l' => if (d =? 0)%N then let '(z, r) := span_zeros l' in (S z, r) else (O, l)
  | [] => (O, [])
  end.

Lemma span_zeros_eq l z r : span_zeros l = (z, r) -> l = replicate z 0%N ++ r /\ head r <> Some 0%N.
Proof.
  revert z r; induction l as [|d l IH]; intros z r; cbn; [by intros [= <- <-]|].
  destruct (N.eqb_spec d 0) as [->|Hne].
  - destruct (span_zeros l) as [z' r'] eqn:E. intros [= <- <-]. destruct (IH _ _ eq_refl) as [-> Hh]. done.
  - intros [= <- <-]. split; [done|]. cbn. congruence.
Qed.

Lemma span_zeros_replicate z r : head r <> Some 0%N -> span_zeros (replicate z 0%N ++ r) = (z, r).
Proof.
  intros Hh. induction z as [|z IH]; cbn; [|by rewrite IH].
  destruct r as [|d r]; [done|]. cbn in *. destruct (N.eqb_spec d 0); [congruence|done].
Qed.

(** Digits to the base [k'] of a number given, most significant digit first, to
    the base [k]; each leading zero becomes one. *)
Definition rebase (k k' : N) (ds : list N) : list N :=
  let '(z, r) := span_zeros ds in
  (replicate z 0%N ++ reverse (digits k' (value_le k (reverse r))))%list.

Lemma rebase_rebase k k' ds :
  (2 <= k)%N -> (2 <= k')%N -> Forall (fun d => (d < k)%N) ds -> rebase k' k (rebase k k' ds) = ds.
Proof.
  intros Hk Hk' Hds. unfold rebase. destruct (span_zeros ds) as [z r] eqn:E.
  destruct (span_zeros_eq _ _ _ E) as [-> Hh]. apply Forall_app in Hds as [_ Hr].
  set (n := value_le k (reverse r)).
  rewrite span_zeros_replicate.
  2:{ rewrite <- last_reverse, reverse_involutive. apply digits_le_last; [done|apply size_bound]. }
  rewrite reverse_involutive, value_digits by done. unfold n. rewrite digits_value; [|done| |].
  - by rewrite reverse_involutive.
  - by apply Forall_reverse.
  - by rewrite last_reverse.
Qed.

Definition ref_bs58_encode (b : bytes) : string :=
  string_of_list_ascii (map b58_char (rebase 256 58 (map Byte.to_N b))).

Definition ref_bs58_decode (s : string) : option bytes :=
  ds ← mapM b58_digit (list_ascii_of_string s); Some (map byte_of_N (rebase 58 256 ds)).

Lemma rebase_lt k k' ds : (2 <= k')%N -> Forall (fun d => (d < k')%N) (rebase k k' ds).
Proof.
  intros Hk'. unfold rebase. destruct (span_zeros ds) as [z r]. apply Forall_app. split.
  - apply Forall_replicate. lia.
  - apply Forall_reverse, digits_le_lt. done.
Qed.

Lemma ref_bs58_roundtrip b : ref_bs58_decode (ref_bs58_encode b) = Some b.
Proof.
  unfold ref_bs58_decode, ref_bs58_encode. rewrite list_ascii_of_string_of_list_ascii.
  assert (Hm : mapM b58_digit (map b58_char (rebase 256 58 (map Byte.to_N b))) = Some (rebase 256 58 (map Byte.to_N b))).
  { pose proof (rebase_lt 256 58 (map Byte.to_N b) ltac:(lia)) as Hlt.
    induction Hlt as [|d ds Hd _ IH]; [done|]. cbn [map mapM]. rewrite b58_digit_char by done. cbn. by rewrite IH. }
  rewrite Hm. cbn [mbind option_bind]. f_equal. rewrite rebase_rebase; [|lia|lia|].
  - rewrite map_map. transitivity (map id b); [apply map_ext, byte_of_N_to_N|apply map_id].
  - apply Forall_forall. intros n Hn. apply list_elem_of_fmap in Hn as (x & -> & _). apply to_N_lt_256.
Qed.

(** ** The instances *)

Definition RefCodec : CodecLib := {|
  sha256_digest := sha256; bs58_encode := ref_bs58_encode; bs58_decode := ref_bs58_decode
|}.

#[global] Instance RefCodec_laws : CodecLaws RefCodec.
Proof. split; [exact sha256_32|exact ref_bs58_roundtrip]. Qed.

(** Examples of the base58 draft. *)
Example bs58_vectors :
  ref_bs58_encode (str_bytes "Hello World!") = "2NEpo7TZRRrLZSi2U"%string /\
  ref_bs58_encode (map byte_of_N [0; 0; 40; 127; 180; 205]%N) = "11233QC4"%string /\
  ref_bs58_decode "0l0l" = None.
Proof. vm_compute. done. Qed.
