(* ===== verification/Upstream.v ===== *)
(** * Upstream behaviour shared by the chains (src/upstream.rs, [IngestCfg::pace])

    URL redaction, the request pacer, [Retry-After] handling, and the frame
    reader.  Instants and durations are nanoseconds. *)

From Stdlib Require Import ZArith NArith Lia String Ascii.
From S2P Require Import Prelude Str Json.

Definition nanos : N := 1000000000.
Definition from_secs (s : N) : N := s * nanos.
Definition from_millis (ms : N) : N := ms * 1000000.

(** ** [redact_url] *)

Definition redact_url (url : string) : string :=
  match split_once "?" url with
  | Some (base, _) => (base ++ "?<redacted>")%string
  | None => url
  end.

(** A redacted URL says nothing about the query.  Two URLs that differ
    only in their query string - where the rate-limit token travels - redact to
    the same text, and a URL without a query is left alone. *)
Theorem redact_url_hides_query base q1 q2 :
  contains_char "?" base = false ->
  redact_url (base ++ String "?" q1) = redact_url (base ++ String "?" q2) /\
  redact_url base = base.
Proof.
  intros Hb. unfold redact_url. rewrite !split_once_app by done. split; [done|].
  unfold contains_char in Hb. by destruct (split_once "?" base).
Qed.

(** [concat!("neve/", env!("CARGO_PKG_VERSION"))]; the version is the build's. *)
Definition USER_AGENT (version : string) : string := ("neve/" ++ version)%string.

(** ** [Pacer] *)

(** The largest [Instant]: 64-bit signed seconds on the platforms neve runs on. *)
Definition instant_max : N := (2 ^ 63 - 1) * nanos + (nanos - 1).

Definition instant_checked_add (t d : N) : option N :=
  if (t + d <=? instant_max)%N then Some (t + d)%N else None.

Record Pacer : Type := { p_interval : N; p_next_slot : N }.

Definition pacer_new (interval now : N) : Pacer := {| p_interval := interval; p_next_slot := now |}.

(** Claim a slot at time [now]: [None] when unpaced, else the instant the
    request may start (the caller sleeps until it). *)
Definition pacer_wait (now : N) (p : Pacer) : Pacer * option N :=
  if (p_interval p =? 0)%N then (p, None)
  else
    let slot := N.max (p_next_slot p) now in
    let next := default slot (instant_checked_add slot (p_interval p)) in
    ({| p_interval := p_interval p; p_next_slot := next |}, Some slot).

(** When a request released by a wait may start. *)
Definition release (now : N) (slot : option N) : N := match slot with Some s => N.max now s | None => now end.

(** [IngestCfg::pace]: the host-wide budget first, then this chain's own. *)
Definition pace (now : N) (host : option Pacer) (own : Pacer) : option Pacer * Pacer * N :=
  let '(host', t) :=
    match host with
    | Some h => let '(h', s) := pacer_wait now h in (Some h', release now s)
    | None => (None, now)
    end in
  let '(own', s) := pacer_wait t own in
  (host', own', release t s).

(** A run of claims on one pacer at the given times: the slots, in order. *)
Fixpoint claims (p : Pacer) (times : list N) : list N :=
  match times with
  | [] => []
  | now :: times =>
      let '(p', s) := pacer_wait now p in
      match s with
      | Some slot => slot :: claims p' times
      | None => claims p' times
      end
  end.

(** Each slot at least [d] after the one before, the first at least [lo]. *)
Inductive spaced (d : N) : N -> list N -> Prop :=
  | spaced_nil lo : spaced d lo []
  | spaced_cons lo s l : (lo <= s)%N -> spaced d (s + d) l -> spaced d lo (s :: l).

Lemma claims_spaced p times :
  (0 < p_interval p)%N ->
  Forall (fun s => (s + p_interval p <= instant_max)%N) (claims p times) ->
  spaced (p_interval p) (p_next_slot p) (claims p times).
Proof.
  intros Hi. revert p Hi; induction times as [|now times IH]; intros p Hi; cbn [claims]; [constructor|].
  unfold pacer_wait. destruct (N.eqb_spec (p_interval p) 0) as [E|_]; [lia|].
  set (slot := N.max _ _). intros [Hs Hall]%Forall_cons.
  constructor; [unfold slot; lia|].
  assert (Hn : default slot (instant_checked_add slot (p_interval p)) = (slot + p_interval p)%N).
  { unfold instant_checked_add. by rewrite (proj2 (N.leb_le _ _) Hs). }
  rewrite Hn in *. by apply (IH {| p_interval := p_interval p; p_next_slot := slot + p_interval p |}).
Qed.

Lemma spaced_lower d lo l s : spaced d lo l -> s ∈ l -> (lo <= s)%N.
Proof.
  induction 1 as [|lo s' l Hle Hs IH]; [by rewrite elem_of_nil|].
  rewrite elem_of_cons. intros [->|Hin]; [done|]. specialize (IH Hin). lia.
Qed.

(** How many slots fall in a half-open window. *)
Definition in_window (lo hi : N) (l : list N) : nat :=
  length (List.filter (fun s => (lo <=? s) && (s <? hi))%N l).

Lemma spaced_below d lo l e :
  spaced d lo l ->
  in_window 0 e l = 0%nat \/ (lo + (N.of_nat (in_window 0 e l) - 1) * d < e)%N.
Proof.
  induction 1 as [|lo s l Hle Hsp IH]; [by left|].
  unfold in_window in *. cbn [List.filter].
  rewrite (proj2 (N.leb_le 0 s)) by lia. cbn [andb].
  destruct (N.ltb_spec s e) as [Hlt|Hge]; [right|left].
  - cbn [length]. destruct IH as [E|E]; [rewrite E; lia|].
    destruct (length _) as [|c]; [lia|]. nia.
  - destruct IH as [E|E]; [done|]. nia.
Qed.

Lemma in_window_mono lo e l : (in_window lo e l <= in_window 0 e l)%nat.
Proof.
  unfold in_window. induction l as [|s l IH]; cbn; [done|].
  rewrite (proj2 (N.leb_le 0 s)) by lia. cbn [andb].
  destruct (lo <=? s)%N, (s <? e)%N; cbn; lia.
Qed.

Lemma spaced_window d lo l t w :
  spaced d lo l ->
  in_window t (t + w) l = 0%nat \/ ((N.of_nat (in_window t (t + w) l) - 1) * d < w)%N.
Proof.
  induction 1 as [|lo s l Hle Hsp IH]; [by left|].
  destruct (N.lt_ge_cases s t) as [Hlt|Hge].
  - unfold in_window in *. cbn [List.filter]. rewrite (proj2 (N.leb_gt t s) Hlt). exact IH.
  - pose proof (spaced_below d s (s :: l) (t + w)) as Hb.
    pose proof (in_window_mono t (t + w) (s :: l)) as Hm.
    destruct Hb as [E|E]; [by constructor|left; lia|].
    destruct (decide (in_window t (t + w) (s :: l) = 0)%nat); [by left|right]. nia.
Qed.

(** Every caller gets a slot, no earlier than it asked and no later than it must:
    at once, or when the slot before it is an interval ago. *)
Inductive prompt (d : N) : N -> list N -> list N -> Prop :=
  | prompt_nil lo : prompt d lo [] []
  | prompt_cons lo now s times l :
      (now <= s)%N -> s = now \/ s = lo -> prompt d (s + d) times l -> prompt d lo (now :: times) (s :: l).

Lemma claims_prompt p times :
  (0 < p_interval p)%N ->
  Forall (fun s => (s + p_interval p <= instant_max)%N) (claims p times) ->
  prompt (p_interval p) (p_next_slot p) times (claims p times).
Proof.
  intros Hi. revert p Hi; induction times as [|now times IH]; intros p Hi; cbn [claims]; [constructor|].
  unfold pacer_wait. destruct (N.eqb_spec (p_interval p) 0) as [E|_]; [lia|].
  set (slot := N.max _ _). intros [Hs Hall]%Forall_cons.
  constructor; [unfold slot; lia|unfold slot; lia|].
  assert (Hn : default slot (instant_checked_add slot (p_interval p)) = (slot + p_interval p)%N).
  { unfold instant_checked_add. by rewrite (proj2 (N.leb_le _ _) Hs). }
  rewrite Hn in *. by apply (IH {| p_interval := p_interval p; p_next_slot := slot + p_interval p |}).
Qed.

Lemma prompt_releases d lo times l :
  prompt d lo times l -> zip_with (fun now s => release now (Some s)) times l = l.
Proof. induction 1 as [|lo now s times l Hle _ _ IH]; cbn; [done|]. unfold release in *. rewrite IH. f_equal. lia. Qed.

(** C37: a pacer bounds the request rate no matter how many callers share it
    and when they ask.  Every caller is released at the slot it is given, no
    earlier than it asked; the slots are each at least [interval] after the
    previous one, and any window of length [w] holds at most one more of them than
    [w / interval]; and nobody waits longer than that takes: a slot is the asking
    time, or one [interval] after the slot before it (as long as the clock does not
    run off the end of [Instant]). *)
Theorem pacer_rate_bound p times t w :
  (0 < p_interval p)%N ->
  Forall (fun s => (s + p_interval p <= instant_max)%N) (claims p times) ->
  prompt (p_interval p) (p_next_slot p) times (claims p times) /\
  zip_with (fun now s => release now (Some s)) times (claims p times) = claims p times /\
  spaced (p_interval p) (p_next_slot p) (claims p times) /\
  (in_window t (t + w) (claims p times) = 0%nat \/
   ((N.of_nat (in_window t (t + w) (claims p times)) - 1) * p_interval p < w)%N).
Proof.
  intros Hi Hall. pose proof (claims_spaced p times Hi Hall) as Hs. pose proof (claims_prompt p times Hi Hall) as Hp.
  split_and!; [done|by eapply prompt_releases|done|by eapply spaced_window].
Qed.

(** A paced request waits for both budgets. *)
Lemma pace_waits now host own host' own' t :
  pace now host own = (host', own', t) ->
  (now <= t)%N /\
  (forall h, host = Some h -> (0 < p_interval h)%N -> (p_next_slot h <= t)%N) /\
  ((0 < p_interval own)%N -> (p_next_slot own <= t)%N).
Proof.
  unfold pace, pacer_wait, release.
  destruct host as [h|]; [destruct (N.eqb_spec (p_interval h) 0)|];
    destruct (N.eqb_spec (p_interval own) 0); intros [= <- <- <-];
    (split; [lia|]; split; [intros h' [= <-] ?; cbn; lia|intros; lia]) ||
    (split; [lia|]; split; [done|intros; lia]).
Qed.

(** ** Throttling *)

(** What [handle_throttle] does with a 429 / 503: sleep and let the caller
    retry, or signal [fatal] and park forever. *)
Inductive Throttle : Type :=
  | Slept (d : N)
  | Parked.

Definition handle_throttle (max_wait retry_after : N) : Throttle :=
  let wait := from_secs retry_after in
  if (max_wait <? wait)%N then Parked else Slept wait.

(** The [Retry-After] header, when it is present and readable as text. *)
Definition retry_after_from_headers (header : option string) : option N :=
  header ≫= parse_u64.

Definition retry_after_secs (header : option string) : option N := retry_after_from_headers header.

(** ** Frames *)

Inductive Message : Type :=
  | Text (t : string)
  | Binary (b : bytes)
  | Ping (p : bytes)
  | Close
  | OtherFrame.

(** [String::from_utf8_lossy]: each maximal invalid piece becomes U+FFFD. *)
Definition replacement : bytes := [Byte.xef; Byte.xbf; Byte.xbd].

Definition second_of_three (a b : byte) : bool :=
  (in_range 224 224 a && in_range 160 191 b) || (in_range 225 236 a && cont b)
  || (in_range 238 239 a && cont b) || (in_range 237 237 a && in_range 128 159 b).

Definition second_of_four (a b : byte) : bool :=
  (in_range 240 240 a && in_range 144 191 b) || (in_range 241 243 a && cont b)
  || (in_range 244 244 a && in_range 128 143 b).

Fixpoint from_utf8_lossy (bs : bytes) : bytes :=
  match bs with
  | [] => []
  | a :: r0 =>
      if in_range 0 127 a then a :: from_utf8_lossy r0
      else match r0 with
      | [] => replacement
      | b :: r1 =>
          if in_range 194 223 a && cont b then a :: b :: from_utf8_lossy r1
          else if second_of_three a b then
            match r1 with
            | c :: r2 => if cont c then a :: b :: c :: from_utf8_lossy r2
                         else replacement ++ from_utf8_lossy r1
            | [] => replacement
            end
          else if second_of_four a b then
            match r1 with
            | c :: r2 =>
                if cont c then
                  match r2 with
                  | d :: r3 => if cont d then a :: b :: c :: d :: from_utf8_lossy r3
                               else replacement ++ from_utf8_lossy r2
                  | [] => replacement
                  end
                else replacement ++ from_utf8_lossy r1
            | [] => replacement
            end
          else replacement ++ from_utf8_lossy r0
      end
  end.

Section Frames.
Context {J : JsonLib}.

(** [next_frame] over the messages still to come ([None] is a socket error):
    the frame, the pongs sent, and the messages left. *)
Fixpoint next_frame (msgs : list (option Message))
    : option Value * list bytes * list (option Message) :=
  match msgs with
  | [] => (None, [], [])
  | None :: msgs => (None, [], msgs)
  | Some (Ping p) :: msgs => let '(v, pongs, rest) := next_frame msgs in (v, p :: pongs, rest)
  | Some Close :: msgs => (None, [], msgs)
  | Some OtherFrame :: msgs => next_frame msgs
  | Some (Text t) :: msgs =>
      match from_slice (str_bytes t) with
      | Some v => (Some v, [], msgs)
      | None => next_frame msgs
      end
  | Some (Binary b) :: msgs =>
      match from_slice (from_utf8_lossy b) with
      | Some v => (Some v, [], msgs)
      | None => next_frame msgs
      end
  end.

(** Every ping the reader passes is answered, in order. *)
Lemma next_frame_pongs msgs v pongs rest :
  next_frame msgs = (v, pongs, rest) ->
  exists seen, msgs = seen ++ rest /\
    pongs = omap (fun m => match m with Some (Ping p) => Some p | _ => None end) seen.
Proof.
  revert v pongs rest; induction msgs as [|m msgs IH]; intros v pongs rest; cbn.
  - intros [= <- <- <-]. by exists [].
  - assert (Hskip : forall m',
      match m' with Some (Ping _) => False | _ => True end ->
      next_frame msgs = (v, pongs, rest) ->
      exists seen, m' :: msgs = seen ++ rest /\
        pongs = omap (fun m => match m with Some (Ping p) => Some p | _ => None end) seen).
    { intros m' Hm' Hn. destruct (IH _ _ _ Hn) as (seen & -> & ->). exists (m' :: seen).
      split; [done|]. destruct m' as [[]|]; done. }
    destruct m as [[t|b|p| |]|].
    + destruct (from_slice _); [intros [= <- <- <-]; by eexists [_]|by apply Hskip].
    + destruct (from_slice _); [intros [= <- <- <-]; by eexists [_]|by apply Hskip].
    + destruct (next_frame msgs) as [[v0 p0] r0] eqn:E. intros [= <- <- <-].
      destruct (IH _ _ _ eq_refl) as (seen & -> & ->). by exists (Some (Ping p) :: seen).
    + intros [= <- <- <-]. by eexists [_].
    + by apply Hskip.
    + intros [= <- <- <-]. by eexists [_].
Qed.

End Frames.
