(* ===== verification/Float64.v ===== *)
(** * [f64]

    IEEE 754 binary64, as [SpecFloat] gives it: 53 bits of precision, largest
    exponent 1024; and the conversions of the Rust standard library the sources
    use. *)

From Stdlib Require Import ZArith NArith Lia SpecFloat.
From S2P Require Import Prelude.

Definition f64 : Type := spec_float.
Definition f64_zero : f64 := S754_zero false.
Definition f64_one : f64 := binary_normalize 53 1024 1 0 false.
Definition f64_of_Z (z : Z) : f64 := binary_normalize 53 1024 z 0 false.
Definition is_finite (x : f64) : bool :=
  match x with S754_zero _ | S754_finite _ _ _ => true | _ => false end.
Definition f64_lt (x y : f64) : bool := SFltb x y.
Definition recip (x : f64) : f64 := SFdiv 53 1024 f64_one x.

(** [n * 2^e] rounded to the nearest integer, ties to even. *)
Definition round_half_even (n : Z) (e : Z) : Z :=
  if (0 <=? e)%Z then (n * 2 ^ e)%Z
  else
    let d := (2 ^ (- e))%Z in
    let q := (n / d)%Z in
    match (2 * (n mod d) ?= d)%Z with
    | Lt => q
    | Gt => (q + 1)%Z
    | Eq => if Z.even q then q else (q + 1)%Z
    end.

(** [Duration::from_secs_f64] in nanoseconds; [None] where it panics: negative,
    not finite, or [2^64] seconds and more. *)
Definition from_secs_f64 (x : f64) : option N :=
  match x with
  | S754_zero _ => Some 0%N
  | S754_finite false m e =>
      if (0 <=? e)%Z && (2 ^ 64 <=? Z.pos m * 2 ^ e)%Z || (e <? 0)%Z && (2 ^ 64 * 2 ^ (- e) <=? Z.pos m)%Z
      then None
      else Some (Z.to_N (round_half_even (Z.pos m * 1000000000) e))
  | _ => None
  end.

(** [a + b] and [a / b] *)
Definition f64_add (a b : f64) : f64 := SFadd 53 1024 a b.
Definition f64_div (a b : f64) : f64 := SFdiv 53 1024 a b.
(** [x <= y]; false when either is not a number. *)
Definition f64_le (x y : f64) : bool := SFleb x y.

(** [n as f64] for an unsigned integer *)
Definition f64_of_N (n : N) : f64 := f64_of_Z (Z.of_N n).

(** [Duration::as_secs_f64] of a duration in nanoseconds *)
Definition as_secs_f64 (d : N) : f64 :=
  f64_add (f64_of_N (d / 1000000000)) (f64_div (f64_of_N (d mod 1000000000)) (f64_of_N 1000000000)).

(** [x.round() as u64]: halves away from zero, then the saturating cast - below
    zero and not-a-number give 0. *)
Definition round_as_u64 (x : f64) : N :=
  match x with
  | S754_finite false m e =>
      let r := if (0 <=? e)%Z then (Z.pos m * 2 ^ e)%Z
               else ((2 * Z.pos m + 2 ^ (- e)) / (2 * 2 ^ (- e)))%Z in
      N.min (Z.to_N r) u64_max
  | S754_infinity false => u64_max
  | _ => 0%N
  end.

Lemma round_as_u64_range x : is_u64 (round_as_u64 x).
Proof.
  unfold is_u64. destruct x as [s|[]| |[] m e]; cbn; unfold u64_max; try lia.
Qed.

(** Rounding is exact on the integers a float holds. *)
Lemma round_as_u64_integer m e :
  (0 <= e)%Z -> (Z.pos m * 2 ^ e < 2 ^ 64)%Z ->
  round_as_u64 (S754_finite false m e) = Z.to_N (Z.pos m * 2 ^ e).
Proof.
  intros He Hlt. unfold round_as_u64. rewrite (proj2 (Z.leb_le 0 e) He).
  apply N.min_l. unfold u64_max. change (2 ^ 64)%Z with 18446744073709551616%Z in Hlt. lia.
Qed.
