(* ===== verification/Progress.v ===== *)
(** * Progress reporting (src/progress.rs)

    [BackfillProgress] is the state machine behind the "backfill starting",
    progress and "caught up" lines; the emitted lines are values, and their rates
    are [f64]. *)

From Stdlib Require Import ZArith NArith Lia String Ascii.
From S2P Require Import Prelude Str Chain Float64.

Inductive Level : Type := DEBUG | INFO | WARN.

Definition behind_level (behind : N) : Level :=
  if (behind <=? 2)%N then DEBUG else if (behind <=? 20)%N then INFO else WARN.

(** A log line. *)
Inductive Line : Type :=
  | Starting (level : Level) (chain : Chain) (contiguous target behind : N)
  | Backfill (chain : Chain) (target : N) (rate : f64) (eta : string)
  | CaughtUp (level : Level) (chain : Chain) (blocks elapsed : N).

Record BackfillProgress : Type := {
  bp_chain : Chain;
  bp_start_height : option N;
  bp_start_time : option N;
  bp_last_logged_at : option N;
  bp_period : N;
  bp_start_behind : N
}.

Definition new (chain : Chain) (period : N) : BackfillProgress :=
  {| bp_chain := chain; bp_start_height := None; bp_start_time := None;
     bp_last_logged_at := None; bp_period := period; bp_start_behind := 0 |}.

Definition reset (p : BackfillProgress) : BackfillProgress := new (bp_chain p) (bp_period p).

Definition begin (now contiguous behind : N) (p : BackfillProgress) : BackfillProgress :=
  {| bp_chain := bp_chain p; bp_start_height := Some contiguous; bp_start_time := Some now;
     bp_last_logged_at := Some now; bp_period := bp_period p; bp_start_behind := behind |}.

(** [t.elapsed() >= period], with a clock that never runs backwards. *)
Definition due (now : N) (p : BackfillProgress) : bool :=
  match bp_last_logged_at p with
  | Some t => (bp_period p <=? now - t)%N
  | None => true
  end.

Definition set_last_logged (now : N) (p : BackfillProgress) : BackfillProgress :=
  {| bp_chain := bp_chain p; bp_start_height := bp_start_height p;
     bp_start_time := bp_start_time p; bp_last_logged_at := Some now;
     bp_period := bp_period p; bp_start_behind := bp_start_behind p |}.

(** Blocks per second since the stretch began, and the seconds left at that
    rate; [None] without a signal. *)
Definition eta (now contiguous behind : N) (p : BackfillProgress) : f64 * option N :=
  match bp_start_height p, bp_start_time p with
  | Some start_h, Some start_t =>
      let elapsed := as_secs_f64 (now - start_t) in
      let filled := sat_sub contiguous start_h in
      if f64_le elapsed f64_zero || (filled =? 0)%N then (f64_zero, None)
      else
        let rate := f64_div (f64_of_N filled) elapsed in
        (rate, Some (round_as_u64 (f64_div (f64_of_N behind) rate)))
  | _, _ => (f64_zero, None)
  end.

(** ** Formatting *)

Definition pad2 (n : N) : string :=
  if (n <? 10)%N then ("0" ++ to_decimal n)%string else to_decimal n.

Definition format_secs (s : N) : string :=
  if (s =? 0)%N then "<1s"
  else
    let h := (s / 3600)%N in
    let m := ((s mod 3600) / 60)%N in
    let sec := (s mod 60)%N in
    if (0 <? h)%N then (to_decimal h ++ "h" ++ pad2 m ++ "m")%string
    else if (0 <? m)%N then (to_decimal m ++ "m" ++ pad2 sec ++ "s")%string
    else (to_decimal sec ++ "s")%string.

(** ** Observations *)

(** The new tracker, whether a stretch began, and the line emitted. *)
Definition observe (now contiguous target behind : N) (p : BackfillProgress)
    : BackfillProgress * bool * option Line :=
  match bp_start_height p with
  | None => (begin now contiguous behind p, true,
             Some (Starting (behind_level behind) (bp_chain p) contiguous target behind))
  | Some _ =>
      if due now p then
        let '(rate, secs) := eta now contiguous behind p in
        (set_last_logged now p, false,
         Some (Backfill (bp_chain p) target rate (from_option format_secs "?"%string secs)))
      else (p, false, None)
  end.

Definition caught_up (now contiguous : N) (p : BackfillProgress) : BackfillProgress * option Line :=
  let line :=
    match bp_start_height p, bp_start_time p with
    | Some start_h, Some start_t =>
        Some (CaughtUp (behind_level (bp_start_behind p)) (bp_chain p)
                (sat_sub contiguous start_h) ((now - start_t) / 1000000000))
    | _, _ => None
    end in
  (reset p, line).

(** ** The summary heartbeat *)

Definition behind_of (hw mc behind_tip : N) : N :=
  let internal := sat_sub hw mc in
  if (behind_tip <? internal)%N then internal else behind_tip.

Definition SUMMARY_FIRST_DELAY : N := 5.

(** One summary line: the startup heartbeat, or the increment since the last. *)
Inductive Summary : Type :=
  | SummaryStartup (block contiguous behind backfills : N)
  | SummaryTick (block contiguous behind new : N) (rate : f64) (backfills : N).

(** One pass of [summary_loop] at time [now]: the previous high-water mark and
    its time, the two store heights, the two shared atomics; gives the line, the
    new [prev] and the counter after its [swap(0)]. *)
Definition summary_tick (now : N) (prev : option (N * N)) (hw mc behind_tip backfill_count : N)
    : Summary * option (N * N) * N :=
  let behind := behind_of hw mc behind_tip in
  let line :=
    match prev with
    | None => SummaryStartup hw mc behind backfill_count
    | Some (prev_hw, prev_t) =>
        let elapsed := as_secs_f64 (now - prev_t) in
        let added := sat_sub hw prev_hw in
        let rate := if f64_lt f64_zero elapsed then f64_div (f64_of_N added) elapsed else f64_zero in
        SummaryTick hw mc behind added rate backfill_count
    end in
  (line, Some (hw, now), 0%N).

(** ** Facts *)

Lemma behind_of_max hw mc tip : behind_of hw mc tip = N.max (hw - mc) tip.
Proof. unfold behind_of, sat_sub. destruct (N.ltb_spec tip (hw - mc)); lia. Qed.

(** The stretch fields are set and cleared together. *)
Definition coherent (p : BackfillProgress) : Prop :=
  match bp_start_height p with
  | None => bp_start_time p = None /\ bp_last_logged_at p = None
  | Some _ => is_Some (bp_start_time p) /\ is_Some (bp_last_logged_at p)
  end.

(** What the ingest loops do with a tracker. *)
Inductive Obs : Type :=
  | Observe (now contiguous target behind : N)
  | CatchUp (now contiguous : N).

Definition obs_time (o : Obs) : N := match o with Observe t _ _ _ => t | CatchUp t _ => t end.

Definition obs_step (o : Obs) (p : BackfillProgress) : BackfillProgress * option Line :=
  match o with
  | Observe now c t b => let '(p, _, line) := observe now c t b p in (p, line)
  | CatchUp now c => caught_up now c p
  end.

(** The lines of a run, with the time each was emitted. *)
Fixpoint run_obs (p : BackfillProgress) (os : list Obs) : list (N * Line) :=
  match os with
  | [] => []
  | o :: os =>
      let '(p', line) := obs_step o p in
      match line with
      | Some l => (obs_time o, l) :: run_obs p' os
      | None => run_obs p' os
      end
  end.

Lemma obs_step_coherent o p : coherent p -> coherent (obs_step o p).1.
Proof.
  intros Hc. destruct o as [now c t b|now c]; cbn; unfold observe, caught_up.
  - unfold coherent in Hc. destruct (bp_start_height p) eqn:E; cbn.
    + destruct (due now p); [destruct (eta _ _ _ _)|]; cbn; unfold coherent; cbn; rewrite E; [|done].
      destruct Hc. split; [done|by eexists].
    + unfold coherent; cbn. split; by eexists.
  - done.
Qed.

(** Within a stretch a progress line is emitted only [period] after the line
    before it. *)
Fixpoint throttled (period : N) (last : option N) (lines : list (N * Line)) : Prop :=
  match lines with
  | [] => True
  | (t, Backfill _ _ _ _) :: lines =>
      (exists t0, last = Some t0 /\ (period <= t - t0)%N) /\ throttled period (Some t) lines
  | (t, Starting _ _ _ _ _) :: lines => last = None /\ throttled period (Some t) lines
  | (_, CaughtUp _ _ _ _) :: lines => is_Some last /\ throttled period None lines
  end.

Lemma run_obs_throttled os p :
  coherent p -> throttled (bp_period p) (bp_last_logged_at p) (run_obs p os).
Proof.
  revert p; induction os as [|o os IH]; intros p Hc; [done|]. cbn [run_obs].
  pose proof (obs_step_coherent o p Hc) as Hc'.
  destruct (obs_step o p) as [p' line] eqn:E. cbn in Hc'. specialize (IH p' Hc').
  destruct o as [now c t b|now c]; cbn in E; unfold observe, caught_up, due in E; unfold coherent in Hc.
  - destruct (bp_start_height p) eqn:Eh.
    + destruct Hc as [_ [t0 Ht0]]. rewrite Ht0 in E.
      destruct (N.leb_spec (bp_period p) (now - t0)); [destruct (eta _ _ _ _) as [rate secs]|]; simplify_eq; cbn in *.
      * split; [by exists t0|done].
      * done.
    + destruct Hc as [_ Hl]. simplify_eq. cbn in *. done.
  - destruct (bp_start_height p) eqn:Eh.
    + destruct Hc as [[t0 Ht0] Hl]. rewrite Ht0 in E. simplify_eq. cbn in *. done.
    + destruct Hc as [Ht Hl]. rewrite Hl. destruct (bp_start_time p); simplify_eq; done.
Qed.

(** The progress lines of any run of an ingest loop are well bracketed and
    throttled: every stretch opens with one "starting" line, a progress line
    appears only inside a stretch and only [period] after the line before it,
    and "caught up" closes a stretch that was open. *)
Theorem progress_lines_throttled chain period os :
  throttled period None (run_obs (new chain period) os).
Proof. apply (run_obs_throttled os (new chain period)). done. Qed.

(** The reported lag is the worse of the two gaps - the hole below the
    high-water mark and the distance to the upstream tip - so it is zero only
    when there is neither, and the summary counter is consumed by each tick. *)
Theorem summary_reports_worse_gap now prev hw mc tip count line prev' count' :
  summary_tick now prev hw mc tip count = (line, prev', count') ->
  prev' = Some (hw, now) /\ count' = 0%N /\
  (let behind := match line with
                 | SummaryStartup _ _ b _ => b
                 | SummaryTick _ _ b _ _ _ => b
                 end in
   behind = N.max (hw - mc) tip /\ (behind = 0%N <-> (hw <= mc)%N /\ tip = 0%N)).
Proof.
  unfold summary_tick. intros [= <- <- <-]. split; [done|]. split; [done|].
  destruct prev as [[]|]; cbn -[behind_of]; rewrite behind_of_max; (split; [done|]); lia.
Qed.

(** A hundred blocks in four seconds is 25 a second, so fifty more take two. *)
Example eta_example :
  eta 4000000000 100 50 (begin 0 0 150 (new C 0)) = (f64_of_N 25, Some 2%N).
Proof. vm_compute. reflexivity. Qed.

(** No signal yet: nothing filled, or no time passed. *)
Lemma eta_no_signal now c b p :
  (forall h, bp_start_height p = Some h -> (c <= h)%N) -> eta now c b p = (f64_zero, None).
Proof.
  unfold eta. destruct (bp_start_height p) as [h|]; [|done]. destruct (bp_start_time p) as [t|]; [|done].
  intros Hc. specialize (Hc h eq_refl). cbv zeta. replace (sat_sub c h) with 0%N by (unfold sat_sub; lia).
  by rewrite orb_true_r.
Qed.
