(* ===== verification/Subscribe.v ===== *)
(** * Subscriptions (src/subscribe.rs)

    The subscription kinds, the admission checks, the projection of a live
    update and the historical replay.  A subscription is rejected with an error
    or accepted and streamed; what is streamed is the list of payloads sent. *)

From Stdlib Require Import ZArith NArith Lia String Ascii.
From S2P Require Import Prelude Str Json Chain Record Backing Storage StorageSpec.

(** One freshly ingested block as published to live subscribers. *)
Record LiveUpdate : Type := { lu_block : Value; lu_record : option Value }.

Definition LIVE_CHANNEL_CAP : nat := 1024.

Inductive SubKind : Type := NewHeads | NewBlocks | NewRecords | OldBlocks | OldRecords.

#[global] Instance SubKind_eq_dec : EqDecision SubKind.
Proof. solve_decision. Defined.

Definition from_wire (s : string) : option SubKind :=
  if String.eqb s "newHeads" then Some NewHeads
  else if String.eqb s "newBlocks" then Some NewBlocks
  else if String.eqb s "newRecords" then Some NewRecords
  else if String.eqb s "oldBlocks" then Some OldBlocks
  else if String.eqb s "oldRecords" then Some OldRecords
  else None.

Definition kind_as_str (k : SubKind) : string :=
  match k with
  | NewHeads => "newHeads"
  | NewBlocks => "newBlocks"
  | NewRecords => "newRecords"
  | OldBlocks => "oldBlocks"
  | OldRecords => "oldRecords"
  end.

Definition is_live (k : SubKind) : bool :=
  match k with NewHeads | NewBlocks | NewRecords => true | _ => false end.

Definition wants_record (k : SubKind) : bool :=
  match k with NewRecords | OldRecords => true | _ => false end.

Definition strips_transactions (k : SubKind) : bool :=
  match k with NewHeads => true | _ => false end.

Record SubRequest : Type := { sr_kind : SubKind; sr_from : option N; sr_to : option N }.

(** ** Live *)

Definition project (update : LiveUpdate) (kind : SubKind) : option Value :=
  if wants_record kind then lu_record update
  else Some (if strips_transactions kind then remove "transactions" (lu_block update)
             else lu_block update).

(** What the live loop's [select!] yields: a published update (with whether the
    send of its payload succeeds), a lag notice, the end of the channel, or the
    client going away. *)
Inductive Recv : Type :=
  | RUpdate (u : LiveUpdate) (send_ok : bool)
  | RLagged (n : N)
  | RClosed
  | RClientGone.

Fixpoint serve_live (kind : SubKind) (events : list Recv) : list Value :=
  match events with
  | [] => []
  | RClientGone :: _ => []
  | RClosed :: _ => []
  | RLagged _ :: events => serve_live kind events
  | RUpdate u send_ok :: events =>
      match project u kind with
      | None => serve_live kind events
      | Some payload => if send_ok then payload :: serve_live kind events else []
      end
  end.

Section Subscribe.
Context {B : Blockstore} {F : Fjall} {J : JsonLib}.

(** ** Replay *)

(** The admission checks of [serve_range], in order. *)
Definition check_range (st : Storage) (from to : option N) : result N :=
  match from with
  | None => Err EMissingFrom
  | Some start =>
      let min := min_height st in
      let contig := max_contiguous_height st in
      if is_empty st then Err ENoBlocksYet
      else if (start <? min)%N then Err (EBeforeEarliest start min)
      else match to with
           | Some e =>
               if (e <? start)%N then Err (EEndBeforeStart e start)
               else if (contig <? e)%N then Err (EBeyondTip e contig)
               else Ok start
           | None => Ok start
           end
  end.

(** The stored bytes one step sends: the whole record or the block. *)
Definition replay_bytes (st : Storage) (whole_record : bool) (h : N) : result (option bytes) :=
  if whole_record then get_record st h
  else match get_by_height st h with
       | Ok o => Ok (deref <$> o)
       | Err e => Err e
       end.

(** [String::from_utf8] then [RawValue::from_string]. *)
Definition as_message (b : bytes) : option bytes :=
  if utf8_valid b then match raw_value b with Some s => Some (slice s b) | None => None end
  else None.

(** The replay loop.  The store keeps changing under it: pass [i] sees
    [snap i].  Stops when past the target, at a hole, or on an undecodable
    record; gives the messages sent and whether it closed the stream itself
    ([false]: out of fuel, still streaming). *)
Fixpoint replay (fuel : nat) (snap : nat -> Storage) (whole_record : bool) (to : option N)
    (pass : nat) (h : N) : list bytes * bool :=
  match fuel with
  | O => ([], false)
  | S fuel =>
      let target := match to with Some e => e | None => max_contiguous_height (snap pass) end in
      if (target <? h)%N then ([], true)
      else match replay_bytes (snap pass) whole_record h with
           | Ok (Some b) =>
               match as_message b with
               | Some msg =>
                   let '(rest, closed) :=
                     replay fuel snap whole_record to (S pass) (sat_add h 1) in
                   (msg :: rest, closed)
               | None => ([], true)
               end
           | _ => ([], true)
           end
  end.

Inductive SubOutcome : Type :=
  | Rejected (e : error)
  | Streamed (msgs : list bytes) (closed : bool)
  | LiveStream (payloads : list Value).

(** [serve]: admission, then the live fan-out or the replay. *)
Definition serve (fuel : nat) (chain : Chain) (snap : nat -> Storage) (events : list Recv)
    (req : SubRequest) (allowed : list SubKind) : SubOutcome :=
  let kind := sr_kind req in
  if negb (bool_decide (kind ∈ allowed)) then Rejected EKindNotAvailable
  else if bool_decide (kind = NewRecords) && negb (publishes_live_records chain)
  then Rejected ENoLiveRecords
  else if is_live kind then LiveStream (serve_live kind events)
  else match check_range (snap O) (sr_from req) (sr_to req) with
       | Err e => Rejected e
       | Ok start =>
           let '(msgs, closed) := replay fuel snap (wants_record kind) (sr_to req) 1 start in
           Streamed msgs closed
       end.

End Subscribe.

(** ** Facts *)

Lemma kind_roundtrip k : from_wire (kind_as_str k) = Some k.
Proof. by destruct k. Qed.

Lemma from_wire_as_str s k : from_wire s = Some k -> s = kind_as_str k.
Proof.
  unfold from_wire.
  repeat match goal with
  | |- context [String.eqb s ?t] => destruct (String.eqb_spec s t) as [->|]; [by intros [= <-]|]
  end. done.
Qed.

(** The wire spellings name the kinds one-to-one, and a live header
    subscription is the block minus its transactions: every other field is
    untouched, a block subscription is the block itself, and a record
    subscription delivers exactly the published record - nothing when there is
    none, rather than a block in its place. *)
Theorem project_payload u kind :
  from_wire (kind_as_str kind) = Some kind /\
  match project u kind with
  | Some v =>
      (wants_record kind = true -> lu_record u = Some v) /\
      (kind = NewHeads -> get "transactions" v = None /\
         forall k, k <> "transactions"%string -> get k v = get k (lu_block u)) /\
      (wants_record kind = false -> kind <> NewHeads -> v = lu_block u)
  | None => wants_record kind = true /\ lu_record u = None
  end.
Proof.
  split; [apply kind_roundtrip|]. unfold project.
  destruct kind; cbn; try done; try (destruct (lu_record u); naive_solver).
  split; [done|]. split; [|done]. intros _. split; [apply get_remove_eq|].
  intros k Hk. apply get_remove_ne. naive_solver.
Qed.

Section Gapless.
Context {B : Blockstore} {F : Fjall} {J : JsonLib} {BL : BlockstoreLaws B} {JL : JsonLaws J}.

(** A store that answers every height of a range with a servable block. *)
Definition serves (st : Storage) (whole_record : bool) (h : N) (msg : bytes) : Prop :=
  exists b, replay_bytes st whole_record h = Ok (Some b) /\ as_message b = Some msg.

Lemma replay_fixed snap whole e msg_of : forall fuel pass h,
  (h <= e + 1)%N -> (e < u64_max)%N -> (N.to_nat (e + 1 - h) < fuel)%nat ->
  (forall i, (h + N.of_nat i <= e)%N ->
     serves (snap (pass + i)%nat) whole (h + N.of_nat i) (msg_of (h + N.of_nat i)%N)) ->
  replay fuel snap whole (Some e) pass h = (map msg_of (heights h e), true).
Proof.
  induction fuel as [|fuel IH]; intros pass h Hh He Hf Hs; [lia|]. cbn [replay].
  destruct (N.ltb_spec e h) as [Hlt|Hge].
  - by rewrite heights_nil.
  - destruct (Hs 0%nat) as (b & Hb & Hm); [lia|].
    rewrite Nat.add_0_r in Hb. rewrite N.add_0_r in Hb, Hm. rewrite Hb, Hm.
    rewrite sat_add_exact by sat_lia. rewrite IH; [| lia| lia| lia|].
    + by rewrite (heights_cons h e).
    + intros i Hi. replace (S pass + i)%nat with (pass + S i)%nat by lia.
      replace (h + 1 + N.of_nat i)%N with (h + N.of_nat (S i))%N by lia. apply Hs. lia.
Qed.

(** A stored record is servable when it is what this build writes. *)
Lemma refines_serves st a whole h es block :
  refines st a -> a_blocks a !! h = Some es -> es !! BLOCK = Some block ->
  serves st whole h (if whole then encode es else block).
Proof.
  intros Hr Hes Hb. destruct (ref_records _ _ Hr _ _ Hes) as [Hlen Hj].
  assert (Htext : json_text (if whole then encode es else block)).
  { destruct whole; [rewrite encode_array_text; by apply array_text_text|].
    by eapply Forall_lookup_1. }
  exists (if whole then encode es else block). split.
  - unfold replay_bytes. destruct whole.
    + by rewrite (get_record_refines st a h Hr), Hes.
    + pose proof (get_element_refines st a h BLOCK Hr) as Hg. unfold view in Hg.
      unfold get_by_height. destruct (get_element st h BLOCK) as [o|]; [|done].
      injection Hg as ->. rewrite Hes. cbn. by rewrite Hb.
  - unfold as_message. rewrite (text_utf8 _ Htext), (raw_value_text _ Htext).
    unfold slice; cbn. by rewrite drop_0, firstn_all.
Qed.

(** The block (or whole record) the abstract store holds at a height. *)
Definition replay_text (a : Abs) (whole : bool) (h : N) : bytes :=
  match a_blocks a !! h with
  | Some es => if whole then encode es else default [] (es !! BLOCK)
  | None => []
  end.

(** A store that keeps the history [a] on [lo..=hi], whatever else it holds: it
    implements some history that agrees with [a] at those heights, and its floor
    and frontier cover them. *)
Definition keeps (a : Abs) (lo hi : N) (st : Storage) : Prop :=
  (exists a', refines st a' /\ forall h, (lo <= h <= hi)%N -> a_blocks a' !! h = a_blocks a !! h) /\
  exists s, st_store st = Some s /\ present s (min_block_height s) /\
    (min_block_height s <= lo)%N /\ (hi <= store_max_contiguous s)%N.

Lemma refines_keeps a lo hi st s :
  refines st a -> st_store st = Some s -> present s (min_block_height s) ->
  (min_block_height s <= lo)%N -> (hi <= store_max_contiguous s)%N -> keeps a lo hi st.
Proof. intros Hr Hs Hm Hlo Hhi. split; [by exists a|]. by exists s. Qed.

(** The record at a height of the range, in the history the store implements. *)
Lemma keeps_at a lo hi st h :
  keeps a lo hi st -> (lo <= h <= hi)%N ->
  exists a' es block, refines st a' /\ a_blocks a' !! h = Some es /\ a_blocks a !! h = Some es /\ es !! BLOCK = Some block.
Proof.
  intros ((a' & Hr & Ha) & s & Hs & Hm & Hlo & Hhi) Hh.
  destruct (refines_present _ _ _ h Hr Hs) as [es Hes]; [apply contiguous_present; [done|lia]|].
  destruct (ref_records _ _ Hr _ _ Hes) as [Hlen _].
  destruct (lookup_lt_is_Some_2 es BLOCK) as [block Hb].
  { pose proof (arity_ge_2 (st_chain st)). unfold BLOCK. lia. }
  exists a', es, block. split_and!; [done..| |done]. by rewrite <- Ha.
Qed.

(** The range check admits what the store keeps. *)
Lemma check_range_keeps a lo hi st :
  keeps a lo hi st -> (lo <= hi)%N -> check_range st (Some lo) (Some hi) = Ok lo.
Proof.
  intros (_ & s & Hs & Hm & Hlo & Hcon) Hle.
  unfold check_range, is_empty, min_height, max_contiguous_height. rewrite Hs.
  rewrite bool_decide_false by done. rewrite (proj2 (N.ltb_ge _ _) Hlo).
  rewrite (proj2 (N.ltb_ge _ _) Hle). by rewrite (proj2 (N.ltb_ge _ _) Hcon).
Qed.

Lemma serve_keeps chain snap events kind lo hi allowed a fuel :
  is_live kind = false -> kind ∈ allowed -> (lo <= hi)%N -> (hi < u64_max)%N ->
  (forall i, keeps a lo hi (snap i)) -> (N.to_nat (hi + 1 - lo) < fuel)%nat ->
  serve fuel chain snap events {| sr_kind := kind; sr_from := Some lo; sr_to := Some hi |} allowed
  = Streamed (map (replay_text a (wants_record kind)) (heights lo hi)) true.
Proof.
  intros Hlive Hin Hle Hhi Hk Hf. unfold serve; cbn [sr_kind sr_from sr_to].
  rewrite (bool_decide_true _ Hin). cbn [negb].
  assert (Hnr : bool_decide (kind = NewRecords) = false) by (apply bool_decide_false; by intros ->).
  rewrite Hnr, Hlive, (check_range_keeps a lo hi (snap O) (Hk O) Hle). cbn [andb].
  rewrite (replay_fixed snap (wants_record kind) hi (replay_text a (wants_record kind))); [done|lia|done|done|].
  intros i Hi.
  destruct (keeps_at a lo hi (snap (1 + i)%nat) (lo + N.of_nat i)) as (a' & es & block & Hr & Hes & Hes' & Hb);
    [apply Hk|lia|].
  unfold replay_text. rewrite Hes', Hb. cbn [default].
  exact (refines_serves _ a' _ _ es block Hr Hes Hb).
Qed.

(** C39: A range the store keeps is admitted and replayed without a gap.  Whatever is
    written to the store while the replay runs - above the range, below it, or a
    rewrite of what is there - as long as each snapshot keeps the same records on
    [from..=to], the subscriber receives exactly the blocks (or records) of those
    heights, each once, in height order, and the stream closes.  A request for a
    range the store does not cover, or one that ends before it starts, is refused
    before anything is sent. *)
Theorem replay_gapless chain snap events kind from e allowed a fuel :
  is_live kind = false -> kind ∈ allowed -> (e < u64_max)%N ->
  ((from <= e)%N -> (forall i, keeps a from e (snap i)) -> (N.to_nat (e + 1 - from) < fuel)%nat ->
   serve fuel chain snap events {| sr_kind := kind; sr_from := Some from; sr_to := Some e |} allowed
   = Streamed (map (replay_text a (wants_record kind)) (heights from e)) true) /\
  ((e < from)%N \/ is_empty (snap O) = true \/ (from < min_height (snap O))%N \/ (max_contiguous_height (snap O) < e)%N ->
   exists err, serve fuel chain snap events {| sr_kind := kind; sr_from := Some from; sr_to := Some e |} allowed
               = Rejected err).
Proof.
  intros Hlive Hin He. split; [intros Hle Hk Hf; by apply serve_keeps|].
  intros Hbad. unfold serve; cbn [sr_kind sr_from sr_to]. rewrite (bool_decide_true _ Hin). cbn [negb].
  destruct (_ && _); [by eexists|]. rewrite Hlive. unfold check_range.
  destruct (is_empty (snap O)); [by eexists|].
  destruct (N.ltb_spec from (min_height (snap O))); [by eexists|]. destruct (N.ltb_spec e from); [by eexists|].
  destruct (N.ltb_spec (max_contiguous_height (snap O)) e); [by eexists|].
  destruct Hbad as [?|[?|[?|?]]]; [lia|done|lia|lia].
Qed.

End Gapless.
