(* ===== verification/Http.v ===== *)
(** * Requests to the upstream

    The HTTP client is third-party: [Http] is its interface, a world that
    answers posts and gets.  [IO] threads that world together with the record
    of what was exchanged and slept, and can end [Parked]: [handle_throttle]
    parks the task for good when the upstream asks for a longer wait than
    [max_wait] (src/upstream.rs).  The settings the ingest loops read are the
    fields of [IngestCfg] (src/chain.rs); its pacers are modelled in
    [Upstream], and a claimed slot is the effect [Paced] here. *)

From Stdlib Require Import ZArith NArith Lia String Ascii.
From S2P Require Import Prelude Str Json Chain Upstream.

(** ** The client *)

(** What a request comes back with: a transport error, or a status, the
    [Retry-After] header and the body decoded as JSON ([None] when decoding it
    fails). *)
Inductive HttpReply : Type :=
  | SendError
  | Response (status : N) (retry_after : option string) (body : option Value).

Class Http : Type := {
  World : Type;
  post : string -> Value -> World -> World * HttpReply;
  http_get : string -> World -> World * HttpReply
}.

(** [StatusCode::is_success] and the two throttling statuses. *)
Definition is_success (status : N) : bool := (200 <=? status)%N && (status <? 300)%N.
Definition is_throttle (status : N) : bool := (status =? 429)%N || (status =? 503)%N.

(** ** Settings *)

Record IngestCfg : Type := {
  cfg_chain : Chain;
  cfg_max_wait : N;
  cfg_ws_idle_timeout : N;
  cfg_ws_url : string;
  cfg_rpc_url : string;
  cfg_poll_interval : N;
  cfg_subscribe_blocks : bool;
  cfg_backfill_inter_fetch : N;
  cfg_fetch_concurrency : nat;
  cfg_backfill_floor : option N;
  cfg_prefetch_delay_cap : N;
  cfg_progress_period : N;
  cfg_ingest_logs : bool;
  cfg_logs_source : LogsSource
}.

(** ** Effects *)

Inductive Effect : Type :=
  | Posted (url : string) (body : Value) (reply : HttpReply)
  | Got (url : string) (reply : HttpReply)
  | SleptFor (d : N)
  | Paced
  | Dialed (url : string)
  | SentText (text : string).

Inductive fate (A : Type) : Type :=
  | Done (a : A)
  | ParkedForever.
Arguments Done {A} a.
Arguments ParkedForever {A}.

Section IO.
Context {H : Http}.

Record Net : Type := { net_world : World; net_trace : list Effect }.

Definition IO (A : Type) : Type := Net -> Net * fate A.

Definition io_ret {A} (a : A) : IO A := fun n => (n, Done a).
Definition io_park {A} : IO A := fun n => (n, ParkedForever).
Definition io_bind {A B} (m : IO A) (k : A -> IO B) : IO B :=
  fun n => match m n with
           | (n', Done a) => k a n'
           | (n', ParkedForever) => (n', ParkedForever)
           end.

Definition emit (e : Effect) : IO unit :=
  fun n => ({| net_world := net_world n; net_trace := net_trace n ++ [e] |}, Done tt).

Definition io_post (url : string) (body : Value) : IO HttpReply := fun n =>
  let '(w, r) := post url body (net_world n) in
  ({| net_world := w; net_trace := net_trace n ++ [Posted url body r] |}, Done r).

Definition io_get (url : string) : IO HttpReply := fun n =>
  let '(w, r) := http_get url (net_world n) in
  ({| net_world := w; net_trace := net_trace n ++ [Got url r] |}, Done r).

Definition io_sleep (d : N) : IO unit := emit (SleptFor d).
Definition io_pace : IO unit := emit Paced.

(** A throttled request: sleep and go on, or park. *)
Definition io_throttle (max_wait retry_after : N) : IO unit :=
  match handle_throttle max_wait retry_after with
  | Slept d => io_sleep d
  | Parked => io_park
  end.

End IO.

#[global] Arguments io_bind : simpl never.

Notation "'let*' x ':=' m 'in' k" := (io_bind m (fun x => k))
  (at level 10, x pattern, m at level 200, k at level 200) : neve_scope.

(** ** JSON-RPC requests *)

(** The body every JSON-RPC request of the ingest side posts. *)
Definition rpc_body (method : string) (params : Value) : Value :=
  VObject [("id", VNumber (PosInt 1)); ("jsonrpc", VString "2.0");
           ("method", VString method); ("params", params)].

(** The requests and the sleeps of a trace. *)
Definition posts (es : list Effect) : list (string * Value * HttpReply) :=
  omap (fun e => match e with Posted u b r => Some (u, b, r) | _ => None end) es.

Definition sleeps (es : list Effect) : list N :=
  omap (fun e => match e with SleptFor d => Some d | _ => None end) es.

Section Facts.
Context {H : Http}.

Lemma io_bind_done {A B} (m : IO A) (k : A -> IO B) n n1 a :
  m n = (n1, Done a) -> io_bind m k n = k a n1.
Proof. unfold io_bind. by intros ->. Qed.

(** What a computation did: it only ever appends to the trace. *)
Definition runs {A} (m : IO A) (n n' : Net) (es : list Effect) (r : fate A) : Prop :=
  m n = (n', r) /\ net_trace n' = net_trace n ++ es.

Lemma runs_ret {A} (a : A) n : runs (io_ret a) n n [] (Done a).
Proof. split; [done|]. by rewrite app_nil_r. Qed.

Lemma runs_bind {A B} (m : IO A) (k : A -> IO B) n n1 n2 es1 es2 a r :
  runs m n n1 es1 (Done a) -> runs (k a) n1 n2 es2 r -> runs (io_bind m k) n n2 (es1 ++ es2) r.
Proof.
  intros [E1 T1] [E2 T2]. split; [by rewrite (io_bind_done m k n n1 a E1)|].
  by rewrite T2, T1, app_assoc.
Qed.

Lemma runs_bind_park {A B} (m : IO A) (k : A -> IO B) n n1 es :
  runs m n n1 es ParkedForever -> runs (io_bind m k) n n1 es ParkedForever.
Proof. intros [E T]. split; [unfold io_bind; by rewrite E|done]. Qed.

Lemma runs_post url body n :
  exists n' r, runs (io_post url body) n n' [Posted url body r] (Done r).
Proof.
  destruct (post url body (net_world n)) as [w r] eqn:E.
  eexists _, r. unfold runs, io_post. rewrite E. by split.
Qed.

Lemma runs_get url n : exists n' r, runs (io_get url) n n' [Got url r] (Done r).
Proof.
  destruct (http_get url (net_world n)) as [w r] eqn:E.
  eexists _, r. unfold runs, io_get. rewrite E. by split.
Qed.

Lemma runs_emit e n : exists n', runs (emit e) n n' [e] (Done tt).
Proof. eexists. by split. Qed.

Lemma runs_sleep d n : exists n', runs (io_sleep d) n n' [SleptFor d] (Done tt).
Proof. apply runs_emit. Qed.

(** A throttled request either sleeps within the budget or parks. *)
Lemma runs_throttle max_wait ra n :
  (exists n', (from_secs ra <= max_wait)%N /\
     runs (io_throttle max_wait ra) n n' [SleptFor (from_secs ra)] (Done tt)) \/
  ((max_wait < from_secs ra)%N /\ runs (io_throttle max_wait ra) n n [] ParkedForever).
Proof.
  unfold io_throttle, handle_throttle. destruct (N.ltb_spec max_wait (from_secs ra)) as [Hlt|Hle].
  - right. split; [done|]. split; [done|]. by rewrite app_nil_r.
  - left. destruct (runs_sleep (from_secs ra) n) as (n' & Hr). by exists n'.
Qed.

Lemma runs_det {A} (m : IO A) n n1 n2 es1 es2 r1 r2 :
  runs m n n1 es1 r1 -> runs m n n2 es2 r2 -> n1 = n2 /\ es1 = es2 /\ r1 = r2.
Proof.
  intros [E1 T1] [E2 T2]. rewrite E1 in E2. injection E2 as -> ->. split; [done|].
  rewrite T1 in T2. by apply app_inv_head in T2.
Qed.

(** Every computation only appends to the trace. *)
Definition grows {A} (m : IO A) : Prop :=
  forall n n' r, m n = (n', r) -> exists es, net_trace n' = net_trace n ++ es.

Lemma runs_grows {A} (m : IO A) : (forall n, exists n' es r, runs m n n' es r) -> grows m.
Proof. intros Hm n n' r E. destruct (Hm n) as (n1 & es & r1 & E1 & T). rewrite E in E1. simplify_eq. eauto. Qed.

Lemma grows_ret {A} (a : A) : grows (io_ret a).
Proof. apply runs_grows. intros n. eexists _, _, _. apply runs_ret. Qed.

Lemma grows_park {A} : grows (io_park (A := A)).
Proof. intros n n' r [= <- <-]. exists []. by rewrite app_nil_r. Qed.

Lemma grows_emit e : grows (emit e).
Proof. apply runs_grows. intros n. destruct (runs_emit e n) as (n' & Hr). eauto. Qed.

Lemma grows_post url body : grows (io_post url body).
Proof. apply runs_grows. intros n. destruct (runs_post url body n) as (n' & r & Hr). eauto. Qed.

Lemma grows_get url : grows (io_get url).
Proof. apply runs_grows. intros n. destruct (runs_get url n) as (n' & r & Hr). eauto. Qed.

Lemma grows_bind {A B} (m : IO A) (k : A -> IO B) :
  grows m -> (forall a, grows (k a)) -> grows (io_bind m k).
Proof.
  intros Hm Hk n n' r. unfold io_bind. destruct (m n) as [n1 [a|]] eqn:E.
  - intros E2. apply Hm in E as [es1 T1]. apply Hk in E2 as [es2 T2]. exists (es1 ++ es2).
    by rewrite T2, T1, app_assoc.
  - intros [= <- <-]. by eapply Hm.
Qed.

(** Inversion of a bind that finished. *)
Lemma io_bind_inv {A B} (m : IO A) (k : A -> IO B) n n' r :
  io_bind m k n = (n', r) ->
  (m n = (n', ParkedForever) /\ r = ParkedForever) \/
  exists n1 a, m n = (n1, Done a) /\ k a n1 = (n', r).
Proof. unfold io_bind. destruct (m n) as [n1 [a|]]; [right; eauto|]. intros [= <- <-]. by left. Qed.

(** The trace [tr] extends [tr0]. *)
Definition extends (tr0 tr : list Effect) : Prop := exists es, tr = tr0 ++ es.

Lemma extends_refl tr : extends tr tr.
Proof. exists []. by rewrite app_nil_r. Qed.

Lemma extends_trans a b c : extends a b -> extends b c -> extends a c.
Proof. intros [es1 ->] [es2 ->]. exists (es1 ++ es2). by rewrite app_assoc. Qed.

End Facts.

#[export] Hint Resolve grows_ret grows_park grows_emit grows_post grows_get grows_bind : neve.
