(* ===== verification/Socket.v ===== *)
(** * Opening a WebSocket (src/upstream.rs: [connect_ws], [send_request])

    The WebSocket client is third-party: [WsLib] is the handshake it performs.
    An opened socket is what the peer does with it: each session sends one
    request and then only reads, so a socket maps the text of that request to
    the messages that will then be delivered, or to nothing when sending
    fails. *)

From Stdlib Require Import ZArith NArith Lia String Ascii.
From S2P Require Import Prelude Str Json Chain Upstream Http.

Definition Socket : Type := string -> option (list (option Message)).

(** What [connect_async] comes back with: the socket, the response that refused
    the upgrade, or any other failure (the URL, the network, TLS). *)
Inductive Handshake : Type :=
  | Opened (socket : Socket)
  | Refused (status : N) (retry_after : option string)
  | NoConnection.

Class WsLib (H : Http) : Type := {
  connect_async : string -> World -> World * Handshake
}.

Section Connect.
Context {H : Http} {W : WsLib H} {J : JsonLib}.

Definition io_connect (url : string) : IO Handshake := fun n =>
  let '(w, r) := connect_async url (net_world n) in
  ({| net_world := w; net_trace := net_trace n ++ [Dialed url] |}, Done r).

(** A 429 or 503 is slept out (or parks the task), and is an error either way:
    the caller's reconnect path takes over. *)
Definition connect_ws (cfg : IngestCfg) : IO (result Socket) :=
  let* r := io_connect (cfg_ws_url cfg) in
  match r with
  | Opened socket => io_ret (Ok socket)
  | Refused status retry_after =>
      if is_throttle status then
        let* _ := io_throttle (cfg_max_wait cfg) (default 5%N (retry_after_from_headers retry_after)) in
        io_ret (Err EThrottled)
      else io_ret (Err EHttp)
  | NoConnection => io_ret (Err EHttp)
  end.

(** [body.to_string()] *)
Definition request_text (body : Value) : string := bytes_str (default [] (to_vec body)).

Definition send_request (socket : Socket) (body : Value) : IO (result (list (option Message))) :=
  let* _ := emit (SentText (request_text body)) in
  io_ret (ok_or (socket (request_text body)) EHttp).

(** Connect, then send the one request of the session. *)
Definition open_stream (cfg : IngestCfg) (body : Value) : IO (result (list (option Message))) :=
  let* r := connect_ws cfg in
  match r with
  | Err e => io_ret (Err e)
  | Ok socket => send_request socket body
  end.

(** ** What a handshake does *)

Lemma grows_connect url : grows (io_connect url).
Proof.
  intros n n' r. unfold io_connect. destruct (connect_async url (net_world n)) as [w h].
  intros [= <- <-]. by eexists.
Qed.

Lemma grows_throttle max_wait ra : grows (io_throttle max_wait ra).
Proof. unfold io_throttle. destruct (handle_throttle _ _); [apply grows_emit|apply grows_park]. Qed.

Lemma grows_open_stream cfg body : grows (open_stream cfg body).
Proof.
  apply grows_bind; [apply grows_bind; [apply grows_connect|]|].
  - intros [s|status ra|]; auto using grows_ret. destruct (is_throttle status); auto using grows_ret.
    apply grows_bind; auto using grows_throttle, grows_ret.
  - intros [s|e]; auto using grows_ret. apply grows_bind; auto using grows_emit, grows_ret.
Qed.

(** Opening a stream dials once, and asks for it once it is open.  It
    posts nothing.  It sleeps at most once, within [max_wait] and only on a
    throttling refusal, and parks only when the refusal asks for longer; the
    messages it yields are the peer's answer to exactly this request. *)
Theorem open_stream_behaves cfg body n n' out :
  open_stream cfg body n = (n', out) ->
  exists w hs, connect_async (cfg_ws_url cfg) (net_world n) = (w, hs) /\
    match hs with
    | Opened socket =>
        net_trace n' = net_trace n ++ [Dialed (cfg_ws_url cfg); SentText (request_text body)] /\
        out = Done (ok_or (socket (request_text body)) EHttp)
    | Refused status ra =>
        let wait := from_secs (default 5%N (ra ≫= parse_u64)) in
        if is_throttle status then
          if (wait <=? cfg_max_wait cfg)%N
          then net_trace n' = net_trace n ++ [Dialed (cfg_ws_url cfg); SleptFor wait] /\ out = Done (Err EThrottled)
          else net_trace n' = net_trace n ++ [Dialed (cfg_ws_url cfg)] /\ out = ParkedForever
        else net_trace n' = net_trace n ++ [Dialed (cfg_ws_url cfg)] /\ out = Done (Err EHttp)
    | NoConnection => net_trace n' = net_trace n ++ [Dialed (cfg_ws_url cfg)] /\ out = Done (Err EHttp)
    end.
Proof.
  unfold open_stream, connect_ws, io_connect, io_bind.
  destruct (connect_async (cfg_ws_url cfg) (net_world n)) as [w [s|status ra|]].
  - intros [= <- <-]. exists w, (Opened s). cbn. by rewrite <-app_assoc.
  - intros E. exists w, (Refused status ra). split; [done|].
    destruct (is_throttle status); [|by injection E as <- <-]. cbv zeta.
    unfold io_throttle, handle_throttle, retry_after_from_headers in E.
    destruct (N.leb_spec (from_secs (default 5%N (ra ≫= parse_u64))) (cfg_max_wait cfg)) as [Hle|Hlt].
    + rewrite (proj2 (N.ltb_ge _ _) Hle) in E. injection E as <- <-. cbn. by rewrite <-app_assoc.
    + rewrite (proj2 (N.ltb_lt _ _) Hlt) in E. by injection E as <- <-.
  - intros [= <- <-]. by exists w, NoConnection.
Qed.

(** A stream that opened was asked for. *)
Lemma open_stream_ok cfg body n n' msgs :
  open_stream cfg body n = (n', Done (Ok msgs)) ->
  SentText (request_text body) ∈ net_trace n' /\
  exists w socket, connect_async (cfg_ws_url cfg) (net_world n) = (w, Opened socket) /\
    socket (request_text body) = Some msgs.
Proof.
  intros E. destruct (open_stream_behaves _ _ _ _ _ E) as (w & [s|status ra|] & Hc & Hh).
  - destruct Hh as [-> Ho]. split; [set_solver|]. exists w, s. split; [done|].
    unfold ok_or in Ho. destruct (s _); [by injection Ho as ->|done].
  - cbv zeta in Hh. destruct (is_throttle status); [destruct (_ <=? _)%N|]; by destruct Hh.
  - by destruct Hh.
Qed.

End Connect.

#[export] Hint Resolve grows_connect grows_throttle grows_open_stream : neve.
