(* ===== verification/EthFetch.v ===== *)
(** * C-chain requests (the fetch side of src/eth/ingest.rs)

    The adaptive pre-fetch delay, the retrying [fetch_rpc] and everything built
    on it, the logs-source probe, the chain-id handshake, and the decoding of a
    block into what the store needs. *)

From Stdlib Require Import ZArith NArith Lia String Ascii.
From S2P Require Import Prelude Str Json Chain Record Codec Upstream Http.

(** ** The adaptive delay *)

(** [Duration::MAX], in nanoseconds. *)
Definition duration_max : N := u64_max * nanos + 999999999.

Record AimdDelay : Type := { ad_delay : N; ad_max : N }.

Definition INC : N := from_millis 10.
Definition DEC : N := from_millis 1.

Definition aimd_new (max : N) : AimdDelay := {| ad_delay := 0; ad_max := max |}.

Definition aimd_current (a : AimdDelay) : N := ad_delay a.

Definition aimd_record (first_try_ok : bool) (a : AimdDelay) : AimdDelay :=
  {| ad_delay := if first_try_ok then ad_delay a - DEC
                 else N.min (N.min (ad_delay a + INC) duration_max) (ad_max a);
     ad_max := ad_max a |}.

(** ** One JSON-RPC call *)

Definition RPC_MAX_ATTEMPTS : nat := 3.
Definition RPC_RETRY_BACKOFF_MS : N := 25.

(** The usable result of a decoded body: present and not [null]. *)
Definition usable_result (parsed : Value) : option Value :=
  match get "result" parsed with
  | Some r => if is_null r then None else Some r
  | None => None
  end.

(** The wait after attempt [attempt] came back empty. *)
Definition backoff (attempt : nat) : N :=
  from_millis (sat_mul RPC_RETRY_BACKOFF_MS (2 ^ N.of_nat (attempt `min` 10))).

Section Fetch.
Context {H : Http}.

(** The attempts from [attempt] on, [remaining] of them; [recorded] says whether
    the controller already got its one outcome. *)
Fixpoint attempts (cfg : IngestCfg) (body : Value) (remaining attempt : nat) (recorded : bool)
    (aimd : option AimdDelay) : IO (option Value * option AimdDelay) :=
  match remaining with
  | O => io_ret (None, aimd)
  | S remaining =>
      let* resp := io_post (cfg_rpc_url cfg) body in
      match resp with
      | SendError => io_ret (None, aimd)
      | Response status header json =>
          if is_throttle status then
            let* _ := io_throttle (cfg_max_wait cfg) (default 5%N (retry_after_secs header)) in
            attempts cfg body remaining (S attempt) recorded aimd
          else
            match json with
            | None => io_ret (None, aimd)
            | Some parsed =>
                let result := usable_result parsed in
                let first_try_ok := is_success status && bool_decide (is_Some result) in
                let aimd := if recorded then aimd else aimd_record first_try_ok <$> aimd in
                match result with
                | Some v => io_ret (Some v, aimd)
                | None =>
                    let* _ := io_sleep (backoff attempt) in
                    attempts cfg body remaining (S attempt) true aimd
                end
            end
      end
  end.

(** The live path parks the current delay before the first attempt. *)
Definition pre_delay (aimd : option AimdDelay) : IO unit :=
  match aimd with
  | Some a => if (aimd_current a =? 0)%N then io_ret tt else io_sleep (aimd_current a)
  | None => io_ret tt
  end.

Definition fetch_rpc (method : string) (params : Value) (cfg : IngestCfg) (aimd : option AimdDelay)
    : IO (option Value * option AimdDelay) :=
  let* _ := pre_delay aimd in
  attempts cfg (rpc_body method params) RPC_MAX_ATTEMPTS 0 false aimd.

(** The fetches that leave the controller alone. *)
Definition fetch_plain (method : string) (params : Value) (cfg : IngestCfg) : IO (option Value) :=
  let* r := fetch_rpc method params cfg None in io_ret r.1.

Definition fetch_full_block (height : N) (cfg : IngestCfg) (aimd : option AimdDelay)
    : IO (option Value * option AimdDelay) :=
  fetch_rpc "eth_getBlockByNumber" (VArray [VString (hex_quantity height); VBool true]) cfg aimd.

Definition fetch_logs (cfg : IngestCfg) (from to : N) : IO (option Value) :=
  fetch_plain "eth_getLogs"
    (VArray [VObject [("fromBlock", VString (hex_quantity from)); ("toBlock", VString (hex_quantity to))]])
    cfg.

Definition fetch_block_receipts (cfg : IngestCfg) (height : N) : IO (option Value) :=
  fetch_plain "eth_getBlockReceipts" (VArray [VString (hex_quantity height)]) cfg.

(** ** Logs out of receipts *)

Definition receipt_logs (r : Value) : list Value := default [] (get_array "logs" r).

Definition logs_from_receipts (receipts : Value) : Value :=
  match as_array receipts with
  | None => VArray []
  | Some items => VArray (items ≫= receipt_logs)
  end.

Definition fetch_logs_for_height (cfg : IngestCfg) (height : N) : IO (option Value) :=
  match cfg_logs_source cfg with
  | Receipts =>
      let* receipts := fetch_block_receipts cfg height in
      io_ret (logs_from_receipts <$> receipts)
  | GetLogs => fetch_logs cfg height height
  end.

(** ** The logs-source probe *)

(** [Value::as_i64] and its decimal rendering. *)
Definition as_i64 (v : Value) : option Z :=
  match v with
  | VNumber (PosInt n) => if (n <? 2 ^ 63)%N then Some (Z.of_N n) else None
  | VNumber (NegInt z) => Some z
  | _ => None
  end.

Definition i64_text (z : Z) : string :=
  if (z <? 0)%Z then ("-" ++ to_decimal (Z.to_N (- z)))%string else to_decimal (Z.to_N z).

Definition classify_probe (value : Value) : LogsSource * option string :=
  match get "error" value with
  | Some err =>
      let msg := default "unknown error"%string (get_str "message" err) in
      (GetLogs, Some match get "code" err ≫= as_i64 with
                     | Some c => (msg ++ " (code " ++ i64_text c ++ ")")%string
                     | None => msg
                     end)
  | None =>
      match get "result" value with
      | Some (VArray _) => (Receipts, None)
      | _ => (GetLogs, Some "response had no result array"%string)
      end
  end.

(** The texts of the transport and decode errors are the client's own. *)
Definition probe_logs_source (send_error decode_error rpc_url : string)
    : IO (LogsSource * option string) :=
  let* resp := io_post rpc_url (rpc_body "eth_getBlockReceipts" (VArray [VString "latest"])) in
  io_ret match resp with
         | SendError => (GetLogs, Some send_error)
         | Response _ _ (Some v) => classify_probe v
         | Response _ _ None => (GetLogs, Some decode_error)
         end.

(** ** The chain-id handshake

    The loop retries for as long as the upstream throttles within [max_wait];
    [fuel] bounds the requests of one run of it. *)

Definition parse_chain_id (v : Value) : result N :=
  let? s := ok_or (get_str "result" v) EMissingResult in
  ok_or (u64_from_hex (trim_start_0x s)) EMalformedHex.

Fixpoint fetch_chain_id (fuel : nat) (rpc_url : string) (max_wait : N) : IO (option (result N)) :=
  match fuel with
  | O => io_ret None
  | S fuel =>
      let* resp := io_post rpc_url (rpc_body "eth_chainId" (VArray [])) in
      match resp with
      | SendError => io_ret (Some (Err EHttp))
      | Response status header json =>
          if is_throttle status then
            let wait := from_secs (default 5%N (retry_after_secs header)) in
            if (max_wait <? wait)%N then io_ret (Some (Err EThrottled))
            else let* _ := io_sleep wait in fetch_chain_id fuel rpc_url max_wait
          else if negb (is_success status) then io_ret (Some (Err (EHttpStatus status)))
          else io_ret (Some (match json with
                             | Some v => parse_chain_id v
                             | None => Err EHttp
                             end))
      end
  end.

(** ** The upstream tip *)

Definition upstream_block_number (cfg : IngestCfg) : IO (option N) :=
  let* resp := io_post (cfg_rpc_url cfg) (rpc_body "eth_blockNumber" (VArray [])) in
  io_ret match resp with
         | Response _ _ (Some v) => s ← get_str "result" v; u64_from_hex (trim_start_0x s)
         | _ => None
         end.

End Fetch.

(** ** What a block is stored under *)

Section Decode.
Context {X : HexLib} {J : JsonLib}.

Definition decode_hash (s : string) : result bytes :=
  let? raw := ok_or (hex_decode (trim_start_0x s)) EBadHex in
  if (length raw =? 32)%nat then Ok raw else Err EHashLength.

Definition tx_hash_of (tx : Value) : option bytes :=
  s ← get_str "hash" tx;
  match decode_hash s with Ok h => Some h | Err _ => None end.

Definition extract_tx_hashes (block : Value) : list bytes :=
  match get_array "transactions" block with
  | None => []
  | Some txs => omap tx_hash_of txs
  end.

(** [(hash, tx_hashes, bytes)], or [None] when the height is to be skipped. *)
Definition prepare_block (expected_hash : string) (block : Value)
    : option (bytes * list bytes * bytes) :=
  let body_hash := default EmptyString (get_str "hash" block) in
  if decide (body_hash <> expected_hash) then None
  else match decode_hash expected_hash with
       | Err _ => None
       | Ok hash_bytes =>
           match to_vec block with
           | None => None
           | Some b => Some (hash_bytes, extract_tx_hashes block, b)
           end
       end.

End Decode.

(** ** What a call does *)

(** The result a reply carries, if the call can use it. *)
Definition reply_result (r : HttpReply) : option Value :=
  match r with
  | Response status _ (Some parsed) => if is_throttle status then None else usable_result parsed
  | _ => None
  end.

(** The upstream asked for a longer wait than the settings allow. *)
Definition throttled_out (max_wait : N) (r : HttpReply) : Prop :=
  exists status header json, r = Response status header json /\ is_throttle status = true /\
    (max_wait < from_secs (default 5%N (retry_after_secs header)))%N.

(** The call gives up at once: the transport failed or the body is not JSON. *)
Definition gives_up (r : HttpReply) : Prop :=
  r = SendError \/ exists status header, r = Response status header None /\ is_throttle status = false.

(** The wait a reply to attempt [attempt] is followed by: what a throttle within
    the budget asks for, the backoff after an answer without a usable result. *)
Definition wait_after (max_wait : N) (attempt : nat) (r : HttpReply) : option N :=
  match r with
  | SendError => None
  | Response status header json =>
      if is_throttle status then
        let wait := from_secs (default 5%N (retry_after_secs header)) in
        if (max_wait <? wait)%N then None else Some wait
      else match json with
           | Some parsed => if usable_result parsed then None else Some (backoff attempt)
           | None => None
           end
  end.

Fixpoint waits (max_wait : N) (attempt : nat) (replies : list HttpReply) : list N :=
  match replies with
  | [] => []
  | r :: replies => option_list (wait_after max_wait attempt r) ++ waits max_wait (S attempt) replies
  end.

(** A run of attempts: the requests made, in order, the waits between them and
    what they end in. *)
Definition attempts_spec (cfg : IngestCfg) (body : Value) (remaining attempt : nat)
    (es : list Effect) (r : fate (option Value * option AimdDelay)) : Prop :=
  (length (posts es) <= remaining)%nat /\
  Forall (fun p => p.1 = (cfg_rpc_url cfg, body)) (posts es) /\
  sleeps es = waits (cfg_max_wait cfg) attempt (posts es).*2 /\
  (r = ParkedForever <-> Exists (throttled_out (cfg_max_wait cfg)) (posts es).*2) /\
  match r with
  | Done (Some v, _) => exists pre rep, (posts es).*2 = pre ++ [rep] /\
      Forall (fun q => reply_result q = None) pre /\ reply_result rep = Some v
  | Done (None, _) => Forall (fun q => reply_result q = None) (posts es).*2 /\
      (length (posts es) = remaining \/ exists pre rep, (posts es).*2 = pre ++ [rep] /\ gives_up rep)
  | ParkedForever => exists pre rep, (posts es).*2 = pre ++ [rep] /\ throttled_out (cfg_max_wait cfg) rep
  end.

Lemma backoff_mono a b : (a <= b)%nat -> (backoff a <= backoff b)%N.
Proof.
  intros Hab. unfold backoff, from_millis, sat_mul.
  assert (2 ^ N.of_nat (a `min` 10) <= 2 ^ N.of_nat (b `min` 10))%N
    by (apply N.pow_le_mono_r; lia).
  unfold RPC_RETRY_BACKOFF_MS. nia.
Qed.

Section FetchFacts.
Context {H : Http}.

Lemma waits_bounded max_wait replies : forall attempt last,
  (attempt + length replies <= S last)%nat ->
  Forall (fun d => d <= N.max max_wait (backoff last))%N (waits max_wait attempt replies).
Proof.
  induction replies as [|r replies IH]; intros attempt last Hl; cbn in *; [constructor|].
  apply Forall_app. split; [|apply IH; lia].
  pose proof (backoff_mono attempt last ltac:(lia)) as Hb. unfold wait_after.
  destruct r as [|status header [parsed|]]; cbn; [constructor| |]; destruct (is_throttle status); cbn;
    repeat match goal with
    | |- context [(max_wait <? ?w)%N] => destruct (N.ltb_spec max_wait w)
    | |- context [if usable_result ?q then _ else _] => destruct (usable_result q)
    end; cbn; repeat constructor; lia.
Qed.

Lemma attempts_spec_cons cfg body remaining attempt rep es1 es2 r :
  attempts_spec cfg body remaining (S attempt) es2 r ->
  posts es1 = [(cfg_rpc_url cfg, body, rep)] -> reply_result rep = None -> ~ throttled_out (cfg_max_wait cfg) rep ->
  sleeps es1 = option_list (wait_after (cfg_max_wait cfg) attempt rep) ->
  attempts_spec cfg body (S remaining) attempt (es1 ++ es2) r.
Proof.
  intros (Hl & Hb & Hs & Hp & Hr) Hp1 Hrep Hnt Hs1. unfold attempts_spec, posts, sleeps in *.
  rewrite !omap_app, Hp1, Hs1, Hs. cbn [app length fmap list_fmap]. split; [lia|]. split; [by constructor|].
  split; [done|]. split; [rewrite Exists_cons, Hp; cbn; tauto|].
  destruct r as [[[v|] a]|].
  - destruct Hr as (pre & rep' & -> & Hpre & Hv). exists (rep :: pre), rep'.
    split; [done|]. by split; [constructor|].
  - destruct Hr as [Hn Hend]. split; [by constructor|].
    destruct Hend as [<-|(pre & rep' & -> & Hg)]; [by left|right]. by exists (rep :: pre), rep'.
  - destruct Hr as (pre & rep' & -> & Ht). by exists (rep :: pre), rep'.
Qed.

(** The controller gets at most the one outcome. *)
Definition recorded_once (recorded : bool) (aimd : option AimdDelay)
    (r : fate (option Value * option AimdDelay)) : Prop :=
  match r with
  | Done (_, a') => a' = aimd \/ (recorded = false /\ exists ok, a' = aimd_record ok <$> aimd)
  | ParkedForever => True
  end.

(** What one reply ends the call with. *)
Definition stops (max_wait : N) (rep : HttpReply) (r : fate (option Value * option AimdDelay)) : Prop :=
  match r with
  | Done (o, _) => reply_result rep = o /\ ~ throttled_out max_wait rep /\ (o = None -> gives_up rep)
  | ParkedForever => throttled_out max_wait rep
  end.

(** One attempt: a request, then either an end or the next attempt after a
    bounded sleep. *)
Lemma attempts_step cfg body remaining attempt recorded aimd n :
  exists n1 rep es1, posts es1 = [(cfg_rpc_url cfg, body, rep)] /\
    sleeps es1 = option_list (wait_after (cfg_max_wait cfg) attempt rep) /\
    ((exists r, runs (attempts cfg body (S remaining) attempt recorded aimd) n n1 es1 r /\
        stops (cfg_max_wait cfg) rep r /\ recorded_once recorded aimd r) \/
     (reply_result rep = None /\ ~ throttled_out (cfg_max_wait cfg) rep /\ exists recorded' aimd',
        (forall r, recorded_once recorded' aimd' r -> recorded_once recorded aimd r) /\
        forall n2 es2 r, runs (attempts cfg body remaining (S attempt) recorded' aimd') n1 n2 es2 r ->
          runs (attempts cfg body (S remaining) attempt recorded aimd) n n2 (es1 ++ es2) r)).
Proof.
  destruct (runs_post (cfg_rpc_url cfg) body n) as (n1 & rep & Hpost). cbn [attempts].
  pose proof (fun k n2 es2 r => runs_bind (B := option Value * option AimdDelay) _ k n n1 n2 _ es2 _ r Hpost) as Hb.
  assert (Hnt : forall status header json, is_throttle status = false ->
    ~ throttled_out (cfg_max_wait cfg) (Response status header json)).
  { intros ? ? ? Hf (? & ? & ? & [= <- <- <-] & Ht & _). congruence. }
  destruct rep as [|status header json].
  { exists n1, SendError, ([Posted (cfg_rpc_url cfg) body SendError] ++ []). split; [reflexivity|]. split; [done|]. left.
    eexists. split; [apply Hb, runs_ret|]. split; [|by left]. split_and!; [done|by intros (? & ? & ? & ? & _)|by left]. }
  set (p := Posted (cfg_rpc_url cfg) body (Response status header json)) in *.
  destruct (is_throttle status) eqn:Hth.
  { destruct (runs_throttle (cfg_max_wait cfg) (default 5%N (retry_after_secs header)) n1)
      as [(n2 & Hle & Hsl)|(Hgt & Hpk)].
    - eexists n2, _, ([p] ++ [SleptFor (from_secs (default 5%N (retry_after_secs header)))]). split; [reflexivity|].
      split; [cbn; rewrite Hth; by destruct (N.ltb_spec (cfg_max_wait cfg)
                 (from_secs (default 5%N (retry_after_secs header)))); [lia|]|]. right.
      split; [cbn; rewrite Hth; by destruct json|].
      split; [intros (? & ? & ? & [= <- <- <-] & _ & ?); lia|]. exists recorded, aimd. split; [done|].
      intros n3 es r Hrun. rewrite <- app_assoc. apply Hb. cbn beta iota. rewrite Hth.
      exact (runs_bind _ _ n1 n2 n3 _ _ _ _ Hsl Hrun).
    - eexists n1, _, ([p] ++ []). split; [reflexivity|].
      split; [cbn; rewrite Hth; by destruct (N.ltb_spec (cfg_max_wait cfg)
                 (from_secs (default 5%N (retry_after_secs header)))); [|lia]|]. left. eexists.
      split; [apply Hb; cbn beta iota; rewrite Hth; by apply runs_bind_park|].
      split; [by eexists _, _, _|done]. }
  subst p. destruct json as [parsed|]; (set (p := Posted _ _ _) in *); [destruct (usable_result parsed) as [v|] eqn:Hv|].
  - eexists n1, _, ([p] ++ []). split; [reflexivity|]. split; [cbn; by rewrite Hth, Hv|]. left. eexists.
    split; [apply Hb; cbn beta iota; rewrite Hth, Hv; apply runs_ret|].
    split; [split_and!; [cbn; by rewrite Hth|by apply Hnt|done]|]. destruct recorded; [by left|right; eauto].
  - destruct (runs_sleep (backoff attempt) n1) as (n2 & Hsl).
    eexists n2, _, ([p] ++ [SleptFor (backoff attempt)]). split; [reflexivity|]. split; [cbn; by rewrite Hth, Hv|]. right.
    split; [cbn; by rewrite Hth|]. split; [by apply Hnt|]. eexists true, _. split; cycle 1.
    + intros n3 es r Hrun. rewrite <- app_assoc. apply Hb. cbn beta iota. rewrite Hth, Hv.
      exact (runs_bind _ _ n1 n2 n3 _ _ _ _ Hsl Hrun).
    + intros [[o a']|]; [|done]. intros [->|[? _]]; [|done]. destruct recorded; [by left|right; eauto].
  - eexists n1, _, ([p] ++ []). split; [reflexivity|]. split; [cbn; by rewrite Hth|]. left. eexists.
    split; [apply Hb; cbn beta iota; rewrite Hth; apply runs_ret|]. split; [|by left].
    split_and!; [done|by apply Hnt|]. intros _. right. by eexists _, _.
Qed.

Lemma attempts_run cfg body remaining : forall attempt recorded aimd n,
  exists n' es r, runs (attempts cfg body remaining attempt recorded aimd) n n' es r /\
    attempts_spec cfg body remaining attempt es r /\
    ((0 < remaining)%nat -> (0 < length (posts es))%nat) /\ recorded_once recorded aimd r.
Proof.
  induction remaining as [|remaining IH]; intros attempt recorded aimd n.
  - eexists n, [], _. split; [apply runs_ret|]. split; [|split; [lia|by left]].
    split_and!; try done; [split; [done|by intros ?%Exists_nil]|by left].
  - destruct (attempts_step cfg body remaining attempt recorded aimd n)
      as (n1 & rep & es1 & Hp & Hs & [(r & Hrun & Hst & Hrec)|(Hrep & Hnt & rd & ad & Hrec & Hnext)]).
    + exists n1, es1, r. split; [done|]. rewrite Hp. split; [|split; [cbn; lia|done]].
      unfold attempts_spec. rewrite Hp, Hs. cbn [fmap list_fmap waits snd]. rewrite app_nil_r, Exists_cons, Exists_nil.
      split; [cbn; lia|]. split; [by repeat constructor|]. split; [done|].
      destruct r as [[o a]|]; cbn in Hst.
      * destruct Hst as (Ho & Ht & Hg). split; [split; [done|tauto]|].
        destruct o as [v|]; [by eexists [], _|]. split; [by repeat constructor|]. right. eexists [], _. split; [done|auto].
      * split; [split; [by left|done]|]. by eexists [], _.
    + destruct (IH (S attempt) rd ad n1) as (n2 & es2 & r & Hrun & Hspec & _ & Ha).
      exists n2, (es1 ++ es2), r. split; [auto|].
      split; [by apply (attempts_spec_cons cfg body remaining attempt rep es1 es2)|].
      split; [|auto]. unfold posts in *. rewrite omap_app, Hp. cbn. lia.
Qed.

(** The wait before the first request. *)
Definition pre_wait (aimd : option AimdDelay) : list N :=
  match aimd with
  | Some a => if (aimd_current a =? 0)%N then [] else [aimd_current a]
  | None => []
  end.

Lemma fetch_rpc_run method params cfg aimd n :
  exists n' es r, runs (fetch_rpc method params cfg aimd) n n' es r /\
    (1 <= length (posts es) <= 3)%nat /\
    Forall (fun p => p.1 = (cfg_rpc_url cfg, rpc_body method params)) (posts es) /\
    sleeps es = pre_wait aimd ++ waits (cfg_max_wait cfg) 0 (posts es).*2 /\
    (r = ParkedForever <-> Exists (throttled_out (cfg_max_wait cfg)) (posts es).*2) /\
    match r with
    | Done (Some v, _) => exists pre rep, (posts es).*2 = pre ++ [rep] /\
        Forall (fun q => reply_result q = None) pre /\ reply_result rep = Some v
    | Done (None, _) => Forall (fun q => reply_result q = None) (posts es).*2 /\
        (length (posts es) = 3%nat \/ exists pre rep, (posts es).*2 = pre ++ [rep] /\ gives_up rep)
    | ParkedForever => exists pre rep, (posts es).*2 = pre ++ [rep] /\
        throttled_out (cfg_max_wait cfg) rep
    end /\
    recorded_once false aimd r.
Proof.
  assert (exists n1 es1, runs (pre_delay aimd) n n1 es1 (Done tt) /\ posts es1 = [] /\
            sleeps es1 = pre_wait aimd) as (n1 & es1 & Hpre & Hp & Hs1).
  { unfold pre_delay, pre_wait. destruct aimd as [a|]; [destruct (aimd_current a =? 0)%N|].
    - eexists n, []. split; [apply runs_ret|]. by repeat split.
    - destruct (runs_sleep (aimd_current a) n) as (n1 & Hr). eexists n1, [_].
      split; [exact Hr|]. by split.
    - eexists n, []. split; [apply runs_ret|]. by repeat split. }
  destruct (attempts_run cfg (rpc_body method params) RPC_MAX_ATTEMPTS 0 false aimd n1)
    as (n2 & es2 & r & Hrun & (Hl & Hb & Hs & Hpk & Hr) & Hne & Hrec).
  destruct (runs_bind _ (fun _ => attempts cfg (rpc_body method params) RPC_MAX_ATTEMPTS 0 false aimd)
              n n1 n2 es1 es2 tt r Hpre Hrun) as [E T].
  exists n2, (es1 ++ es2), r. split; [by split|]. unfold posts, sleeps in *.
  rewrite !omap_app, Hp, Hs1, Hs. cbn [app]. specialize (Hne ltac:(unfold RPC_MAX_ATTEMPTS; lia)).
  split; [unfold RPC_MAX_ATTEMPTS in Hl; lia|]. by split_and!.
Qed.

(** The upstream answered the request [body] with the result [v]. *)
Definition answered (tr : list Effect) (body v : Value) : Prop :=
  exists url rep, Posted url body rep ∈ tr /\ reply_result rep = Some v.

Lemma answered_extends tr0 tr body v : extends tr0 tr -> answered tr0 body v -> answered tr body v.
Proof. intros [es ->] (url & rep & Hin & Hv). exists url, rep. split; [|done]. apply elem_of_app. by left. Qed.

Lemma elem_of_posts u b r es : (u, b, r) ∈ posts es -> Posted u b r ∈ es.
Proof.
  unfold posts. rewrite list_elem_of_omap. intros (e & He & Hm).
  destruct e; simplify_eq; done.
Qed.

Lemma fetch_rpc_answered method params cfg aimd n n' v a' :
  fetch_rpc method params cfg aimd n = (n', Done (Some v, a')) ->
  answered (net_trace n') (rpc_body method params) v.
Proof.
  intros E. destruct (fetch_rpc_run method params cfg aimd n)
    as (n1 & es & r & [E1 T] & _ & Hb & _ & _ & Hr & _).
  rewrite E in E1. injection E1 as <- <-. destruct Hr as (pre & rep & Hp & _ & Hv).
  exists (cfg_rpc_url cfg), rep. split; [|done]. rewrite T. apply elem_of_app. right.
  apply elem_of_posts. assert (Hin : rep ∈ (posts es).*2) by (rewrite Hp; set_solver).
  apply list_elem_of_fmap in Hin as ([[u b] q] & -> & Hin).
  rewrite Forall_forall in Hb. by rewrite (Hb _ Hin : (u, b) = _) in Hin.
Qed.

Lemma grows_fetch_rpc method params cfg aimd : grows (fetch_rpc method params cfg aimd).
Proof.
  apply runs_grows. intros n. destruct (fetch_rpc_run method params cfg aimd n) as (n' & es & r & Hr & _).
  eauto.
Qed.

#[local] Hint Resolve grows_fetch_rpc : neve.

Lemma fetch_plain_answered method params cfg n n' v :
  fetch_plain method params cfg n = (n', Done (Some v)) ->
  answered (net_trace n') (rpc_body method params) v.
Proof.
  intros E. apply io_bind_inv in E as [[_ E]|(n1 & [o a] & E1 & E2)]; [done|].
  injection E2 as -> ->. by eapply fetch_rpc_answered.
Qed.

Lemma grows_fetch_plain method params cfg : grows (fetch_plain method params cfg).
Proof. unfold fetch_plain. auto with neve. Qed.


End FetchFacts.

#[export] Hint Resolve grows_fetch_rpc grows_fetch_plain : neve.

(** ** The controller *)

Definition aimd_run (outs : list bool) (a : AimdDelay) : AimdDelay :=
  foldl (fun a ok => aimd_record ok a) a outs.

Lemma aimd_run_max outs a : ad_max (aimd_run outs a) = ad_max a.
Proof. revert a; induction outs as [|o outs IH]; intros a; [done|]. exact (IH _). Qed.

Lemma aimd_run_bound outs : forall a, (ad_delay a <= ad_max a)%N ->
  (ad_delay (aimd_run outs a) <= ad_max a)%N.
Proof.
  induction outs as [|o outs IH]; intros a Ha; [done|].
  change (aimd_run (o :: outs) a) with (aimd_run outs (aimd_record o a)).
  change (ad_max a) with (ad_max (aimd_record o a)). apply IH. cbn. destruct o; lia.
Qed.

(** The pre-fetch delay stays in its envelope.  Whatever outcomes it is
    fed, it never exceeds the configured cap - so a zero cap never delays a
    fetch - [k] empty first tries raise it by exactly [k] steps of 10ms up to
    the cap, and [k] successes lower it by [k] steps of 1ms down to zero. *)
Theorem aimd_envelope cap outs k :
  (cap <= duration_max)%N ->
  let a := aimd_run outs (aimd_new cap) in
  (aimd_current a <= cap)%N /\
  aimd_current (aimd_run (replicate k false) a) = N.min (aimd_current a + N.of_nat k * INC) cap /\
  aimd_current (aimd_run (replicate k true) a) = (aimd_current a - N.of_nat k * DEC)%N.
Proof.
  intros Hcap a. assert (Ha : (ad_delay a <= ad_max a)%N).
  { unfold a at 2. rewrite aimd_run_max. apply aimd_run_bound. cbn. lia. }
  assert (Hm : ad_max a = cap) by (unfold a; by rewrite aimd_run_max).
  split; [unfold aimd_current; lia|]. clearbody a. unfold aimd_current. subst cap.
  split; revert a Ha Hcap; induction k as [|k IH]; intros a Ha Hcap; try (cbn; lia);
    cbn [replicate]; rewrite Nat2N.inj_succ.
  - change (aimd_run (false :: ?l) a) with (aimd_run l (aimd_record false a)).
    rewrite IH by (cbn [ad_delay ad_max aimd_record]; lia). cbn [ad_delay ad_max aimd_record]. lia.
  - change (aimd_run (true :: ?l) a) with (aimd_run l (aimd_record true a)).
    rewrite IH by (cbn [ad_delay ad_max aimd_record]; lia). cbn [ad_delay ad_max aimd_record]. lia.
Qed.
