(* ===== verification/Backfill.v ===== *)
(** * C-chain backfill (src/eth/backfill.rs)

    The logs window, the cached upstream tip, the fill of one run of heights
    and one pass of the backfill loop.  The fetches of a run overlap and look at
    the store while earlier heights of the run are still being written, so each
    fetch reads its own snapshot of the store ([snap]); results are consumed in
    height order, as [buffered] yields them.  Clocks are explicit. *)

From Stdlib Require Import ZArith NArith Lia String Ascii.
From S2P Require Import Prelude Str Json Chain Record Backing Storage StorageSpec Codec Upstream Http EthFetch Progress.

Definition TIP_TTL : N := from_secs 10.
Definition BACKFILL_CAUGHT_UP_POLL : N := from_secs 1.
Definition LOGS_WINDOW : N := 2048.

(** ** The logs window *)

Definition LogWindow : Type := gmap N (list Value).

Definition block_number_of (log : Value) : option N :=
  s ← get_str "blockNumber" log; u64_from_hex (trim_start_0x s).

(** One turn of the bucketing loop: [entry(height).or_default().push(log)]. *)
Definition push_log (w : LogWindow) (log : Value) : LogWindow :=
  match block_number_of log with
  | Some height => <[height := default [] (w !! height) ++ [log]]> w
  | None => w
  end.

Definition load (logs : Value) : LogWindow :=
  match logs with
  | VArray items => foldl push_log ∅ items
  | _ => ∅
  end.

(** One height's outcome from the fetch stage. *)
Inductive Fetched : Type :=
  | Skip
  | FBlock (height : N) (block : Value) (logs : option Value).

(** ** The cached tip *)

Record TipCache : Type := { tc_height : N; tc_fetched : option N }.

Definition tip_new : TipCache := {| tc_height := 0; tc_fetched := None |}.

Section Backfill.
Context {B : Blockstore} {F : Fjall} {J : JsonLib} {X : HexLib} {H : Http}.

(** A logs array as stored bytes, with its entry count. *)
Definition serialize (logs : Value) : bytes * nat :=
  let count := match as_array logs with Some items => length items | None => 0%nat end in
  match to_vec logs with
  | Some b => (b, count)
  | None => (EMPTY_ARRAY, 0%nat)
  end.

Definition serialized (w : LogWindow) (height : N) : bytes * nat :=
  match w !! height with
  | Some logs => serialize (VArray logs)
  | None => (EMPTY_ARRAY, 0%nat)
  end.

(** The window after the fetch, and whether it was replaced. *)
Definition load_range (cfg : IngestCfg) (from to : N) (w : LogWindow) : IO (LogWindow * bool) :=
  let* _ := io_pace in
  let* logs := fetch_logs cfg from to in
  io_ret match logs with
         | None => (w, false)
         | Some logs => (load logs, true)
         end.

(** [get_uncached] finishing at [now']. *)
Definition tip_get_uncached (now' : N) (cfg : IngestCfg) (tc : TipCache) : IO TipCache :=
  let* _ := io_pace in
  let* tip := upstream_block_number cfg in
  io_ret {| tc_height := default (tc_height tc) tip; tc_fetched := Some now' |}.

(** [get] asked at [now]; [at.elapsed()] saturates at zero. *)
Definition tip_get (now now' : N) (cfg : IngestCfg) (tc : TipCache) : IO TipCache :=
  match tc_fetched tc with
  | Some at_ => if (now - at_ <? TIP_TTL)%N then io_ret tc else tip_get_uncached now' cfg tc
  | None => tip_get_uncached now' cfg tc
  end.

(** ** Persisting one height *)

Definition persist_backfilled (height : N) (block : Value) (logs : bytes) : M Storage unit :=
  let! body_hash := lift (ok_or (get_str "hash" block) EMissingHash) in
  let! hash_bytes := lift (decode_hash body_hash) in
  let tx_hashes := extract_tx_hashes block in
  let! b := lift (ok_or (to_vec block) ESerialize) in
  put height hash_bytes tx_hashes [b; logs].

(** ** Fetching one height *)

Definition per_height_logs (cfg : IngestCfg) : bool :=
  cfg_ingest_logs cfg && bool_decide (cfg_logs_source cfg = Receipts).

Definition fetch_one_logs (cfg : IngestCfg) (height : N) : IO (option (option Value)) :=
  if per_height_logs cfg then
    let* _ := io_pace in
    let* receipts := fetch_block_receipts cfg height in
    io_ret match receipts with
           | Some r => Some (Some (logs_from_receipts r))
           | None => None
           end
  else io_ret (Some None).

(** The two requests of [tokio::join!], block first; both are made whatever the
    other comes back with. *)
Definition fetch_both (cfg : IngestCfg) (height : N) : IO (option Fetched) :=
  let* _ := io_pace in
  let* (block, _) := fetch_full_block height cfg None in
  let* logs := fetch_one_logs cfg height in
  io_ret (let?? b := block in let?? l := logs in Some (FBlock height b l)).

Definition fetch_one (snap : Storage) (cfg : IngestCfg) (height : N) : IO (option Fetched) :=
  match get_by_height snap height with
  | Ok (Some _) => io_ret (Some Skip)
  | _ => fetch_both cfg height
  end.

(** ** A run of heights *)

Record Run : Type := {
  run_storage : Storage;
  run_net : Net;
  run_progress : BackfillProgress;
  run_behind_tip : N;
  run_logs : LogWindow
}.

Definition set_net (n : Net) (r : Run) : Run :=
  {| run_storage := run_storage r; run_net := n; run_progress := run_progress r;
     run_behind_tip := run_behind_tip r; run_logs := run_logs r |}.

Definition set_run_storage (st : Storage) (r : Run) : Run :=
  {| run_storage := st; run_net := run_net r; run_progress := run_progress r;
     run_behind_tip := run_behind_tip r; run_logs := run_logs r |}.

Definition set_logs (w : LogWindow) (r : Run) : Run :=
  {| run_storage := run_storage r; run_net := run_net r; run_progress := run_progress r;
     run_behind_tip := run_behind_tip r; run_logs := w |}.

Definition set_report (p : BackfillProgress) (behind : N) (r : Run) : Run :=
  {| run_storage := run_storage r; run_net := run_net r; run_progress := p;
     run_behind_tip := behind; run_logs := run_logs r |}.

(** The logs half of a fetched height. *)
Definition logs_half (cfg : IngestCfg) (w : LogWindow) (height : N) (logs : option Value)
    : bytes * nat :=
  if cfg_ingest_logs cfg then
    match logs with
    | Some logs => serialize logs
    | None => serialized w height
    end
  else (EMPTY_ARRAY, 0%nat).

(** The [while let] of [fill_range] over the heights still to come. *)
Fixpoint fill_loop (cfg : IngestCfg) (snap : N -> Storage) (clock : N -> N) (tip : N)
    (hs : list N) (r : Run) : Run * fate bool :=
  match hs with
  | [] => (r, Done true)
  | h :: hs =>
      match fetch_one (snap h) cfg h (run_net r) with
      | (n, ParkedForever) => (set_net n r, ParkedForever)
      | (n, Done None) => (set_net n r, Done false)
      | (n, Done (Some Skip)) => fill_loop cfg snap clock tip hs (set_net n r)
      | (n, Done (Some (FBlock height block logs))) =>
          let r := set_net n r in
          let '(logs_bytes, _) := logs_half cfg (run_logs r) height logs in
          match persist_backfilled height block logs_bytes (run_storage r) with
          | (st, Err _) => (set_run_storage st r, Done false)
          | (st, Ok _) =>
              let r := set_run_storage st r in
              let behind := sat_sub tip height in
              let '(p, _, _) := observe (clock height) height tip behind (run_progress r) in
              fill_loop cfg snap clock tip hs (set_report p behind r)
          end
      end
  end.

Definition windowed (cfg : IngestCfg) : bool :=
  cfg_ingest_logs cfg && bool_decide (cfg_logs_source cfg = GetLogs).

Definition fill_range (cfg : IngestCfg) (snap : N -> Storage) (clock : N -> N)
    (from to tip : N) (r : Run) : Run * fate bool :=
  if windowed cfg then
    match load_range cfg from to (run_logs r) (run_net r) with
    | (n, ParkedForever) => (set_net n r, ParkedForever)
    | (n, Done (w, false)) => (set_logs w (set_net n r), Done false)
    | (n, Done (w, true)) => fill_loop cfg snap clock tip (heights from to) (set_logs w (set_net n r))
    end
  else fill_loop cfg snap clock tip (heights from to) r.

(** ** One pass of the loop *)

(** How a pass ended: waiting for an anchor, caught up, a run of heights (and
    whether it completed), or parked; each but the last then sleeps for the
    time shown. *)
Inductive Pass : Type :=
  | AwaitAnchor
  | PassCaughtUp
  | Filled (from to : N) (complete : bool)
  | PassParked.

Definition pass_nap (p : Pass) : option N :=
  match p with
  | AwaitAnchor => Some (from_millis 500)
  | PassCaughtUp => Some BACKFILL_CAUGHT_UP_POLL
  | Filled _ _ false => Some (from_secs 1)
  | Filled _ _ true => Some 0%N
  | PassParked => None
  end.

(** The frontier the pass works from. *)
Definition contiguous_of (cfg : IngestCfg) (st : Storage) : N :=
  N.max (max_contiguous_height st) (sat_sub (default 0%N (cfg_backfill_floor cfg)) 1).

(** One iteration of [backfill_loop]: [now] and [now'] are the clock before and
    after the tip request, [clock] at each height of the run.  [count] is the
    shared backfill counter. *)
Definition backfill_pass (cfg : IngestCfg) (snap : N -> Storage) (now now' : N) (clock : N -> N)
    (s : Run * TipCache * N) : (Run * TipCache * N) * Pass :=
  let '(r, tc, count) := s in
  let st := run_storage r in
  let hw := high_water st in
  if (hw =? 0)%N && bool_decide (cfg_backfill_floor cfg = None) then (s, AwaitAnchor)
  else
    let contiguous := contiguous_of cfg st in
    let known := N.max hw (tc_height tc) in
    let poll := if (contiguous <? known)%N then tip_get now now' cfg tc
                else tip_get_uncached now' cfg tc in
    match poll (run_net r) with
    | (n, ParkedForever) => ((set_net n r, tc, count), PassParked)
    | (n, Done tc) =>
        let r := set_net n r in
        let target := N.max hw (tc_height tc) in
        let behind := sat_sub target contiguous in
        if (target <=? contiguous)%N then
          let '(p, _) := caught_up now' contiguous (run_progress r) in
          ((set_report p 0 r, tc, count), PassCaughtUp)
        else
          let '(p, began, _) := observe now' contiguous target behind (run_progress r) in
          let r := set_report p behind r in
          let count := if began then ((count + 1) mod 2 ^ 64)%N else count in
          let next := sat_add contiguous 1 in
          let to := N.min target (sat_add next (sat_sub LOGS_WINDOW 1)) in
          match fill_range cfg snap clock next to target r with
          | (r, ParkedForever) => ((r, tc, count), PassParked)
          | (r, Done complete) => ((r, tc, count), Filled next to complete)
          end
    end.

End Backfill.

(** ** The window *)

Definition logs_at (h : N) (items : list Value) : list Value :=
  filter (fun log => block_number_of log = Some h) items.

Lemma load_lookup items h :
  load (VArray items) !! h = match logs_at h items with [] => None | ls => Some ls end.
Proof.
  unfold load, logs_at. induction items as [|log items IH] using rev_ind; [exact (lookup_empty h)|].
  rewrite foldl_app, filter_app. cbn [foldl]. set (w := foldl push_log ∅ items) in *. unfold push_log, LogWindow in *.
  destruct (block_number_of log) as [h'|] eqn:E.
  - destruct (decide (h' = h)) as [->|Hne].
    + rewrite lookup_insert_eq, IH, filter_cons_True by done.
      by destruct (filter _ items).
    + rewrite lookup_insert_ne, IH, filter_cons_False by (done || congruence).
      by rewrite filter_nil, app_nil_r.
  - rewrite IH, filter_cons_False by congruence. by rewrite filter_nil, app_nil_r.
Qed.

(** The flat logs of one block's receipts. *)
Definition block_logs (receipts : Value) : list Value :=
  default [] (as_array (logs_from_receipts receipts)).

Lemma logs_from_receipts_array r : logs_from_receipts r = VArray (block_logs r).
Proof. unfold block_logs, logs_from_receipts. by destruct (as_array r). Qed.

Lemma logs_at_app h a b : logs_at h (a ++ b) = logs_at h a ++ logs_at h b.
Proof. apply filter_app. Qed.

Lemma logs_at_own h ls :
  Forall (fun log => block_number_of log = Some h) ls -> logs_at h ls = ls.
Proof. induction 1 as [|l ls Hl _ IH]; [done|]. unfold logs_at. rewrite filter_cons_True by done. by f_equal. Qed.

Lemma logs_at_other h h' ls :
  h <> h' -> Forall (fun log => block_number_of log = Some h') ls -> logs_at h ls = [].
Proof.
  intros Hne. induction 1 as [|l ls Hl _ IH]; [done|]. unfold logs_at.
  rewrite filter_cons_False by congruence. exact IH.
Qed.

Lemma logs_at_window (rs : list (N * Value)) h r :
  NoDup rs.*1 -> (h, r) ∈ rs ->
  Forall (fun p => Forall (fun log => block_number_of log = Some p.1) (block_logs p.2)) rs ->
  logs_at h (rs ≫= fun p => block_logs p.2) = block_logs r.
Proof.
  intros Hnd Hin Hall. induction Hall as [|[h' r'] rs Hp Hrs IH]; [by apply not_elem_of_nil in Hin|].
  cbn [fmap list_fmap fst] in Hnd. apply NoDup_cons in Hnd as [Hfresh Hnd].
  change (((h', r') :: rs) ≫= ?f) with (f (h', r') ++ (rs ≫= f)).
  rewrite logs_at_app. cbn [fst snd] in *.
  apply elem_of_cons in Hin as [[= -> ->]|Hin].
  - rewrite (logs_at_own h') by done.
    replace (logs_at h' _) with (@nil Value); [by rewrite app_nil_r|]. symmetry.
    clear IH Hp. induction Hrs as [|[h2 r2] rs H2 Hrs IH]; [done|].
    cbn [fmap list_fmap fst] in Hfresh. apply not_elem_of_cons in Hfresh as [Hne Hfresh].
    apply NoDup_cons in Hnd as [_ Hnd].
    change (((h2, r2) :: rs) ≫= ?f) with (f (h2, r2) ++ (rs ≫= f)).
    rewrite logs_at_app. cbn [fst snd] in *. rewrite (logs_at_other h' h2) by done. by apply IH.
  - rewrite (logs_at_other h h'); [by apply IH| |done].
    intros ->. apply Hfresh. apply list_elem_of_fmap. by exists (h', r).
Qed.

Section WindowTheorems.
Context {J : JsonLib} {JL : JsonLaws J}.

(** C28: where the logs come from does not show in the store.  If the logs of a
    window are the receipts' logs of its heights in order, each naming its own
    height, then for every height of the window the bytes and the count taken
    out of the [eth_getLogs] window are those the receipts path would store -
    the empty array included. *)
Theorem logs_sources_agree (rs : list (N * Value)) h r :
  NoDup rs.*1 -> (h, r) ∈ rs ->
  Forall (fun p => Forall (fun log => block_number_of log = Some p.1) (block_logs p.2)) rs ->
  serialized (load (VArray (rs ≫= fun p => block_logs p.2))) h = serialize (logs_from_receipts r).
Proof.
  intros Hnd Hin Hall. unfold serialized. rewrite load_lookup, (logs_at_window rs h r) by done.
  rewrite logs_from_receipts_array. destruct (block_logs r); [|done].
  unfold serialize. cbn [as_array length]. by rewrite to_vec_empty_array.
Qed.

End WindowTheorems.

(** ** What a run writes *)

Definition block_request (h : N) : Value :=
  rpc_body "eth_getBlockByNumber" (VArray [VString (hex_quantity h); VBool true]).

Definition receipts_request (h : N) : Value :=
  rpc_body "eth_getBlockReceipts" (VArray [VString (hex_quantity h)]).

Definition logs_request (from to : N) : Value :=
  rpc_body "eth_getLogs"
    (VArray [VObject [("fromBlock", VString (hex_quantity from)); ("toBlock", VString (hex_quantity to))]]).

Section Runs.
Context {B : Blockstore} {F : Fjall} {J : JsonLib} {X : HexLib} {H : Http}.

(** A write of [block] under its own hash and transactions. *)
Definition block_cmd (block : Value) (logs : bytes) (c : PutCmd) : Prop :=
  exists text b, get_str "hash" block = Some text /\ decode_hash text = Ok (cmd_hash c) /\
    cmd_txs c = extract_tx_hashes block /\ to_vec block = Some b /\ cmd_elements c = [b; logs].

(** The logs half of height [h], by where the settings take logs from. *)
Definition logs_origin (cfg : IngestCfg) (from to : N) (tr : list Effect) (h : N) (logs : bytes) : Prop :=
  if cfg_ingest_logs cfg then
    match cfg_logs_source cfg with
    | Receipts => exists rc, answered tr (receipts_request h) rc /\
                             logs = (serialize (logs_from_receipts rc)).1
    | GetLogs => exists ls, answered tr (logs_request from to) ls /\ logs = (serialized (load ls) h).1
    end
  else logs = EMPTY_ARRAY.

Definition fetched_cmd (cfg : IngestCfg) (from to : N) (tr : list Effect) (c : PutCmd) : Prop :=
  exists block logs, answered tr (block_request (cmd_height c)) block /\
    block_cmd block logs c /\ logs_origin cfg from to tr (cmd_height c) logs.

Lemma fetched_cmd_extends cfg from to tr0 tr c :
  extends tr0 tr -> fetched_cmd cfg from to tr0 c -> fetched_cmd cfg from to tr c.
Proof.
  intros He (block & logs & Ha & Hc & Hl). exists block, logs.
  split; [by eapply answered_extends|]. split; [done|]. unfold logs_origin in *.
  destruct (cfg_ingest_logs cfg); [|done].
  destruct (cfg_logs_source cfg); destruct Hl as (v & Hv & ->); exists v;
    (split; [by eapply answered_extends|done]).
Qed.

(** Either nothing happens, or one [put] of the block. *)
Lemma persist_backfilled_put h block logs st st' r :
  persist_backfilled h block logs st = (st', r) ->
  (st' = st /\ exists e, r = Err e) \/
  exists c, cmd_height c = h /\ block_cmd block logs c /\ run_put c st = (st', r).
Proof.
  unfold persist_backfilled, bind, lift.
  destruct (get_str "hash" block) as [text|] eqn:Eh; cbn [ok_or]; [|intros [= <- <-]; eauto].
  destruct (decode_hash text) as [hash|e] eqn:Ed; [|intros [= <- <-]; eauto].
  destruct (to_vec block) as [b|] eqn:Ev; cbn [ok_or]; [|intros [= <- <-]; eauto].
  intros Hp. right.
  exists {| cmd_height := h; cmd_hash := hash; cmd_txs := extract_tx_hashes block;
            cmd_elements := [b; logs] |}.
  split; [done|]. split; [|done]. by exists text, b.
Qed.

Lemma grows_fetch_one_logs cfg h : grows (fetch_one_logs cfg h).
Proof.
  unfold fetch_one_logs, fetch_block_receipts, io_pace. destruct (per_height_logs cfg); auto with neve.
Qed.

#[local] Hint Resolve grows_fetch_one_logs : neve.

Lemma grows_fetch_one snap cfg h : grows (fetch_one snap cfg h).
Proof.
  assert (grows (fetch_both cfg h)).
  { unfold fetch_both, fetch_full_block, io_pace. apply grows_bind; [auto with neve|]. intros _.
    apply grows_bind; [auto with neve|]. intros [o a]. auto with neve. }
  unfold fetch_one. destruct (get_by_height snap h) as [[|]|]; auto with neve.
Qed.

Lemma fetch_one_logs_answered cfg h n n' lo :
  fetch_one_logs cfg h n = (n', Done (Some lo)) ->
  match lo with
  | Some v => per_height_logs cfg = true /\
              exists rc, answered (net_trace n') (receipts_request h) rc /\ v = logs_from_receipts rc
  | None => per_height_logs cfg = false
  end.
Proof.
  unfold fetch_one_logs. destruct (per_height_logs cfg); [|intros [= _ <-]; done]. intros E.
  apply io_bind_inv in E as [[_ ?]|(n1 & [] & _ & E)]; [done|].
  apply io_bind_inv in E as [[_ ?]|(n2 & [rc|] & E2 & E)]; [done| |done].
  injection E as -> <-. split; [done|]. exists rc. split; [|done]. by eapply fetch_plain_answered.
Qed.

(** A fetched block is the upstream's answer for that height, and so are the
    logs that came with it. *)
Lemma fetch_one_block snap cfg h n n' h' block lo :
  fetch_one snap cfg h n = (n', Done (Some (FBlock h' block lo))) ->
  h' = h /\ answered (net_trace n') (block_request h) block /\
  match lo with
  | Some v => per_height_logs cfg = true /\
              exists rc, answered (net_trace n') (receipts_request h) rc /\ v = logs_from_receipts rc
  | None => per_height_logs cfg = false
  end.
Proof.
  unfold fetch_one. intros E.
  assert (fetch_both cfg h n = (n', Done (Some (FBlock h' block lo)))) as E'
    by (destruct (get_by_height snap h) as [[|]|]; [by inversion E|done|done]).
  clear E. unfold fetch_both in E'.
  apply io_bind_inv in E' as [[_ ?]|(n1 & [] & _ & E)]; [done|].
  apply io_bind_inv in E as [[_ ?]|(n2 & [blk a] & E2 & E)]; [done|].
  apply io_bind_inv in E as [[_ ?]|(n3 & lg & E3 & E)]; [done|].
  destruct blk as [blk|], lg as [lg|]; try (inversion E; fail). injection E as -> -> -> ->.
  split; [done|]. split; [|by eapply fetch_one_logs_answered].
  eapply answered_extends; [exact (grows_fetch_one_logs cfg _ n2 n' _ E3)|].
  by eapply fetch_rpc_answered.
Qed.

Lemma fetch_both_not_skip cfg h n n' : fetch_both cfg h n <> (n', Done (Some Skip)).
Proof.
  intros E. unfold fetch_both in E.
  apply io_bind_inv in E as [[_ ?]|(n1 & [] & _ & E)]; [done|].
  apply io_bind_inv in E as [[_ ?]|(n2 & [blk a] & E2 & E)]; [done|].
  apply io_bind_inv in E as [[_ ?]|(n3 & lg & E3 & E)]; [done|].
  destruct blk, lg; by inversion E.
Qed.

(** The window holds what the upstream answered for [from..=to]. *)
Definition window_loaded (cfg : IngestCfg) (from to : N) (tr : list Effect) (w : LogWindow) : Prop :=
  windowed cfg = true -> exists ls, answered tr (logs_request from to) ls /\ w = load ls.

Lemma logs_half_origin cfg from to tr w h lo :
  window_loaded cfg from to tr w ->
  match lo with
  | Some v => per_height_logs cfg = true /\
              exists rc, answered tr (receipts_request h) rc /\ v = logs_from_receipts rc
  | None => per_height_logs cfg = false
  end ->
  logs_origin cfg from to tr h (logs_half cfg w h lo).1.
Proof.
  unfold window_loaded, windowed, per_height_logs, logs_origin, logs_half.
  destruct (cfg_ingest_logs cfg); [|done]. cbn [andb]. intros Hw Hlo.
  destruct (cfg_logs_source cfg), lo as [v|]; rewrite ?bool_decide_eq_true, ?bool_decide_eq_false in *.
  - destruct Hlo as (_ & rc & Ha & ->). eauto.
  - done.
  - by destruct Hlo.
  - destruct Hw as (ls & Ha & ->); [done|]. eauto.
Qed.

(** The fetch of [h] finds it stored already. *)
Definition already (snap : N -> Storage) (h : N) : Prop :=
  exists el, get_by_height (snap h) h = Ok (Some el).

(** The writes of a run: some of its heights, each once and in order, each of a
    fetched block.  When the run completed all of them succeeded, and only
    heights that were there already are not among them. *)
Definition wrote (cfg : IngestCfg) (snap : N -> Storage) (from to : N) (tr : list Effect) (hs : list N)
    (st st' : Storage) (o : fate bool) : Prop :=
  exists cs res, run_puts cs st = (st', res) /\ (cmd_height <$> cs) `sublist_of` hs /\
    Forall (fetched_cmd cfg from to tr) cs /\
    (o = Done true -> res = Ok tt /\ forall h, h ∈ hs -> h ∈ cmd_height <$> cs \/ already snap h).

Lemma wrote_nothing cfg snap from to tr hs st o :
  o <> Done true \/ hs = [] -> wrote cfg snap from to tr hs st st o.
Proof.
  intros Ho. exists [], (Ok tt). split_and!; [done|apply sublist_nil_l|constructor|].
  intros ->. destruct Ho as [Ho|Ho]; [done|subst hs]. split; [done|]. by intros h ?%not_elem_of_nil.
Qed.

Lemma wrote_skip cfg snap from to tr h hs st st' o :
  already snap h -> wrote cfg snap from to tr hs st st' o -> wrote cfg snap from to tr (h :: hs) st st' o.
Proof.
  intros Hh (cs & res & H1 & H2 & H3 & H4). exists cs, res. split_and!; [done|by constructor|done|].
  intros Ho. destruct (H4 Ho) as [-> Hall]. split; [done|]. intros h' [->|Hin]%elem_of_cons; [by right|by apply Hall].
Qed.

Lemma wrote_one cfg snap from to tr c hs st st' e o :
  fetched_cmd cfg from to tr c -> run_put c st = (st', Err e) -> o <> Done true ->
  wrote cfg snap from to tr (cmd_height c :: hs) st st' o.
Proof.
  intros Hc Hp Ho. exists [c], (Err e). split_and!; [|apply sublist_skip, sublist_nil_l|by repeat constructor|done].
  cbn [run_puts]. unfold bind. by rewrite Hp.
Qed.

Lemma wrote_cons cfg snap from to tr c hs st st1 st' o :
  fetched_cmd cfg from to tr c -> run_put c st = (st1, Ok tt) -> wrote cfg snap from to tr hs st1 st' o ->
  wrote cfg snap from to tr (cmd_height c :: hs) st st' o.
Proof.
  intros Hc Hp (cs & res & H1 & H2 & H3 & H4). exists (c :: cs), res.
  split_and!; [|by apply sublist_skip|by constructor|].
  - cbn [run_puts]. unfold bind. by rewrite Hp.
  - intros Ho. destruct (H4 Ho) as [-> Hall]. split; [done|]. cbn.
    intros h [->|Hin]%elem_of_cons; [left; apply elem_of_cons; by left|].
    destruct (Hall h Hin); [left; apply elem_of_cons; by right|by right].
Qed.

Lemma fetch_one_skip snap cfg h n n' :
  fetch_one snap cfg h n = (n', Done (Some Skip)) -> exists el, get_by_height snap h = Ok (Some el).
Proof.
  unfold fetch_one. destruct (get_by_height snap h) as [[el|]|]; [eauto|by intros ?%fetch_both_not_skip..].
Qed.

Lemma window_loaded_extends cfg from to tr tr' w :
  extends tr tr' -> window_loaded cfg from to tr w -> window_loaded cfg from to tr' w.
Proof.
  intros He Hw Hwd. destruct (Hw Hwd) as (ls & Ha & ->). exists ls. split; [|done]. by eapply answered_extends.
Qed.

Lemma fill_loop_wrote cfg snap clock from to tip hs : forall r r' o,
  fill_loop cfg snap clock tip hs r = (r', o) ->
  window_loaded cfg from to (net_trace (run_net r)) (run_logs r) ->
  extends (net_trace (run_net r)) (net_trace (run_net r')) /\
  wrote cfg snap from to (net_trace (run_net r')) hs (run_storage r) (run_storage r') o.
Proof.
  induction hs as [|h hs IH]; intros r r' o; cbn [fill_loop].
  { intros [= <- <-] _. split; [apply extends_refl|apply wrote_nothing; by right]. }
  destruct (fetch_one (snap h) cfg h (run_net r)) as [n f] eqn:Ef.
  pose proof (grows_fetch_one _ _ _ _ _ _ Ef) as Hg.
  destruct f as [[[|h' block lo]|]|];
    try (intros [= <- <-] _; split; [exact Hg|apply wrote_nothing; by left]).
  - apply fetch_one_skip in Ef. intros E Hw. apply (window_loaded_extends _ _ _ _ _ _ Hg) in Hw.
    destruct (IH _ _ _ E Hw) as [Hx Hwr]. split; [by eapply extends_trans|by apply wrote_skip].
  - destruct (fetch_one_block _ _ _ _ _ _ _ _ Ef) as (-> & Hblk & Hlo). cbn zeta.
    destruct (logs_half cfg (run_logs (set_net n r)) h lo) as [lb cnt] eqn:El.
    destruct (persist_backfilled h block lb (run_storage (set_net n r))) as [st rp] eqn:Ep.
    intros E Hw. apply (window_loaded_extends _ _ _ _ _ _ Hg) in Hw.
    pose proof (logs_half_origin cfg from to (net_trace n) (run_logs r) h lo Hw Hlo) as Ho.
    rewrite (El : logs_half cfg (run_logs r) h lo = _) in Ho.
    apply persist_backfilled_put in Ep as [[-> [e ->]]|(c & <- & Hc & Hp)].
    { injection E as <- <-. split; [exact Hg|apply wrote_nothing; by left]. }
    assert (Hf : fetched_cmd cfg from to (net_trace n) c) by (exists block, lb; done).
    destruct rp as [[]|e].
    + destruct (observe _ _ _ _ _) as [[p began] line]. destruct (IH _ _ _ E Hw) as [Hx Hwr].
      split; [by eapply extends_trans|]. eapply wrote_cons; [by eapply fetched_cmd_extends|exact Hp|exact Hwr].
    + injection E as <- <-. split; [exact Hg|]. by eapply wrote_one.
Qed.

Lemma load_range_loaded cfg from to w n n' w' ok :
  load_range cfg from to w n = (n', Done (w', ok)) ->
  extends (net_trace n) (net_trace n') /\
  (ok = true -> window_loaded cfg from to (net_trace n') w').
Proof.
  intros E. split.
  { refine ((_ : grows (load_range cfg from to w)) n n' _ E).
    unfold load_range, io_pace, fetch_logs. auto with neve. }
  intros -> _. unfold load_range in E.
  apply io_bind_inv in E as [[_ ?]|(n1 & [] & _ & E)]; [done|].
  apply io_bind_inv in E as [[_ ?]|(n2 & [ls|] & E2 & E)]; [done| |done].
  injection E as -> <-. exists ls. split; [|done]. by eapply fetch_plain_answered.
Qed.

Lemma fill_range_wrote cfg snap clock from to tip r r' o :
  fill_range cfg snap clock from to tip r = (r', o) ->
  wrote cfg snap from to (net_trace (run_net r')) (heights from to) (run_storage r) (run_storage r') o.
Proof.
  unfold fill_range. destruct (windowed cfg) eqn:Ew.
  - destruct (load_range cfg from to (run_logs r) (run_net r)) as [n [[w [|]]|]] eqn:El;
      [|intros [= <- <-]; apply wrote_nothing; by left..].
    apply load_range_loaded in El as [_ Hl]. intros E.
    apply (fill_loop_wrote cfg snap clock from to) in E; [exact (proj2 E)|by apply Hl].
  - intros E. apply (fill_loop_wrote cfg snap clock from to) in E; [exact (proj2 E)|].
    unfold window_loaded. by rewrite Ew.
Qed.

(** C13: nothing a backfill run writes is made up.  Whatever the upstream
    replies, and wherever the run stops, the store moves only by writes of
    heights of the run, and each of them stores, under the block's own hash and
    transaction hashes, a block the upstream returned when asked for that very
    height, with the logs the upstream returned for it: from the height's
    receipts, or from the run's own logs window, or the empty array exactly when
    log ingestion is off. *)
Theorem fill_range_faithful cfg snap clock from to tip r r' o :
  fill_range cfg snap clock from to tip r = (r', o) ->
  exists res,
    evolves (fun c => (from <= cmd_height c <= to)%N /\
                      fetched_cmd cfg from to (net_trace (run_net r')) c)
      (run_storage r) (run_storage r') res.
Proof.
  intros (cs & res & Hr & Hs & Hf & _)%fill_range_wrote. exists res, cs. split; [|done].
  rewrite Forall_forall in Hf |- *. intros c Hin. split; [|by apply Hf].
  apply elem_of_heights. eapply elem_of_sublist; [|exact Hs]. apply list_elem_of_fmap. by exists c.
Qed.

(** ** The frontier *)

Context {BL : BlockstoreLaws B} {FL : FjallLaws F} {JL : JsonLaws J}.

(** What a fetch skipped is in the store, and stays there. *)
Definition skips_present (snap : N -> Storage) (hs : list N) (st : Storage) : Prop :=
  forall h el, h ∈ hs -> get_by_height (snap h) h = Ok (Some el) -> exists b, stored st h = Ok (Some b).

Lemma persist_backfilled_ok h block logs st st' :
  persist_backfilled h block logs st = (st', Ok tt) ->
  exists hash txs es, put h hash txs es st = (st', Ok tt).
Proof.
  intros E. apply persist_backfilled_put in E as [[_ [e ?]]|(c & <- & _ & Hp)]; [done|].
  by eexists _, _, _.
Qed.

Lemma put_keeps h hash txs es st st' h' b :
  put h hash txs es st = (st', Ok tt) -> stored st h' = Ok (Some b) -> exists b', stored st' h' = Ok (Some b').
Proof.
  intros Hp Hb. destruct (put_height_present _ _ _ _ _ _ Hp) as (s & Hs & _ & Hk).
  destruct (Hk _ _ Hb) as [b' Hb']. exists b'. unfold stored. by rewrite Hs.
Qed.

Lemma put_stored h hash txs es st st' :
  put h hash txs es st = (st', Ok tt) -> stored st' h = Ok (Some (encode es)).
Proof.
  intros Hp. destruct (put_height_present _ _ _ _ _ _ Hp) as (s & Hs & Hr & _).
  unfold stored. by rewrite Hs.
Qed.

(** Ready to receive height [h]: anchored with [h] no more than one past the
    frontier, or empty and about to be anchored at [h]. *)
Definition ready (st : Storage) (h : N) : Prop :=
  (anchored st /\ (h <= max_contiguous_height st + 1)%N) \/
  (st_store st = None /\ anchor_for st h = h).

Lemma put_ready h hash txs es st st' :
  ready st h -> put h hash txs es st = (st', Ok tt) ->
  anchored st' /\ (h <= max_contiguous_height st')%N.
Proof.
  intros [[Ha Hle]|[Hn Hf]] Hp.
  - destruct (put_contiguous_mono _ _ _ _ _ _ Ha Hp) as [Ha' Hm]. split; [done|].
    eapply frontier_reaches; [done|by eapply put_stored|lia].
  - destruct (put_first_anchored _ _ _ _ _ _ Hn Hf Hp) as (Ha & _ & Hm). done.
Qed.

(** One height of a run that completes. *)
Lemma fill_loop_step cfg snap clock tip h hs r r' :
  fill_loop cfg snap clock tip (h :: hs) r = (r', Done true) ->
  ready (run_storage r) h -> skips_present snap (h :: hs) (run_storage r) ->
  exists r1, fill_loop cfg snap clock tip hs r1 = (r', Done true) /\
    anchored (run_storage r1) /\ (h <= max_contiguous_height (run_storage r1))%N /\
    skips_present snap hs (run_storage r1).
Proof.
  intros E Hr Hsk. cbn [fill_loop] in E.
  destruct (fetch_one (snap h) cfg h (run_net r)) as [n [[[|h' block lo]|]|]] eqn:Ef; try done.
  - exists (set_net n r). split; [done|]. cbn.
    assert (exists el, get_by_height (snap h) h = Ok (Some el)) as [el Hel].
    { unfold fetch_one in Ef. destruct (get_by_height (snap h) h) as [[el|]|]; [eauto| |];
        exfalso; by eapply fetch_both_not_skip. }
    destruct (Hsk h el ltac:(apply elem_of_cons; by left) Hel) as [b Hb].
    assert (Ha : anchored (run_storage r) /\ (h <= max_contiguous_height (run_storage r) + 1)%N).
    { destruct Hr as [?|[Hn _]]; [done|]. unfold stored in Hb. by rewrite Hn in Hb. }
    split; [by destruct Ha|]. split; [by eapply frontier_reaches; destruct Ha|].
    intros h2 el2 Hin. apply Hsk. apply elem_of_cons. by right.
  - destruct (fetch_one_block _ _ _ _ _ _ _ _ Ef) as (Hh & _ & _). rewrite Hh in E. clear Hh.
    cbn zeta in E. destruct (logs_half _ _ _ _) as [lb cnt].
    destruct (persist_backfilled h block lb (run_storage (set_net n r))) as [st [[]|e]] eqn:Ep; [|done].
    destruct (observe _ _ _ _ _) as [[p began] line]. eexists. split; [exact E|]. cbn.
    apply persist_backfilled_ok in Ep as (hash & txs & es & Hp). cbn in Hp.
    destruct (put_ready _ _ _ _ _ _ Hr Hp) as [Ha Hm]. split; [done|]. split; [done|].
    intros h2 el2 Hin Hel. destruct (Hsk h2 el2 ltac:(apply elem_of_cons; by right) Hel) as [b Hb].
    by eapply put_keeps.
Qed.

Lemma fill_loop_frontier cfg snap clock tip to k : forall from r r',
  N.of_nat k = (to + 1 - from)%N -> (from <= to + 1)%N ->
  fill_loop cfg snap clock tip (heights from to) r = (r', Done true) ->
  anchored (run_storage r) -> (from <= max_contiguous_height (run_storage r) + 1)%N ->
  skips_present snap (heights from to) (run_storage r) ->
  anchored (run_storage r') /\ (to <= max_contiguous_height (run_storage r'))%N.
Proof.
  induction k as [|k IH]; intros from r r' Hk Hle E Ha Hm Hsk.
  - rewrite heights_nil in E by lia. injection E as <-. split; [done|lia].
  - rewrite heights_cons in E, Hsk by lia.
    apply fill_loop_step in E as (r1 & E & Ha1 & Hm1 & Hsk1); [|by left|done].
    apply (IH (from + 1)%N r1); [lia|lia|done|done|lia|done].
Qed.

Lemma fill_range_frontier cfg snap clock from to tip r r' :
  (from <= to)%N -> ready (run_storage r) from ->
  skips_present snap (heights from to) (run_storage r) ->
  fill_range cfg snap clock from to tip r = (r', Done true) ->
  anchored (run_storage r') /\ (to <= max_contiguous_height (run_storage r'))%N.
Proof.
  intros Hle Hr Hsk E.
  assert (exists r0, run_storage r0 = run_storage r /\
    fill_loop cfg snap clock tip (heights from to) r0 = (r', Done true)) as (r0 & Hst & E0).
  { unfold fill_range in E. destruct (windowed cfg); [|eauto].
    destruct (load_range cfg from to (run_logs r) (run_net r)) as [n [[w [|]]|]]; try done.
    by exists (set_logs w (set_net n r)). }
  rewrite <- Hst in Hr, Hsk. rewrite heights_cons in E0, Hsk by done.
  apply fill_loop_step in E0 as (r1 & E1 & Ha1 & Hm1 & Hsk1); [|done|done].
  apply (fill_loop_frontier cfg snap clock tip to (N.to_nat (to - from)) (from + 1)%N r1);
    [lia|lia|done|done|lia|done].
Qed.

(** C12: a completed run closes the gap.  Started at the frontier of an anchored
    store - or on an empty store that its first height will anchor - a run that
    reports completion leaves a store whose contiguous frontier has reached the
    end of the run, as long as every height a fetch skipped was really
    present. *)
Theorem fill_range_closes_gap cfg snap clock from to tip r r' :
  (from <= to)%N -> ready (run_storage r) from ->
  skips_present snap (heights from to) (run_storage r) ->
  fill_range cfg snap clock from to tip r = (r', Done true) ->
  anchored (run_storage r') /\ (to <= max_contiguous_height (run_storage r'))%N.
Proof. apply fill_range_frontier. Qed.

End Runs.

(** ** The decisions of a pass *)

Section Passes.
Context {B : Blockstore} {F : Fjall} {J : JsonLib} {X : HexLib} {H : Http}.

Definition tip_request (cfg : IngestCfg) (rep : HttpReply) : list Effect :=
  [Paced; Posted (cfg_rpc_url cfg) (rpc_body "eth_blockNumber" (VArray [])) rep].

(** An uncached read makes one paced request and always answers. *)
Lemma tip_get_uncached_run now' cfg tc n :
  exists n' rep h, tip_get_uncached now' cfg tc n = (n', Done {| tc_height := h; tc_fetched := Some now' |}) /\
    net_trace n' = net_trace n ++ tip_request cfg rep /\
    (h = tc_height tc \/ is_u64 h).
Proof.
  destruct (runs_emit Paced n) as (n1 & Hp).
  destruct (runs_post (cfg_rpc_url cfg) (rpc_body "eth_blockNumber" (VArray [])) n1) as (n2 & rep & Hq).
  set (tip := match rep with
              | Response _ _ (Some v) => s ← get_str "result" v; u64_from_hex (trim_start_0x s)
              | _ => None
              end).
  exists n2, rep, (default (tc_height tc) tip).
  assert (Hrun : runs (upstream_block_number cfg) n1 n2 ([_] ++ []) (Done tip)) by (eapply runs_bind; [exact Hq|apply runs_ret]).
  assert (Hall : runs (tip_get_uncached now' cfg tc) n n2 (tip_request cfg rep)
    (Done {| tc_height := default (tc_height tc) tip; tc_fetched := Some now' |})).
  { refine (runs_bind _ _ n n1 n2 [_] [_] _ _ Hp _).
    refine (runs_bind _ _ n1 n2 n2 [_] [] _ _ Hrun _). apply runs_ret. }
  destruct Hall as [E T].
  split; [exact E|]. split; [exact T|].
  destruct tip as [t|] eqn:Et; [|by left]. right. unfold tip in Et.
  destruct rep as [|? ? [v|]]; try done. destruct (get_str "result" v) as [s|]; [|done].
  cbn in Et. by apply from_str_radix_bound in Et.
Qed.

(** The tip a pass works with: the one it just read, or the cached one when
    there is work whatever a new read would say. *)
Lemma poll_run now now' cfg tc contiguous hw n n' tc' :
  (if (contiguous <? N.max hw (tc_height tc))%N then tip_get now now' cfg tc
   else tip_get_uncached now' cfg tc) n = (n', Done tc') ->
  (tc' = tc /\ (contiguous < N.max hw (tc_height tc'))%N) \/
  ((exists rep, net_trace n' = net_trace n ++ tip_request cfg rep) /\
   (tc_height tc' = tc_height tc \/ is_u64 (tc_height tc'))).
Proof.
  assert (Hun : tip_get_uncached now' cfg tc n = (n', Done tc') ->
    (exists rep, net_trace n' = net_trace n ++ tip_request cfg rep) /\
    (tc_height tc' = tc_height tc \/ is_u64 (tc_height tc'))).
  { intros E. destruct (tip_get_uncached_run now' cfg tc n) as (n1 & rep & h & E1 & T & Hh).
    rewrite E in E1. injection E1 as -> ->. eauto. }
  destruct (N.ltb_spec contiguous (N.max hw (tc_height tc))) as [Hlt|]; [|by right; apply Hun].
  unfold tip_get. destruct (tc_fetched tc) as [at_|]; [|by right; apply Hun].
  destruct (now - at_ <? TIP_TTL)%N; [|by right; apply Hun].
  intros [= <- <-]. by left.
Qed.

(** What each pass of the backfill loop decides.  It waits only while there
    is neither a block nor a configured floor; it declares itself caught up only
    on a tip requested in this very pass - never on a cached one - that the
    frontier has reached; and otherwise it fills a non-empty run that starts one
    past the frontier, stops at or before the target and spans at most 2048
    heights. *)
Theorem backfill_pass_decides cfg snap now now' clock r tc count r' tc' count' p :
  is_u64 (high_water (run_storage r)) -> is_u64 (tc_height tc) ->
  backfill_pass cfg snap now now' clock (r, tc, count) = ((r', tc', count'), p) ->
  let hw := high_water (run_storage r) in
  let contiguous := contiguous_of cfg (run_storage r) in
  match p with
  | AwaitAnchor => hw = 0%N /\ cfg_backfill_floor cfg = None /\ r' = r
  | PassCaughtUp =>
      (exists rep, net_trace (run_net r') = net_trace (run_net r) ++ tip_request cfg rep) /\
      (N.max hw (tc_height tc') <= contiguous)%N /\ run_behind_tip r' = 0%N /\
      run_storage r' = run_storage r
  | Filled from to _ =>
      from = (contiguous + 1)%N /\ (from <= to)%N /\ (to <= N.max hw (tc_height tc'))%N /\
      (to + 1 - from <= LOGS_WINDOW)%N
  | PassParked => True
  end.
Proof.
  intros Hhw Htc E hw contiguous. unfold backfill_pass in E. cbv zeta in E.
  destruct ((high_water (run_storage r) =? 0)%N && bool_decide (cfg_backfill_floor cfg = None)) eqn:Eg.
  { injection E as <- <- <- <-. apply andb_true_iff in Eg as [Eg1 Eg2].
    apply N.eqb_eq in Eg1. by apply bool_decide_eq_true in Eg2. }
  match type of E with (let (_, _) := ?m in _) = _ => destruct m as [n [tc1|]] eqn:Ep end;
    [|by injection E as <- <- <- <-].
  apply poll_run in Ep.
  destruct (N.leb_spec (N.max (high_water (run_storage r)) (tc_height tc1))
              (contiguous_of cfg (run_storage r))) as [Hle|Hgt].
  - destruct (caught_up _ _ _) as [pr line]. injection E as <- <- <- <-. cbn.
    destruct Ep as [[-> Hlt]|[(rep & T) _]]; [lia|]. split; [eauto|]. done.
  - assert (is_u64 (tc_height tc1)) by (destruct Ep as [[-> _]|[_ [->|]]]; done).
    destruct (observe _ _ _ _ _) as [[pr began] line].
    destruct (fill_range _ _ _ _ _ _ _) as [r2 [ok|]]; injection E as <- <- <- <-; [|done].
    fold contiguous hw in Hgt |- *. fold hw in Hhw.
    unfold LOGS_WINDOW, sat_add, sat_sub, is_u64, u64_max in *. lia.
Qed.

End Passes.
