(* ===== verification/BackfillLive.v ===== *)
(** * The backfill reaches the tip

    With an upstream that answers and a store that accepts writes, every pass of
    the C-chain backfill loop moves the contiguous frontier, until it is at the
    upstream's tip; other tasks may write to the store between passes. *)

From Stdlib Require Import ZArith NArith Lia String Ascii.
From S2P Require Import Prelude Str Json Chain Record Backing Storage StorageSpec Codec Upstream Http EthFetch Progress Backfill.

Section Live.
Context {B : Blockstore} {F : Fjall} {J : JsonLib} {X : HexLib} {H : Http}.
Context {BL : BlockstoreLaws B} {FL : FjallLaws F} {JL : JsonLaws J}.

(** The settings, the upstream's tip, and the highest height anything names. *)
Variables (cfg : IngestCfg) (tip top : N).

(** The worlds of a working upstream, and the stores of a working disk. *)
Variables (Honest : World -> Prop) (Good : Storage -> Prop).

(** Posting [body] is answered, at once and with a result that [ok] accepts. *)
Definition answers (body : Value) (ok : Value -> Prop) : Prop :=
  forall w, Honest w -> exists w' status header v r,
    post (cfg_rpc_url cfg) body w = (w', Response status header (Some v))
    /\ is_throttle status = false /\ usable_result v = Some r /\ ok r /\ Honest w'.

(** A block that can be stored: it has a hash and it serializes. *)
Definition storable (block : Value) : Prop :=
  exists text hash b, get_str "hash" block = Some text /\ decode_hash text = Ok hash /\ to_vec block = Some b.

(** The upstream answers for every height up to [top], and with its tip. *)
Record WorkingUpstream : Prop := {
  wu_block : forall h, (h <= top)%N -> answers (block_request h) storable;
  wu_receipts : forall h, (h <= top)%N -> answers (receipts_request h) (fun _ => True);
  wu_logs : forall from to, answers (logs_request from to) (fun _ => True);
  wu_tip : answers (rpc_body "eth_blockNumber" (VArray []))
             (fun r => exists s, r = VString s /\ u64_from_hex (trim_start_0x s) = Some tip);
  wu_top : (tip <= top)%N;
  wu_range : is_u64 top
}.

(** The disk takes every record of a height up to [top] and not below the floor. *)
Record WorkingDisk : Prop := {
  wd_put : forall st h hash txs b logs, Good st -> (min_height st <= h <= top)%N ->
    exists st', put h hash txs [b; logs] st = (st', Ok tt) /\ Good st';
  wd_top : forall st, Good st -> (high_water st <= top)%N
}.

Hypothesis HU : WorkingUpstream.
Hypothesis HD : WorkingDisk.

(** ** Requests *)

Lemma attempts_answered body ok remaining attempt recorded n :
  answers body ok -> Honest (net_world n) ->
  exists n' r, attempts cfg body (S remaining) attempt recorded None n = (n', Done (Some r, None))
    /\ ok r /\ Honest (net_world n').
Proof.
  intros Ha Hn. destruct (Ha _ Hn) as (w' & status & header & v & r & Hp & Ht & Hu & Hok & Hw).
  cbn [attempts]. unfold io_bind, io_post. rewrite Hp, Ht, Hu. cbn.
  eexists _, r. split; [by destruct recorded|]. done.
Qed.

Lemma fetch_plain_live method params ok n :
  answers (rpc_body method params) ok -> Honest (net_world n) ->
  exists n' r, fetch_plain method params cfg n = (n', Done (Some r)) /\ ok r /\ Honest (net_world n').
Proof.
  intros Ha Hn. destruct (attempts_answered _ _ 2 0 false n Ha Hn) as (n' & r & E & Hok & Hw).
  exists n', r. split; [|done]. unfold fetch_plain, fetch_rpc, pre_delay.
  unfold io_bind at 1. unfold io_bind at 1. cbn [io_ret]. unfold RPC_MAX_ATTEMPTS. by rewrite E.
Qed.

Lemma fetch_full_block_live h n :
  (h <= top)%N -> Honest (net_world n) ->
  exists n' r, fetch_full_block h cfg None n = (n', Done (Some r, None)) /\ storable r /\ Honest (net_world n').
Proof.
  intros Hh Hn. destruct (attempts_answered _ _ 2 0 false n (wu_block HU h Hh) Hn) as (n' & r & E & Hok & Hw).
  exists n', r. split; [|done]. unfold fetch_full_block, fetch_rpc, pre_delay.
  unfold io_bind at 1. cbn [io_ret]. unfold RPC_MAX_ATTEMPTS. exact E.
Qed.

Lemma fetch_one_logs_live h n :
  (h <= top)%N -> Honest (net_world n) ->
  exists n' lo, fetch_one_logs cfg h n = (n', Done (Some lo)) /\ Honest (net_world n').
Proof.
  intros Hh Hn. unfold fetch_one_logs. destruct (per_height_logs cfg); [|eauto].
  set (n1 := {| net_world := net_world n; net_trace := net_trace n ++ [Paced] |}).
  destruct (fetch_plain_live _ _ _ n1 (wu_receipts HU h Hh) Hn) as (n' & r & E & _ & Hw).
  exists n', (Some (logs_from_receipts r)). split; [|done].
  unfold io_bind at 1. cbn [io_pace emit]. fold n1. unfold fetch_block_receipts.
  unfold io_bind. by rewrite E.
Qed.

(** A height is skipped or fetched, and what is fetched can be stored. *)
Lemma fetch_one_live snap h n :
  (h <= top)%N -> Honest (net_world n) ->
  exists n' f, fetch_one snap cfg h n = (n', Done (Some f)) /\ Honest (net_world n')
    /\ match f with Skip => True | FBlock h' block _ => h' = h /\ storable block end.
Proof.
  intros Hh Hn. unfold fetch_one.
  assert (Hb : exists n' f, fetch_both cfg h n = (n', Done (Some f)) /\ Honest (net_world n')
    /\ match f with Skip => True | FBlock h' block _ => h' = h /\ storable block end).
  { unfold fetch_both. unfold io_bind at 1. cbn [io_pace emit].
    set (n1 := {| net_world := net_world n; net_trace := net_trace n ++ [Paced] |}).
    destruct (fetch_full_block_live h n1 Hh Hn) as (n2 & b & E & Hs & Hw).
    destruct (fetch_one_logs_live h n2 Hh Hw) as (n3 & lo & E' & Hw').
    exists n3, (FBlock h b lo). split; [|done]. unfold io_bind. by rewrite E, E'. }
  destruct (get_by_height snap h) as [[el|]|]; [|exact Hb..]. exists n, Skip. done.
Qed.

(** ** A run of heights *)

Lemma persist_live h block logs st :
  storable block -> Good st -> (min_height st <= h <= top)%N ->
  exists st', persist_backfilled h block logs st = (st', Ok tt) /\ Good st'
    /\ exists hash txs es, put h hash txs es st = (st', Ok tt).
Proof.
  intros (text & hash & b & Hh & Hd & Hv) Hg Hle.
  destruct (wd_put HD st h hash (extract_tx_hashes block) b logs Hg Hle) as (st' & Hp & Hg').
  exists st'. split; [|eauto 6]. unfold persist_backfilled, bind, lift. rewrite Hh. cbn [ok_or].
  rewrite Hd, Hv. exact Hp.
Qed.

Lemma put_min_height h hash txs es st st' :
  anchored st -> put h hash txs es st = (st', Ok tt) -> min_height st' = min_height st.
Proof.
  intros (s & Hs & _) Hp. rewrite (put_min _ _ _ _ _ _ _ Hp Hs). unfold min_height. by rewrite Hs.
Qed.

Lemma fill_loop_live snap clock target hs : forall r,
  Forall (fun h => min_height (run_storage r) <= h <= top)%N hs ->
  anchored (run_storage r) -> Good (run_storage r) -> Honest (net_world (run_net r)) ->
  exists r', fill_loop cfg snap clock target hs r = (r', Done true)
    /\ Good (run_storage r') /\ Honest (net_world (run_net r')).
Proof.
  induction hs as [|h hs IH]; intros r Hall Ha Hg Hw; cbn [fill_loop]; [eauto|].
  apply Forall_cons_1 in Hall as [Hh Hall].
  destruct (fetch_one_live (snap h) h (run_net r)) as (n & f & E & Hw' & Hf); [lia|done|].
  rewrite E. destruct f as [|h' block lo].
  - by apply IH.
  - destruct Hf as [-> Hs]. cbn zeta. destruct (logs_half _ _ _ _) as [lb cnt].
    destruct (persist_live h block lb (run_storage (set_net n r)) Hs Hg Hh) as (st' & -> & Hg' & hash & txs & es & Hp).
    destruct (observe _ _ _ _ _) as [[p began] line]. apply IH; [|cbn..]; try done.
    + cbn in Hp |- *. by rewrite (put_min_height _ _ _ _ _ _ Ha Hp).
    + cbn in Hp. by destruct (put_contiguous_mono _ _ _ _ _ _ Ha Hp).
Qed.

Lemma fill_range_live snap clock from to target r :
  (min_height (run_storage r) <= from)%N -> (to <= top)%N ->
  anchored (run_storage r) -> Good (run_storage r) -> Honest (net_world (run_net r)) ->
  exists r', fill_range cfg snap clock from to target r = (r', Done true)
    /\ Good (run_storage r') /\ Honest (net_world (run_net r')).
Proof.
  intros Hmin Hto Ha Hg Hw. unfold fill_range.
  assert (Hall : forall r0 : Run, run_storage r0 = run_storage r ->
    Forall (fun h => min_height (run_storage r0) <= h <= top)%N (heights from to)).
  { intros r0 ->. apply Forall_forall. intros h Hh%elem_of_heights. lia. }
  destruct (windowed cfg); [|by apply fill_loop_live; [apply Hall| | |]].
  assert (Hl : exists n w, load_range cfg from to (run_logs r) (run_net r) = (n, Done (w, true)) /\ Honest (net_world n)).
  { unfold load_range. unfold io_bind at 1. cbn [io_pace emit].
    set (n1 := {| net_world := _; net_trace := _ |}).
    destruct (fetch_plain_live _ _ _ n1 (wu_logs HU from to) Hw) as (n2 & ls & E & _ & Hw2).
    exists n2, (load ls). split; [|done]. unfold io_bind, fetch_logs. by rewrite E. }
  destruct Hl as (n & w & -> & Hn). by apply fill_loop_live; [apply Hall| | |].
Qed.

(** ** Passes *)

Definition State : Type := Run * TipCache * N.

Definition frontier (st : Storage) : N := max_contiguous_height st.

(** A store on which the loop can work: it holds its floor, and something above
    genesis or a configured floor says where to go. *)
Record Underway (st : Storage) : Prop := {
  uw_anchored : anchored st;
  uw_good : Good st;
  uw_floor : (default 0 (cfg_backfill_floor cfg) <= frontier st + 1)%N;
  uw_started : (0 < high_water st)%N \/ is_Some (cfg_backfill_floor cfg)
}.

Record Inv (s : State) : Prop := {
  inv_store : Underway (run_storage s.1.1);
  inv_net : Honest (net_world (run_net s.1.1));
  inv_tip : (tc_height s.1.2 <= top)%N
}.

Lemma frontier_min st : anchored st -> (min_height st <= frontier st)%N.
Proof. apply anchored_min. Qed.

Lemma frontier_highwater st : anchored st -> (frontier st <= high_water st)%N.
Proof. apply anchored_highwater. Qed.

Lemma contiguous_of_frontier st : Underway st -> contiguous_of cfg st = frontier st.
Proof.
  intros [_ _ Hf _]. unfold contiguous_of, frontier, sat_sub in *. lia.
Qed.

Lemma tip_uncached_live now' tc n :
  Honest (net_world n) ->
  exists n', tip_get_uncached now' cfg tc n = (n', Done {| tc_height := tip; tc_fetched := Some now' |})
    /\ Honest (net_world n').
Proof.
  intros Hn. unfold tip_get_uncached. unfold io_bind at 1. cbn [io_pace emit].
  destruct (wu_tip HU _ Hn) as (w' & status & header & v & r & Hp & Ht & Hu & (t & -> & Hx) & Hw).
  unfold upstream_block_number, io_bind, io_post. cbn [net_world]. rewrite Hp.
  assert (Hs : (s ← get_str "result" v; u64_from_hex (trim_start_0x s)) = Some tip).
  { unfold usable_result in Hu. unfold get_str. destruct (get "result" v) as [x|]; [|done].
    destruct (is_null x); [done|]. by injection Hu as ->. }
  cbn [io_ret]. rewrite Hs. eexists. by split.
Qed.

(** The tip a pass works with: a cached one only while there is work below it. *)
Lemma poll_live now now' tc contiguous hw n :
  Honest (net_world n) -> (tc_height tc <= top)%N ->
  exists n' tc', (if (contiguous <? N.max hw (tc_height tc))%N then tip_get now now' cfg tc
                  else tip_get_uncached now' cfg tc) n = (n', Done tc')
    /\ Honest (net_world n') /\ (tc_height tc' <= top)%N
    /\ (tc_height tc' = tip \/ (contiguous < N.max hw (tc_height tc'))%N).
Proof.
  intros Hn Htc. destruct (tip_uncached_live now' tc n Hn) as (n' & E & Hn').
  pose proof (wu_top HU). unfold tip_get.
  destruct (N.ltb_spec contiguous (N.max hw (tc_height tc))) as [Hlt|Hge].
  - destruct (tc_fetched tc) as [at_|]; [destruct (now - at_ <? TIP_TTL)%N|].
    + exists n, tc. eauto 6.
    + rewrite E. eexists _, _. cbn. eauto 6.
    + rewrite E. eexists _, _. cbn. eauto 6.
  - rewrite E. eexists _, _. cbn. eauto 6.
Qed.

(** What a fetch finds already there is really there. *)
Definition snap_ok (snap : N -> Storage) (st : Storage) : Prop :=
  forall h el, get_by_height (snap h) h = Ok (Some el) -> exists b, stored st h = Ok (Some b).

Lemma snap_ok_now st : snap_ok (fun _ => st) st.
Proof.
  intros h el. unfold get_by_height. destruct (stored_get_element st h BLOCK) as [->|(e & _ & ->)]; [|done].
  destruct (stored st h) as [[b|]|]; cbn; [eauto|done..].
Qed.

(** One pass: it completes, and the frontier moves or is at the tip. *)
Lemma pass_progress snap now now' clock s s' p :
  Inv s -> snap_ok snap (run_storage s.1.1) -> backfill_pass cfg snap now now' clock s = (s', p) ->
  Inv s' /\ (frontier (run_storage s.1.1) <= frontier (run_storage s'.1.1))%N
  /\ (N.min tip (frontier (run_storage s.1.1) + 1) <= frontier (run_storage s'.1.1))%N
  /\ (p = PassCaughtUp \/ exists from to, p = Filled from to true).
Proof.
  destruct s as [[r tc] count]. cbn [fst snd]. intros [Hu Hn Htc] Hsnap E. cbn [fst snd] in *.
  pose proof (contiguous_of_frontier _ Hu) as Hc. pose proof (frontier_highwater _ (uw_anchored _ Hu)) as Hfh.
  pose proof (wd_top HD _ (uw_good _ Hu)) as Htop. pose proof (frontier_min _ (uw_anchored _ Hu)) as Hmin.
  unfold backfill_pass in E. cbv zeta in E. rewrite Hc in E.
  destruct ((high_water (run_storage r) =? 0)%N && bool_decide (cfg_backfill_floor cfg = None)) eqn:Eg.
  { exfalso. apply andb_true_iff in Eg as [Eg1%N.eqb_eq Eg2%bool_decide_eq_true].
    destruct (uw_started _ Hu) as [|[? Hs]]; [lia|congruence]. }
  destruct (poll_live now now' tc (frontier (run_storage r)) (high_water (run_storage r)) (run_net r) Hn Htc)
    as (n & tc' & Ep & Hn' & Htc' & Hknown). rewrite Ep in E.
  destruct (N.leb_spec (N.max (high_water (run_storage r)) (tc_height tc')) (frontier (run_storage r))) as [Hle|Hgt].
  - destruct (caught_up _ _ _) as [pr line]. injection E as <- <-. cbn [fst snd set_report set_net run_storage run_net].
    split_and!; [by constructor|lia|lia|by left].
  - destruct (observe _ _ _ _ _) as [[pr began] line].
    set (next := sat_add (frontier (run_storage r)) 1) in E.
    set (to := N.min (N.max (high_water (run_storage r)) (tc_height tc')) (sat_add next (sat_sub LOGS_WINDOW 1))) in E.
    assert (Hnext : next = (frontier (run_storage r) + 1)%N).
    { unfold next. apply sat_add_exact. pose proof (wu_range HU). unfold is_u64 in *. lia. }
    assert (Hto : (next <= to <= top)%N).
    { unfold to, sat_add, sat_sub, LOGS_WINDOW. pose proof (wu_range HU) as Hr. unfold is_u64 in Hr. clear -Hnext Hgt Htop Htc' Hr.
      clearbody next. revert Hr. generalize u64_max. intros m Hr. lia. }
    set (r1 := set_report pr _ (set_net n r)) in E.
    destruct (fill_range_live snap clock next to (N.max (high_water (run_storage r)) (tc_height tc')) r1)
      as (r2 & E2 & Hg2 & Hn2); [cbn; lia|lia|apply Hu|apply Hu|done|]. rewrite E2 in E. injection E as <- <-. cbn [fst snd].
    destruct (fill_range_frontier cfg snap clock next to (N.max (high_water (run_storage r)) (tc_height tc')) r1 r2)
      as [Ha2 Hf2]; [lia| | |done|].
    { left. split; [apply Hu|]. cbn. rewrite Hnext. unfold frontier. lia. }
    { intros h el _. by apply Hsnap. }
    pose proof (frontier_highwater _ Ha2) as Hfh2. pose proof (uw_floor _ Hu). unfold frontier in *.
    split_and!; [|lia|lia|right; eauto].
    constructor; cbn [fst snd]; [constructor; [done|done|unfold frontier; lia|left; unfold frontier in *; lia]|done|done].
Qed.

(** A sequence of passes.  Before each, other tasks may have moved the store on:
    it is still under way and its frontier has not gone back. *)
Inductive passes : nat -> State -> State -> Prop :=
  | passes_none s : passes 0 s s
  | passes_more k s r tc count st snap now now' clock s' p :
      passes k s (r, tc, count) ->
      Underway st -> (frontier (run_storage r) <= frontier st)%N -> snap_ok snap st ->
      backfill_pass cfg snap now now' clock (set_run_storage st r, tc, count) = (s', p) ->
      passes (S k) s s'.


End Live.
