(* ===== verification/Serve.v ===== *)
(** * The shared serving surface (src/rpc.rs, src/middleware.rs)

    One chain instance's serving state, the argument parsers every dialect
    uses, and the middleware that turns a [null] result into a 421. *)

From Stdlib Require Import ZArith NArith Lia String Ascii.
From S2P Require Import Prelude Str Json Chain Record Backing Storage Join Codec.

Section Serve.
Context {B : Blockstore} {F : Fjall} {J : JsonLib} {X : HexLib}.

(** The [blocks] channel is the argument of the subscription side. *)
Record ChainServe : Type := {
  cs_chain : Chain;
  cs_storage : Storage;
  cs_data_dir : path;
  cs_identity : string;
  cs_behind_tip : N;
  cs_join : option JoinBuffer;
  cs_ingests_logs : bool
}.

Definition strip_0x (s : string) : string := default s (strip_prefix "0x" s).

Definition parse_hash (hash : string) : result bytes :=
  let? raw := ok_or (hex_decode (strip_0x hash)) EBadHex in
  if (length raw =? 32)%nat then Ok raw else Err EHashLength.

Definition parse_quantity (q : string) : result N :=
  ok_or (u64_from_hex (strip_0x q)) EInvalidQuantity.

(** ** The 421 rewrite *)

Definition is_result_null (b : bytes) : bool :=
  match from_slice b with
  | Some v => match get "result" v with Some Null => true | _ => false end
  | None => false
  end.

Definition MISDIRECTED_REQUEST : N := 421.

(** The response as it leaves [NotFound421]; [body] is [None] when collecting
    it failed. *)
Definition not_found_421 (status : N) (body : option bytes) : N * bytes :=
  match body with
  | None => (status, [])
  | Some b => (if is_result_null b then MISDIRECTED_REQUEST else status, b)
  end.

End Serve.

Section ServeFacts.
Context {J : JsonLib} {X : HexLib} {JL : JsonLaws J} {XL : HexLaws X}.

Lemma parse_hash_roundtrip b :
  length b = 32%nat -> parse_hash ("0x" ++ hex_encode b)%string = Ok b.
Proof.
  intros Hl. unfold parse_hash, strip_0x. rewrite strip_prefix_app. cbn [from_option id].
  rewrite hex_decode_encode. cbn [ok_or result_bind]. by rewrite Hl.
Qed.

Lemma parse_quantity_roundtrip n : is_u64 n -> parse_quantity (hex_quantity n) = Ok n.
Proof.
  intros Hn. unfold parse_quantity, strip_0x, hex_quantity. rewrite strip_prefix_app. cbn [from_option id].
  by rewrite u64_from_to_hex.
Qed.

(** A JSON-RPC response is re-addressed exactly when it has nothing to say.
    The body is passed on byte for byte; a success envelope whose result is
    [null] becomes a 421 so that a front end retries elsewhere, and an envelope
    with any other result, an error envelope, a batch and a body that is not
    JSON keep their status. *)
Theorem misdirected_iff_null_result v b status :
  json_wf v = true -> to_vec v = Some b -> status <> MISDIRECTED_REQUEST ->
  (not_found_421 status (Some b)).2 = b /\
  ((not_found_421 status (Some b)).1 = MISDIRECTED_REQUEST <->
   exists fields, v = VObject fields /\ fields_get "result" fields = Some Null) /\
  ((not_found_421 status (Some b)).1 <> MISDIRECTED_REQUEST -> (not_found_421 status (Some b)).1 = status).
Proof.
  intros Hwf Hv Hs. cbn. split; [done|]. unfold is_result_null. rewrite (from_to_vec v b Hwf Hv).
  destruct v as [| | | | |fields]; cbn [get]; try (split; [split; [done|by intros (? & ? & _)]|done]).
  destruct (fields_get "result" fields) as [[]|] eqn:E;
    (split; [|done]); (split; [intros Heq; eauto; done|]); intros (f & [= <-] & Hf); congruence.
Qed.

End ServeFacts.
