(* ===== verification/Health.v ===== *)
(** * The health report and its reader (src/health.rs)

    The report a neve serves at [/health], as the JSON value a client parses,
    and [upstream_blocks_field], which a mirror reads it with.  The directory
    trees it sizes, the memory figures and the build facts come from the host
    ([HostInfo]). *)

From Stdlib Require Import ZArith NArith Lia String Ascii.
From S2P Require Import Prelude Str Json Chain Record Backing Storage Join Codec Float64 Serve.

(** ** The size of a directory *)

(** What the walk meets: a directory, with what [read_dir] gives for it - an
    error, or its entries, any of which may fail on its own; a regular file,
    with its length where its metadata can be read; anything else (a symbolic
    link is not followed); and an entry whose type cannot be read. *)
Inductive Node : Type :=
| Directory (entries : option (list (option Node)))
| RegularFile (len : option N)
| Special
| Untyped.

(** One entry's share of the sum. *)
Fixpoint node_size (n : Node) : N :=
  match n with
  | Directory (Some es) =>
      foldl (fun total e => match e with
                            | Some n => match n with
                                        | Directory _ => sat_add total (node_size n)
                                        | RegularFile (Some len) => sat_add total len
                                        | RegularFile None | Special | Untyped => total
                                        end
                            | None => total
                            end) 0%N es
  | _ => 0%N
  end.

Definition sum_dir (read : option (list (option Node))) : N := node_size (Directory read).

(** The blocking walk runs to its end: [unwrap_or(0)] is for a walk that panics. *)
Definition dir_size (fs : path -> option (list (option Node))) (dir : path) : N := sum_dir (fs dir).

(** What the report takes from the process and the file system: [hi_fs] is what
    lies under a path, [None] where it cannot be read as a directory;
    [hi_memory] the resident and virtual sizes, where the platform has them. *)
Record HostInfo : Type := {
  hi_version : string;
  hi_commit : string;
  hi_uptime_secs : N;
  hi_format_duration : N -> string;
  hi_memory : option (N * N);
  hi_fs : path -> option (list (option Node));
  hi_human_bytes : f64 -> string;
  hi_display : path -> string
}.

Definition human (hi : HostInfo) (bytes : N) : string := hi_human_bytes hi (f64_of_N bytes).

Definition number (n : N) : Value := VNumber (PosInt n).
Definition opt_number (o : option N) : Value := match o with Some n => number n | None => Null end.
Definition opt_string (o : option string) : Value := match o with Some s => VString s | None => Null end.

Record BlocksReport : Type := {
  br_min_height : option N;
  br_max_contiguous_height : option N;
  br_high_water : option N;
  br_behind : N
}.

Definition blocks_default : BlocksReport :=
  {| br_min_height := None; br_max_contiguous_height := None; br_high_water := None; br_behind := 0 |}.

Record StorageReport : Type := {
  sr_data_dir : string;
  sr_blockdb_bytes : N; sr_blockdb_human : string;
  sr_index_bytes : N; sr_index_human : string;
  sr_total_bytes : N; sr_total_human : string
}.

Definition storage_default : StorageReport :=
  {| sr_data_dir := EmptyString; sr_blockdb_bytes := 0; sr_blockdb_human := EmptyString;
     sr_index_bytes := 0; sr_index_human := EmptyString;
     sr_total_bytes := 0; sr_total_human := EmptyString |}.

Record ChainReport : Type := {
  cr_network : string; cr_blocks : BlocksReport; cr_storage : StorageReport
}.

Record MemoryReport : Type := {
  mr_physical_bytes : option N; mr_physical_human : option string;
  mr_virtual_bytes : option N; mr_virtual_human : option string
}.

Record HealthReport : Type := {
  hr_status : string; hr_version : string; hr_commit : string;
  hr_uptime_secs : N; hr_uptime : string;
  hr_default_chain : string; hr_chain_id : option N;
  hr_blocks : BlocksReport; hr_storage : StorageReport;
  hr_chains : list (string * ChainReport);
  hr_memory : MemoryReport
}.

(** How the derived [Serialize] renders them, keys in order. *)
Definition blocks_value (b : BlocksReport) : Value :=
  VObject [("behind", number (br_behind b)); ("high_water", opt_number (br_high_water b));
           ("max_contiguous_height", opt_number (br_max_contiguous_height b));
           ("min_height", opt_number (br_min_height b))].

Definition storage_value (s : StorageReport) : Value :=
  VObject [("blockdb_bytes", number (sr_blockdb_bytes s)); ("blockdb_human", VString (sr_blockdb_human s));
           ("data_dir", VString (sr_data_dir s));
           ("index_bytes", number (sr_index_bytes s)); ("index_human", VString (sr_index_human s));
           ("total_bytes", number (sr_total_bytes s)); ("total_human", VString (sr_total_human s))].

Definition chain_value (c : ChainReport) : Value :=
  VObject [("blocks", blocks_value (cr_blocks c)); ("network", VString (cr_network c));
           ("storage", storage_value (cr_storage c))].

Definition memory_value (m : MemoryReport) : Value :=
  VObject [("physical_bytes", opt_number (mr_physical_bytes m));
           ("physical_human", opt_string (mr_physical_human m));
           ("virtual_bytes", opt_number (mr_virtual_bytes m));
           ("virtual_human", opt_string (mr_virtual_human m))].

Definition report_value (r : HealthReport) : Value :=
  VObject [("blocks", blocks_value (hr_blocks r)); ("chain_id", opt_number (hr_chain_id r));
           ("chains", VObject (map (fun kv => (kv.1, chain_value kv.2)) (hr_chains r)));
           ("commit", VString (hr_commit r)); ("default_chain", VString (hr_default_chain r));
           ("memory", memory_value (hr_memory r)); ("status", VString (hr_status r));
           ("storage", storage_value (hr_storage r));
           ("uptime", VString (hr_uptime r)); ("uptime_secs", number (hr_uptime_secs r));
           ("version", VString (hr_version r))].

Definition memory_report (hi : HostInfo) : MemoryReport :=
  {| mr_physical_bytes := fst <$> hi_memory hi;
     mr_physical_human := (fun m => human hi m.1) <$> hi_memory hi;
     mr_virtual_bytes := snd <$> hi_memory hi;
     mr_virtual_human := (fun m => human hi m.2) <$> hi_memory hi |}.

(** *** The walk's sum *)

(** Every regular file under a node whose length could be read. *)
Fixpoint files (n : Node) : list N :=
  match n with
  | Directory (Some es) => flat_map (fun e => match e with Some n => files n | None => [] end) es
  | RegularFile (Some len) => [len]
  | _ => []
  end.

Definition total (l : list N) : N := foldr N.add 0%N l.

Lemma total_app l k : total (l ++ k) = (total l + total k)%N.
Proof. induction l as [|x l IH]; cbn; [done|unfold total in *; rewrite IH; lia]. Qed.

(** Induction over the tree, entry by entry. *)
Lemma node_ind' (Q : Node -> Prop) :
  (forall es, Forall (fun e => match e with Some n => Q n | None => True end) es -> Q (Directory (Some es))) ->
  Q (Directory None) -> (forall l, Q (RegularFile l)) -> Q Special -> Q Untyped -> forall n, Q n.
Proof.
  intros Hd He Hf Hs Hu. fix IH 1. intros [[es|]|l| |]; [apply Hd|exact He|apply Hf|exact Hs|exact Hu].
  induction es as [|[n|] es IHes]; constructor; [apply IH|exact IHes|exact I|exact IHes].
Qed.

Definition sums_up (n : Node) : Prop :=
  match n with Directory _ => node_size n = N.min (total (files n)) u64_max | _ => True end.

Lemma node_sums_up n : sums_up n.
Proof.
  induction n as [es Hes| | | |] using node_ind'; try done. unfold sums_up. cbn [node_size files].
  set (step := fun (t : N) (e : option Node) => _).
  enough (H : forall acc, foldl step (N.min acc u64_max) es
    = N.min (acc + total (flat_map (fun e => match e with Some n => files n | None => [] end) es)) u64_max)
    by exact (H 0%N).
  induction Hes as [|e es He _ IH]; intros acc; cbn [foldl flat_map]; [cbn; lia|].
  rewrite total_app, N.add_assoc, <- IH. f_equal. subst step. unfold sat_add.
  destruct e as [[r|[len|]| |]|]; cbn [files] in *; [unfold sums_up in He; rewrite He; cbn [files]|..]; cbn; lia.
Qed.

(** Saturating step by step is saturating once: the sum is the total length of
    the readable regular files under the directory, capped at [u64::MAX] -
    unreadable subdirectories, failing entries and links count nothing. *)
Theorem sum_dir_totals (read : option (list (option Node))) :
  sum_dir read = N.min (total (files (Directory read))) u64_max.
Proof. exact (node_sums_up (Directory read)). Qed.

Section Health.
Context {B : Blockstore} {F : Fjall} {J : JsonLib}.

Definition build_chain_report (hi : HostInfo) (c : ChainServe) : ChainReport :=
  let empty := is_empty (cs_storage c) in
  let present h := if empty then None else Some h in
  let blockdb_bytes := dir_size (hi_fs hi) (join (cs_data_dir c) "blocks") in
  let index_bytes := dir_size (hi_fs hi) (join (cs_data_dir c) "index") in
  let total_bytes := sat_add blockdb_bytes index_bytes in
  {| cr_network := cs_identity c;
     cr_blocks := {| br_min_height := present (min_height (cs_storage c));
                     br_max_contiguous_height := present (max_contiguous_height (cs_storage c));
                     br_high_water := present (high_water (cs_storage c));
                     br_behind := cs_behind_tip c |};
     cr_storage := {| sr_data_dir := hi_display hi (cs_data_dir c);
                      sr_blockdb_bytes := blockdb_bytes; sr_blockdb_human := human hi blockdb_bytes;
                      sr_index_bytes := index_bytes; sr_index_human := human hi index_bytes;
                      sr_total_bytes := total_bytes; sr_total_human := human hi total_bytes |} |}.

(** The default chain: the C-chain when it runs, else the first. *)
Definition default_serve (chains : list ChainServe) : option ChainServe :=
  match List.find (fun c => bool_decide (cs_chain c = C)) chains with
  | Some c => Some c
  | None => head chains
  end.

Definition health_report (hi : HostInfo) (served : list ChainServe) : HealthReport :=
  let chains := foldl (fun m c => btree_insert (Chain.as_str (cs_chain c)) (build_chain_report hi c) m)
                      [] served in
  let dflt := default_serve served in
  let report := dflt ≫= fun c => assoc (Chain.as_str (cs_chain c)) chains in
  {| hr_status := "ok";
     hr_version := hi_version hi;
     hr_commit := hi_commit hi;
     hr_uptime_secs := hi_uptime_secs hi;
     hr_uptime := hi_format_duration hi (hi_uptime_secs hi);
     hr_default_chain := match dflt with Some c => Chain.as_str (cs_chain c) | None => "none"%string end;
     hr_chain_id := dflt ≫= fun c => parse_u64 (cs_identity c);
     hr_blocks := match report with Some r => cr_blocks r | None => blocks_default end;
     hr_storage := match report with Some r => cr_storage r | None => storage_default end;
     hr_chains := chains;
     hr_memory := memory_report hi |}.

(** The body of a healthy answer, as the value it parses to. *)
Definition build_health_response (hi : HostInfo) (served : list ChainServe) : Value :=
  report_value (health_report hi served).

(** ** The reader *)

Definition upstream_blocks_field (v : Value) (chain : Chain) (field : string) : option N :=
  let per_chain := pointer ["chains"; Chain.as_str chain; "blocks"; field]%string v ≫= as_u64 in
  if bool_decide (is_Some per_chain) then per_chain
  else if decide (chain <> C) then None
  else pointer ["blocks"; field]%string v ≫= as_u64.

(** ** The two agree *)

(** The fields a mirror's cold start reads. *)
Definition blocks_field (field : string) (b : BlocksReport) : option N :=
  if String.eqb field "min_height" then br_min_height b
  else if String.eqb field "max_contiguous_height" then br_max_contiguous_height b
  else if String.eqb field "high_water" then br_high_water b
  else None.

Definition probed : list string := ["min_height"; "max_contiguous_height"; "high_water"]%string.

Lemma blocks_value_field field b :
  field ∈ probed -> get field (blocks_value b) ≫= as_u64 = blocks_field field b.
Proof.
  unfold probed. intros Hf. repeat apply elem_of_cons in Hf as [->|Hf]; [..|by apply not_elem_of_nil in Hf].
  - by destruct b as [[]].
  - by destruct b as [? []].
  - by destruct b as [? ? []].
Qed.

(** The report served for one chain. *)
Definition serves_chain (chain : Chain) (chains : list ChainServe) : option ChainServe :=
  List.find (fun c => bool_decide (cs_chain c = chain)) chains.

(** What a probe for [chain] finds in a report: the blocks of that chain, or,
    for the C-chain only, those of the default chain when it is not served. *)
Definition probe_target (chain : Chain) (chains : list ChainServe) : option ChainServe :=
  match serves_chain chain chains with
  | Some c => Some c
  | None => if decide (chain = C) then default_serve chains else None
  end.

Lemma served_cases (served : list ChainServe) :
  NoDup (cs_chain <$> served) ->
  served = [] \/ (exists c, served = [c]) \/
  (exists c d, served = [c; d] /\ cs_chain c <> cs_chain d).
Proof.
  destruct served as [|c [|d [|e served]]]; [by left|right; left; eauto| |]; cbn; intros Hnd.
  - right; right. exists c, d. split; [done|]. apply NoDup_cons in Hnd as [Hn _]. intros E. apply Hn.
    rewrite E. apply elem_of_cons. by left.
  - exfalso. rewrite !NoDup_cons, !not_elem_of_cons in Hnd. destruct Hnd as ((H1 & H2 & _) & (H3 & _) & _).
    by destruct (cs_chain c), (cs_chain d), (cs_chain e).
Qed.

Lemma pointer_chain hi served chain field :
  NoDup (cs_chain <$> served) ->
  pointer ["chains"; Chain.as_str chain; "blocks"; field]%string (build_health_response hi served) =
  (serves_chain chain served ≫= fun c => pointer [field] (blocks_value (cr_blocks (build_chain_report hi c)))).
Proof.
  intros Hnd. destruct (served_cases served Hnd) as [->|[(c & ->)|(c & d & -> & Hne)]];
    [by destruct chain| |];
    destruct c as [[] ? ? ? ? ? ?]; try (destruct d as [[] ? ? ? ? ? ?]);
    destruct chain; done || reflexivity.
Qed.

Lemma pointer_default hi served field :
  NoDup (cs_chain <$> served) ->
  pointer ["blocks"; field]%string (build_health_response hi served) =
  pointer [field] (blocks_value (match default_serve served with
                                 | Some c => cr_blocks (build_chain_report hi c)
                                 | None => blocks_default
                                 end)).
Proof.
  intros Hnd. pose proof (served_cases served Hnd) as Hc.
  destruct Hc as [->|[(c & ->)|(c & d & -> & Hne)]]; [reflexivity| |];
    destruct c as [[] ? ? ? ? ? ?]; try (destruct d as [[] ? ? ? ? ? ?]); done || reflexivity.
Qed.

Lemma upstream_blocks_field_report hi served chain field :
  NoDup (cs_chain <$> served) -> field ∈ probed ->
  upstream_blocks_field (build_health_response hi served) chain field =
  (probe_target chain served ≫= fun c => blocks_field field (cr_blocks (build_chain_report hi c))).
Proof.
  intros Hnd Hf. unfold upstream_blocks_field. rewrite pointer_chain, pointer_default by done.
  unfold probe_target. cbn [pointer].
  assert (Hb : forall b, (get field (blocks_value b) ≫= fun v => Some v) ≫= as_u64 = blocks_field field b).
  { intros b. rewrite <- (blocks_value_field field b Hf). by destruct (get field (blocks_value b)). }
  destruct (serves_chain chain served) as [c|] eqn:Es; cbn [mbind option_bind]; rewrite ?Hb.
  - destruct (blocks_field field (cr_blocks (build_chain_report hi c))) as [n|] eqn:En.
    { by rewrite bool_decide_true by eauto. }
    rewrite bool_decide_false by (intros [? ?]; done). case_decide as Hd; [done|].
    subst chain.
    unfold default_serve. fold (serves_chain C served). rewrite Es, En. done.
  - rewrite bool_decide_false by (intros [? ?]; done). case_decide as Hd.
    { by rewrite decide_False. }
    subst chain.
    rewrite decide_True by done. destruct (default_serve served) as [c|]; [done|].
    unfold probed in Hf. repeat apply elem_of_cons in Hf as [->|Hf]; [done..|by apply not_elem_of_nil in Hf].
Qed.

(** A mirror reads back exactly what its upstream reports.  For each chain
    the upstream serves - in whatever order - a probe for a block range field
    returns that chain's own value, and nothing while its store is empty.  For
    a chain it does not serve, a P-chain probe returns nothing; a C-chain probe
    falls back to the top-level fields, which then describe the default
    chain. *)
Theorem health_probe_reads_back hi served chain field :
  NoDup (cs_chain <$> served) -> field ∈ probed ->
  upstream_blocks_field (build_health_response hi served) chain field =
  (probe_target chain served ≫= fun c => blocks_field field (cr_blocks (build_chain_report hi c))).
Proof. apply upstream_blocks_field_report. Qed.

End Health.
