(* ===== verification/Support.v ===== *)
(** * The build script and the test fixtures (build.rs, src/test_support.rs)

    The commit stamped into the binary, and the stand-ins the test suite runs
    the code against: a block for any height of either chain, an instance over a
    fresh store, a directory no other test has, and an upstream that answers the
    methods it is given. *)

From Stdlib Require Import ZArith NArith Lia String Ascii.
From S2P Require Import Prelude Str Json Chain Record Backing Storage StorageSpec Codec Upstream Http EthFetch Serve.

#[local] Open Scope string_scope.

(** ** The build script *)

(** What [git rev-parse] gave, where it could be run. *)
Record GitOutput : Type := { go_success : bool; go_stdout : bytes }.

Definition git_commit (output : option GitOutput) : string :=
  default "unknown"
    (output ≫= fun out =>
       if go_success out
       then match from_utf8 (go_stdout out) with
            | Ok s => if String.eqb (trim s) "" then None else Some (trim s)
            | Err _ => None
            end
       else None).

(** The files whose change rebuilds: [HEAD], and the ref it names. *)
Definition rerun_if_changed (head : option string) : list string :=
  ".git/HEAD" :: match head ≫= strip_prefix "ref: " with
                 | Some git_ref => [".git/" ++ trim git_ref]
                 | None => []
                 end.

(** [env!] always finds a commit: the script never stamps an empty one. *)
Lemma git_commit_nonempty output : git_commit output <> "".
Proof.
  unfold git_commit. destruct output as [[[] out]|]; [|done..]. cbn.
  destruct (from_utf8 out) as [s|]; [|done]. by destruct (String.eqb_spec (trim s) "").
Qed.

(** ** Fixtures *)

Definition C_IDENTITY : string := "43114".
Definition identity_for (c : Chain) : string := match c with C => C_IDENTITY | P => "test-genesis-id" end.

(** The process-wide counter, and the name a call gives; [now] is the clock in
    nanoseconds. *)
Definition unique_temp_dir (temp_dir : path) (pid now : N) (prefix : string) (counter : N) : N * path :=
  (((counter + 1) mod 2 ^ 64)%N,
   join temp_dir ("neve-" ++ prefix ++ "-" ++ to_decimal pid ++ "-" ++ to_decimal now ++ "-" ++ to_decimal counter)).

(** [{height:064x}] *)
Fixpoint zeros (n : nat) (s : string) : string := match n with O => s | S n => String "0" (zeros n s) end.
Definition hex_064 (n : N) : string := zeros (64 - String.length (to_hex n)) (to_hex n).

(** [height.to_be_bytes()] in the last eight of 32 bytes *)
Definition test_hash (height : N) : bytes :=
  (replicate 24 (byte_of_N 0) ++ reverse (to_le_bytes 8 height))%list.

Definition test_block (c : Chain) (height : N) : Value :=
  match c with
  | C => VObject [("hash", VString ("0x" ++ hex_064 height)); ("number", VString (hex_quantity height));
                  ("transactions", VArray [])]
  | P => VObject [("height", VNumber (PosInt height)); ("id", VString ("block-" ++ to_decimal height));
                  ("time", VNumber (PosInt ((1780000000 + height) mod 2 ^ 64))); ("txs", VArray [])]
  end.

(** The stub of a P-chain block's bytes: the JSON string 0x00. *)
Definition stub_bytes : bytes := map byte_of_N [34; 48; 120; 48; 48; 34]%N.

Definition test_derived (c : Chain) : list bytes :=
  match c with C => [EMPTY_ARRAY] | P => [stub_bytes; EMPTY_ARRAY] end.

Section Fixtures.
Context {B : Blockstore} {F : Fjall} {J : JsonLib}.

(** An error is a failed test. *)
Definition put_test_block (height : N) : M Storage unit := fun st =>
  match to_vec (test_block (st_chain st) height) with
  | Some block_bytes => put height (test_hash height) [] (block_bytes :: test_derived (st_chain st)) st
  | None => (st, Err EUnserializable)
  end.

(** [disk] is what lies at the instance's directory; [None] is a store that does
    not open. *)
Definition chain_serve (c : Chain) (base : path) (disk : Disk) : Disk * option ChainServe :=
  match open c (identity_for c) None disk with
  | (disk, Ok storage) =>
      (disk, Some {| cs_chain := c; cs_storage := storage; cs_data_dir := data_dir c base;
                     cs_identity := identity_for c; cs_behind_tip := 0; cs_join := None;
                     cs_ingests_logs := false |})
  | (disk, Err _) => (disk, None)
  end.

(** *** The stand-in upstream *)

Definition crlf2 : string := String (ascii_of_N 13) (String (ascii_of_N 10) (String (ascii_of_N 13) (String (ascii_of_N 10) ""))).

(** [text.split(crlf2).nth(1)]: what follows the first blank line, up to the next. *)
Fixpoint until_crlf2 (s : string) : string :=
  match strip_prefix crlf2 s, s with
  | Some _, _ => ""
  | None, String c s => String c (until_crlf2 s)
  | None, EmptyString => ""
  end.

Fixpoint after_crlf2 (s : string) : option string :=
  match strip_prefix crlf2 s, s with
  | Some r, _ => Some (until_crlf2 r)
  | None, String _ s => after_crlf2 s
  | None, EmptyString => None
  end.

Definition mock_payload (responses : list (string * Value)) (method : string) : Value :=
  match assoc method responses with
  | Some result => VObject [("id", VNumber (PosInt 1)); ("jsonrpc", VString "2.0"); ("result", result)]
  | None => VObject [("error", VObject [("code", VNumber (NegInt (-32601)));
                                        ("message", VString ("the method " ++ method ++ " does not exist"))]);
                     ("id", VNumber (PosInt 1)); ("jsonrpc", VString "2.0")]
  end.

(** The method a request read off the socket names. *)
Definition mock_method (request : bytes) : string :=
  let text := bytes_str (from_utf8_lossy request) in
  let body := default "" (after_crlf2 text) in
  default "" (from_slice (str_bytes body) ≫= get_str "method").

(** The answer to it: the head, then the body. *)
Definition mock_head (len : nat) : string :=
  let crlf := String (ascii_of_N 13) (String (ascii_of_N 10) "") in
  "HTTP/1.1 200 OK" ++ crlf ++ "Content-Type: application/json" ++ crlf
    ++ "Content-Length: " ++ to_decimal (N.of_nat len) ++ crlf ++ crlf.

Definition mock_answer (responses : list (string * Value)) (request : bytes) : bytes :=
  let out := default [] (to_vec (mock_payload responses (mock_method request))) in
  (str_bytes (mock_head (length out)) ++ out)%list.

(** ** What the tests rely on *)

(** The two probes of the logs source the tests make: a registered list of
    receipts selects the receipts, and the absent method falls back with the
    text of the public endpoint. *)
Lemma mock_probe responses :
  (forall rs, assoc "eth_getBlockReceipts" responses = Some (VArray rs) ->
     classify_probe (mock_payload responses "eth_getBlockReceipts") = (Receipts, None)) /\
  (assoc "eth_getBlockReceipts" responses = None ->
     classify_probe (mock_payload responses "eth_getBlockReceipts")
     = (GetLogs, Some "the method eth_getBlockReceipts does not exist (code -32601)")).
Proof.
  unfold mock_payload. split; [intros rs ->; reflexivity|intros ->; vm_compute; reflexivity].
Qed.

Section Laws.
Context {BL : BlockstoreLaws B} {FL : FjallLaws F} {JL : JsonLaws J}.

Lemma test_hash_inj h h' : is_u64 h -> is_u64 h' -> test_hash h = test_hash h' -> h = h'.
Proof.
  intros Hh Hh' E. unfold test_hash in E. apply app_inj_1 in E as [_ E]; [|done].
  apply (f_equal reverse) in E. rewrite !reverse_involutive in E.
  rewrite <- (from_to_le_u64 h), <- (from_to_le_u64 h') by done. by rewrite E.
Qed.

(** A fixture block is served: after [put_test_block] the block reads back at
    its height and its hash, each height under its own. *)
Lemma test_block_served height st st' a :
  refines st a -> is_u64 height -> Forall json_text (test_derived (st_chain st)) ->
  put_test_block height st = (st', Ok tt) ->
  exists b, to_vec (test_block (st_chain st) height) = Some b /\
    view (get_element st' height BLOCK) = Ok (Some b) /\
    height_of_hash st' (test_hash height) = Ok (Some height).
Proof.
  intros Hr Hu Hd. unfold put_test_block. destruct (to_vec _) as [b|] eqn:Eb; [|done]. intros Hput.
  apply (put_refines _ _ _ _ _ _ _ Hr Hu) in Hput; [|constructor; [by eapply to_vec_text|done]|cbn; lia].
  exists b. split; [done|]. rewrite (get_element_refines _ _ _ _ Hput), (height_of_hash_refines _ _ _ Hput).
  cbn. by rewrite !lookup_insert_eq.
Qed.

End Laws.
End Fixtures.

(** ** Directories do not collide *)

Lemma contains_char_app c l r : contains_char c (l ++ String c r) = true.
Proof.
  unfold contains_char. induction l as [|a l IH]; cbn; [by rewrite Ascii.eqb_refl|].
  destruct (Ascii.eqb a c); [done|]. by destruct (split_once c (l ++ String c r)) as [[]|].
Qed.

Lemma contains_char_cons c a s : contains_char c (String a s) = Ascii.eqb a c || contains_char c s.
Proof.
  unfold contains_char. cbn. destruct (Ascii.eqb a c); [done|]. by destruct (split_once c s) as [[]|].
Qed.

(** What follows the last separator is unique. *)
Lemma last_piece c x y d d' :
  contains_char c d = false -> contains_char c d' = false ->
  x ++ String c d = y ++ String c d' -> d = d'.
Proof.
  intros Hd Hd'. revert y; induction x as [|a x IH]; intros [|b y]; cbn; intros E.
  - by injection E.
  - injection E as -> ->. by rewrite contains_char_app in Hd.
  - injection E as -> <-. by rewrite contains_char_app in Hd'.
  - injection E as _ E. by apply (IH y).
Qed.

Lemma render_no_dash fuel radix n acc :
  (2 <= radix <= 16)%N -> contains_char "-" acc = false -> contains_char "-" (render fuel radix n acc) = false.
Proof.
  intros Hr. revert n acc; induction fuel as [|fuel IH]; intros n acc Ha; [done|]. cbn [render].
  assert (Hc : contains_char "-" (String (digit_char (n mod radix)) acc) = false).
  { rewrite contains_char_cons, Ha, orb_false_r. pose proof (N.mod_lt n radix ltac:(lia)) as Hlt.
    pose proof (digit_value_char radix (n mod radix) ltac:(lia) Hlt) as Hv.
    destruct (Ascii.eqb_spec (digit_char (n mod radix)) "-") as [E|]; [|done]. by rewrite E in Hv. }
  destruct (_ =? 0)%N; [done|]. by apply IH.
Qed.

Lemma app_assoc_str (a b c : string) : a ++ (b ++ c) = (a ++ b) ++ c.
Proof. induction a as [|x a IH]; cbn; [done|]. by rewrite IH. Qed.

(** Two calls that draw different counters never give the same directory, however
    the clock reads and whatever the prefixes hold. *)
Lemma unique_temp_dirs temp_dir pid now now' prefix prefix' k k' :
  is_u64 k -> is_u64 k' -> k <> k' ->
  (unique_temp_dir temp_dir pid now prefix k).2 <> (unique_temp_dir temp_dir pid now' prefix' k').2.
Proof.
  intros Hk Hk' Hne E. apply Hne. cbn [snd unique_temp_dir] in E. unfold join in E.
  apply app_inj_tail in E as [_ E].
  assert (Hd : to_decimal k = to_decimal k').
  { change ("-" ++ to_decimal k) with (String "-" (to_decimal k)) in E.
    change ("-" ++ to_decimal k') with (String "-" (to_decimal k')) in E. rewrite !app_assoc_str in E.
    revert E. by apply last_piece; apply render_no_dash. }
  apply (f_equal parse_u64) in Hd. rewrite !parse_to_decimal in Hd by done. by injection Hd.
Qed.
