(* ===== verification/EthIngest.v ===== *)
(** * C-chain live ingestion (the session side of src/eth/ingest.rs)

    The WebSocket session: classifying frames, turning a head or a block into a
    durable record - directly, or through the join buffer when logs are
    ingested - announcing it, and the mirror's [oldBlocks] bootstrap.  A socket
    is the list of messages it will deliver; [elapsed i] says whether the idle
    watchdog fires at the [i]-th wait. *)

From Stdlib Require Import ZArith NArith Lia String Ascii.
From S2P Require Import Prelude Str Json Chain Record Backing Storage StorageSpec Join Codec Upstream Http Socket EthFetch Backfill Serve Health Subscribe.

(** ** Frames *)

Inductive WsEvent : Type :=
  | Subscribed
  | NewHead (height : N) (hash : string)
  | NewBlock (height : N) (hash : string) (block : Value).

Definition classify_frame (v : Value) : option WsEvent :=
  if bool_decide (is_Some (get "result" v) /\ is_Some (get "id" v) /\ get "method" v = None)
  then Some Subscribed
  else if decide (get_str "method" v <> Some "eth_subscription"%string) then None
  else
    head ← get "params" v ≫= get "result";
    number_hex ← get_str "number" head;
    hash ← get_str "hash" head;
    height ← u64_from_hex (trim_start_0x number_hex);
    Some (if bool_decide (is_Some (get "transactions" head)) then NewBlock height hash head
          else NewHead height hash).

(** The wait before reconnection [attempt], in milliseconds. *)
Definition reconnect_backoff (attempt : N) : N :=
  N.min (sat_mul 500 (2 ^ N.min attempt 6)) 30000.

(** The attempt counter after a session: reset by a clean end, a saturating
    [u32] otherwise. *)
Definition next_attempt (clean : bool) (attempt : N) : N :=
  if clean then 0%N else N.min (attempt + 1) u32_max.

Section Ingest.
Context {B : Blockstore} {F : Fjall} {J : JsonLib} {X : HexLib} {H : Http} {W : WsLib H}.

(** The next event, skipping frames of no interest.  Each turn consumes at
    least one message, so [S (length msgs)] turns are enough. *)
Fixpoint next_ws_event_loop (fuel : nat) (msgs : list (option Message))
    : option WsEvent * list (option Message) :=
  match fuel with
  | O => (None, msgs)
  | S fuel =>
      match next_frame msgs with
      | (None, _, rest) => (None, rest)
      | (Some v, _, rest) =>
          match classify_frame v with
          | Some e => (Some e, rest)
          | None => next_ws_event_loop fuel rest
          end
      end
  end.

Definition next_ws_event (msgs : list (option Message)) : option WsEvent * list (option Message) :=
  next_ws_event_loop (S (length msgs)) msgs.

(** ** The node *)

(** The upstream, the join buffer over the store (only its store is used when
    logs are not ingested), the updates published, and whether anyone listens. *)
Record Node : Type := {
  nd_net : Net;
  nd_buf : JoinBuffer;
  nd_live : list LiveUpdate;
  nd_receivers : nat;
  nd_aimd : AimdDelay
}.

Definition nd_storage (nd : Node) : Storage := jb_storage (nd_buf nd).

Definition set_nd_net (n : Net) (nd : Node) : Node :=
  {| nd_net := n; nd_buf := nd_buf nd; nd_live := nd_live nd; nd_receivers := nd_receivers nd;
     nd_aimd := nd_aimd nd |}.

Definition set_nd_buf (j : JoinBuffer) (nd : Node) : Node :=
  {| nd_net := nd_net nd; nd_buf := j; nd_live := nd_live nd; nd_receivers := nd_receivers nd;
     nd_aimd := nd_aimd nd |}.

Definition set_nd_aimd (a : AimdDelay) (nd : Node) : Node :=
  {| nd_net := nd_net nd; nd_buf := nd_buf nd; nd_live := nd_live nd; nd_receivers := nd_receivers nd;
     nd_aimd := a |}.

Definition announce_block (block : Value) (nd : Node) : Node :=
  if (0 <? nd_receivers nd)%nat then
    {| nd_net := nd_net nd; nd_buf := nd_buf nd;
       nd_live := nd_live nd ++ [{| lu_block := block; lu_record := None |}];
       nd_receivers := nd_receivers nd; nd_aimd := nd_aimd nd |}
  else nd.

(** ** Persisting a live block *)

(** Log ingestion off. *)
Definition persist_block (height : N) (expected_hash : string) (block : Value) : M Node unit := fun nd =>
  match prepare_block expected_hash block with
  | None => (nd, Ok tt)
  | Some (hash_bytes, tx_hashes, b) =>
      match put height hash_bytes tx_hashes [b; EMPTY_ARRAY] (nd_storage nd) with
      | (st, Err e) => (set_nd_buf (set_storage st (nd_buf nd)) nd, Err e)
      | (st, Ok _) => (announce_block block (set_nd_buf (set_storage st (nd_buf nd)) nd), Ok tt)
      end
  end.

(** Log ingestion on; [t_block] and [t_logs] are the times of the two
    deliveries. *)
Definition persist_block_logs (t_block t_logs : N) (cfg : IngestCfg) (height : N)
    (expected_hash : string) (block : Value) (nd : Node) : Node * fate (result unit) :=
  match prepare_block expected_hash block with
  | None => (nd, Done (Ok tt))
  | Some (hash_bytes, tx_hashes, b) =>
      match on_block t_block height hash_bytes tx_hashes b (nd_buf nd) with
      | (j, Err e) => (set_nd_buf j nd, Done (Err e))
      | (j, Ok Deferred) => (set_nd_buf j nd, Done (Ok tt))
      | (j, Ok _) =>
          let nd := announce_block block (set_nd_buf j nd) in
          match fetch_logs_for_height cfg height (nd_net nd) with
          | (n, ParkedForever) => (set_nd_net n nd, ParkedForever)
          | (n, Done None) => (set_nd_net n nd, Done (Ok tt))
          | (n, Done (Some logs)) =>
              let nd := set_nd_net n nd in
              let logs_bytes := default EMPTY_ARRAY (to_vec logs) in
              match on_logs t_logs height logs_bytes (nd_buf nd) with
              | (j, Err e) => (set_nd_buf j nd, Done (Err e))
              | (j, Ok _) => (set_nd_buf j nd, Done (Ok tt))
              end
          end
      end
  end.

Definition persist_live (join_on : bool) (t_block t_logs : N) (cfg : IngestCfg) (height : N)
    (expected_hash : string) (block : Value) (nd : Node) : Node * fate (result unit) :=
  if join_on then persist_block_logs t_block t_logs cfg height expected_hash block nd
  else let '(nd, r) := persist_block height expected_hash block nd in (nd, Done r).

(** ** A session *)

(** What an event asks to persist; a bare head is fetched first. *)
Definition resolve_event (cfg : IngestCfg) (ev : WsEvent) (nd : Node)
    : Node * fate (option (N * string * Value)) :=
  match ev with
  | Subscribed => (nd, Done None)
  | NewBlock height hash block => (nd, Done (Some (height, hash, block)))
  | NewHead height hash =>
      match fetch_full_block height cfg (Some (nd_aimd nd)) (nd_net nd) with
      | (n, ParkedForever) => (set_nd_net n nd, ParkedForever)
      | (n, Done (block, aimd)) =>
          let nd := set_nd_aimd (default (nd_aimd nd) aimd) (set_nd_net n nd) in
          (nd, Done ((fun b => (height, hash, b)) <$> block))
      end
  end.

(** The loop of [run_session] from its [i]-th wait on. *)
Fixpoint session_loop (fuel : nat) (cfg : IngestCfg) (join_on : bool) (elapsed : nat -> bool)
    (clock : nat -> N) (i : nat) (msgs : list (option Message)) (nd : Node)
    : Node * fate (result unit) :=
  match fuel with
  | O => (nd, Done (Ok tt))
  | S fuel =>
      if elapsed i then (nd, Done (Err EIdleTimeout))
      else match next_ws_event msgs with
      | (None, _) => (nd, Done (Ok tt))
      | (Some ev, msgs) =>
          match resolve_event cfg ev nd with
          | (nd, ParkedForever) => (nd, ParkedForever)
          | (nd, Done None) => session_loop fuel cfg join_on elapsed clock (S i) msgs nd
          | (nd, Done (Some (height, hash, block))) =>
              match persist_live join_on (clock (2 * i)) (clock (2 * i + 1)) cfg height hash block nd with
              | (nd, Done (Ok _)) => session_loop fuel cfg join_on elapsed clock (S i) msgs nd
              | (nd, out) => (nd, out)
              end
          end
      end
  end.

(** Whole blocks when mirroring a neve, headers otherwise. *)
Definition subscribe_request (cfg : IngestCfg) : Value :=
  rpc_body "eth_subscribe" (VArray [VString (if cfg_subscribe_blocks cfg then "newBlocks" else "newHeads")]).

Definition connect_and_subscribe (cfg : IngestCfg) : IO (result (list (option Message))) :=
  open_stream cfg (subscribe_request cfg).

Definition run_session (cfg : IngestCfg) (join_on : bool) (elapsed : nat -> bool) (clock : nat -> N)
    (nd : Node) : Node * fate (result unit) :=
  match connect_and_subscribe cfg (nd_net nd) with
  | (n, ParkedForever) => (set_nd_net n nd, ParkedForever)
  | (n, Done (Err e)) => (set_nd_net n nd, Done (Err e))
  | (n, Done (Ok msgs)) =>
      session_loop (S (length msgs)) cfg join_on elapsed clock 0 msgs (set_nd_net n nd)
  end.

(** ** The mirror's bootstrap *)

Definition fetch_upstream_contiguous (base : string) : IO (result N) :=
  let* resp := io_get (trim_end_slash base ++ "/health")%string in
  io_ret match resp with
         | SendError => Err EHttp
         | Response status _ json =>
             if negb (is_success status) then Err (EHttpStatus status)
             else match json with
                  | None => Err EHttp
                  | Some v => ok_or (upstream_blocks_field v C "max_contiguous_height") EMissingResult
                  end
         end.

Fixpoint bootstrap_loop (fuel : nat) (elapsed : nat -> bool) (i : nat) (target : N)
    (msgs : list (option Message)) : M Storage unit :=
  match fuel with
  | O => fail EStreamEnded
  | S fuel => fun st =>
      if elapsed i then (st, Err EIdleTimeout)
      else match next_ws_event msgs with
      | (None, _) => (st, Err EStreamEnded)
      | (Some (NewBlock height _ block), msgs) =>
          match persist_backfilled height block EMPTY_ARRAY st with
          | (st, Err e) => (st, Err e)
          | (st, Ok _) =>
              if (target <=? height)%N then (st, Ok tt)
              else bootstrap_loop fuel elapsed (S i) target msgs st
          end
      | (Some _, msgs) => bootstrap_loop fuel elapsed (S i) target msgs st
      end
  end.

(** The range asked for: from the first height lacked to the upstream's
    contiguous tip. *)
Definition bootstrap_from (cfg : IngestCfg) (st : Storage) : N :=
  N.max (default 0%N (cfg_backfill_floor cfg)) (sat_add (max_contiguous_height st) 1).

Definition oldblocks_request (from target : N) : Value :=
  rpc_body "eth_subscribe"
    (VArray [VString "oldBlocks"; VString (hex_quantity from); VString (hex_quantity target)]).

Definition bootstrap_via_oldblocks (cfg : IngestCfg) (elapsed : nat -> bool) (s : Storage * Net)
    : (Storage * Net) * fate (result unit) :=
  let '(st, n) := s in
  let from := bootstrap_from cfg st in
  match fetch_upstream_contiguous (cfg_rpc_url cfg) n with
  | (n, ParkedForever) => ((st, n), ParkedForever)
  | (n, Done (Err e)) => ((st, n), Done (Err e))
  | (n, Done (Ok target)) =>
      if (target <? from)%N then ((st, n), Done (Ok tt))
      else match open_stream cfg (oldblocks_request from target) n with
           | (n, ParkedForever) => ((st, n), ParkedForever)
           | (n, Done (Err e)) => ((st, n), Done (Err e))
           | (n, Done (Ok msgs)) =>
               let '(st, r) := bootstrap_loop (S (length msgs)) elapsed 0 target msgs st in
               ((st, n), Done r)
           end
  end.

(** ** The ingest task *)

(** One turn of the loop of [ingest]: a session, then the attempt counter and the wait, in
    milliseconds, before the next. *)
Definition ingest_turn (cfg : IngestCfg) (join_on : bool) (elapsed : nat -> bool) (clock : nat -> N)
    (attempt : N) (nd : Node) : Node * fate (N * N) :=
  match run_session cfg join_on elapsed clock nd with
  | (nd, ParkedForever) => (nd, ParkedForever)
  | (nd, Done r) =>
      let attempt := next_attempt (match r with Ok _ => true | Err _ => false end) attempt in
      (nd, Done (attempt, reconnect_backoff attempt))
  end.

End Ingest.

(** ** Sockets are read to the end *)

Section Events.
Context {J : JsonLib}.

Lemma next_frame_shorter msgs v pongs rest :
  next_frame msgs = (Some v, pongs, rest) -> (length rest < length msgs)%nat.
Proof.
  revert v pongs rest; induction msgs as [|m msgs IH]; intros v pongs rest; cbn; [done|].
  destruct m as [[t|b|p| |]|]; try done.
  - destruct (from_slice _); [intros [= <- <- <-]; lia|]. intros E. apply IH in E. lia.
  - destruct (from_slice _); [intros [= <- <- <-]; lia|]. intros E. apply IH in E. lia.
  - destruct (next_frame msgs) as [[v0 p0] r0] eqn:E. intros [= -> <- <-].
    specialize (IH _ _ _ eq_refl). lia.
  - intros E. apply IH in E. lia.
Qed.

(** Any number of turns above the number of messages gives the same event. *)
Lemma next_ws_event_fuel f : forall g msgs,
  (length msgs < f)%nat -> (length msgs < g)%nat ->
  next_ws_event_loop f msgs = next_ws_event_loop g msgs.
Proof.
  induction f as [|f IH]; intros g msgs Hf Hg; [lia|]. destruct g as [|g]; [lia|]. cbn [next_ws_event_loop].
  destruct (next_frame msgs) as [[[v|] pongs] rest] eqn:E; [|done].
  destruct (classify_frame v); [done|]. apply next_frame_shorter in E. apply IH; lia.
Qed.

Lemma next_ws_event_shorter msgs e rest :
  next_ws_event msgs = (Some e, rest) -> (length rest < length msgs)%nat.
Proof.
  unfold next_ws_event. generalize (S (length msgs)) as fuel. intros fuel.
  revert msgs; induction fuel as [|fuel IH]; intros msgs; [done|]. cbn [next_ws_event_loop].
  destruct (next_frame msgs) as [[[v|] pongs] r] eqn:E; [|done]. apply next_frame_shorter in E.
  destruct (classify_frame v); [by intros [= _ <-]|]. intros E2. apply IH in E2. lia.
Qed.

End Events.

(** ** What a session writes *)

Section Sessions.
Context {B : Blockstore} {F : Fjall} {J : JsonLib} {X : HexLib} {H : Http} {W : WsLib H}.

(** A block that belongs at height [h]: it says so itself, or the upstream
    returned it when asked for that height. *)
Definition origin (tr : list Effect) (h : N) (block : Value) : Prop :=
  (get_str "number" block ≫= fun s => u64_from_hex (trim_start_0x s)) = Some h \/
  answered tr (block_request h) block.

(** The hash, transactions and bytes are the block's own. *)
Definition live_entry (block : Value) (hash : bytes) (txs : list bytes) (b : bytes) : Prop :=
  decode_hash (default EmptyString (get_str "hash" block)) = Ok hash /\
  txs = extract_tx_hashes block /\ to_vec block = Some b.

Definition session_cmd (tr : list Effect) (c : PutCmd) : Prop :=
  exists block b logs, origin tr (cmd_height c) block /\
    live_entry block (cmd_hash c) (cmd_txs c) b /\ cmd_elements c = [b; logs].

Definition buf_ok (tr : list Effect) (j : JoinBuffer) : Prop :=
  forall h pb, jb_pending j !! h = Some (PBlock pb) ->
    exists block, origin tr h block /\ live_entry block (pb_hash pb) (pb_tx_hashes pb) (pb_bytes pb).

Lemma origin_extends tr tr' h block : extends tr tr' -> origin tr h block -> origin tr' h block.
Proof. intros Hx [|Ha]; [by left|]. right. by eapply answered_extends. Qed.

Lemma session_cmd_extends tr tr' c : extends tr tr' -> session_cmd tr c -> session_cmd tr' c.
Proof. intros Hx (bl & b & l & Ho & Hrest). exists bl, b, l. split; [by eapply origin_extends|done]. Qed.

Lemma buf_ok_extends tr tr' j : extends tr tr' -> buf_ok tr j -> buf_ok tr' j.
Proof.
  intros Hx Hj h pb Hp. destruct (Hj h pb Hp) as (bl & Ho & He). exists bl.
  split; [by eapply origin_extends|done].
Qed.

Lemma prepare_block_ok e block hash txs b :
  prepare_block e block = Some (hash, txs, b) -> live_entry block hash txs b.
Proof.
  unfold prepare_block, live_entry. case_decide as Hd; [done|].
  destruct (decode_hash e) as [h|] eqn:E; [|done]. destruct (to_vec block); [|done].
  intros [= <- <- <-]. by rewrite Hd.
Qed.

(** The store and buffer of a node move soundly. *)
Definition sound_step (tr : list Effect) (j j' : JoinBuffer) (ok : bool) : Prop :=
  buf_ok tr j' /\ exists res, evolves (session_cmd tr) (jb_storage j) (jb_storage j') res /\
    (ok = true -> res = Ok tt).

Lemma sound_same tr j j' ok : jb_storage j' = jb_storage j -> buf_ok tr j' -> sound_step tr j j' ok.
Proof. intros Hs Hj. split; [done|]. exists (Ok tt). rewrite Hs. split; [apply evolves_refl|done]. Qed.

Lemma buf_ok_empty tr j : buf_ok tr (set_pending ∅ j).
Proof. intros h pb. cbn. by rewrite lookup_empty. Qed.

Lemma sound_trans tr j j1 j2 ok :
  sound_step tr j j1 true -> sound_step tr j1 j2 ok -> sound_step tr j j2 ok.
Proof.
  intros (_ & r1 & E1 & H1) (Hj & r2 & E2 & H2). split; [done|]. exists r2. split; [|done].
  rewrite H1 in E1 by done. by eapply evolves_trans.
Qed.

Lemma sound_extends tr tr' j j' ok : extends tr tr' -> sound_step tr j j' ok -> sound_step tr' j j' ok.
Proof.
  intros Hx (Hj & r & (cs & Hcs & E) & Hr). split; [by eapply buf_ok_extends|]. exists r. split; [|done].
  exists cs. split; [|done]. eapply Forall_impl; [exact Hcs|]. intros c. by apply session_cmd_extends.
Qed.

(** One write of a consistent entry. *)
Lemma apply_sound tr h hash txs b l half since block j j' r :
  origin tr h block -> live_entry block hash txs b -> buf_ok tr j ->
  apply h (AWrite hash txs b l half since) j = (j', r) -> sound_step tr j j' (is_ok r).
Proof.
  intros Ho He Hj. cbn [apply].
  destruct (put h hash txs [b; l] (jb_storage j)) as [st rp] eqn:Ep. intros [= <- <-].
  split; [exact Hj|]. exists rp. split; [|by destruct rp as [[]|]].
  eapply (evolves_one _ {| cmd_height := h; cmd_hash := hash; cmd_txs := txs; cmd_elements := [b; l] |});
    [|exact Ep]. by exists block, b, l.
Qed.

Lemma on_block_sound tr t h hash txs b block j j' r :
  origin tr h block -> live_entry block hash txs b -> buf_ok tr j ->
  on_block t h hash txs b j = (j', r) -> sound_step tr j j' (is_ok r).
Proof.
  intros Ho He Hj. unfold on_block, on_block_act.
  assert (Hdel : buf_ok tr (set_pending (delete h (jb_pending j)) j)).
  { intros h' pb. cbn. rewrite lookup_delete_Some. intros [_ Hp]. by apply Hj. }
  assert (Hins : forall since, buf_ok tr (set_pending (<[h := PBlock {| pb_hash := hash;
     pb_tx_hashes := txs; pb_bytes := b; pb_since := since |}]> (delete h (jb_pending j))) j)).
  { intros since h' pb. cbn. rewrite lookup_insert_Some. intros [[<- [= <-]]|[_ Hp]]; [by exists block|].
    by apply Hdel. }
  destruct (jb_pending j !! h) as [[prev|logs]|] eqn:E.
  - intros [= <- <-]. apply sound_same; [done|apply Hins].
  - intros Ha. exact (apply_sound tr h hash txs b _ _ _ block _ _ _ Ho He Hdel Ha).
  - destruct (_ <=? _)%nat; intros [= <- <-]; apply sound_same; [done|apply buf_ok_empty|done|apply Hins].
Qed.

Lemma on_logs_sound tr t h l j j' r :
  buf_ok tr j -> on_logs t h l j = (j', r) -> sound_step tr j j' (is_ok r).
Proof.
  intros Hj. unfold on_logs, on_logs_act.
  assert (Hdel : buf_ok tr (set_pending (delete h (jb_pending j)) j)).
  { intros h' pb. cbn. rewrite lookup_delete_Some. intros [_ Hp]. by apply Hj. }
  assert (Hins : forall pl, buf_ok tr (set_pending (<[h := PLogs pl]> (delete h (jb_pending j))) j)).
  { intros pl h' pb. cbn. rewrite lookup_insert_Some. intros [[_ [=]]|[_ Hp]]. by apply Hdel. }
  destruct (jb_pending j !! h) as [[pb|prev]|] eqn:E.
  - destruct (Hj h pb E) as (block & Ho & He). intros Ha.
    exact (apply_sound tr h _ _ _ _ _ _ block _ _ _ Ho He Hdel Ha).
  - intros [= <- <-]. apply sound_same; [done|apply Hins].
  - destruct (_ <=? _)%nat; intros [= <- <-]; apply sound_same; [done|apply buf_ok_empty|done|apply Hins].
Qed.

Definition trace (nd : Node) : list Effect := net_trace (nd_net nd).

Definition succeeded (out : fate (result unit)) : bool :=
  match out with Done (Ok _) => true | _ => false end.

Lemma announce_block_keeps block nd :
  nd_net (announce_block block nd) = nd_net nd /\ nd_buf (announce_block block nd) = nd_buf nd /\
  nd_aimd (announce_block block nd) = nd_aimd nd.
Proof. unfold announce_block. by destruct (0 <? nd_receivers nd)%nat. Qed.

Lemma grows_fetch_logs_for_height cfg h : grows (fetch_logs_for_height cfg h).
Proof.
  unfold fetch_logs_for_height, fetch_block_receipts, fetch_logs.
  destruct (cfg_logs_source cfg); auto with neve.
Qed.

Lemma persist_block_sound height e block nd nd' r :
  origin (trace nd) height block -> buf_ok (trace nd) (nd_buf nd) ->
  persist_block height e block nd = (nd', r) ->
  trace nd' = trace nd /\ sound_step (trace nd) (nd_buf nd) (nd_buf nd') (is_ok r).
Proof.
  intros Ho Hj. unfold persist_block.
  destruct (prepare_block e block) as [[[hash txs] b]|] eqn:Ep; [|intros [= <- <-]; split; [done|by apply sound_same]].
  apply prepare_block_ok in Ep.
  pose proof (apply_sound (trace nd) height hash txs b EMPTY_ARRAY HBlock 0 block (nd_buf nd)) as Ha.
  cbn [apply] in Ha. fold (nd_storage nd) in Ha.
  destruct (put height hash txs [b; EMPTY_ARRAY] (nd_storage nd)) as [st [[]|e']] eqn:E;
    intros [= <- <-]; specialize (Ha _ _ Ho Ep Hj eq_refl).
  - destruct (announce_block_keeps block (set_nd_buf (set_storage st (nd_buf nd)) nd)) as (Hn & Hb & _).
    unfold trace. rewrite Hn, Hb. by split.
  - by split.
Qed.

Lemma persist_block_logs_sound t1 t2 cfg height e block nd nd' out :
  origin (trace nd) height block -> buf_ok (trace nd) (nd_buf nd) ->
  persist_block_logs t1 t2 cfg height e block nd = (nd', out) ->
  extends (trace nd) (trace nd') /\
  sound_step (trace nd') (nd_buf nd) (nd_buf nd') (succeeded out).
Proof.
  intros Ho Hj. unfold persist_block_logs.
  destruct (prepare_block e block) as [[[hash txs] b]|] eqn:Ep;
    [|intros [= <- <-]; split; [apply extends_refl|by apply sound_same]].
  apply prepare_block_ok in Ep.
  destruct (on_block t1 height hash txs b (nd_buf nd)) as [j r] eqn:Eb.
  pose proof (on_block_sound (trace nd) _ _ _ _ _ block _ _ _ Ho Ep Hj Eb) as Hs.
  destruct (announce_block_keeps block (set_nd_buf j nd)) as (Hn & Hb & _).
  set (nd1 := announce_block block (set_nd_buf j nd)) in *.
  assert (Hlogs : is_ok r = true ->
    match fetch_logs_for_height cfg height (nd_net nd1) with
    | (n, ParkedForever) => (set_nd_net n nd1, ParkedForever)
    | (n, Done None) => (set_nd_net n nd1, Done (Ok tt))
    | (n, Done (Some logs)) =>
        match on_logs t2 height (default EMPTY_ARRAY (to_vec logs)) (nd_buf (set_nd_net n nd1)) with
        | (j, Err e) => (set_nd_buf j (set_nd_net n nd1), Done (Err e))
        | (j, Ok _) => (set_nd_buf j (set_nd_net n nd1), Done (Ok tt))
        end
    end = (nd', out) ->
    extends (trace nd) (trace nd') /\ sound_step (trace nd') (nd_buf nd) (nd_buf nd') (succeeded out)).
  { intros Hok. rewrite Hok in Hs.
    destruct (fetch_logs_for_height cfg height (nd_net nd1)) as [n f] eqn:Ef.
    apply grows_fetch_logs_for_height in Ef. rewrite Hn in Ef. change (extends (trace nd) (net_trace n)) in Ef.
    assert (Hx : sound_step (net_trace n) (nd_buf nd) j true) by (by eapply sound_extends).
    destruct f as [[logs|]|]; [|intros [= <- <-]; split; [exact Ef|]; cbn; rewrite Hb; exact Hx|].
    - destruct (on_logs _ _ _ _) as [j2 r2] eqn:El. cbn in El. rewrite Hb in El.
      apply (on_logs_sound (net_trace n)) in El; [|by destruct Hx].
      destruct r2; intros [= <- <-]; (split; [exact Ef|]); by eapply sound_trans.
    - intros [= <- <-]. split; [exact Ef|]. cbn. rewrite Hb. destruct Hx as (Hbj & res & Hev & _).
      split; [done|]. by exists res. }
  destruct r as [[]|e']; [by apply Hlogs|by apply Hlogs| |]; intros [= <- <-];
    (split; [apply extends_refl|exact Hs]).
Qed.

Lemma persist_live_sound join_on t1 t2 cfg height e block nd nd' out :
  origin (trace nd) height block -> buf_ok (trace nd) (nd_buf nd) ->
  persist_live join_on t1 t2 cfg height e block nd = (nd', out) ->
  extends (trace nd) (trace nd') /\
  sound_step (trace nd') (nd_buf nd) (nd_buf nd') (succeeded out).
Proof.
  unfold persist_live. destruct join_on; [apply persist_block_logs_sound|].
  intros Ho Hj. destruct (persist_block height e block nd) as [nd1 r] eqn:E. intros [= <- <-].
  apply persist_block_sound in E as [Ht Hs]; [|done|done]. rewrite Ht. split; [apply extends_refl|].
  by destruct r.
Qed.

Lemma classify_frame_block v h hash block :
  classify_frame v = Some (NewBlock h hash block) ->
  (get_str "number" block ≫= fun s => u64_from_hex (trim_start_0x s)) = Some h.
Proof.
  unfold classify_frame. destruct (bool_decide _); [done|]. case_decide; [done|].
  destruct (get "params" v ≫= get "result") as [hd|]; [|done]. cbn.
  destruct (get_str "number" hd) as [num|] eqn:En; [|done]. cbn.
  destruct (get_str "hash" hd); [|done]. cbn. destruct (u64_from_hex (trim_start_0x num)) eqn:Eu; [|done]. cbn.
  destruct (bool_decide _); [|done]. intros [= <- <- <-]. by rewrite En.
Qed.

Lemma next_ws_event_classified msgs e rest :
  next_ws_event msgs = (Some e, rest) -> exists v, classify_frame v = Some e.
Proof.
  unfold next_ws_event. generalize (S (length msgs)) as fuel. intros fuel.
  revert msgs; induction fuel as [|fuel IH]; intros msgs; [done|]. cbn [next_ws_event_loop].
  destruct (next_frame msgs) as [[[v|] pongs] r] eqn:E; [|done].
  destruct (classify_frame v) eqn:Ec; [intros [= <- <-]; eauto|apply IH].
Qed.

(** Resolving an event touches neither the store nor the buffer, and yields
    only blocks that belong at their height. *)
Lemma resolve_event_sound cfg ev v nd nd' out :
  classify_frame v = Some ev -> resolve_event cfg ev nd = (nd', out) ->
  extends (trace nd) (trace nd') /\ nd_buf nd' = nd_buf nd /\
  match out with
  | Done (Some (h, _, block)) => origin (trace nd') h block
  | _ => True
  end.
Proof.
  intros Hc. destruct ev as [|h hash|h hash block]; cbn [resolve_event].
  - intros [= <- <-]. split; [apply extends_refl|done].
  - destruct (fetch_full_block h cfg (Some (nd_aimd nd)) (nd_net nd)) as [n f] eqn:Ef.
    pose proof (grows_fetch_rpc _ _ _ _ _ _ _ Ef) as Hg.
    destruct f as [[[block|] a]|]; intros [= <- <-]; (split; [exact Hg|]); (split; [done|]); try done.
    right. by eapply fetch_rpc_answered.
  - intros [= <- <-]. split; [apply extends_refl|]. split; [done|]. left. by eapply classify_frame_block.
Qed.

Lemma session_loop_sound cfg join_on elapsed clock fuel : forall i msgs nd nd' out,
  buf_ok (trace nd) (nd_buf nd) ->
  session_loop fuel cfg join_on elapsed clock i msgs nd = (nd', out) ->
  extends (trace nd) (trace nd') /\ sound_step (trace nd') (nd_buf nd) (nd_buf nd') (succeeded out).
Proof.
  induction fuel as [|fuel IH]; intros i msgs nd nd' out Hj; cbn [session_loop].
  { intros [= <- <-]. split; [apply extends_refl|by apply sound_same]. }
  destruct (elapsed i); [intros [= <- <-]; split; [apply extends_refl|by apply sound_same]|].
  destruct (next_ws_event msgs) as [[ev|] rest] eqn:En;
    [|intros [= <- <-]; split; [apply extends_refl|by apply sound_same]].
  apply next_ws_event_classified in En as [v Hv].
  destruct (resolve_event cfg ev nd) as [nd1 o1] eqn:Er.
  apply (resolve_event_sound cfg ev v) in Er as (Hx1 & Hb1 & Ho); [|done].
  assert (Hj1 : buf_ok (trace nd1) (nd_buf nd1)) by (rewrite Hb1; by eapply buf_ok_extends).
  assert (Hsame : forall ok, sound_step (trace nd1) (nd_buf nd) (nd_buf nd1) ok)
    by (intros ok; apply sound_same; [by rewrite Hb1|done]).
  destruct o1 as [[[[h hash] block]|]|]; [|intros E|intros [= <- <-]; by split].
  - destruct (persist_live _ _ _ _ _ _ _ _) as [nd2 o2] eqn:Ep.
    apply persist_live_sound in Ep as [Hx2 Hs2]; [|done|done].
    assert (H2 : sound_step (trace nd2) (nd_buf nd) (nd_buf nd2) (succeeded o2))
      by (eapply sound_trans; [by eapply sound_extends|done]).
    destruct o2 as [[u|e]|]; [intros E|intros [= <- <-]; split; [by eapply extends_trans|done]..].
    destruct (IH _ _ _ _ _ (proj1 H2) E) as [Hx3 Hs3].
    split; [eapply extends_trans; [by eapply extends_trans|done]|].
    eapply sound_trans; [by eapply sound_extends|done].
  - destruct (IH _ _ _ _ _ Hj1 E) as [Hx3 Hs3]. split; [by eapply extends_trans|].
    eapply sound_trans; [by eapply sound_extends|done].
Qed.

(** C10: whatever a live session receives - forged frames, fork mismatches,
    idle timeouts, failing fetches, failing writes - the store moves only by
    writes of blocks that belong at their height (the block says so itself, or
    it is the upstream's answer for that height), each indexed under its own
    hash and its own transaction hashes, whether it was written directly or
    waited in the join buffer for its logs; and everything left in the buffer
    is again such a block. *)
Theorem session_writes_sound cfg join_on elapsed clock nd nd' out :
  buf_ok (trace nd) (nd_buf nd) ->
  run_session cfg join_on elapsed clock nd = (nd', out) ->
  buf_ok (trace nd') (nd_buf nd') /\
  exists res, evolves (session_cmd (trace nd')) (nd_storage nd) (nd_storage nd') res.
Proof.
  intros Hj. unfold run_session.
  destruct (connect_and_subscribe cfg (nd_net nd)) as [n f] eqn:Ec.
  pose proof (grows_open_stream _ _ _ _ _ Ec) as Hx. change (extends (trace nd) (net_trace n)) in Hx.
  assert (Hj' : buf_ok (trace (set_nd_net n nd)) (nd_buf nd)) by (by eapply buf_ok_extends).
  destruct f as [[msgs|e]|].
  - intros E. apply session_loop_sound in E as (_ & Hb & res & Hev & _); [|done]. eauto.
  - intros [= <- <-]. split; [done|]. exists (Ok tt). apply evolves_refl.
  - intros [= <- <-]. split; [done|]. exists (Ok tt). apply evolves_refl.
Qed.

End Sessions.

(** ** What subscribers hear about can be read *)

Section Announce.
Context {B : Blockstore} {F : Fjall} {J : JsonLib} {X : HexLib} {H : Http}.
Context {BL : BlockstoreLaws B} {FL : FjallLaws F} {JL : JsonLaws J}.

(** The block is served at its height, from the buffer or from the store. *)
Definition servable (nd : Node) (height : N) (b : bytes) : Prop :=
  buffered_block (nd_buf nd) height = Some b \/
  view (get_by_height (nd_storage nd) height) = Ok (Some b).

Lemma put_served h hash txs b l st st' :
  json_text b -> json_text l -> put h hash txs [b; l] st = (st', Ok tt) ->
  view (get_by_height st' h) = Ok (Some b).
Proof.
  intros Hb Hl Hp. pose proof (put_stored _ _ _ _ _ _ Hp) as Hs. unfold get_by_height.
  destruct (stored_get_element st' h BLOCK) as [->|(e & He & _)]; [|congruence].
  rewrite Hs. cbn [result_bind].
  destruct (at_encode [b; l] BLOCK ltac:(cbn; lia) ltac:(by repeat constructor)) as (el & -> & Hd).
  cbn. by rewrite Hd.
Qed.

Lemma apply_completed h hash txs b l half since j j' :
  json_text b -> json_text l -> apply h (AWrite hash txs b l half since) j = (j', Ok Completed) ->
  view (get_by_height (jb_storage j') h) = Ok (Some b).
Proof.
  intros Hb Hl. cbn [apply]. destruct (put h hash txs [b; l] (jb_storage j)) as [st [[]|]] eqn:E; [|done].
  intros [= <-]. by eapply put_served.
Qed.

(** The two ways a delivered block can be held: waiting for its logs, or
    written with them. *)
Lemma on_block_held t h hash txs b j j' o :
  json_text b ->
  (forall pl, jb_pending j !! h = Some (PLogs pl) -> json_text (pl_bytes pl)) ->
  on_block t h hash txs b j = (j', Ok o) -> o <> Deferred ->
  (exists since, jb_pending j' !! h = Some (PBlock {| pb_hash := hash; pb_tx_hashes := txs;
                                                       pb_bytes := b; pb_since := since |})) \/
  (jb_pending j' !! h = None /\ view (get_by_height (jb_storage j') h) = Ok (Some b)).
Proof.
  intros Hb Hpl. unfold on_block, on_block_act.
  destruct (jb_pending j !! h) as [[prev|logs]|] eqn:E.
  - intros [= <- <-] _. left. eexists. cbn. apply lookup_insert_eq.
  - intros Ha Ho. right.
    assert (o = Completed) as -> by (cbn in Ha; destruct (put _ _ _ _ _) as [? [[]|]]; by simplify_eq).
    split; [|by eapply apply_completed; [|by apply Hpl|]].
    cbn in Ha. destruct (put _ _ _ _ _) as [st [[]|]]; simplify_eq. cbn. apply lookup_delete_eq.
  - destruct (_ <=? _)%nat; intros [= <- <-] Ho; [by destruct Ho|]. left. eexists. cbn. apply lookup_insert_eq.
Qed.

Lemma on_logs_held t h l j j' o b :
  json_text l ->
  (exists hash txs since, json_text b /\
     jb_pending j !! h = Some (PBlock {| pb_hash := hash; pb_tx_hashes := txs; pb_bytes := b; pb_since := since |})) \/
  (jb_pending j !! h = None /\ view (get_by_height (jb_storage j) h) = Ok (Some b)) ->
  on_logs t h l j = (j', Ok o) -> view (get_by_height (jb_storage j') h) = Ok (Some b).
Proof.
  intros Hl Hcase. unfold on_logs, on_logs_act. destruct Hcase as [(hash & txs & since & Hb & ->)|[-> Hv]].
  - intros Ha.
    assert (o = Completed) as -> by (cbn in Ha; destruct (put _ _ _ _ _) as [? [[]|]]; by simplify_eq).
    exact (apply_completed h hash txs b l _ _ _ _ Hb Hl Ha).
  - destruct (_ <=? _)%nat; intros [= <- <-]; exact Hv.
Qed.

(** The message a subscriber gets, if there is one. *)
Definition told (block : Value) (nd : Node) : list LiveUpdate :=
  if (0 <? nd_receivers nd)%nat then [{| lu_block := block; lu_record := None |}] else [].

Lemma announce_live block nd : nd_live (announce_block block nd) = (nd_live nd ++ told block nd)%list.
Proof. unfold announce_block, told. destruct (0 <? nd_receivers nd)%nat; [done|by rewrite app_nil_r]. Qed.

(** The node right after it has taken the block: the write succeeded, or the join
    buffer has it.  [None] when the block is unusable, its write failed or the full
    buffer turned it away. *)
Definition taken (join_on : bool) (t_block height : N) (expected_hash : string) (block : Value) (nd : Node)
    : option Node :=
  match prepare_block expected_hash block with
  | None => None
  | Some (hash, txs, b) =>
      if join_on then
        match on_block t_block height hash txs b (nd_buf nd) with
        | (j, Ok Buffered) | (j, Ok Completed) => Some (set_nd_buf j nd)
        | _ => None
        end
      else match put height hash txs [b; EMPTY_ARRAY] (nd_storage nd) with
           | (st, Ok _) => Some (set_nd_buf (set_storage st (nd_buf nd)) nd)
           | _ => None
           end
  end.

Lemma logs_bytes_text logs : json_text (default EMPTY_ARRAY (to_vec logs)).
Proof. destruct (to_vec logs) eqn:E; [by eapply to_vec_text|apply empty_array_text]. Qed.

Lemma prepare_block_hash e block x : prepare_block e block = Some x -> default EmptyString (get_str "hash" block) = e.
Proof. unfold prepare_block. case_decide; [done|]. by intros _. Qed.

(** What handling a block publishes and leaves behind. *)
Definition tells (join_on : bool) (t_block height : N) (e : string) (block : Value) (b : bytes) (nd nd' : Node)
    (out : fate (result unit)) : Prop :=
  match taken join_on t_block height e block nd with
  | None => nd_live nd' = nd_live nd
  | Some at_ => nd_live nd' = (nd_live nd ++ told block nd)%list /\ servable at_ height b /\
                (out = Done (Ok tt) -> servable nd' height b)
  end.

Lemma persist_block_tells t1 height e block b nd :
  to_vec block = Some b ->
  let '(nd', r) := persist_block height e block nd in
  tells false t1 height e block b nd nd' (Done r) /\ (is_ok r = false -> nd_live nd' = nd_live nd).
Proof.
  intros Hv. unfold persist_block, tells, taken.
  destruct (prepare_block e block) as [[[hash txs] b']|] eqn:Ep; [|done].
  apply prepare_block_ok in Ep as (_ & _ & Hv'). rewrite Hv in Hv'. injection Hv' as <-.
  destruct (put height hash txs [b; EMPTY_ARRAY] (nd_storage nd)) as [st [[]|]] eqn:E; [|done].
  assert (Hs : servable (set_nd_buf (set_storage st (nd_buf nd)) nd) height b).
  { right. eapply put_served; [by eapply to_vec_text|apply empty_array_text|exact E]. }
  split; [|done]. rewrite announce_live. split_and!; [done|done|]. intros _.
  unfold servable, nd_storage in *.
  by destruct (announce_block_keeps block (set_nd_buf (set_storage st (nd_buf nd)) nd)) as (_ & -> & _).
Qed.

Lemma persist_block_logs_tells t1 t2 cfg height e block b nd :
  to_vec block = Some b ->
  (forall pl, jb_pending (nd_buf nd) !! height = Some (PLogs pl) -> json_text (pl_bytes pl)) ->
  let '(nd', out) := persist_block_logs t1 t2 cfg height e block nd in
  tells true t1 height e block b nd nd' out.
Proof.
  intros Hv Hpl. assert (Hb : json_text b) by (by eapply to_vec_text).
  unfold persist_block_logs, tells, taken.
  destruct (prepare_block e block) as [[[hash txs] b']|] eqn:Ep; [|done].
  apply prepare_block_ok in Ep as (_ & _ & Hv'). rewrite Hv in Hv'. injection Hv' as <-.
  destruct (on_block t1 height hash txs b (nd_buf nd)) as [j [o|]] eqn:Eb; [|done].
  destruct (decide (o = Deferred)) as [->|Hne]; [done|].
  destruct (announce_block_keeps block (set_nd_buf j nd)) as (Hn & Hbuf & _).
  pose proof (announce_live block (set_nd_buf j nd)) as Hlive.
  apply on_block_held in Eb; [|done|done|done].
  assert (Hat : servable (set_nd_buf j nd) height b).
  { unfold servable, buffered_block. cbn. destruct Eb as [[since ->]|[_ ?]]; auto. }
  set (nd1 := announce_block block (set_nd_buf j nd)) in *.
  destruct o; [| |done]; cbn zeta;
    (destruct (fetch_logs_for_height cfg height (nd_net nd1)) as [n [[logs|]|]]);
    try (split_and!; [exact Hlive|exact Hat|]; try done; intros _; unfold servable, nd_storage; cbn; rewrite Hbuf;
         exact Hat);
    (destruct (on_logs t2 height _ _) as [j2 [o2|]] eqn:El; (split_and!; [exact Hlive|exact Hat|]; try done));
    intros _; right; (eapply on_logs_held; [apply logs_bytes_text| |exact El]); cbn; rewrite Hbuf; cbn;
    destruct Eb as [[since ?]|?]; eauto 10.
Qed.

(** C27: subscribers are told of a block only when it can be read.  However
    handling a live block ends, it publishes that block to whoever listens if the
    node took it, and nothing otherwise: not when its body hash is not the announced
    one, not when the full join buffer turns it away and not when its write fails.
    At the moment it is published it is served at its height, out of the join
    buffer while its logs are missing, out of the store once written; it still is
    when the handling succeeds.  Logs already waiting for that height are taken to be
    JSON text. *)
Theorem announced_is_servable join_on t1 t2 cfg height e block b nd nd' out :
  to_vec block = Some b ->
  (forall pl, jb_pending (nd_buf nd) !! height = Some (PLogs pl) -> json_text (pl_bytes pl)) ->
  persist_live join_on t1 t2 cfg height e block nd = (nd', out) ->
  match taken join_on t1 height e block nd with
  | None => nd_live nd' = nd_live nd
  | Some at_ => nd_live nd' = (nd_live nd ++ told block nd)%list /\ servable at_ height b /\
                (out = Done (Ok tt) -> servable nd' height b)
  end /\
  (default EmptyString (get_str "hash" block) <> e -> nd_live nd' = nd_live nd) /\
  (join_on = false -> out <> Done (Ok tt) -> nd_live nd' = nd_live nd).
Proof.
  intros Hv Hpl E.
  assert (tells join_on t1 height e block b nd nd' out /\
          (join_on = false -> out <> Done (Ok tt) -> nd_live nd' = nd_live nd)) as [Ht Hf].
  { destruct join_on; unfold persist_live in E.
    - pose proof (persist_block_logs_tells t1 t2 cfg height e block b nd Hv Hpl) as Ht. by rewrite E in Ht.
    - pose proof (persist_block_tells t1 height e block b nd Hv) as Ht.
      destruct (persist_block height e block nd) as [nd2 r]. injection E as <- <-. destruct Ht as [Ht Hr].
      split; [done|]. intros _ Hne. apply Hr. by destruct r as [[]|]. }
  split_and!; [exact Ht| |exact Hf]. intros He. unfold tells, taken in Ht.
  destruct (prepare_block e block) eqn:Ep; [|done]. by apply prepare_block_hash in Ep.
Qed.

End Announce.

(** ** The bootstrap ends where it said it would *)

Section Bootstrap.
Context {B : Blockstore} {F : Fjall} {J : JsonLib} {X : HexLib} {H : Http} {W : WsLib H}.

(** A write of a streamed block at the height it names. *)
Definition streamed_cmd (c : PutCmd) : Prop :=
  exists block, block_cmd block EMPTY_ARRAY c /\
    (get_str "number" block ≫= fun s => u64_from_hex (trim_start_0x s)) = Some (cmd_height c).

Context {BL : BlockstoreLaws B} {FL : FjallLaws F} {JL : JsonLaws J}.

Lemma bootstrap_loop_sound elapsed target fuel : forall i msgs st st' r,
  bootstrap_loop fuel elapsed i target msgs st = (st', r) ->
  exists res, evolves streamed_cmd st st' res /\
    (r = Ok tt -> res = Ok tt /\ exists h b, (target <= h)%N /\ stored st' h = Ok (Some b)).
Proof.
  induction fuel as [|fuel IH]; intros i msgs st st' r; cbn [bootstrap_loop].
  { intros [= <- <-]. eexists. split; [apply evolves_refl|done]. }
  destruct (elapsed i); [intros [= <- <-]; eexists; split; [apply evolves_refl|done]|].
  destruct (next_ws_event msgs) as [[[|h hash|h hash block]|] rest] eqn:En;
    [apply IH|apply IH| |intros [= <- <-]; eexists; split; [apply evolves_refl|done]].
  apply next_ws_event_classified in En as [v Hv]. apply classify_frame_block in Hv.
  destruct (persist_backfilled h block EMPTY_ARRAY st) as [st1 [[]|e]] eqn:Ep.
  - apply persist_backfilled_put in Ep as [[_ [e ?]]|(c & Hh & Hc & Hp)]; [done|].
    assert (Hone : evolves streamed_cmd st st1 (Ok tt)).
    { eapply evolves_one; [|exact Hp]. exists block. by rewrite Hh. }
    destruct (N.leb_spec target h) as [Hle|_].
    + intros [= <- <-]. exists (Ok tt). split; [done|]. intros _. split; [done|].
      eexists h, _. split; [done|]. rewrite <- Hh. by eapply put_stored.
    + intros E. destruct (IH _ _ _ _ _ E) as (res & Hev & Hr). exists res. split; [|done].
      by eapply evolves_trans.
  - intros [= <- <-]. apply persist_backfilled_put in Ep as [[-> _]|(c & Hh & Hc & Hp)].
    { eexists. split; [apply evolves_refl|done]. }
    eexists. split; [|done]. eapply evolves_one; [|exact Hp]. exists block. by rewrite Hh.
Qed.

(** A mirror's bootstrap reports success only when it is done.  The store
    moves only by writes of streamed blocks at the height each names, with an
    empty logs half; and success means that the upstream's contiguous tip, read
    once at the start, was already below the first missing height, or that the
    range up to it was asked for on a socket of its own and a block at or above
    it is now in the store. *)
Theorem bootstrap_ends_at_target cfg elapsed st n st' n' r :
  bootstrap_via_oldblocks cfg elapsed (st, n) = ((st', n'), Done r) ->
  (exists res, evolves streamed_cmd st st' res) /\
  (r = Ok tt -> exists target n1, fetch_upstream_contiguous (cfg_rpc_url cfg) n = (n1, Done (Ok target)) /\
     ((target < bootstrap_from cfg st)%N /\ st' = st /\ n' = n1 \/
      SentText (request_text (oldblocks_request (bootstrap_from cfg st) target)) ∈ net_trace n' /\
      exists h b, (target <= h)%N /\ stored st' h = Ok (Some b))).
Proof.
  unfold bootstrap_via_oldblocks.
  destruct (fetch_upstream_contiguous (cfg_rpc_url cfg) n) as [n1 [[target|e]|]] eqn:Ef; [| |done].
  - destruct (N.ltb_spec target (bootstrap_from cfg st)) as [Hlt|_].
    { intros [= <- <- <-]. split; [eexists; apply evolves_refl|]. intros _. exists target, n1. auto. }
    destruct (open_stream cfg _ n1) as [n2 [[msgs|e]|]] eqn:Eo; [| |done].
    + destruct (bootstrap_loop _ _ _ _ _ _) as [st1 r1] eqn:Eb. intros [= <- <- <-].
      apply bootstrap_loop_sound in Eb as (res & Hev & Hr). split; [eauto|]. intros Hok.
      destruct (Hr Hok) as [_ Hs]. apply open_stream_ok in Eo as [Hsent _]. exists target, n1. auto.
    + intros [= <- <- <-]. split; [eexists; apply evolves_refl|done].
  - intros [= <- <- <-]. split; [eexists; apply evolves_refl|done].
Qed.

End Bootstrap.
