(* ===== verification/Handoff.v ===== *)
(** * From the bootstrap to the backfill (src/eth/ingest.rs, src/eth/backfill.rs)

    A C-chain instance runs two tasks that share one [Notify]: [ingest] streams
    the history first when it mirrors, then signals [bootstrap_done]; the
    backfill loop waits for the signal before its first pass.  Each task is a
    program, a [Proc], that says in which order it does what; the tasks take turns
    ([move]). *)

From Stdlib Require Import NArith Lia String Ascii.
From stdpp Require Import relations.
From S2P Require Import Prelude Str Json Chain Record Backing Storage Join Codec Upstream Http Socket EthFetch Backfill EthIngest.

(** tokio's [Notify] is third-party. *)
Class NotifyLib : Type := {
  Notify : Type;
  (** [Notify::new] *)
  notify_new : Notify;
  (** [notify_one], with nobody waiting or somebody *)
  notify_one : Notify -> Notify;
  (** polling [notified().await]: ready, leaving that behind, or pending *)
  notified : Notify -> option Notify
}.

(** A new [Notify] holds no permit, and [notify_one] stores one. *)
Class NotifyLaws (T : NotifyLib) : Prop := {
  notified_new : notified notify_new = None;
  notified_one : forall n, notified n = None -> is_Some (notified (notify_one n))
}.

(** ** The two programs *)

Inductive Proc : Type :=
  | Boot (k : result unit -> Proc)    (** [bootstrap_via_oldblocks], then go on with its result *)
  | Signal (k : Proc)                 (** [bootstrap_done.notify_one()] *)
  | Await (k : Proc)                  (** [bootstrap_done.notified().await] *)
  | Loop                              (** the task's endless loop *)
  | Parked.                           (** stopped by a fatal throttle *)

(** [ingest]: an error of the bootstrap is logged and dropped. *)
Definition ingest_task (cfg : IngestCfg) : Proc :=
  if cfg_subscribe_blocks cfg then
    Boot (fun r => match r with Err _ => Signal Loop | Ok _ => Signal Loop end)
  else Loop.

Definition wait_for_bootstrap (cfg : IngestCfg) (k : Proc) : Proc :=
  if cfg_subscribe_blocks cfg then Await k else k.

Definition backfill_task (cfg : IngestCfg) : Proc := wait_for_bootstrap cfg Loop.

Section Handoff.
Context {B : Blockstore} {F : Fjall} {J : JsonLib} {X : HexLib} {CL : CodecLib} {H : Http} {WL : WsLib H}.
Context {T : NotifyLib}.
Variable (cfg : IngestCfg).

(** What the tasks share. *)
Record Shared : Type := { sh_storage : Storage; sh_net : Net; sh_bootstrap_done : Notify }.

(** One step of a program.  What a loop writes is any change of the store and the
    network: only the order of the tasks is at stake. *)
Inductive proc_step : Shared -> Proc -> Shared -> Proc -> Prop :=
  | boot_ends elapsed k st n st' n' nt r :
      bootstrap_via_oldblocks cfg elapsed (st, n) = ((st', n'), Done r) ->
      proc_step {| sh_storage := st; sh_net := n; sh_bootstrap_done := nt |} (Boot k)
                {| sh_storage := st'; sh_net := n'; sh_bootstrap_done := nt |} (k r)
  | boot_parks elapsed k st n st' n' nt :
      bootstrap_via_oldblocks cfg elapsed (st, n) = ((st', n'), ParkedForever) ->
      proc_step {| sh_storage := st; sh_net := n; sh_bootstrap_done := nt |} (Boot k)
                {| sh_storage := st'; sh_net := n'; sh_bootstrap_done := nt |} Parked
  | signals k st n nt :
      proc_step {| sh_storage := st; sh_net := n; sh_bootstrap_done := nt |} (Signal k)
                {| sh_storage := st; sh_net := n; sh_bootstrap_done := notify_one nt |} k
  | awaits k st n nt nt' :
      notified nt = Some nt' ->
      proc_step {| sh_storage := st; sh_net := n; sh_bootstrap_done := nt |} (Await k)
                {| sh_storage := st; sh_net := n; sh_bootstrap_done := nt' |} k
  | loops st n st' n' nt :
      proc_step {| sh_storage := st; sh_net := n; sh_bootstrap_done := nt |} Loop
                {| sh_storage := st'; sh_net := n'; sh_bootstrap_done := nt |} Loop.

Record Tasks : Type := { tk_shared : Shared; tk_ingest : Proc; tk_backfill : Proc }.

(** The tasks of a fresh instance. *)
Definition launched (st : Storage) (n : Net) : Tasks :=
  {| tk_shared := {| sh_storage := st; sh_net := n; sh_bootstrap_done := notify_new |};
     tk_ingest := ingest_task cfg; tk_backfill := backfill_task cfg |}.

Inductive move : Tasks -> Tasks -> Prop :=
  | move_ingest s p s' p' q :
      proc_step s p s' p' ->
      move {| tk_shared := s; tk_ingest := p; tk_backfill := q |}
           {| tk_shared := s'; tk_ingest := p'; tk_backfill := q |}
  | move_backfill s p q s' q' :
      proc_step s q s' q' ->
      move {| tk_shared := s; tk_ingest := p; tk_backfill := q |}
           {| tk_shared := s'; tk_ingest := p; tk_backfill := q' |}.

(** ** What the order guarantees *)

Context {TL : NotifyLaws T}.

(** A mirror's tasks: before the signal, between it and the end of the wait, after. *)
Definition handed (t : Tasks) : Prop :=
  let nt := sh_bootstrap_done (tk_shared t) in
  (tk_ingest t = ingest_task cfg \/ tk_ingest t = Signal Loop \/ tk_ingest t = Parked) /\
    tk_backfill t = Await Loop /\ notified nt = None \/
  tk_ingest t = Loop /\ tk_backfill t = Await Loop /\ is_Some (notified nt) \/
  tk_ingest t = Loop /\ tk_backfill t = Loop.

Lemma launched_handed st n : cfg_subscribe_blocks cfg = true -> handed (launched st n).
Proof.
  intros Hc. left. split_and!; [by left| |apply notified_new].
  cbn. unfold backfill_task, wait_for_bootstrap. by rewrite Hc.
Qed.

Lemma ingest_step_handed s p s' p' q :
  cfg_subscribe_blocks cfg = true -> proc_step s p s' p' ->
  handed {| tk_shared := s; tk_ingest := p; tk_backfill := q |} ->
  handed {| tk_shared := s'; tk_ingest := p'; tk_backfill := q |}.
Proof.
  intros Hc Hs. unfold handed, ingest_task. rewrite Hc. cbn.
  destruct Hs as [elapsed k st n st' n' nt r E|elapsed k st n st' n' nt E|k st n nt|k st n nt nt' E|st n st' n' nt]; cbn.
  - intros [([[= ->]|[?|?]] & Hq & Hn)|[(? & _)|(? & _)]]; try done. left. split_and!; [|done..].
    right. left. by destruct r.
  - intros [(_ & Hq & Hn)|[(? & _)|(? & _)]]; try done. left. split_and!; auto.
  - intros [([?|[[= ->]|?]] & Hq & Hn)|[(? & _)|(? & _)]]; try done. right. left.
    split_and!; [done|done|by apply notified_one].
  - intros [([?|[?|?]] & _)|[(? & _)|(? & _)]]; done.
  - intros [([?|[?|?]] & _)|[Hw|Hw]]; try done; right; auto.
Qed.

Lemma backfill_step_handed s p q s' q' :
  proc_step s q s' q' ->
  handed {| tk_shared := s; tk_ingest := p; tk_backfill := q |} ->
  handed {| tk_shared := s'; tk_ingest := p; tk_backfill := q' |}.
Proof.
  intros Hs. unfold handed. cbn.
  destruct Hs as [elapsed k st n st' n' nt r E|elapsed k st n st' n' nt E|k st n nt|k st n nt nt' E|st n st' n' nt]; cbn.
  1-3: by intros [(_ & ? & _)|[(_ & ? & _)|(_ & ?)]].
  - intros [(_ & _ & Hn)|[(Hp & [= ->] & _)|(_ & ?)]]; [congruence| |done]. right. by right.
  - intros [(_ & ? & _)|[(_ & ? & _)|Hw]]; [done|done|]. right. by right.
Qed.

Lemma reachable_handed st n t :
  cfg_subscribe_blocks cfg = true -> rtc move (launched st n) t -> handed t.
Proof.
  intros Hc Hr. pose proof (launched_handed st n Hc) as H0. revert H0.
  induction Hr as [|t t' t'' Hm _ IH]; [done|]. intros Ht. apply IH.
  destruct Hm as [s p s' p' q Hs|s p q s' q' Hs];
    [by eapply ingest_step_handed|by eapply backfill_step_handed].
Qed.

(** C34: The backfill never races the bootstrap, and the signal is never lost.
    However the two tasks of a mirror are interleaved, the backfill loop makes its
    first pass only after the bootstrap is over and has signalled; when the
    bootstrap parks the task it never does.  Once [ingest] is past its bootstrap -
    finished or failed, before or after the backfill began to wait - the backfill
    is in its loop or enters it with its next step.  Without a mirror neither
    waits. *)
Theorem backfill_waits_for_bootstrap st n t :
  rtc move (launched st n) t ->
  (cfg_subscribe_blocks cfg = true ->
     (tk_backfill t = Loop -> tk_ingest t = Loop) /\
     (tk_ingest t = Loop -> tk_backfill t = Loop \/
        exists s', proc_step (tk_shared t) (tk_backfill t) s' Loop)) /\
  (cfg_subscribe_blocks cfg = false -> tk_ingest (launched st n) = Loop /\ tk_backfill (launched st n) = Loop).
Proof.
  intros Hr. split; intros Hc.
  - destruct (reachable_handed st n t Hc Hr) as [(Hi & Hb & _)|[(Hi & Hb & [nt' Hn])|[Hi Hb]]]; rewrite Hb, ?Hi.
    + split; [done|]. intros Hl. exfalso. rewrite Hl in Hi. unfold ingest_task in Hi. rewrite Hc in Hi.
      by destruct Hi as [?|[?|?]].
    + split; [done|]. intros _. right. destruct (tk_shared t) as [st1 n1 nt]. eexists. by apply awaits.
    + by auto.
  - cbn. unfold ingest_task, backfill_task, wait_for_bootstrap. by rewrite Hc.
Qed.

End Handoff.
