(* ===== verification/EthRpc.v ===== *)
(** * The C-chain serving dialect (src/eth/rpc.rs)

    Every [eth_*] method over a C-chain instance: block and transaction
    lookups by number, hash and index, [eth_getLogs] with its chunked scan, and
    the argument handling of [eth_subscribe]. *)

From Stdlib Require Import ZArith NArith Lia String Ascii.
From S2P Require Import Prelude Str Json Chain Record Backing Storage StorageSpec Join Codec Upstream Http EthFetch Backfill Serve Subscribe.

Definition ETH_SUB_KINDS : list SubKind := [NewHeads; NewBlocks; NewRecords; OldBlocks; OldRecords].

Inductive BlockSelector : Type :=
  | SelNumber (tag : string)
  | SelHash (hash : string)
  | SelHeight (h : N).

Definition MAX_GETLOGS_RANGE : N := 2048.
Definition GETLOGS_READ_CHUNK : N := 256.

(** ** Filters *)

Inductive OneOrMany : Type :=
  | One (s : string)
  | Many (v : list string).

Definition matches (slot : OneOrMany) (candidate : string) : bool :=
  match slot with
  | One s => eq_ignore_ascii_case s candidate
  | Many v => existsb (fun s => eq_ignore_ascii_case s candidate) v
  end.

Record LogFilter : Type := {
  lf_from_block : option string;
  lf_to_block : option string;
  lf_block_hash : option string;
  lf_address : option OneOrMany;
  lf_topics : option (list (option OneOrMany))
}.

(** The [for] over the topic slots, position by position. *)
Fixpoint topics_match (slots : list (option OneOrMany)) (log_topics : list Value) : bool :=
  match slots with
  | [] => true
  | None :: slots => topics_match slots (tail log_topics)
  | Some slot :: slots =>
      match head log_topics ≫= Json.as_str with
      | None => false
      | Some topic => matches slot topic && topics_match slots (tail log_topics)
      end
  end.

Definition log_matches (log : Value) (address : option OneOrMany)
    (topics : option (list (option OneOrMany))) : bool :=
  match address with
  | Some address => matches address (default EmptyString (get_str "address" log))
  | None => true
  end &&
  match topics with
  | Some topics => topics_match topics (default [] (get_array "topics" log))
  | None => true
  end.

(** ** Shaping *)

Definition tx_count_hex (v : Value) : string :=
  hex_quantity (N.of_nat (match get_array "transactions" v with Some l => length l | None => 0%nat end)).

(** [swap_remove(idx)] hands out the element at [idx]; the rest is dropped. *)
Definition nth_transaction (v : Value) (idx : N) : option Value :=
  txs ← get_array "transactions" v; txs !! N.to_nat idx.

Definition tx_to_hash (tx : Value) : Value := default tx (get "hash" tx).

Definition shape_block (v : Value) (full_tx : bool) : Value :=
  if full_tx then v
  else update "transactions" (fun txs => match txs with
                                         | VArray items => VArray (map tx_to_hash items)
                                         | other => other
                                         end) v.

Section EthRpc.
Context {B : Blockstore} {F : Fjall} {J : JsonLib} {X : HexLib}.

Record EthApiImpl : Type := {
  ea_storage : Storage;
  ea_chain_id : N;
  ea_join : option JoinBuffer;
  ea_ingests_logs : bool
}.

Definition eth_new (c : ChainServe) : EthApiImpl :=
  {| ea_storage := cs_storage c; ea_chain_id := default 0%N (parse_u64 (cs_identity c));
     ea_join := cs_join c; ea_ingests_logs := cs_ingests_logs c |}.

(** ** Lookups *)

Definition decode_block (b : bytes) (e : error) : result Value := ok_or (from_slice b) e.

Definition read_block_value (api : EthApiImpl) (height : N) : result (option Value) :=
  let? stored := map_err EStorageError (get_by_height (ea_storage api) height) in
  match stored with
  | Some el => let? v := decode_block (deref el) EBadStoredBlock in Ok (Some v)
  | None =>
      match ea_join api ≫= fun b => buffered_block b height with
      | Some raw => let? v := decode_block raw EBadBufferedBlock in Ok (Some v)
      | None => Ok None
      end
  end.

Definition resolve_block_tag (api : EthApiImpl) (tag : string) : result N :=
  if bool_decide (tag ∈ ["latest"; "finalized"; "safe"]%string) then
    let hw := high_water (ea_storage api) in
    if (hw =? 0)%N then Err ENoBlocksYet else Ok hw
  else if bool_decide (tag ∈ ["earliest"; "pending"]%string) then Err EUnsupportedTag
  else ok_or (u64_from_hex (strip_0x tag)) EInvalidNumber.

Definition select_block (api : EthApiImpl) (sel : BlockSelector) : result (option Value) :=
  match sel with
  | SelNumber tag => let? h := resolve_block_tag api tag in read_block_value api h
  | SelHeight h => read_block_value api h
  | SelHash hash =>
      let? arr := parse_hash hash in
      let? found := map_err EStorageError (get_by_hash (ea_storage api) arr) in
      match found with
      | Some el => let? v := decode_block (deref el) EBadStoredBlock in Ok (Some v)
      | None => Ok None
      end
  end.

Definition lookup_block {R} (api : EthApiImpl) (sel : BlockSelector)
    (project : Value -> result (option R)) : result (option R) :=
  let? v := select_block api sel in
  match v with Some v => project v | None => Ok None end.

(** ** Methods *)

Definition chain_id (api : EthApiImpl) : result string := Ok (hex_quantity (ea_chain_id api)).

Definition block_number (api : EthApiImpl) : result string :=
  Ok (hex_quantity (high_water (ea_storage api))).

Definition get_block_by_number (api : EthApiImpl) (block : string) (full_tx : bool) : result (option Value) :=
  lookup_block api (SelNumber block) (fun v => Ok (Some (shape_block v full_tx))).

Definition get_block_by_hash (api : EthApiImpl) (hash : string) (full_tx : bool) : result (option Value) :=
  lookup_block api (SelHash hash) (fun v => Ok (Some (shape_block v full_tx))).

Definition get_block_transaction_count_by_number (api : EthApiImpl) (block : string) : result (option string) :=
  lookup_block api (SelNumber block) (fun v => Ok (Some (tx_count_hex v))).

Definition get_block_transaction_count_by_hash (api : EthApiImpl) (hash : string) : result (option string) :=
  lookup_block api (SelHash hash) (fun v => Ok (Some (tx_count_hex v))).

Definition get_transaction_by_block_number_and_index (api : EthApiImpl) (block index : string)
    : result (option Value) :=
  let? idx := parse_quantity index in
  lookup_block api (SelNumber block) (fun v => Ok (nth_transaction v idx)).

Definition get_transaction_by_block_hash_and_index (api : EthApiImpl) (hash index : string)
    : result (option Value) :=
  let? idx := parse_quantity index in
  lookup_block api (SelHash hash) (fun v => Ok (nth_transaction v idx)).

Definition get_transaction_by_hash (api : EthApiImpl) (hash : string) : result (option Value) :=
  let? arr := parse_hash hash in
  let? loc := map_err EStorageError (get_tx_location (ea_storage api) arr) in
  match loc with
  | None => Ok None
  | Some (height, tx_idx) => lookup_block api (SelHeight height) (fun v => Ok (nth_transaction v tx_idx))
  end.

(** ** [eth_getLogs] *)

(** The matching logs of one stored logs element. *)
Definition matching (f : LogFilter) (logs_bytes : bytes) : result (list Value) :=
  let? logs := ok_or (from_slice logs_bytes) EBadStoredLogs in
  Ok (List.filter (fun log => log_matches log (lf_address f) (lf_topics f)) (default [] (as_array logs))).

(** The [for] over one chunk. *)
Fixpoint scan_chunk (f : LogFilter) (per_height : list bytes) (out : list Value) : result (list Value) :=
  match per_height with
  | [] => Ok out
  | logs_bytes :: per_height =>
      let? hits := matching f logs_bytes in scan_chunk f per_height (out ++ hits)
  end.

(** The [while] from [chunk_start]; [None] when the turns run out. *)
Fixpoint scan_range (fuel : nat) (api : EthApiImpl) (f : LogFilter) (chunk_start to : N)
    (out : list Value) : option (result (option (list Value))) :=
  match fuel with
  | O => None
  | S fuel =>
      if (chunk_start <=? to)%N then
        let chunk_end := N.min (sat_sub (sat_add chunk_start GETLOGS_READ_CHUNK) 1) to in
        match map_err EStorageError (read_element_range (ea_storage api) chunk_start chunk_end C_LOGS) with
        | Err e => Some (Err e)
        | Ok None => Some (Ok None)
        | Ok (Some per_height) =>
            match scan_chunk f per_height out with
            | Err e => Some (Err e)
            | Ok out => scan_range fuel api f (sat_add chunk_end 1) to out
            end
        end
      else Some (Ok (Some out))
  end.

(** The heights a filter names, [None] when they cannot be answered for. *)
Definition logs_range (api : EthApiImpl) (f : LogFilter) : result (option (N * N)) :=
  match lf_block_hash f with
  | Some block_hash =>
      let? arr := parse_hash block_hash in
      let? h := map_err EStorageError (height_of_hash (ea_storage api) arr) in
      Ok ((fun h => (h, h)) <$> h)
  | None =>
      let? from := resolve_block_tag api (default "latest"%string (lf_from_block f)) in
      let? to := resolve_block_tag api (default "latest"%string (lf_to_block f)) in
      if (to <? from)%N then Err (EFromAfterTo from to)
      else
        let span := sat_add (sat_sub to from) 1 in
        if (MAX_GETLOGS_RANGE <? span)%N then Err (ERangeTooLarge span)
        else
          let min := min_height (ea_storage api) in
          let contiguous := max_contiguous_height (ea_storage api) in
          if (from <? min)%N || (contiguous <? to)%N then Ok None else Ok (Some (from, to))
  end.

(** [fuel] bounds the turns of the scan: nine are enough for the largest range
    that is accepted. *)
Definition get_logs (fuel : nat) (api : EthApiImpl) (f : LogFilter) : option (result (option Value)) :=
  if negb (ea_ingests_logs api) then Some (Ok None)
  else match logs_range api f with
       | Err e => Some (Err e)
       | Ok None => Some (Ok None)
       | Ok (Some (from, to)) =>
           match scan_range fuel api f from to [] with
           | None => None
           | Some r => Some (let? o := r in Ok (VArray <$> o))
           end
       end.

Definition GETLOGS_TURNS : nat := 9.

(** ** [eth_subscribe] *)

(** [Option<String>] through [parse_quantity]. *)
Definition parse_opt_quantity (s : option string) : result (option N) :=
  match s with
  | None => Ok None
  | Some s => let? n := parse_quantity s in Ok (Some n)
  end.

Definition eth_subscribe (fuel : nat) (snap : nat -> Storage) (events : list Recv)
    (kind : string) (from to : option string) : SubOutcome :=
  match from_wire kind with
  | None => Rejected EUnsupportedKind
  | Some sub_kind =>
      match parse_opt_quantity from, parse_opt_quantity to with
      | Ok f, Ok t => serve fuel C snap events {| sr_kind := sub_kind; sr_from := f; sr_to := t |} ETH_SUB_KINDS
      | Err e, _ => Rejected e
      | _, Err e => Rejected e
      end
  end.

End EthRpc.

(** ** [eth_getLogs] is a filter over the whole range *)

Lemma mapM_option_app {A C} (f : A -> option C) (l1 l2 : list A) :
  mapM f (l1 ++ l2) = r1 ← mapM f l1; r2 ← mapM f l2; Some (r1 ++ r2).
Proof.
  induction l1 as [|x l1 IH]; cbn; [by destruct (mapM f l2)|].
  destruct (f x); cbn; [|done]. rewrite IH.
  destruct (mapM f l1); cbn; [|done]. by destruct (mapM f l2).
Qed.

Lemma mapM_option_compose {A C D} (f : A -> option C) (g : C -> option D) (l : list A) :
  mapM (fun x => f x ≫= g) l = mapM f l ≫= mapM g.
Proof.
  induction l as [|x l IH]; cbn; [done|]. destruct (f x) as [y|]; cbn; [|done]. rewrite IH.
  destruct (mapM f l) as [ys|]; cbn; [by destruct (g y)|by destruct (g y)].
Qed.

Section GetLogs.
Context {B : Blockstore} {F : Fjall} {J : JsonLib} {X : HexLib}.

Definition decode_logs (b : bytes) : option (list Value) :=
  v ← from_slice b; Some (default [] (as_array v)).

(** The raw logs half of a height, and its logs. *)
Definition raw_logs (a : Abs) (h : N) : option bytes := a_blocks a !! h ≫= fun es => es !! C_LOGS.
Definition stored_logs (a : Abs) (h : N) : option (list Value) := raw_logs a h ≫= decode_logs.

Definition hits (f : LogFilter) (ls : list Value) : list Value :=
  List.filter (fun log => log_matches log (lf_address f) (lf_topics f)) ls.

Lemma hits_app f l1 l2 : hits f (l1 ++ l2) = hits f l1 ++ hits f l2.
Proof. apply List.filter_app. Qed.

Lemma matching_decode f b :
  matching f b = match decode_logs b with Some ls => Ok (hits f ls) | None => Err EBadStoredLogs end.
Proof. unfold matching, decode_logs. by destruct (from_slice b). Qed.

Lemma scan_chunk_ok f per : forall out res,
  scan_chunk f per out = Ok res <->
  exists lss, mapM decode_logs per = Some lss /\ res = out ++ hits f (concat lss).
Proof.
  induction per as [|b per IH]; intros out res; cbn [scan_chunk mapM].
  { split.
    - intros [= <-]. exists []. split; [done|]. cbn. by rewrite app_nil_r.
    - intros (lss & [= <-] & ->). cbn. by rewrite app_nil_r. }
  rewrite matching_decode. destruct (decode_logs b) as [ls|]; cbn; [|split; [done|by intros (? & ? & _)]].
  rewrite IH. split.
  - intros (lss & -> & ->). eexists. split; [done|]. cbn [concat]. by rewrite hits_app, app_assoc.
  - destruct (mapM decode_logs per) as [lss|]; cbn; [|by intros (? & ? & _)].
    intros (? & [= <-] & ->). exists lss. split; [done|]. cbn [concat]. by rewrite hits_app, app_assoc.
Qed.

Context {BL : BlockstoreLaws B} {FL : FjallLaws F} {JL : JsonLaws J}.

Lemma read_logs_range st a from to :
  refines st a -> (from <= to)%N ->
  read_element_range st from to C_LOGS = Ok (mapM (raw_logs a) (heights from to)).
Proof.
  intros Hr Hle. destruct (st_store st) as [s|] eqn:Es.
  { apply read_element_range_refines; [done|by rewrite Es]. }
  unfold read_element_range. rewrite Es, heights_cons by done.
  pose proof (ref_blocks _ _ Hr from) as Hb. unfold stored in Hb. rewrite Es in Hb.
  assert (Hn : raw_logs a from = None) by (unfold raw_logs; by destruct (a_blocks a !! from)).
  cbn. by rewrite Hn.
Qed.

(** With enough turns the scan ends, and returns logs exactly when every height
    of the range has decodable ones: those that match, in height order. *)
Lemma scan_range_exact api f a to k : forall start out,
  refines (ea_storage api) a -> (to < u64_max)%N -> (start <= to + 1)%N ->
  (to + 1 - start <= GETLOGS_READ_CHUNK * N.of_nat k)%N ->
  scan_range (S k) api f start to out <> None /\
  forall res, scan_range (S k) api f start to out = Some (Ok (Some res)) <->
    exists lss, mapM (stored_logs a) (heights start to) = Some lss /\ res = out ++ hits f (concat lss).
Proof.
  induction k as [|k IH]; intros start out Hr Hmax Hst Hk; unfold GETLOGS_READ_CHUNK in *.
  - cbn [scan_range]. rewrite heights_nil by lia. destruct (N.leb_spec start to); [lia|].
    split; [done|]. intros res. cbn. split.
    + intros [= <-]. exists []. by rewrite app_nil_r.
    + intros (lss & [= <-] & ->). cbn. by rewrite app_nil_r.
  - remember (S k) as k' eqn:Ek. cbn [scan_range]. subst k'. destruct (N.leb_spec start to) as [Hle|Hgt].
    + set (ce := N.min (sat_sub (sat_add start GETLOGS_READ_CHUNK) 1) to).
      assert (Hce : (start <= ce /\ ce <= to /\ to + 1 - (ce + 1) <= 256 * N.of_nat k)%N)
        by (unfold ce, sat_add, sat_sub, GETLOGS_READ_CHUNK, u64_max in *; lia).
      replace (sat_add ce 1) with (ce + 1)%N by (unfold sat_add, u64_max in *; lia).
      clearbody ce. rewrite (read_logs_range _ a) by (done || lia). cbn [map_err].
      rewrite (heights_app start ce to) by lia. rewrite mapM_option_app.
      rewrite (mapM_option_compose (raw_logs a) decode_logs (heights start ce)
                : mapM (stored_logs a) (heights start ce) = _).
      destruct (mapM (raw_logs a) (heights start ce)) as [per|]; cbn [mbind option_bind];
        [|split; [done|]; intros res; split; [done|intros (? & Hx & _); by cbn in Hx]].
      destruct (scan_chunk f per out) as [out1|e] eqn:Ec.
      * apply scan_chunk_ok in Ec as (lss1 & -> & ->). cbn [mbind option_bind].
        destruct (IH (ce + 1)%N (out ++ hits f (concat lss1)) Hr Hmax ltac:(lia) ltac:(lia)) as [Hn Hiff].
        split; [done|]. intros res. rewrite Hiff. split.
        -- intros (lss2 & -> & ->). eexists. split; [done|]. by rewrite concat_app, hits_app, app_assoc.
        -- destruct (mapM (stored_logs a) (heights (ce + 1) to)) as [lss2|]; cbn; [|by intros (? & ? & _)].
           intros (? & [= <-] & ->). exists lss2. split; [done|]. by rewrite concat_app, hits_app, app_assoc.
      * split; [done|]. intros res. split; [done|]. intros (lss & Hm & _).
        destruct (mapM decode_logs per) as [lss1|] eqn:Ed; cbn in Hm; [|done].
        pose proof (proj2 (scan_chunk_ok f per out (out ++ hits f (concat lss1)))
                   (ex_intro _ lss1 (conj Ed eq_refl))) as Hok. by rewrite Ec in Hok.
    + rewrite heights_nil by lia. split; [done|]. intros res. cbn. split.
      * intros [= <-]. exists []. by rewrite app_nil_r.
      * intros (lss & [= <-] & ->). cbn. by rewrite app_nil_r.
Qed.

Lemma logs_range_bounds api f from to :
  logs_range api f = Ok (Some (from, to)) -> (from <= to)%N /\ (to + 1 - from <= 2048 \/ u64_max <= to)%N.
Proof.
  unfold logs_range. destruct (lf_block_hash f) as [bh|].
  - destruct (parse_hash bh) as [arr|]; [|done]. cbn.
    destruct (map_err EStorageError (height_of_hash (ea_storage api) arr)) as [[h|]|]; cbn; [|done|done].
    intros [= <- <-]. lia.
  - destruct (resolve_block_tag api (default "latest"%string (lf_from_block f))) as [fr|]; [|done].
    cbn [result_bind].
    destruct (resolve_block_tag api (default "latest"%string (lf_to_block f))) as [t|]; [|done]. cbn [result_bind].
    destruct (N.ltb_spec t fr); [done|]. cbv zeta.
    destruct (N.ltb_spec MAX_GETLOGS_RANGE (sat_add (sat_sub t fr) 1)) as [|Hspan]; [done|].
    destruct ((fr <? _)%N || (_ <? t)%N); [done|]. intros [= <- <-].
    assert (2048 < u64_max)%N by reflexivity.
    unfold MAX_GETLOGS_RANGE, sat_add, sat_sub in Hspan. lia.
Qed.

(** C11: [eth_getLogs] never returns a partial answer.  For a range it accepts
    (at most 2048 heights, in nine chunked reads), the scan terminates, and it
    returns an array exactly when every height of the range is stored with
    decodable logs - and then the array holds precisely the logs of the whole
    range that match the filter, in height order. *)
Theorem get_logs_exact api f a from to :
  refines (ea_storage api) a -> ea_ingests_logs api = true ->
  logs_range api f = Ok (Some (from, to)) -> (to < u64_max)%N ->
  get_logs GETLOGS_TURNS api f <> None /\
  forall v, get_logs GETLOGS_TURNS api f = Some (Ok (Some v)) <->
    exists lss, mapM (stored_logs a) (heights from to) = Some lss /\ v = VArray (hits f (concat lss)).
Proof.
  intros Hr Hi Hrange Hto. destruct (logs_range_bounds api f from to Hrange) as [Hle Hspan].
  unfold get_logs. rewrite Hi, Hrange. cbn [negb].
  destruct (scan_range_exact api f a to 8 from [] Hr Hto ltac:(lia)
              ltac:(unfold GETLOGS_READ_CHUNK; lia)) as [Hn Hiff].
  change (S 8) with GETLOGS_TURNS in *.
  destruct (scan_range GETLOGS_TURNS api f from to []) as [[[res|]|e]|] eqn:E; [| | |done];
    (split; [done|]); intros v; cbn.
  - destruct (proj1 (Hiff res) eq_refl) as (lss & Hm & ->). split.
    + intros [= <-]. by exists lss.
    + intros (lss' & Hm' & ->). rewrite Hm in Hm'. by injection Hm' as <-.
  - split; [done|]. intros (lss & Hm & ->). pose proof (proj2 (Hiff _) (ex_intro _ lss (conj Hm eq_refl))). done.
  - split; [done|]. intros (lss & Hm & ->). pose proof (proj2 (Hiff _) (ex_intro _ lss (conj Hm eq_refl))). done.
Qed.

End GetLogs.

(** ** Transactions by hash *)

Section TxByHash.
Context {B : Blockstore} {F : Fjall} {J : JsonLib} {X : HexLib}.

(** A write of a block under its transactions, all of whose hashes decode. *)
Definition indexes_block (c : PutCmd) : Prop :=
  exists block b logs, json_wf block = true /\ to_vec block = Some b /\ cmd_elements c = [b; logs] /\
    cmd_txs c = extract_tx_hashes block /\
    Forall (fun tx => is_Some (tx_hash_of tx)) (default [] (get_array "transactions" block)).

Lemma extract_lookup block n tx_hash :
  Forall (fun tx => is_Some (tx_hash_of tx)) (default [] (get_array "transactions" block)) ->
  extract_tx_hashes block !! n = Some tx_hash ->
  exists tx, nth_transaction block (N.of_nat n) = Some tx /\ tx_hash_of tx = Some tx_hash.
Proof.
  unfold extract_tx_hashes, nth_transaction. rewrite Nat2N.id.
  destruct (get_array "transactions" block) as [txs|]; cbn; [|done]. intros Hall.
  revert n; induction Hall as [|tx txs [h Hh] _ IH]; intros n; [done|]. cbn. rewrite Hh.
  destruct n as [|n]; cbn; [intros [= <-]; eauto|apply IH].
Qed.

Context {BL : BlockstoreLaws B} {FL : FjallLaws F} {JL : JsonLaws J} {XL : HexLaws X}.

Lemma read_block_value_refines api a h es b v :
  refines (ea_storage api) a -> a_blocks a !! h = Some es -> es !! BLOCK = Some b ->
  from_slice b = Some v -> read_block_value api h = Ok (Some v).
Proof.
  intros Hr Hb He Hv. pose proof (get_element_refines (ea_storage api) a h BLOCK Hr) as Hg.
  rewrite Hb in Hg. cbn [mbind option_bind] in Hg. rewrite He in Hg. unfold view in Hg.
  unfold read_block_value, get_by_height.
  destruct (get_element (ea_storage api) h BLOCK) as [[el|]|]; cbn in Hg |- *; simplify_eq.
  unfold decode_block. by rewrite Hv.
Qed.

(** C32: a transaction is found by its hash, and the right one is returned.
    After any writes of distinct heights to a fresh store, each of a block whose
    transactions all have a hash that decodes, indexed under those hashes, asking
    for a hash that some block carries returns a transaction of a written block
    with exactly that hash, and asking for any other hash returns nothing.  (A block
    with a transaction whose hash does not decode shifts the positions of those
    behind it: see [tx_index_position].) *)
Theorem tx_by_hash_returns_it cs st0 api tx_hash :
  fresh st0 -> Forall cmd_ok cs -> Forall indexes_block cs -> NoDup (cmd_height <$> cs) ->
  run_puts cs st0 = (ea_storage api, Ok tt) -> length tx_hash = 32%nat ->
  match get_transaction_by_hash api ("0x" ++ hex_encode tx_hash)%string with
  | Ok (Some tx) => tx_hash_of tx = Some tx_hash /\
      exists c block b logs n, c ∈ cs /\ cmd_elements c = [b; logs] /\ to_vec block = Some b /\
        nth_transaction block n = Some tx /\ tx_hash ∈ cmd_txs c
  | Ok None => forall c, c ∈ cs -> tx_hash ∉ cmd_txs c
  | Err _ => False
  end.
Proof.
  intros Hf Hok Hix Hnd Hrun Hl.
  destruct (run_puts_refines cs st0 (ea_storage api) abs_empty (fresh_refines _ Hf) index_sound_empty Hok Hrun)
    as [Hr Hs].
  unfold get_transaction_by_hash. rewrite parse_hash_roundtrip by done. cbn [result_bind].
  rewrite (get_tx_location_refines _ _ _ Hr). cbn [map_err result_bind].
  destruct (a_tx (abs_run cs abs_empty) !! tx_hash) as [[h i]|] eqn:Et.
  - destruct (abs_run_tx cs tx_hash h i Hnd Et) as (c & n & Hin & _ & -> & Hn & Hb).
    rewrite Forall_forall in Hix. destruct (Hix c Hin) as (block & b & logs & Hwf & Hv & He & Htx & Hall).
    rewrite He in Hb. rewrite Htx in Hn.
    unfold lookup_block, select_block.
    rewrite (read_block_value_refines api _ h [b; logs] b block Hr Hb eq_refl)
      by (by apply from_to_vec).
    cbn [result_bind]. destruct (extract_lookup block n tx_hash Hall Hn) as (tx & Hnth & Htxh). rewrite Hnth.
    split; [done|]. exists c, block, b, logs, (N.of_nat n). rewrite Htx. split_and!; try done.
    by eapply list_elem_of_lookup_2.
  - intros c Hin Hk. apply list_elem_of_lookup in Hk as [n Hn].
    assert (Hsome : is_Some (a_tx (abs_run cs abs_empty) !! tx_hash)) by (by eapply abs_run_tx_some).
    rewrite Et in Hsome. by destruct Hsome.
Qed.

End TxByHash.

(** ** Blocks by number and by hash *)

Lemma omap_full {A C} (f : A -> option C) (l : list A) :
  length (omap f l) = length l <-> Forall (fun x => is_Some (f x)) l.
Proof.
  assert (Hle : forall l, (length (omap f l) <= length l)%nat).
  { clear. induction l as [|x l IH]; cbn; [done|]. destruct (f x); cbn; lia. }
  induction l as [|x l IH]; [done|]. specialize (Hle l).
  rewrite Forall_cons. cbn. destruct (f x) eqn:E; cbn; rewrite <- IH.
  - split; [intros [= ?]; eauto|]. by intros [_ ->].
  - split; [lia|]. by intros [[? ?] _].
Qed.

Section Blocks.
Context {B : Blockstore} {F : Fjall} {J : JsonLib} {X : HexLib}.

(** Where the transaction index puts a transaction.  Its recorded position
    counts only the entries before it whose hash decodes, while
    [nth_transaction] counts all of them: the two agree exactly when every
    earlier entry of the block has a well-formed hash. *)
Theorem tx_index_position block pre tx post h :
  get_array "transactions" block = Some (pre ++ tx :: post) -> tx_hash_of tx = Some h ->
  extract_tx_hashes block !! length (omap tx_hash_of pre) = Some h /\
  nth_transaction block (N.of_nat (length pre)) = Some tx /\
  (length (omap tx_hash_of pre) = length pre <-> Forall (fun t => is_Some (tx_hash_of t)) pre).
Proof.
  intros Ht Hh. unfold extract_tx_hashes, nth_transaction. rewrite Ht, omap_app, Nat2N.id. cbn. rewrite Hh.
  split; [by rewrite list_lookup_middle|]. split; [by rewrite list_lookup_middle|].
  apply omap_full.
Qed.

Lemma hex_quantity_tag api n : is_u64 n -> resolve_block_tag api (hex_quantity n) = Ok n.
Proof.
  intros Hn. unfold resolve_block_tag.
  rewrite (bool_decide_false (hex_quantity n ∈ ["latest"; "finalized"; "safe"]%string)).
  2:{ intros Hin. unfold hex_quantity in Hin.
      repeat (apply elem_of_cons in Hin as [Hin|Hin]; [discriminate Hin|]). by apply not_elem_of_nil in Hin. }
  rewrite bool_decide_false.
  2:{ intros Hin. unfold hex_quantity in Hin.
      repeat (apply elem_of_cons in Hin as [Hin|Hin]; [discriminate Hin|]). by apply not_elem_of_nil in Hin. }
  unfold strip_0x, hex_quantity. rewrite strip_prefix_app. cbn [from_option id].
  by rewrite u64_from_to_hex.
Qed.

Lemma shape_block_other v full k : k <> "transactions"%string -> get k (shape_block v full) = get k v.
Proof. intros Hk. unfold shape_block. destruct full; [done|]. by apply get_update_ne. Qed.

Lemma shape_block_txs v txs :
  get_array "transactions" v = Some txs ->
  get_array "transactions" (shape_block v false) = Some (map tx_to_hash txs).
Proof.
  unfold get_array, shape_block. rewrite get_update_eq.
  destruct (get "transactions" v) as [[]|]; cbn; try done. by intros [= ->].
Qed.

Context {BL : BlockstoreLaws B} {FL : FjallLaws F} {JL : JsonLaws J} {XL : HexLaws X}.

(** A stored block is the same block however it is asked for.  By its
    number or by its hash, a caller gets the stored value; without full
    transactions only the [transactions] array differs, each entry reduced to
    its hash; and a block that is only in the join buffer is already served by
    number. *)
Theorem block_lookups_agree api a h hash v b logs full :
  refines (ea_storage api) a -> is_u64 h -> length hash = 32%nat ->
  json_wf v = true -> to_vec v = Some b ->
  (a_blocks a !! h = Some [b; logs] -> a_hash a !! hash = Some h ->
     get_block_by_number api (hex_quantity h) full = Ok (Some (shape_block v full)) /\
     get_block_by_hash api ("0x" ++ hex_encode hash)%string full = Ok (Some (shape_block v full))) /\
  (a_blocks a !! h = None -> (ea_join api ≫= fun j => buffered_block j h) = Some b ->
     get_block_by_number api (hex_quantity h) full = Ok (Some (shape_block v full))) /\
  (forall k, k <> "transactions"%string -> get k (shape_block v full) = get k v) /\
  (forall txs, get_array "transactions" v = Some txs ->
     get_array "transactions" (shape_block v false) = Some (map tx_to_hash txs)).
Proof.
  intros Hr Hh Hl Hwf Hv. pose proof (from_to_vec v b Hwf Hv) as Hd.
  unfold get_block_by_number, get_block_by_hash, lookup_block, select_block.
  rewrite hex_quantity_tag by done. cbn [result_bind]. repeat split.
  - by rewrite (read_block_value_refines api a h [b; logs] b v Hr H eq_refl Hd).
  - rewrite parse_hash_roundtrip by done. cbn [result_bind]. unfold get_by_hash.
    rewrite (height_of_hash_refines _ a _ Hr), H0. cbn [result_bind].
    pose proof (read_block_value_refines api a h [b; logs] b v Hr H eq_refl Hd) as Hb.
    pose proof (get_element_refines (ea_storage api) a h BLOCK Hr) as Hg. rewrite H in Hg. cbn in Hg.
    unfold get_by_height. destruct (get_element (ea_storage api) h BLOCK) as [[el|]|]; cbn in Hg |- *; simplify_eq.
    unfold decode_block. by rewrite Hd.
  - intros Hn Hj. unfold read_block_value, get_by_height.
    pose proof (get_element_refines (ea_storage api) a h BLOCK Hr) as Hg. rewrite Hn in Hg. cbn in Hg.
    destruct (get_element (ea_storage api) h BLOCK) as [[el|]|]; cbn in Hg |- *; simplify_eq.
    rewrite Hj. unfold decode_block. by rewrite Hd.
  - intros k. apply shape_block_other.
  - apply shape_block_txs.
Qed.

End Blocks.
