(* ===== verification/PlatformIngest.v ===== *)
(** * P-chain ingestion (src/platform/ingest.rs and the block shapes of
    src/platform/mod.rs)

    Fetching the two encodings of a height and cross-checking them, holding a
    reward proposal until the next block decides it, and the polling loop. *)

From Stdlib Require Import ZArith NArith Lia String Ascii.
From S2P Require Import Prelude Str Json Chain Record Backing Storage StorageSpec Codec Upstream Http EthFetch Progress Subscribe.

(** ** Transactions of a block (src/platform/mod.rs) *)

Definition block_txs (block : Value) : list Value :=
  default [] (get_array "txs" block) ++ match get "tx" block with Some tx => [tx] | None => [] end.

(** [swap_remove] and [take] hand out the value; the block is then dropped. *)
Definition take_nth_tx (block : Value) (idx : nat) : option Value :=
  let len := match get_array "txs" block with Some l => length l | None => 0%nat end in
  if (idx <? len)%nat then get_array "txs" block ≫= fun l => l !! idx
  else if negb (idx =? len)%nat then None
  else get "tx" block.

(** ** Verified blocks *)

Record FetchedBlock : Type := {
  fb_height : N;
  fb_bytes_json : bytes;
  fb_json : bytes;
  fb_id : bytes;
  fb_tx_ids : list bytes;
  fb_timestamp : option N;
  fb_kind : BlockKind;
  fb_reward_staking_tx : option string
}.

(** [unsignedTx] is walked with [?]: any missing step is "not a reward". *)
Definition reward_staking_tx (json_value : Value) : option string :=
  tx ← get "tx" json_value;
  unsigned ← get "unsignedTx" tx;
  if bool_decide (is_Some (get "time" unsigned)) || bool_decide (is_Some (get "inputs" unsigned))
  then None
  else get_str "txID" unsigned.

Section Verify.
Context {J : JsonLib} {X : HexLib} {L : CodecLib}.

Definition tx_id_of (tx : Value) : option bytes :=
  s ← get_str "id" tx;
  match cb58_decode s with Ok id => Some id | Err _ => None end.

Definition extract_tx_ids (block : Value) : list bytes := omap tx_id_of (block_txs block).

Definition verify (bytes_value json_value : Value) (expect_height : option N) : option FetchedBlock :=
  let reported_height := get_u64 "height" json_value in
  match Json.as_str bytes_value with
  | None => None
  | Some hex =>
      match hexnc_decode hex with
      | Err _ => None
      | Ok raw =>
          let reported_id := default EmptyString (get_str "id" json_value) in
          let derived_id := block_id_of raw in
          if decide (reported_id <> derived_id) then None
          else match reported_height with
          | None => None
          | Some height =>
              if match expect_height with Some want => negb (want =? height)%N | None => false end then None
              else match cb58_decode derived_id with
              | Err _ => None
              | Ok id =>
                  let?? bytes_json := to_vec bytes_value in
                  let?? json := to_vec json_value in
                  Some {| fb_height := height; fb_bytes_json := bytes_json; fb_json := json; fb_id := id;
                          fb_tx_ids := extract_tx_ids json_value; fb_timestamp := get_u64 "time" json_value;
                          fb_kind := block_kind raw; fb_reward_staking_tx := reward_staking_tx json_value |}
              end
          end
      end
  end.

Definition verify_record (bytes_value json_value : Value) : option FetchedBlock :=
  verify bytes_value json_value None.

End Verify.

(** ** Requests *)

Definition P_RPC_MAX_ATTEMPTS : nat := 3.
Definition P_RPC_RETRY_BACKOFF_MS : N := 50.
Definition FILL_CHUNK : N := 8192.

Definition p_backoff (attempt : nat) : N :=
  from_millis (sat_mul P_RPC_RETRY_BACKOFF_MS (2 ^ N.of_nat (attempt `min` 10))).

Section Requests.
Context {H : Http}.

(** Every attempt takes a pacer slot of its own. *)
Fixpoint p_attempts (cfg : IngestCfg) (body : Value) (remaining attempt : nat) : IO (option Value) :=
  match remaining with
  | O => io_ret None
  | S remaining =>
      let* _ := io_pace in
      let* resp := io_post (cfg_rpc_url cfg) body in
      match resp with
      | SendError => io_ret None
      | Response status header json =>
          if is_throttle status then
            let* _ := io_throttle (cfg_max_wait cfg) (default 5%N (retry_after_secs header)) in
            p_attempts cfg body remaining (S attempt)
          else
            match json with
            | None => io_ret None
            | Some parsed =>
                match usable_result parsed with
                | Some v => io_ret (Some v)
                | None =>
                    let* _ := io_sleep (p_backoff attempt) in
                    p_attempts cfg body remaining (S attempt)
                end
            end
      end
  end.

Definition p_fetch_rpc (cfg : IngestCfg) (method : string) (params : Value) : IO (option Value) :=
  p_attempts cfg (rpc_body method params) P_RPC_MAX_ATTEMPTS 0.

(** avalanchego writes numbers as strings; a JSON number is accepted too. *)
Definition height_of_result (result : Value) : option N :=
  raw ← get "height" result;
  match Json.as_str raw ≫= parse_u64 with
  | Some h => Some h
  | None => as_u64 raw
  end.

Definition fetch_height (cfg : IngestCfg) : IO (option N) :=
  let* result := p_fetch_rpc cfg "platform.getHeight" (VObject []) in
  io_ret (result ≫= height_of_result).

Definition reward_request (staking_tx : string) : Value :=
  VObject [("encoding", VString "hex"); ("txID", VString staking_tx)].

Definition fetch_reward_utxos (cfg : IngestCfg) (staking_tx : string) : IO (option Value) :=
  let* result := p_fetch_rpc cfg "platform.getRewardUTXOs" (reward_request staking_tx) in
  io_ret ((fun r => default (VArray []) (get "utxos" r)) <$> result).

Definition encoding_request (height : N) (encoding : Encoding) : Value :=
  VObject [("encoding", VString (encoding_as_str encoding)); ("height", VNumber (PosInt height))].

Definition fetch_block_encoding (cfg : IngestCfg) (height : N) (encoding : Encoding) : IO (option Value) :=
  let* result := p_fetch_rpc cfg "platform.getBlockByHeight" (encoding_request height encoding) in
  io_ret (result ≫= get "block").

Context {J : JsonLib} {X : HexLib} {L : CodecLib}.

(** The two halves of [tokio::join!], bytes first. *)
Definition fetch_block (cfg : IngestCfg) (height : N) : IO (option FetchedBlock) :=
  let* bytes_value := fetch_block_encoding cfg height Hexnc in
  let* json_value := fetch_block_encoding cfg height EJson in
  io_ret (let?? b := bytes_value in let?? j := json_value in verify b j (Some height)).

(** The settings of the startup handshake. *)
Definition handshake_cfg (rpc_url : string) (max_wait : N) : IngestCfg :=
  {| cfg_chain := P; cfg_max_wait := max_wait; cfg_ws_idle_timeout := 0; cfg_ws_url := "";
     cfg_rpc_url := rpc_url; cfg_poll_interval := from_secs 1;
     cfg_subscribe_blocks := false; cfg_backfill_inter_fetch := 0; cfg_fetch_concurrency := 1; cfg_backfill_floor := None;
     cfg_prefetch_delay_cap := 0; cfg_progress_period := from_secs 60; cfg_ingest_logs := false;
     cfg_logs_source := GetLogs |}.

Definition fetch_genesis_id (rpc_url : string) (max_wait : N) : IO (result string) :=
  let* bytes_json := fetch_block_encoding (handshake_cfg rpc_url max_wait) 0 Hexnc in
  io_ret (let? v := ok_or bytes_json EHttp in
          let? hex := ok_or (Json.as_str v) EMissingResult in
          let? raw := hexnc_decode hex in
          Ok (block_id_of raw)).

(** The rewards element of a held proposal, by the kind of the block after it. *)
Definition resolve_reward (cfg : IngestCfg) (proposal : FetchedBlock) (outcome : BlockKind)
    : IO (option bytes) :=
  match fb_reward_staking_tx proposal with
  | None => io_ret None
  | Some staking_tx =>
      match outcome with
      | Abort => io_ret (Some EMPTY_ARRAY)
      | Commit =>
          let* utxos := fetch_reward_utxos cfg staking_tx in
          io_ret (utxos ≫= to_vec)
      | Proposal | Other => io_ret None
      end
  end.

End Requests.

(** ** The loop *)

Definition next_height (is_empty : bool) (contiguous : N) (cfg : IngestCfg) (tip : N) : N :=
  if is_empty then default tip (cfg_backfill_floor cfg) else sat_add contiguous 1.

Section Ingest.
Context {B : Blockstore} {F : Fjall} {J : JsonLib} {X : HexLib} {L : CodecLib} {H : Http}.

Definition fetched_elements (fetched : FetchedBlock) (rewards : bytes) : list bytes :=
  [fb_json fetched; fb_bytes_json fetched; rewards].

(** [Some height] on success. *)
Definition store_block (fetched : FetchedBlock) (rewards : bytes) (st : Storage) : Storage * option N :=
  match put (fb_height fetched) (fb_id fetched) (fb_tx_ids fetched) (fetched_elements fetched rewards) st with
  | (st, Ok _) => (st, Some (fb_height fetched))
  | (st, Err _) => (st, None)
  end.

Record PRun : Type := {
  pr_storage : Storage;
  pr_net : Net;
  pr_progress : BackfillProgress;
  pr_behind_tip : N;
  pr_live : list LiveUpdate;
  pr_receivers : nat
}.

Definition set_pr_net (n : Net) (r : PRun) : PRun :=
  {| pr_storage := pr_storage r; pr_net := n; pr_progress := pr_progress r;
     pr_behind_tip := pr_behind_tip r; pr_live := pr_live r; pr_receivers := pr_receivers r |}.

Definition set_pr_storage (st : Storage) (r : PRun) : PRun :=
  {| pr_storage := st; pr_net := pr_net r; pr_progress := pr_progress r;
     pr_behind_tip := pr_behind_tip r; pr_live := pr_live r; pr_receivers := pr_receivers r |}.

Definition set_pr_report (p : BackfillProgress) (behind : N) (r : PRun) : PRun :=
  {| pr_storage := pr_storage r; pr_net := pr_net r; pr_progress := p;
     pr_behind_tip := behind; pr_live := pr_live r; pr_receivers := pr_receivers r |}.

Definition announce (block_json : bytes) (elements : list bytes) (r : PRun) : PRun :=
  if (pr_receivers r =? 0)%nat then r
  else match from_slice block_json with
  | None => r
  | Some block =>
      {| pr_storage := pr_storage r; pr_net := pr_net r; pr_progress := pr_progress r;
         pr_behind_tip := pr_behind_tip r;
         pr_live := pr_live r ++ [{| lu_block := block; lu_record := from_slice (encode elements) |}];
         pr_receivers := pr_receivers r |}
  end.

Definition p_emit (clock : N -> N) (fetched : FetchedBlock) (rewards : bytes) (tip : N) (r : PRun)
    : PRun * bool :=
  let at_tip := (tip <=? fb_height fetched)%N in
  match store_block fetched rewards (pr_storage r) with
  | (st, None) => (set_pr_storage st r, false)
  | (st, Some _) =>
      let r := set_pr_storage st r in
      let behind := sat_sub tip (fb_height fetched) in
      let '(p, _, _) := observe (clock (fb_height fetched)) (fb_height fetched) tip behind (pr_progress r) in
      let r := set_pr_report p behind r in
      (if at_tip then announce (fb_json fetched) (fetched_elements fetched rewards) r else r, true)
  end.

(** Write the held proposal, if there is one, now that [fetched] decides it. *)
Definition resolve_pending (cfg : IngestCfg) (clock : N -> N) (tip : N) (pending : option FetchedBlock)
    (fetched : FetchedBlock) (r : PRun) : PRun * fate bool :=
  match pending with
  | None => (r, Done true)
  | Some proposal =>
      match resolve_reward cfg proposal (fb_kind fetched) (pr_net r) with
      | (n, ParkedForever) => (set_pr_net n r, ParkedForever)
      | (n, Done None) => (set_pr_net n r, Done false)
      | (n, Done (Some rewards)) =>
          let '(r, ok) := p_emit clock proposal rewards tip (set_pr_net n r) in (r, Done ok)
      end
  end.

(** The [while let] of [fill_range], with the one-deep hold. *)
Fixpoint p_fill_loop (cfg : IngestCfg) (clock : N -> N) (tip : N) (hs : list N)
    (pending : option FetchedBlock) (r : PRun) : PRun * fate bool :=
  match hs with
  | [] => (r, Done true)
  | h :: hs =>
      match fetch_block cfg h (pr_net r) with
      | (n, ParkedForever) => (set_pr_net n r, ParkedForever)
      | (n, Done None) => (set_pr_net n r, Done false)
      | (n, Done (Some fetched)) =>
          let r := set_pr_net n r in
          match resolve_pending cfg clock tip pending fetched r with
          | (r, Done true) =>
              match fb_reward_staking_tx fetched with
              | Some _ => p_fill_loop cfg clock tip hs (Some fetched) r
              | None =>
                  match p_emit clock fetched EMPTY_ARRAY tip r with
                  | (r, true) => p_fill_loop cfg clock tip hs None r
                  | (r, false) => (r, Done false)
                  end
              end
          | (r, out) => (r, out)
          end
      end
  end.

Definition p_fill_range (cfg : IngestCfg) (clock : N -> N) (from to tip : N) (r : PRun) : PRun * fate bool :=
  p_fill_loop cfg clock tip (heights from to) None r.

(** How one turn of [ingest] ended. *)
Inductive PPass : Type :=
  | PollFailed
  | PCaughtUp
  | PFilled (from to : N) (complete : bool)
  | PParked.

Record PState : Type := {
  ps_run : PRun; ps_tip : N; ps_tip_read_at : option N; ps_count : N
}.

(** One turn of [ingest]: [now] when it starts, [now'] after the poll. *)
Definition p_pass (cfg : IngestCfg) (now now' : N) (clock : N -> N) (s : PState) : PState * PPass :=
  let stale := match ps_tip_read_at s with
               | Some t => (cfg_poll_interval cfg <=? now - t)%N
               | None => true
               end in
  let polled :=
    if stale then
      match fetch_height cfg (pr_net (ps_run s)) with
      | (n, ParkedForever) => (set_pr_net n (ps_run s), ParkedForever)
      | (n, Done h) => (set_pr_net n (ps_run s), Done h)
      end
    else (ps_run s, Done (Some (ps_tip s))) in
  let read_at := if stale then Some now' else ps_tip_read_at s in
  match polled with
  | (r, ParkedForever) =>
      ({| ps_run := r; ps_tip := ps_tip s; ps_tip_read_at := ps_tip_read_at s; ps_count := ps_count s |}, PParked)
  | (r, Done None) =>
      ({| ps_run := r; ps_tip := ps_tip s; ps_tip_read_at := read_at; ps_count := ps_count s |}, PollFailed)
  | (r, Done (Some tip)) =>
      let contiguous := max_contiguous_height (pr_storage r) in
      let next := next_height (is_empty (pr_storage r)) contiguous cfg tip in
      let behind := sat_add (sat_sub tip next) (if (next <=? tip)%N then 1 else 0) in
      if (tip <? next)%N then
        let '(p, _) := caught_up now' contiguous (pr_progress r) in
        ({| ps_run := set_pr_report p 0 r; ps_tip := tip; ps_tip_read_at := read_at;
            ps_count := ps_count s |}, PCaughtUp)
      else
        let '(p, began, _) := observe now' contiguous tip behind (pr_progress r) in
        let r := set_pr_report p behind r in
        let count := if began then ((ps_count s + 1) mod 2 ^ 64)%N else ps_count s in
        let to := N.min tip (sat_add next (sat_sub FILL_CHUNK 1)) in
        match p_fill_range cfg clock next to tip r with
        | (r, ParkedForever) =>
            ({| ps_run := r; ps_tip := tip; ps_tip_read_at := read_at; ps_count := count |}, PParked)
        | (r, Done complete) =>
            ({| ps_run := r; ps_tip := tip; ps_tip_read_at := read_at; ps_count := count |},
             PFilled next to complete)
        end
  end.

(** The sleep a turn ends with: [Some 0] goes straight on, [None] never does. *)
Definition p_pass_nap (cfg : IngestCfg) (p : PPass) : option N :=
  match p with
  | PollFailed => Some (cfg_poll_interval cfg)
  | PCaughtUp => Some (cfg_poll_interval cfg)
  | PFilled _ _ false => Some (from_secs 1)
  | PFilled _ _ true => Some 0%N
  | PParked => None
  end.

End Ingest.

(** ** One index space for transactions *)

(** Taking the [idx]-th transaction of a block gives the [idx]-th of the list
    the index is built from, for every shape of block. *)
Lemma take_nth_tx_lookup block idx : take_nth_tx block idx = block_txs block !! idx.
Proof.
  unfold take_nth_tx, block_txs. set (tx := get "tx" block).
  destruct (get_array "txs" block) as [l|]; cbn [from_option id].
  - destruct (Nat.ltb_spec idx (length l)) as [Hlt|Hge]; [by rewrite lookup_app_l|].
    rewrite lookup_app_r by done. cbn. destruct (Nat.eqb_spec idx (length l)) as [->|Hne]; cbn.
    + rewrite Nat.sub_diag. by destruct tx.
    + destruct (idx - length l)%nat eqn:E; [lia|]. by destruct tx.
  - destruct idx as [|idx]; cbn; by destruct tx.
Qed.

(** ** Verification *)

Section VerifyFacts.
Context {J : JsonLib} {X : HexLib} {L : CodecLib}.
Context {JL : JsonLaws J} {LL : CodecLaws L}.

(** C15: the cross-check of a P-chain record is exact.  [verify] returns a
    block if and only if the first half is hex for some bytes, the second reports
    the ID those bytes hash to and a height - the expected one, when one is
    expected - and both halves serialize; and the block it returns is the one with
    that height, both halves serialized as received, the SHA-256 of the bytes as
    its index key, the transaction IDs and the time the second half lists, and
    the kind the bytes have. *)
Theorem verify_exact bytes_value json_value expect fb :
  verify bytes_value json_value expect = Some fb <->
  exists hex raw height b j,
    bytes_value = VString hex /\ hexnc_decode hex = Ok raw /\
    default EmptyString (get_str "id" json_value) = cb58_encode (sha256 raw) /\
    get_u64 "height" json_value = Some height /\ (forall want, expect = Some want -> want = height) /\
    to_vec bytes_value = Some b /\ to_vec json_value = Some j /\
    fb = {| fb_height := height; fb_bytes_json := b; fb_json := j; fb_id := sha256 raw;
            fb_tx_ids := extract_tx_ids json_value; fb_timestamp := get_u64 "time" json_value;
            fb_kind := block_kind raw; fb_reward_staking_tx := reward_staking_tx json_value |}.
Proof.
  unfold verify, block_id_of. split.
  - intros E. destruct bytes_value as [| | |hex| |]; cbn [Json.as_str] in E; try done.
    destruct (hexnc_decode hex) as [raw|] eqn:Eh; [|done]. cbv zeta in E.
    case_decide as Hid; [done|]. destruct (get_u64 "height" json_value) as [h|] eqn:Ehh; [|done].
    destruct (match expect with Some want => _ | None => _ end) eqn:Ew; [done|].
    rewrite cb58_roundtrip in E by apply sha256_length.
    destruct (to_vec (VString hex)) as [b|] eqn:Eb; [|done]. destruct (to_vec json_value) as [j|] eqn:Ej; [|done].
    injection E as <-. exists hex, raw, h, b, j. split_and!; try done.
    intros want ->. by destruct (N.eqb_spec want h).
  - intros (hex & raw & h & b & j & -> & Eh & Hid & Ehh & Hw & Eb & Ej & ->). cbn [Json.as_str].
    rewrite Eh, Hid. cbv zeta. rewrite decide_False by (by intros []). rewrite Ehh.
    replace (match expect with Some want => negb (want =? h)%N | None => false end) with false.
    2:{ destruct expect as [want|]; [|done]. by rewrite (Hw want eq_refl), N.eqb_refl. }
    rewrite cb58_roundtrip by apply sha256_length. by rewrite Eb, Ej.
Qed.

Lemma verify_height bv jv h fb : verify bv jv (Some h) = Some fb -> fb_height fb = h.
Proof.
  unfold verify. destruct (Json.as_str bv); [|done]. destruct (hexnc_decode s); [|done]. cbv zeta.
  case_decide; [done|]. destruct (get_u64 "height" jv) as [h'|]; [|done].
  destruct (N.eqb_spec h h') as [->|]; cbn; [|done]. destruct (cb58_decode _); [|done].
  destruct (to_vec bv); [|done]. destruct (to_vec jv); [|done]. by intros [= <-].
Qed.

End VerifyFacts.

(** ** What a run writes *)

Section Requests.
Context {H : Http}.

Lemma grows_p_attempts cfg body remaining attempt : grows (p_attempts cfg body remaining attempt).
Proof.
  revert attempt; induction remaining as [|k IH]; intros attempt; cbn [p_attempts]; [auto with neve|].
  apply grows_bind; [apply grows_emit|]. intros _. apply grows_bind; [auto with neve|].
  intros [|status header json]; [auto with neve|]. destruct (is_throttle status).
  - apply grows_bind; [|auto with neve]. unfold io_throttle, io_sleep. destruct (handle_throttle _ _); auto with neve.
  - destruct json as [parsed|]; [|auto with neve]. destruct (usable_result parsed); [auto with neve|].
    apply grows_bind; [apply grows_emit|auto with neve].
Qed.

Lemma grows_p_fetch_rpc cfg method params : grows (p_fetch_rpc cfg method params).
Proof. apply grows_p_attempts. Qed.

Lemma p_attempts_answered cfg body remaining : forall attempt n n' v,
  p_attempts cfg body remaining attempt n = (n', Done (Some v)) -> answered (net_trace n') body v.
Proof.
  induction remaining as [|k IH]; intros attempt n n' v; cbn [p_attempts]; [done|]. intros E.
  apply io_bind_inv in E as [[_ ?]|(n1 & [] & _ & E)]; [done|].
  apply io_bind_inv in E as [[_ ?]|(n2 & rep & E2 & E)]; [done|].
  destruct (runs_post (cfg_rpc_url cfg) body n1) as (n2' & rep' & E2' & T).
  rewrite E2 in E2'. injection E2' as <- <-.
  destruct rep as [|status header json]; [done|]. destruct (is_throttle status) eqn:Et.
  - apply io_bind_inv in E as [[_ ?]|(n3 & [] & _ & E)]; [done|]. by eapply IH.
  - destruct json as [parsed|]; [|done]. destruct (usable_result parsed) as [w|] eqn:Eu.
    + injection E as <- <-. exists (cfg_rpc_url cfg), (Response status header (Some parsed)).
      split; [rewrite T; apply elem_of_app; right; apply elem_of_cons; by left|]. cbn. by rewrite Et.
    + apply io_bind_inv in E as [[_ ?]|(n3 & [] & _ & E)]; [done|]. by eapply IH.
Qed.

End Requests.

#[export] Hint Resolve grows_p_fetch_rpc : neve.

Section Runs.
Context {B : Blockstore} {F : Fjall} {J : JsonLib} {X : HexLib} {L : CodecLib} {H : Http}.

(** The upstream returned [v] as block [h] in one encoding. *)
Definition encoded_at (tr : list Effect) (h : N) (e : Encoding) (v : Value) : Prop :=
  exists r, answered tr (rpc_body "platform.getBlockByHeight" (encoding_request h e)) r /\
            get "block" r = Some v.

(** A block verified from the upstream's two answers for height [h]. *)
Definition fetched_at (tr : list Effect) (h : N) (fb : FetchedBlock) : Prop :=
  exists bv jv, encoded_at tr h Hexnc bv /\ encoded_at tr h EJson jv /\ verify bv jv (Some h) = Some fb.

(** The rewards element is one the chain decided. *)
Definition rewards_settled (tr : list Effect) (fb : FetchedBlock) (rewards : bytes) : Prop :=
  match fb_reward_staking_tx fb with
  | None => rewards = EMPTY_ARRAY
  | Some tx => exists next, fetched_at tr (fb_height fb + 1) next /\
      ((fb_kind next = Abort /\ rewards = EMPTY_ARRAY) \/
       (fb_kind next = Commit /\ exists r,
          answered tr (rpc_body "platform.getRewardUTXOs" (reward_request tx)) r /\
          to_vec (default (VArray []) (get "utxos" r)) = Some rewards))
  end.

Definition settled_cmd (tr : list Effect) (c : PutCmd) : Prop :=
  exists fb rewards, fetched_at tr (cmd_height c) fb /\ rewards_settled tr fb rewards /\
    cmd_hash c = fb_id fb /\ cmd_txs c = fb_tx_ids fb /\ cmd_elements c = fetched_elements fb rewards.

Lemma encoded_at_extends tr tr' h e v : extends tr tr' -> encoded_at tr h e v -> encoded_at tr' h e v.
Proof. intros Hx (r & Ha & Hg). exists r. split; [by eapply answered_extends|done]. Qed.

Lemma fetched_at_extends tr tr' h fb : extends tr tr' -> fetched_at tr h fb -> fetched_at tr' h fb.
Proof. intros Hx (bv & jv & H1 & H2 & Hv). exists bv, jv. eauto using encoded_at_extends. Qed.

Lemma rewards_settled_extends tr tr' fb rw :
  extends tr tr' -> rewards_settled tr fb rw -> rewards_settled tr' fb rw.
Proof.
  intros Hx. unfold rewards_settled. destruct (fb_reward_staking_tx fb); [|done].
  intros (nx & Hn & Hc). exists nx. split; [by eapply fetched_at_extends|].
  destruct Hc as [Hc|(Hk & r & Ha & Hr)]; [by left|right]. split; [done|]. exists r.
  split; [by eapply answered_extends|done].
Qed.

Lemma settled_cmd_extends tr tr' c : extends tr tr' -> settled_cmd tr c -> settled_cmd tr' c.
Proof.
  intros Hx (fb & rw & H1 & H2 & Hrest). exists fb, rw.
  split; [by eapply fetched_at_extends|]. split; [by eapply rewards_settled_extends|done].
Qed.

Lemma grows_fetch_block_encoding cfg h e : grows (fetch_block_encoding cfg h e).
Proof. unfold fetch_block_encoding. auto with neve. Qed.

Lemma fetch_block_encoding_at cfg h e n n' v :
  fetch_block_encoding cfg h e n = (n', Done (Some v)) -> encoded_at (net_trace n') h e v.
Proof.
  intros E. apply io_bind_inv in E as [[_ ?]|(n1 & [r|] & E1 & E)]; [done| |done].
  injection E as -> Hg. exists r. split; [by eapply p_attempts_answered|done].
Qed.

Lemma grows_fetch_block cfg h : grows (fetch_block cfg h).
Proof. unfold fetch_block. auto using grows_bind, grows_ret, grows_fetch_block_encoding. Qed.

Lemma fetch_block_at cfg h n n' fb :
  fetch_block cfg h n = (n', Done (Some fb)) -> fetched_at (net_trace n') h fb.
Proof.
  intros E. apply io_bind_inv in E as [[_ ?]|(n1 & bv & E1 & E)]; [done|].
  apply io_bind_inv in E as [[_ ?]|(n2 & jv & E2 & E)]; [done|].
  destruct bv as [bv|], jv as [jv|]; try (by inversion E). injection E as -> Hv. exists bv, jv.
  split; [|split; [by eapply fetch_block_encoding_at|done]].
  eapply encoded_at_extends; [exact (grows_fetch_block_encoding _ _ _ _ _ _ E2)|].
  by eapply fetch_block_encoding_at.
Qed.

Lemma grows_resolve_reward cfg fb k : grows (resolve_reward cfg fb k).
Proof.
  unfold resolve_reward, fetch_reward_utxos. destruct (fb_reward_staking_tx fb), k; auto with neve.
Qed.

Lemma resolve_reward_settled cfg fb next n n' rw :
  fetched_at (net_trace n) (fb_height fb + 1) next ->
  resolve_reward cfg fb (fb_kind next) n = (n', Done (Some rw)) -> rewards_settled (net_trace n') fb rw.
Proof.
  intros Hn E. pose proof (grows_resolve_reward _ _ _ _ _ _ E) as Hg. unfold rewards_settled, resolve_reward in *.
  destruct (fb_reward_staking_tx fb) as [tx|]; [|by inversion E].
  exists next. split; [by eapply fetched_at_extends|]. destruct (fb_kind next) eqn:Ek; try (by inversion E).
  - right. split; [done|]. apply io_bind_inv in E as [[_ ?]|(n1 & u & E1 & E)]; [done|].
    apply io_bind_inv in E1 as [[_ ?]|(n2 & r & E2 & E1)]; [done|].
    injection E1 as -> <-. destruct r as [r|]; [|by inversion E]. injection E as -> Hv. exists r.
    split; [by eapply p_attempts_answered|done].
  - left. injection E as _ <-. done.
Qed.

(** The outcome of emitting a block is that of one [put] of it. *)
Lemma p_emit_put clock fb rw tip r r' ok :
  p_emit clock fb rw tip r = (r', ok) ->
  exists res, put (fb_height fb) (fb_id fb) (fb_tx_ids fb) (fetched_elements fb rw) (pr_storage r)
                = (pr_storage r', res) /\ (ok = true -> res = Ok tt).
Proof.
  unfold p_emit, store_block. destruct (put _ _ _ _ (pr_storage r)) as [st [[]|e]].
  - destruct (observe _ _ _ _ _) as [[p began] line]. intros [= <- <-]. exists (Ok tt). split; [|done].
    unfold announce. destruct (tip <=? fb_height fb)%N; [|done]. cbn.
    destruct (pr_receivers r =? 0)%nat; [done|]. by destruct (from_slice (fb_json fb)).
  - intros [= <- <-]. by exists (Err e).
Qed.

Lemma p_emit_net clock fb rw tip r r' ok : p_emit clock fb rw tip r = (r', ok) -> pr_net r' = pr_net r.
Proof.
  unfold p_emit. destruct (store_block fb rw (pr_storage r)) as [st [h|]]; [|by intros [= <- <-]].
  destruct (observe _ _ _ _ _) as [[p began] line]. intros [= <- <-]. unfold announce.
  destruct (tip <=? fb_height fb)%N; [|done]. cbn.
  destruct (pr_receivers r =? 0)%nat; [done|]. by destruct (from_slice (fb_json fb)).
Qed.

(** What is held is a verified reward proposal, one below the next height. *)
Definition held_ok (tr : list Effect) (from : N) (pending : option FetchedBlock) : Prop :=
  forall p, pending = Some p ->
    fetched_at tr (fb_height p) p /\ (fb_height p + 1)%N = from /\ is_Some (fb_reward_staking_tx p).

(** The first height not written yet. *)
Definition unwritten (from : N) (pending : option FetchedBlock) : N :=
  match pending with Some p => fb_height p | None => from end.

Definition consecutive (lo : N) (cs : list PutCmd) : Prop :=
  forall i c, cs !! i = Some c -> cmd_height c = (lo + N.of_nat i)%N.

Lemma consecutive_app lo cs1 cs2 :
  consecutive lo cs1 -> consecutive (lo + N.of_nat (length cs1)) cs2 -> consecutive lo (cs1 ++ cs2).
Proof.
  intros H1 H2 i c [Hi|[Hle Hi]]%lookup_app_Some; [by apply H1|]. rewrite (H2 _ _ Hi). lia.
Qed.

(** The part of a run from [r] to [r']: it wrote settled blocks of the heights
    from [lo] up, one after the other and none past [to]; when it went well, of
    all heights below [next]. *)
Definition ran (lo to next : N) (r r' : PRun) (ok : bool) : Prop :=
  extends (net_trace (pr_net r)) (net_trace (pr_net r')) /\ exists cs res,
    run_puts cs (pr_storage r) = (pr_storage r', res) /\ consecutive lo cs /\
    Forall (settled_cmd (net_trace (pr_net r'))) cs /\ (lo + N.of_nat (length cs) <= to + 1)%N /\
    (ok = true -> res = Ok tt /\ (lo + N.of_nat (length cs))%N = next).

Lemma ran_net lo to r n ok :
  (lo <= to + 1)%N -> extends (net_trace (pr_net r)) (net_trace n) -> ran lo to lo r (set_pr_net n r) ok.
Proof.
  intros Hlo Hx. split; [done|]. exists [], (Ok tt).
  split_and!; [done|by intros i c|constructor|cbn; lia|cbn; intros _; split; [done|lia]].
Qed.

(** A part that was cut short. *)
Lemma ran_cut lo to next next' r r' ok : ran lo to next r r' ok -> ran lo to next' r r' false.
Proof. intros (Hx & cs & res & H1 & H2 & H3 & H4 & _). split; [done|]. exists cs, res. by split_and!. Qed.

Lemma ran_refl lo to r ok : (lo <= to + 1)%N -> ran lo to lo r r ok.
Proof. intros Hlo. apply (ran_net lo to r (pr_net r)); [done|apply extends_refl]. Qed.

Lemma ran_trans lo mid to next r r1 r2 ok :
  ran lo to mid r r1 true -> ran mid to next r1 r2 ok -> ran lo to next r r2 ok.
Proof.
  intros (Hx1 & cs1 & e1 & E1 & Hc1 & Hf1 & _ & Hok1) (Hx2 & cs2 & e2 & E2 & Hc2 & Hf2 & Hb2 & Hok2).
  destruct (Hok1 eq_refl) as [-> <-]. split; [by eapply extends_trans|]. exists (cs1 ++ cs2), e2.
  rewrite length_app. split_and!.
  - by rewrite (run_puts_app cs1 cs2 _ _ E1).
  - by apply consecutive_app.
  - apply Forall_app. split; [|done]. eapply Forall_impl; [exact Hf1|]. intros c. by apply settled_cmd_extends.
  - lia.
  - intros Hok. destruct (Hok2 Hok) as [-> <-]. split; [done|lia].
Qed.

Lemma p_emit_ran clock fb rw tip r r' ok to :
  fetched_at (net_trace (pr_net r)) (fb_height fb) fb -> rewards_settled (net_trace (pr_net r)) fb rw ->
  (fb_height fb <= to)%N -> p_emit clock fb rw tip r = (r', ok) ->
  ran (fb_height fb) to (fb_height fb + 1) r r' ok.
Proof.
  intros Hf Hs Hb E. pose proof (p_emit_net _ _ _ _ _ _ _ E) as Hn.
  destruct (p_emit_put _ _ _ _ _ _ _ E) as (res & Hp & Hok).
  set (c := {| cmd_height := fb_height fb; cmd_hash := fb_id fb; cmd_txs := fb_tx_ids fb;
               cmd_elements := fetched_elements fb rw |}).
  split; [rewrite Hn; apply extends_refl|]. exists [c], res. split_and!.
  - cbn [run_puts]. unfold bind, run_put. cbn. rewrite Hp. by destruct res as [[]|].
  - intros [|i] c'; [intros [= <-]; cbn; lia|done].
  - rewrite Hn. constructor; [|constructor]. by exists fb, rw.
  - cbn. lia.
  - intros Ho. split; [by apply Hok|cbn; lia].
Qed.

Definition completed (out : fate bool) : bool := match out with Done true => true | _ => false end.

Lemma resolve_pending_ran cfg clock tip pending fetched r r' out h to :
  held_ok (net_trace (pr_net r)) h pending -> fetched_at (net_trace (pr_net r)) h fetched -> (h <= to)%N ->
  resolve_pending cfg clock tip pending fetched r = (r', out) ->
  ran (unwritten h pending) to h r r' (completed out).
Proof.
  intros Hp Hf Hb. unfold resolve_pending, unwritten.
  destruct pending as [p|]; [|intros [= <- <-]; apply ran_refl; lia].
  destruct (Hp p eq_refl) as (Hfp & Hh & _).
  destruct (resolve_reward cfg p (fb_kind fetched) (pr_net r)) as [n o] eqn:Er.
  pose proof (grows_resolve_reward _ _ _ _ _ _ Er) as Hg.
  assert (Hnet : forall ok, ran (fb_height p) to (fb_height p) r (set_pr_net n r) ok) by (intros; apply ran_net; [lia|done]).
  destruct o as [[rw|]|]; [|intros [= <- <-]; eapply ran_cut, (Hnet true)..].
  destruct (p_emit clock p rw tip (set_pr_net n r)) as [r1 ok] eqn:Ee. intros [= <- <-].
  eapply (ran_trans (fb_height p) (fb_height p)); [apply Hnet|].
  eapply p_emit_ran in Ee; [rewrite Hh in Ee; by destruct ok| | |lia].
  - cbn. by eapply fetched_at_extends.
  - cbn. eapply resolve_reward_settled; [|exact Er]. by rewrite Hh.
Qed.

Lemma resolve_pending_grows cfg clock tip pending fb r r' out :
  resolve_pending cfg clock tip pending fb r = (r', out) -> extends (net_trace (pr_net r)) (net_trace (pr_net r')).
Proof.
  unfold resolve_pending. destruct pending as [p|]; [|intros [= <- _]; apply extends_refl].
  destruct (resolve_reward cfg p (fb_kind fb) (pr_net r)) as [n o] eqn:E.
  pose proof (grows_resolve_reward _ _ _ _ _ _ E) as Hg. destruct o as [[rw|]|]; try (by intros [= <- _]).
  destruct (p_emit clock p rw tip (set_pr_net n r)) as [r2 ok] eqn:Ee. intros [= <- _].
  by rewrite (p_emit_net _ _ _ _ _ _ _ Ee).
Qed.

Lemma held_ok_extends tr tr' from pending : extends tr tr' -> held_ok tr from pending -> held_ok tr' from pending.
Proof. intros Hx Hp p Hpp. destruct (Hp p Hpp) as (Hf & Hrest). split; [by eapply fetched_at_extends|done]. Qed.

(** How far a completed run got: to its end, or to the proposal it holds there. *)
Definition ended_at (tr : list Effect) (to next : N) : Prop :=
  next = (to + 1)%N \/ next = to /\ exists p, fetched_at tr to p /\ is_Some (fb_reward_staking_tx p).

Lemma p_fill_loop_ran cfg clock tip to k : forall from pending r r' out,
  N.of_nat k = (to + 1 - from)%N -> (from <= to + 1)%N -> held_ok (net_trace (pr_net r)) from pending ->
  p_fill_loop cfg clock tip (heights from to) pending r = (r', out) ->
  exists next, ran (unwritten from pending) to next r r' (completed out) /\
    (out = Done true -> ended_at (net_trace (pr_net r')) to next).
Proof.
  induction k as [|k IH]; intros from pending r r' out Hk Hle Hp.
  { rewrite heights_nil by lia. intros [= <- <-]. exists (unwritten from pending). unfold unwritten.
    destruct pending as [p|]; [destruct (Hp p eq_refl) as (Hf & Hh & Hs)|]; (split; [apply ran_refl; lia|]); intros _.
    - right. replace to with (fb_height p) by lia. split; [done|]. by exists p.
    - left. lia. }
  rewrite heights_cons by lia. cbn [p_fill_loop].
  destruct (fetch_block cfg from (pr_net r)) as [n f] eqn:Ef.
  pose proof (grows_fetch_block _ _ _ _ _ Ef) as Hg.
  assert (Hnet : ran (unwritten from pending) to (unwritten from pending) r (set_pr_net n r) true).
  { apply ran_net; [|done]. unfold unwritten. destruct pending as [p|]; [destruct (Hp p eq_refl) as (_ & ? & _)|]; lia. }
  destruct f as [[fb|]|];
    [|intros [= <- <-]; exists 0%N; (split; [by eapply ran_cut|done])..].
  apply fetch_block_at in Ef. cbv zeta.
  destruct (resolve_pending cfg clock tip pending fb (set_pr_net n r)) as [r1 o1] eqn:Er.
  pose proof (resolve_pending_grows _ _ _ _ _ _ _ _ Er) as Hg1.
  apply (resolve_pending_ran cfg clock tip pending fb _ _ _ from to) in Er;
    [|by eapply held_ok_extends|exact Ef|lia].
  pose proof (ran_trans _ _ _ _ _ _ _ _ Hnet Er) as H1. clear Er Hnet.
  assert (Hfh : fb_height fb = from) by (destruct Ef as (bv & jv & _ & _ & Hv); by eapply verify_height).
  assert (Hf1 : fetched_at (net_trace (pr_net r1)) (fb_height fb) fb)
    by (rewrite Hfh; by eapply fetched_at_extends).
  destruct o1 as [[|]|]; try (intros [= <- <-]; exists from; split; [exact H1|done]).
  destruct (fb_reward_staking_tx fb) as [tx|] eqn:Etx.
  - intros E. destruct (IH (from + 1)%N (Some fb) r1 r' out) as (next & Hr & He); [lia|lia| |exact E|].
    { intros p [= <-]. split_and!; [done|lia|by rewrite Etx]. }
    exists next. split; [|exact He]. cbn [unwritten] in Hr. rewrite Hfh in Hr. by eapply ran_trans.
  - destruct (p_emit clock fb EMPTY_ARRAY tip r1) as [r2 ok] eqn:Ee.
    apply (p_emit_ran _ _ _ _ _ _ _ to) in Ee; [|done|unfold rewards_settled; by rewrite Etx|lia].
    rewrite Hfh in Ee. pose proof (ran_trans _ _ _ _ _ _ _ _ H1 Ee) as H2.
    destruct ok; [|intros [= <- <-]; exists (from + 1)%N; by split].
    intros E. destruct (IH (from + 1)%N None r2 r' out) as (next & Hr & He); [lia|lia|done|exact E|].
    exists next. split; [by eapply ran_trans|exact He].
Qed.

Lemma p_fill_range_ran cfg clock from to tip r r' out :
  (from <= to + 1)%N -> p_fill_range cfg clock from to tip r = (r', out) ->
  exists next, ran from to next r r' (completed out) /\
    (out = Done true -> ended_at (net_trace (pr_net r')) to next).
Proof. intros Hle E. by apply (p_fill_loop_ran cfg clock tip to (N.to_nat (to + 1 - from)) from None) in E; [|lia|lia|done]. Qed.

(** C14: no P-chain record is written before the chain has settled it.
    Whatever the upstream replies and wherever the run stops, the store moves
    only by writes of heights of the run; each stores, under its verified ID,
    the two halves the upstream returned for that height; and its rewards
    element is empty unless the block proposes a reward - then it is what the
    next block decided: empty when that block aborts, and the reward UTXOs the
    upstream returned for the staking transaction when it commits. *)
Theorem p_fill_range_settles cfg clock from to tip r r' out :
  p_fill_range cfg clock from to tip r = (r', out) ->
  exists res, evolves (fun c => (from <= cmd_height c <= to)%N /\ settled_cmd (net_trace (pr_net r')) c)
                (pr_storage r) (pr_storage r') res.
Proof.
  intros E. destruct (N.le_gt_cases from (to + 1)) as [Hle|Hgt].
  - destruct (p_fill_range_ran _ _ _ _ _ _ _ _ Hle E) as (_ & (_ & cs & res & Hr & Hc & Hf & Hb & _) & _).
    exists res, cs. split; [|done]. rewrite Forall_forall in Hf |- *. intros c Hin. split; [|by apply Hf].
    apply list_elem_of_lookup in Hin as [i Hi]. rewrite (Hc _ _ Hi). apply lookup_lt_Some in Hi. lia.
  - unfold p_fill_range in E. rewrite heights_nil in E by lia. injection E as <- <-. eexists. apply evolves_refl.
Qed.

End Runs.
