(* ===== verification/PlatformLive.v ===== *)
(** * The P-chain ingestion reaches the tip

    With a node that answers and a store that accepts writes, every pass of the
    P-chain loop moves on, up to the last block the chain has settled; what a
    pass does while that block is a proposal still undecided. *)

From Stdlib Require Import ZArith NArith Lia String Ascii.
From S2P Require Import Prelude Str Json Chain Record Backing Storage StorageSpec Codec Upstream Http EthFetch Progress Subscribe.
From S2P Require Import Backfill PlatformIngest.

Section Live.
Context {B : Blockstore} {F : Fjall} {J : JsonLib} {X : HexLib} {L : CodecLib} {H : Http}.
Context {BL : BlockstoreLaws B} {FL : FjallLaws F} {JL : JsonLaws J}.

(** The settings, the node's tip and its blocks. *)
Variables (cfg : IngestCfg) (tip : N) (blk : N -> FetchedBlock).

(** The worlds of a working node, and the stores of a working disk. *)
Variables (Honest : World -> Prop) (Good : Storage -> Prop).

(** A call is answered, at once and with a result that [ok] accepts. *)
Definition p_answers (method : string) (params : Value) (ok : Value -> Prop) : Prop :=
  forall w, Honest w -> exists w' status header v r,
    post (cfg_rpc_url cfg) (rpc_body method params) w = (w', Response status header (Some v))
    /\ is_throttle status = false /\ usable_result v = Some r /\ ok r /\ Honest w'.

(** A reward proposal waiting for the block after it. *)
Definition proposes (h : N) : Prop := is_Some (fb_reward_staking_tx (blk h)).

#[global] Instance proposes_dec h : Decision (proposes h).
Proof. unfold proposes. apply _. Defined.

Record WorkingNode : Prop := {
  (** both encodings of every height up to the tip, which verify *)
  wn_block : forall h, (h <= tip)%N -> exists bv jv, verify bv jv (Some h) = Some (blk h)
    /\ p_answers "platform.getBlockByHeight" (encoding_request h Hexnc) (fun r => get "block" r = Some bv)
    /\ p_answers "platform.getBlockByHeight" (encoding_request h EJson) (fun r => get "block" r = Some jv);
  (** below the tip, a proposal is decided by the block after it *)
  wn_decided : forall h, (h < tip)%N -> proposes h ->
    fb_kind (blk (h + 1)) = Commit \/ fb_kind (blk (h + 1)) = Abort;
  wn_utxos : forall tx, p_answers "platform.getRewardUTXOs" (reward_request tx) (fun _ => True);
  wn_tip : p_answers "platform.getHeight" (VObject []) (fun r => height_of_result r = Some tip);
  wn_range : (tip < u64_max)%N
}.

(** The disk takes every record that extends the store up to the tip. *)
Record WorkingPDisk : Prop := {
  pd_put : forall st h hash txs j b rw, Good st -> ready st h -> (min_height st <= h <= tip)%N ->
    exists st', put h hash txs [j; b; rw] st = (st', Ok tt) /\ Good st';
  pd_top : forall st, Good st -> (high_water st <= tip)%N
}.

Hypothesis HN : WorkingNode.
Hypothesis HD : WorkingPDisk.

(** ** Requests *)

Lemma p_fetch_live method params ok n :
  p_answers method params ok -> Honest (net_world n) ->
  exists n' r, p_fetch_rpc cfg method params n = (n', Done (Some r)) /\ ok r /\ Honest (net_world n').
Proof.
  intros Ha Hn. destruct (Ha _ Hn) as (w' & status & header & v & r & Hp & Ht & Hu & Hok & Hw).
  unfold p_fetch_rpc, P_RPC_MAX_ATTEMPTS. cbn [p_attempts]. unfold io_bind, io_pace, io_post, emit. cbn [net_world].
  rewrite Hp, Ht, Hu. cbn. eauto 6.
Qed.

Lemma fetch_block_live h n :
  (h <= tip)%N -> Honest (net_world n) ->
  exists n', fetch_block cfg h n = (n', Done (Some (blk h))) /\ Honest (net_world n').
Proof.
  intros Hh Hn. destruct (wn_block HN h Hh) as (bv & jv & Hv & Hb & Hj).
  destruct (p_fetch_live _ _ _ n Hb Hn) as (n1 & r1 & E1 & G1 & Hn1).
  destruct (p_fetch_live _ _ _ n1 Hj Hn1) as (n2 & r2 & E2 & G2 & Hn2).
  exists n2. split; [|done]. unfold fetch_block, fetch_block_encoding, io_bind.
  rewrite E1. cbn [io_ret mbind option_bind]. rewrite G1, E2. cbn [io_ret mbind option_bind]. by rewrite G2, Hv.
Qed.

Lemma resolve_reward_live h n :
  (h < tip)%N -> proposes h -> Honest (net_world n) ->
  exists n' rw, resolve_reward cfg (blk h) (fb_kind (blk (h + 1))) n = (n', Done (Some rw)) /\ Honest (net_world n').
Proof.
  intros Hh Hp Hn. destruct (wn_decided HN h Hh Hp) as [-> | ->]; destruct Hp as [tx Htx];
    unfold resolve_reward; rewrite Htx; [|eexists _, _; by split].
  destruct (p_fetch_live _ _ _ n (wn_utxos HN tx) Hn) as (n1 & r & E & _ & Hn1).
  destruct (to_vec_total (default (VArray []) (get "utxos" r))) as [b Hb].
  exists n1, b. split; [|done]. unfold fetch_reward_utxos, io_bind. rewrite E. cbn. by rewrite Hb.
Qed.

Lemma blk_height h : (h <= tip)%N -> fb_height (blk h) = h.
Proof. intros Hh. destruct (wn_block HN h Hh) as (bv & jv & Hv & _). by eapply verify_height. Qed.

(** ** A run of heights *)

(** The store is ready to be extended at [h]. *)
Record Extends (st : Storage) (h : N) : Prop := {
  ex_ready : ready st h;
  ex_min : (min_height st <= h)%N;
  ex_good : Good st
}.

Lemma put_extends h hash txs es st st' :
  ready st h -> (min_height st <= h)%N -> put h hash txs es st = (st', Ok tt) -> (min_height st' <= h)%N.
Proof.
  intros [[(s & Hs & _) _]|[Hn Hf]] Hm Hp.
  - rewrite (put_min _ _ _ _ _ _ _ Hp Hs). unfold min_height in Hm. by rewrite Hs in Hm.
  - destruct (put_first_anchored _ _ _ _ _ _ Hn Hf Hp) as (_ & -> & _). lia.
Qed.

(** A block that extends the store is written, and the store can be extended
    after it. *)
Lemma p_emit_live clock h rw target r :
  (h <= tip)%N -> Extends (pr_storage r) h -> Honest (net_world (pr_net r)) ->
  exists r', p_emit clock (blk h) rw target r = (r', true) /\ Extends (pr_storage r') (h + 1)
    /\ anchored (pr_storage r') /\ pr_net r' = pr_net r.
Proof.
  intros Hh [Hr Hm Hg] Hn. pose proof (blk_height h Hh) as Hbh.
  destruct (pd_put HD (pr_storage r) h (fb_id (blk h)) (fb_tx_ids (blk h)) (fb_json (blk h)) (fb_bytes_json (blk h)) rw)
    as (st' & Hp & Hg'); [done|done|lia|].
  destruct (p_emit clock (blk h) rw target r) as [r' ok] eqn:E.
  pose proof (p_emit_net _ _ _ _ _ _ _ E) as Hnet.
  destruct (p_emit_put _ _ _ _ _ _ _ E) as (res & Hp' & _). rewrite Hbh in Hp'. unfold fetched_elements in Hp'.
  rewrite Hp in Hp'. injection Hp' as Hst <-.
  assert (ok = true) as ->.
  { unfold p_emit, store_block, fetched_elements in E. rewrite Hbh, Hp in E.
    destruct (observe _ _ _ _ _) as [[p began] line]. by injection E. }
  destruct (put_ready _ _ _ _ _ _ Hr Hp) as [Ha Hf]. exists r'. rewrite <- Hst. split_and!; try done.
  constructor; [left; split; [done|lia]| |done].
  pose proof (put_extends _ _ _ _ _ _ Hr Hm Hp). lia.
Qed.

(** What is held is the block below. *)
Definition holds (from : N) (pending : option FetchedBlock) : Prop :=
  forall p, pending = Some p -> (0 < from)%N /\ p = blk (from - 1) /\ proposes (from - 1).

(** The first height a run over [..to] leaves unwritten. *)
Definition settled_end (to : N) : N := if decide (proposes to) then to else (to + 1)%N.

Lemma resolve_pending_live clock target pending from r :
  (from <= tip)%N -> holds from pending -> Extends (pr_storage r) (unwritten from pending) ->
  Honest (net_world (pr_net r)) ->
  exists r', resolve_pending cfg clock target pending (blk from) r = (r', Done true)
    /\ Extends (pr_storage r') from /\ Honest (net_world (pr_net r'))
    /\ (anchored (pr_storage r') \/ pr_storage r' = pr_storage r /\ unwritten from pending = from).
Proof.
  intros Hf Hh He Hn. unfold resolve_pending, unwritten in *. destruct pending as [p|]; [|eauto 10].
  destruct (Hh p eq_refl) as (H0 & -> & Hp). rewrite blk_height in He by lia.
  destruct (resolve_reward_live (from - 1) (pr_net r)) as (n & rw & Er & Hn'); [lia|done|done|].
  replace (from - 1 + 1)%N with from in Er by lia. rewrite Er.
  destruct (p_emit_live clock (from - 1) rw target (set_pr_net n r)) as (r' & -> & He' & Ha & Hnet); [lia|done|done|].
  exists r'. replace (from - 1 + 1)%N with from in He' by lia. rewrite Hnet. split_and!; try done. by left.
Qed.

Lemma p_fill_loop_live clock target to k : forall from pending r,
  N.of_nat k = (to + 1 - from)%N -> (from <= to + 1)%N -> (to <= tip)%N -> holds from pending ->
  Extends (pr_storage r) (unwritten from pending) -> Honest (net_world (pr_net r)) ->
  (k = 0%nat -> unwritten from pending = settled_end to) ->
  exists r', p_fill_loop cfg clock target (heights from to) pending r = (r', Done true)
    /\ Extends (pr_storage r') (settled_end to) /\ Honest (net_world (pr_net r'))
    /\ (anchored (pr_storage r') \/ pr_storage r' = pr_storage r /\ unwritten from pending = settled_end to).
Proof.
  induction k as [|k IH]; intros from pending r Hk Hle Hto Hh He Hn Hend.
  { rewrite heights_nil by lia. exists r. rewrite <- Hend by done. split_and!; try done. by right. }
  rewrite heights_cons by lia. cbn [p_fill_loop]. cbv zeta.
  destruct (fetch_block_live from (pr_net r)) as (n & -> & Hn1); [lia|done|].
  destruct (resolve_pending_live clock target pending from (set_pr_net n r)) as (r1 & -> & He1 & Hn1' & Ha1); [lia|done..|].
  pose proof (blk_height from ltac:(lia)) as Hbf.
  destruct (fb_reward_staking_tx (blk from)) as [tx|] eqn:Etx.
  - destruct (IH (from + 1)%N (Some (blk from)) r1) as (r' & E & He' & Hn' & Ha'); [lia|lia|done| | |done| |].
    + intros p [= <-]. replace (from + 1 - 1)%N with from by lia. split_and!; [lia|done|]. unfold proposes. by rewrite Etx.
    + cbn [unwritten]. by rewrite Hbf.
    + intros ->. cbn [unwritten]. rewrite Hbf. assert (from = to) as <- by lia. unfold settled_end.
      rewrite decide_True; [done|]. unfold proposes. by rewrite Etx.
    + exists r'. split_and!; try done. destruct Ha' as [|[-> Hu']]; [by left|]. cbn [unwritten] in Hu'.
      destruct Ha1 as [|[-> ->]]; [by left|]. right. split; [done|congruence].
  - destruct (p_emit_live clock from EMPTY_ARRAY target r1) as (r2 & -> & He2 & Ha2 & Hnet); [lia|done|done|].
    destruct (IH (from + 1)%N None r2) as (r' & E & He' & Hn' & Ha'); [lia|lia|done|done|done|by rewrite Hnet| |].
    + intros ->. cbn [unwritten]. assert (from = to) as <- by lia. unfold settled_end.
      rewrite decide_False; [done|]. unfold proposes. rewrite Etx. by intros [].
    + exists r'. split_and!; try done. left. by destruct Ha' as [|[-> _]].
Qed.

(** ** Passes *)

(** The height the next pass starts from. *)
Definition pos (st : Storage) : N := next_height (is_empty st) (max_contiguous_height st) cfg tip.

Record PInv (s : PState) : Prop := {
  pi_store : Extends (pr_storage (ps_run s)) (pos (pr_storage (ps_run s)));
  pi_net : Honest (net_world (pr_net (ps_run s)));
  pi_tip : ps_tip_read_at s = None \/ ps_tip s = tip
}.

Lemma anchored_pos st : anchored st -> Good st -> pos st = (max_contiguous_height st + 1)%N.
Proof.
  intros Ha Hg. unfold pos, next_height, is_empty. destruct Ha as (s & Hs & Hp) eqn:E. clear E.
  rewrite bool_decide_false by congruence. apply sat_add_exact.
  pose proof (anchored_highwater st (ex_intro _ s (conj Hs Hp))). pose proof (pd_top HD st Hg).
  pose proof (wn_range HN). unfold is_u64. lia.
Qed.

Lemma anchored_extends st : anchored st -> Good st -> Extends st (pos st).
Proof.
  intros Ha Hg. rewrite anchored_pos by done. pose proof (anchored_min st Ha).
  constructor; [left; split; [done|lia]|lia|done].
Qed.

(** After a run from [pos st] the next pass starts past what it settled. *)
Lemma run_pos clock target to r :
  (pos (pr_storage r) <= to <= tip)%N -> Extends (pr_storage r) (pos (pr_storage r)) ->
  Honest (net_world (pr_net r)) ->
  exists r', p_fill_range cfg clock (pos (pr_storage r)) to target r = (r', Done true)
    /\ Extends (pr_storage r') (pos (pr_storage r')) /\ Honest (net_world (pr_net r'))
    /\ (settled_end to <= pos (pr_storage r'))%N.
Proof.
  intros Hto He Hn. unfold p_fill_range.
  destruct (p_fill_loop_live clock target to (N.to_nat (to + 1 - pos (pr_storage r))) (pos (pr_storage r)) None r)
    as (r' & E & He' & Hn' & Ha); [lia|lia|lia|done|done|done|lia|].
  exists r'. split; [done|]. cbn [unwritten] in Ha. destruct Ha as [Ha|[Hst Hs]].
  - split_and!; [by apply anchored_extends; [|apply He']|done|]. rewrite anchored_pos; [|done|apply He'].
    destruct He' as [[[_ Hle]|[Hnone _]] _ _]; [lia|]. destruct Ha as (s & Hs & _). congruence.
  - rewrite Hst. split_and!; [done|done|lia].
Qed.

Lemma fetch_height_live n :
  Honest (net_world n) -> exists n', fetch_height cfg n = (n', Done (Some tip)) /\ Honest (net_world n').
Proof.
  intros Hn. destruct (p_fetch_live _ _ _ n (wn_tip HN) Hn) as (n' & r & E & Hr & Hn').
  exists n'. split; [|done]. unfold fetch_height, io_bind. rewrite E. cbn. by rewrite Hr.
Qed.

(** A run over a proposal alone holds it and writes nothing. *)
Lemma run_held clock target r r' o :
  proposes tip -> Honest (net_world (pr_net r)) ->
  p_fill_range cfg clock tip tip target r = (r', o) -> pr_storage r' = pr_storage r.
Proof.
  intros [tx Htx] Hn. unfold p_fill_range. rewrite heights_cons, heights_nil by lia. cbn [p_fill_loop]. cbv zeta.
  destruct (fetch_block_live tip (pr_net r)) as (n & -> & _); [lia|done|]. cbn [resolve_pending].
  rewrite Htx. by intros [= <- _].
Qed.

Abbreviation store_of s := (pr_storage (ps_run s)).

(** A pass knows the tip: past it it is caught up, up to it it fills a run. *)
Lemma p_pass_live now now' clock s s' p :
  PInv s -> p_pass cfg now now' clock s = (s', p) ->
  PInv s' /\
  (p = PCaughtUp /\ (tip < pos (store_of s))%N /\ store_of s' = store_of s \/
   exists to, p = PFilled (pos (store_of s)) to true /\ (to = tip \/ (pos (store_of s) < to)%N) /\
     (pos (store_of s) <= to)%N /\ (settled_end to <= pos (store_of s'))%N /\
     (pos (store_of s) = tip -> proposes tip -> store_of s' = store_of s)).
Proof.
  intros [He Hn Ht] E. unfold p_pass in E. cbv zeta in E.
  set (stale := match ps_tip_read_at s with Some t => (cfg_poll_interval cfg <=? now - t)%N | None => true end) in E.
  assert (exists r, (if stale then
      match fetch_height cfg (pr_net (ps_run s)) with
      | (n, ParkedForever) => (set_pr_net n (ps_run s), ParkedForever)
      | (n, Done h) => (set_pr_net n (ps_run s), Done h)
      end
    else (ps_run s, Done (Some (ps_tip s)))) = (r, Done (Some tip))
    /\ pr_storage r = store_of s /\ Honest (net_world (pr_net r))) as (r & Ep & Hst & Hr).
  { destruct stale eqn:Es.
    - destruct (fetch_height_live _ Hn) as (n' & -> & Hn'). by eexists.
    - exists (ps_run s). destruct Ht as [Ht | ->]; [by subst stale; rewrite Ht in Es|done]. }
  rewrite Ep in E. change (next_height _ _ cfg tip) with (pos (pr_storage r)) in E. rewrite <- Hst in *.
  destruct (N.ltb_spec tip (pos (pr_storage r))) as [Hlt|Hge].
  { destruct (caught_up _ _ _) as [pr line]. injection E as <- <-. split; [|by left].
    constructor; cbn [ps_run ps_tip]; try done. by right. }
  destruct (observe _ _ _ _ _) as [[pr began] line].
  set (to := N.min tip _) in E. set (r1 := set_pr_report _ _ _) in E.
  assert (Hto : (pos (pr_storage r) <= to <= tip)%N /\ (to = tip \/ (pos (pr_storage r) < to)%N)).
  { subst to. pose proof (wn_range HN) as Hrange. revert Hge Hrange. generalize (pos (pr_storage r)). intros q Hge Hrange.
    unfold sat_add, sat_sub, FILL_CHUNK. generalize dependent u64_max. intros m Hm. lia. }
  destruct (run_pos clock tip to r1) as (r' & E' & He' & Hn' & Hp'); [apply Hto|exact He|exact Hr|].
  cbn [pr_storage r1 set_pr_report] in E'. rewrite E' in E. injection E as <- <-. split.
  { constructor; cbn [ps_run ps_tip]; try done. by right. }
  right. exists to. cbn [ps_run]. split_and!; [done|apply Hto|apply Hto|done|].
  intros Hpos Hprop. rewrite Hpos in E', Hto. replace to with tip in E' by lia.
  by apply (run_held _ _ r1 _ _ Hprop Hr) in E'.
Qed.

Inductive p_passes : nat -> PState -> PState -> Prop :=
  | p_passes_none s : p_passes 0 s s
  | p_passes_more k s s1 now now' clock s' p :
      p_passes k s s1 -> p_pass cfg now now' clock s1 = (s', p) -> p_passes (S k) s s'.

(** C20: the P-chain ingestion gets there.  With a node that answers, whose
    proposals below its tip are decided, and a disk that accepts writes, any [k]
    passes of the loop bring the next height to fetch past the last settled
    block - the tip, or the block below it while the tip is a reward proposal -
    or at least [k] further; and no pass fails or parks.  While the tip is an
    undecided proposal, a pass at the tip writes nothing and the next one
    follows without a pause. *)
Theorem p_ingest_reaches_tip s :
  PInv s ->
  (forall k s', p_passes k s s' ->
     PInv s' /\ (N.min (settled_end tip) (pos (store_of s) + N.of_nat k) <= pos (store_of s'))%N) /\
  (forall k s1 now now' clock s' p, p_passes k s s1 -> p_pass cfg now now' clock s1 = (s', p) ->
     (p = PCaughtUp \/ exists from to, p = PFilled from to true) /\
     (pos (store_of s1) = tip -> proposes tip -> store_of s' = store_of s1 /\ p_pass_nap cfg p = Some 0%N)).
Proof.
  intros Hs.
  assert (Hse : forall to, (to <= settled_end to <= to + 1)%N) by (intros to; unfold settled_end; case_decide; lia).
  assert (Hall : forall k s', p_passes k s s' ->
     PInv s' /\ (N.min (settled_end tip) (pos (store_of s) + N.of_nat k) <= pos (store_of s'))%N).
  { induction 1 as [s|k s s1 now now' clock s' p Hp IH E]; [split; [done|lia]|]. destruct (IH Hs) as [Hi Hle].
    destruct (p_pass_live _ _ _ _ _ _ Hi E) as [Hi' Hcase]. split; [done|]. pose proof (Hse tip).
    destruct Hcase as [(_ & Hlt & ->)|(to & _ & Hto & Hge & Hset & _)]; [lia|]. pose proof (Hse to).
    destruct Hto as [->|Hlt]; lia. }
  split; [exact Hall|]. intros k s1 now now' clock s' p Hp E. destruct (Hall _ _ Hp) as [Hi _].
  destruct (p_pass_live _ _ _ _ _ _ Hi E) as [_ [(-> & Hlt & Hst)|(to & -> & _ & _ & _ & Hheld)]].
  - split; [by left|]. lia.
  - split; [right; eauto|]. intros Hpos Hprop. split; [by apply Hheld|done].
Qed.

End Live.
