(* ===== verification/Mirror.v ===== *)
(** * P-chain mirroring (src/platform/mirror.rs)

    Filling a store from another neve: the [oldRecords] bootstrap up to the
    upstream's contiguous tip, then following [newRecords].  Frames and the idle
    watchdog are modelled as in [EthIngest]. *)

From Stdlib Require Import ZArith NArith Lia String Ascii.
From S2P Require Import Prelude Str Json Chain Record Backing Storage StorageSpec Join Codec Upstream Http Socket EthFetch Backfill Serve Health Subscribe EthIngest PlatformIngest Progress.

Definition MAX_BACKOFF_MS : N := 30000.

(** The [params.result] of a notification; any other frame is skipped. *)
Definition notification_payload (v : Value) : option Value :=
  method ← get_str "method" v;
  if decide (method <> "platform.subscription"%string) then None
  else get "params" v ≫= get "result".

(** The wait before reconnection [attempt], in milliseconds. *)
Definition mirror_backoff (attempt : N) : N := N.min (sat_mul 500 (2 ^ N.min attempt 6)) MAX_BACKOFF_MS.

Section Mirror.
Context {B : Blockstore} {F : Fjall} {J : JsonLib} {X : HexLib} {L : CodecLib} {H : Http} {W : WsLib H}.

Definition persist_record (record : Value) (st : Storage) : Storage * option N :=
  match as_array record with
  | None => (st, None)
  | Some parts =>
      if negb (length parts =? arity P)%nat then (st, None)
      else match parts with
      | [block_json; bytes_json; rewards] =>
          match verify_record bytes_json block_json, to_vec rewards with
          | Some fetched, Some rewards_bytes => store_block fetched rewards_bytes st
          | _, _ => (st, None)
          end
      | _ => (st, None)
      end
  end.

Definition p_fetch_upstream_contiguous (base : string) : IO (result N) :=
  let* resp := io_get (trim_end_slash base ++ "/health")%string in
  io_ret match resp with
         | SendError => Err EHttp
         | Response status _ json =>
             if negb (is_success status) then Err (EHttpStatus status)
             else match json with
                  | None => Err EHttp
                  | Some v => ok_or (upstream_blocks_field v P "max_contiguous_height") EMissingResult
                  end
         end.

(** The store, the lag gauge, the shared backfill counter and the progress
    tracker. *)
Record MirrorSt : Type := {
  mi_storage : Storage; mi_behind : N; mi_count : N; mi_progress : BackfillProgress
}.

Definition set_mi_storage (st : Storage) (m : MirrorSt) : MirrorSt :=
  {| mi_storage := st; mi_behind := mi_behind m; mi_count := mi_count m; mi_progress := mi_progress m |}.

(** The loop of [bootstrap]; [i] counts the waits. *)
Fixpoint mirror_loop (fuel : nat) (elapsed : nat -> bool) (clock : nat -> N) (i : nat) (target : N)
    (msgs : list (option Message)) (m : MirrorSt) : MirrorSt * result unit :=
  match fuel with
  | O => (m, Err EStreamEnded)
  | S fuel =>
      if elapsed i then (m, Err EIdleTimeout)
      else match next_frame msgs with
      | (None, _, _) => (m, Err EStreamEnded)
      | (Some frame, _, msgs) =>
          match notification_payload frame with
          | None => mirror_loop fuel elapsed clock (S i) target msgs m
          | Some record =>
              match persist_record record (mi_storage m) with
              | (st, None) => (set_mi_storage st m, Err EVerification)
              | (st, Some height) =>
                  let behind := sat_sub target height in
                  let '(p, _, _) := observe (clock i) height target behind (mi_progress m) in
                  if (target <=? height)%N then
                    ({| mi_storage := st; mi_behind := behind; mi_count := mi_count m;
                        mi_progress := (caught_up (clock i) height p).1 |}, Ok tt)
                  else mirror_loop fuel elapsed clock (S i) target msgs
                         {| mi_storage := st; mi_behind := behind; mi_count := mi_count m; mi_progress := p |}
              end
          end
      end
  end.

(** First height lacked: the floor of an empty store, else past the frontier. *)
Definition mirror_from (cfg : IngestCfg) (st : Storage) : N :=
  if is_empty st then default 0%N (cfg_backfill_floor cfg) else sat_add (max_contiguous_height st) 1.

Definition oldrecords_request (from target : N) : Value :=
  rpc_body "platform.subscribe"
    (VObject [("from", VNumber (PosInt from)); ("kind", VString "oldRecords");
              ("to", VNumber (PosInt target))]).

Definition newrecords_request : Value :=
  rpc_body "platform.subscribe" (VObject [("kind", VString "newRecords")]).

Definition mirror_bootstrap (cfg : IngestCfg) (elapsed : nat -> bool) (clock : nat -> N) (now : N)
    (s : MirrorSt * Net)
    : (MirrorSt * Net) * fate (result unit) :=
  let '(m, n) := s in
  match p_fetch_upstream_contiguous (cfg_rpc_url cfg) n with
  | (n, ParkedForever) => ((m, n), ParkedForever)
  | (n, Done (Err e)) => ((m, n), Done (Err e))
  | (n, Done (Ok target)) =>
      let from := mirror_from cfg (mi_storage m) in
      if (target <? from)%N then ((m, n), Done (Ok tt))
      else
        let count := sat_add (sat_sub target from) 1 in
        let '(p, _, _) := observe now (sat_sub from 1) target count (Progress.new P (cfg_progress_period cfg)) in
        let m := {| mi_storage := mi_storage m; mi_behind := mi_behind m;
                    mi_count := (mi_count m + 1) mod 2 ^ 64; mi_progress := p |} in
        match open_stream cfg (oldrecords_request from target) n with
        | (n, ParkedForever) => ((m, n), ParkedForever)
        | (n, Done (Err e)) => ((m, n), Done (Err e))
        | (n, Done (Ok msgs)) =>
            let '(m, r) := mirror_loop (S (length msgs)) elapsed clock 0 target msgs m in
            ((m, n), Done r)
        end
  end.

(** The loop of [follow_tip]: a record that fails verification is skipped. *)
Fixpoint follow_loop (fuel : nat) (elapsed : nat -> bool) (i : nat) (msgs : list (option Message))
    (m : MirrorSt) : MirrorSt * result unit :=
  match fuel with
  | O => (m, Ok tt)
  | S fuel =>
      if elapsed i then (m, Err EIdleTimeout)
      else match next_frame msgs with
      | (None, _, _) => (m, Ok tt)
      | (Some frame, _, msgs) =>
          match notification_payload frame with
          | None => follow_loop fuel elapsed (S i) msgs m
          | Some record =>
              match persist_record record (mi_storage m) with
              | (st, None) => follow_loop fuel elapsed (S i) msgs (set_mi_storage st m)
              | (st, Some _) =>
                  follow_loop fuel elapsed (S i) msgs
                    {| mi_storage := st; mi_behind := 0; mi_count := mi_count m; mi_progress := mi_progress m |}
              end
          end
      end
  end.

Definition follow_tip (cfg : IngestCfg) (elapsed : nat -> bool) (s : MirrorSt * Net)
    : (MirrorSt * Net) * fate (result unit) :=
  let '(m, n) := s in
  match open_stream cfg newrecords_request n with
  | (n, ParkedForever) => ((m, n), ParkedForever)
  | (n, Done (Err e)) => ((m, n), Done (Err e))
  | (n, Done (Ok msgs)) =>
      let '(m, r) := follow_loop (S (length msgs)) elapsed 0 msgs m in ((m, n), Done r)
  end.

(** One connection's worth of work. *)
Definition mirror_session (cfg : IngestCfg) (elapsed elapsed' : nat -> bool) (clock : nat -> N) (now : N)
    (s : MirrorSt * Net) : (MirrorSt * Net) * fate (result unit) :=
  match mirror_bootstrap cfg elapsed clock now s with
  | (s, Done (Ok _)) => follow_tip cfg elapsed' s
  | (s, out) => (s, out)
  end.

(** One turn of [mirror]: the attempt counter and the wait, in milliseconds,
    after the session that ran. *)
Definition mirror_turn (cfg : IngestCfg) (elapsed elapsed' : nat -> bool) (clock : nat -> N) (now : N)
    (attempt : N) (s : MirrorSt * Net) : (MirrorSt * Net) * fate (N * N) :=
  match mirror_session cfg elapsed elapsed' clock now s with
  | (s, ParkedForever) => (s, ParkedForever)
  | (s, Done r) =>
      let attempt := match r with Ok _ => 0%N | Err _ => N.min (attempt + 1) u32_max end in
      (s, Done (attempt, mirror_backoff attempt))
  end.

(** ** A mirror writes only what verifies *)

Definition mirrored_cmd (c : PutCmd) : Prop :=
  exists bytes_value json_value rewards fb rw,
    verify bytes_value json_value None = Some fb /\ to_vec rewards = Some rw /\
    cmd_height c = fb_height fb /\ cmd_hash c = fb_id fb /\ cmd_txs c = fb_tx_ids fb /\
    cmd_elements c = fetched_elements fb rw.

(** A refused record leaves the store alone or fails in the write itself. *)
Lemma persist_record_sound record st st' o :
  persist_record record st = (st', o) ->
  exists res, evolves mirrored_cmd st st' res /\
    (forall h, o = Some h -> res = Ok tt /\ exists hash txs es, put h hash txs es st = (st', Ok tt)).
Proof.
  assert (Hrefl : forall o', (st, @None N) = (st', o') -> exists res, evolves mirrored_cmd st st' res /\
    (forall h, o' = Some h -> res = Ok tt /\ exists hash txs es, put h hash txs es st = (st', Ok tt))).
  { intros o' [= <- <-]. exists (Ok tt). split; [apply evolves_refl|done]. }
  unfold persist_record. destruct (as_array record) as [parts|]; [|apply Hrefl].
  destruct (negb _); [apply Hrefl|].
  destruct parts as [|jv [|bv [|rw [|]]]]; try apply Hrefl.
  destruct (verify_record bv jv) as [fb|] eqn:Ev; [|apply Hrefl].
  destruct (to_vec rw) as [rb|] eqn:Er; [|apply Hrefl]. unfold store_block.
  destruct (put _ _ _ _ st) as [st1 rp] eqn:Ep.
  assert (Hev : evolves mirrored_cmd st st1 rp).
  { eapply (evolves_one _ {| cmd_height := fb_height fb; cmd_hash := fb_id fb; cmd_txs := fb_tx_ids fb;
                             cmd_elements := fetched_elements fb rb |}); [|exact Ep].
    by exists bv, jv, rw, fb, rb. }
  destruct rp as [[]|e]; intros [= <- <-]; eexists; (split; [exact Hev|]); [|done].
  intros h [= <-]. split; [done|]. eauto.
Qed.

Context {BL : BlockstoreLaws B} {FL : FjallLaws F} {JL : JsonLaws J}.

Lemma mirror_loop_sound elapsed clock target fuel : forall i msgs m m' r,
  mirror_loop fuel elapsed clock i target msgs m = (m', r) ->
  exists res, evolves mirrored_cmd (mi_storage m) (mi_storage m') res /\
    (r = Ok tt -> exists h b, (target <= h)%N /\ stored (mi_storage m') h = Ok (Some b)).
Proof.
  induction fuel as [|fuel IH]; intros i msgs m m' r; cbn [mirror_loop].
  { intros [= <- <-]. eexists. split; [apply evolves_refl|done]. }
  destruct (elapsed i); [intros [= <- <-]; eexists; split; [apply evolves_refl|done]|].
  destruct (next_frame msgs) as [[[frame|] pongs] rest];
    [|intros [= <- <-]; eexists; split; [apply evolves_refl|done]].
  destruct (notification_payload frame) as [record|]; [|apply IH].
  destruct (persist_record record (mi_storage m)) as [st [h|]] eqn:Ep;
    apply persist_record_sound in Ep as (res & Hev & Hh).
  - destruct (Hh h eq_refl) as (-> & hash & txs & es & Hp).
    destruct (observe _ _ _ _ _) as [[p began] line]. destruct (N.leb_spec target h) as [Hle|_].
    + intros [= <- <-]. exists (Ok tt). split; [done|]. intros _. exists h, (encode es).
      split; [done|]. by eapply put_stored.
    + intros E. destruct (IH _ _ _ _ _ E) as (res2 & Hev2 & Hr2). exists res2. split; [|done].
      by eapply evolves_trans.
  - intros [= <- <-]. by exists res.
Qed.

(** A mirror's bootstrap trusts its upstream only as far as the bytes
    verify, and reports success only when it is done.  The store moves only by
    writes of records whose two halves passed the same cross-check as a
    directly fetched block; a record that fails it ends the bootstrap with an
    error rather than leaving a gap; and success means that the upstream's
    contiguous tip was already below the first missing height, or that the range
    up to it was asked for on a socket of its own and a record at or above it is
    now in the store. *)
Theorem mirror_bootstrap_sound cfg elapsed clock now m n m' n' r :
  mirror_bootstrap cfg elapsed clock now (m, n) = ((m', n'), Done r) ->
  (exists res, evolves mirrored_cmd (mi_storage m) (mi_storage m') res) /\
  (r = Ok tt -> exists target n1, p_fetch_upstream_contiguous (cfg_rpc_url cfg) n = (n1, Done (Ok target)) /\
     ((target < mirror_from cfg (mi_storage m))%N /\ m' = m /\ n' = n1 \/
      SentText (request_text (oldrecords_request (mirror_from cfg (mi_storage m)) target)) ∈ net_trace n' /\
      exists h b, (target <= h)%N /\ stored (mi_storage m') h = Ok (Some b))).
Proof.
  unfold mirror_bootstrap.
  destruct (p_fetch_upstream_contiguous (cfg_rpc_url cfg) n) as [n1 [[target|e]|]] eqn:Ef; [| |done].
  - cbv zeta. destruct (N.ltb_spec target (mirror_from cfg (mi_storage m))) as [Hlt|_].
    { intros [= <- <- <-]. split; [eexists; apply evolves_refl|]. intros _. exists target, n1. auto. }
    destruct (observe _ _ _ _ _) as [[p began] line].
    destruct (open_stream cfg _ n1) as [n2 [[msgs|e]|]] eqn:Eo; [| |done].
    + destruct (mirror_loop _ _ _ _ _ _ _) as [m1 r1] eqn:Eb. intros [= <- <- <-].
      apply mirror_loop_sound in Eb as (res & Hev & Hr). split; [eauto|]. intros Hok.
      apply open_stream_ok in Eo as [Hsent _]. exists target, n1. auto.
    + intros [= <- <- <-]. split; [eexists; apply evolves_refl|done].
  - intros [= <- <- <-]. split; [eexists; apply evolves_refl|done].
Qed.

End Mirror.
