(* ===== verification/PlatformRpc.v ===== *)
(** * The P-chain serving dialect (src/platform/rpc.rs)

    The [platform.*] methods over a P-chain instance.  RFC 3339 rendering of a
    timestamp is the [humantime] crate's ([format_rfc3339]): it prints nothing for
    the dates it has no text for, on which [to_string] panics. *)

From Stdlib Require Import ZArith NArith Lia String Ascii.
From S2P Require Import Prelude Str Json Chain Record Backing Storage StorageSpec Join Codec Upstream Http EthFetch Progress Serve Subscribe PlatformIngest.

Definition PLATFORM_SUB_KINDS : list SubKind := [NewBlocks; NewRecords; OldBlocks; OldRecords].

(** An unsigned integer parameter: a JSON number, or its decimal text. *)
Inductive Uint64 : Type :=
  | Num (n : N)
  | UStr (s : string).

Definition uint64_get (u : Uint64) : result N :=
  match u with
  | Num n => Ok n
  | UStr s => ok_or (parse_u64 s) EBadUint
  end.

Record ByHeight : Type := { bh_height : Uint64; bh_encoding : option string }.
Record ByBlockId : Type := { bb_block_id : string; bb_encoding : option string }.
Record ByTxId : Type := { bt_tx_id : string; bt_encoding : option string }.
Record SubscribeParams : Type := { sp_kind : string; sp_from : option Uint64; sp_to : option Uint64 }.

Definition parse_encoding (s : option string) : result Encoding := encoding_parse s.

(** The last second [SystemTime] can represent: [i64::MAX]. *)
Definition system_time_max : N := 2 ^ 63 - 1.

Section PlatformRpc.
Context {B : Blockstore} {F : Fjall} {J : JsonLib} {X : HexLib} {L : CodecLib}.

Definition tip (st : Storage) : option N :=
  if is_empty st then None else Some (max_contiguous_height st).

Definition get_height (st : Storage) : result (option Value) :=
  Ok ((fun h => VObject [("height", VString (to_decimal h))]) <$> tip st).

Definition stored_block (st : Storage) (height : N) : result (option Value) :=
  let? stored := map_err EStorageError (get_by_height st height) in
  match stored with
  | None => Ok None
  | Some el => let? v := ok_or (from_slice (deref el)) EBadStoredBlock in Ok (Some v)
  end.

Definition get_timestamp (format_rfc3339 : N -> option string) (st : Storage) : result (option Value) :=
  match tip st with
  | None => Ok None
  | Some t =>
      let? block := stored_block st t in
      match block with
      | None => Ok None
      | Some block =>
          match get_u64 "time" block with
          | None => Ok None
          | Some secs =>
              if (system_time_max <? secs)%N then Err EOutOfRange
              else let? text := ok_or (format_rfc3339 secs) EPanic in
                   Ok (Some (VObject [("timestamp", VString text)]))
          end
      end
  end.

Definition block_reply (block : Value) (encoding : Encoding) : Value :=
  VObject [("block", block); ("encoding", VString (encoding_as_str encoding))].

Definition render_block (st : Storage) (height : N) (encoding : Encoding) : result (option Value) :=
  let idx := if decide (encoding = EJson) then BLOCK else P_BYTES in
  let? stored := map_err EStorageError (get_element st height idx) in
  match stored with
  | None => Ok None
  | Some el =>
      let? stored := ok_or (from_slice (deref el)) EBadStoredBlock in
      if decide (encoding = EJson) then Ok (Some (block_reply stored encoding))
      else
        let? hex := ok_or (Json.as_str stored) EBadStoredBlock in
        let? raw := hexnc_decode hex in
        match render_bytes encoding raw with
        | Some s => Ok (Some (block_reply (VString s) encoding))
        | None => Ok None
        end
  end.

Definition get_block_by_height (st : Storage) (p : ByHeight) : result (option Value) :=
  let? height := uint64_get (bh_height p) in
  let? encoding := parse_encoding (bh_encoding p) in
  render_block st height encoding.

Definition get_block (st : Storage) (p : ByBlockId) : result (option Value) :=
  let? encoding := parse_encoding (bb_encoding p) in
  let? raw := cb58_decode (bb_block_id p) in
  let? found := map_err EStorageError (height_of_hash st raw) in
  match found with
  | None => Ok None
  | Some height => render_block st height encoding
  end.

Definition get_tx (st : Storage) (p : ByTxId) : result (option Value) :=
  let? encoding := parse_encoding (bt_encoding p) in
  if decide (encoding <> EJson) then Ok None
  else
    let? raw := cb58_decode (bt_tx_id p) in
    let? loc := map_err EStorageError (get_tx_location st raw) in
    match loc with
    | None => Ok None
    | Some (height, idx) =>
        let? block := stored_block st height in
        match block with
        | None => Ok None
        | Some block =>
            match take_nth_tx block (N.to_nat idx) with
            | None => Ok None
            | Some tx => Ok (Some (VObject [("encoding", VString (encoding_as_str EJson)); ("tx", tx)]))
            end
        end
    end.

Definition get_tx_status (st : Storage) (p : ByTxId) : result (option Value) :=
  let? raw := cb58_decode (bt_tx_id p) in
  let? found := map_err EStorageError (get_tx_location st raw) in
  Ok (if bool_decide (is_Some found) then Some (VObject [("status", VString "Committed")]) else None).

Definition uint64_get_opt (u : option Uint64) : result (option N) :=
  match u with
  | None => Ok None
  | Some u => let? n := uint64_get u in Ok (Some n)
  end.

Definition platform_subscribe (fuel : nat) (snap : nat -> Storage) (events : list Recv)
    (p : SubscribeParams) : SubOutcome :=
  match from_wire (sp_kind p) with
  | None => Rejected EUnsupportedKind
  | Some kind =>
      match uint64_get_opt (sp_from p), uint64_get_opt (sp_to p) with
      | Ok f, Ok t => serve fuel P snap events {| sr_kind := kind; sr_from := f; sr_to := t |} PLATFORM_SUB_KINDS
      | Err e, _ => Rejected e
      | _, Err e => Rejected e
      end
  end.

End PlatformRpc.

(** ** What a client is given verifies *)

Section Serving.
Context {B : Blockstore} {F : Fjall} {J : JsonLib} {X : HexLib} {L : CodecLib}.

(** A write of a verified record. *)
Definition verified_cmd (c : PutCmd) : Prop :=
  exists bytes_value json_value fb rewards,
    json_wf json_value = true /\ json_text rewards /\ is_u64 (fb_height fb) /\
    (N.of_nat (length (fb_tx_ids fb)) <= u32_max)%N /\
    verify bytes_value json_value None = Some fb /\
    c = {| cmd_height := fb_height fb; cmd_hash := fb_id fb; cmd_txs := fb_tx_ids fb;
           cmd_elements := fetched_elements fb rewards |}.

Context {BL : BlockstoreLaws B} {FL : FjallLaws F} {JL : JsonLaws J} {XL : HexLaws X} {LL : CodecLaws L}.

(** What verification established about a write. *)
Lemma verified_cmd_inv c :
  verified_cmd c -> exists hex raw json rewards b j,
    hexnc_decode hex = Ok raw /\ cmd_hash c = sha256 raw /\
    default EmptyString (get_str "id" json) = cb58_encode (sha256 raw) /\
    to_vec (VString hex) = Some b /\ to_vec json = Some j /\ json_wf json = true /\
    cmd_elements c = [j; b; rewards] /\ cmd_txs c = extract_tx_ids json /\ cmd_ok c.
Proof.
  intros (bv & jv & fb & rw & Hwf & Hrw & Hu & Ht & Hv & ->). pose proof Hv as Hv'. unfold verify in Hv.
  destruct bv as [| | |hex| |]; cbn [Json.as_str] in Hv; try done.
  destruct (hexnc_decode hex) as [raw|] eqn:Eh; [|done]. cbv zeta in Hv. case_decide; [done|].
  destruct (get_u64 "height" jv) as [h|]; [|done]. unfold block_id_of in Hv.
  rewrite cb58_roundtrip in Hv by apply sha256_length.
  destruct (to_vec (VString hex)) as [b|] eqn:Eb; [|done]. destruct (to_vec jv) as [j|] eqn:Ej; [|done].
  injection Hv as <-. exists hex, raw, jv, rw, b, j. cbn in *. repeat split; try done.
  cbn. repeat constructor; try done; by eapply to_vec_text.
Qed.

Lemma element_view st a h es idx x :
  refines st a -> a_blocks a !! h = Some es -> es !! idx = Some x ->
  exists el, get_element st h idx = Ok (Some el) /\ deref el = x.
Proof.
  intros Hr Hb Hx. pose proof (get_element_refines st a h idx Hr) as Hg. rewrite Hb in Hg. cbn in Hg.
  rewrite Hx in Hg. destruct (get_element st h idx) as [[el|]|]; cbn in Hg; simplify_eq. eauto.
Qed.

(** The reply to a block request checks out against the ID [id]. *)
Definition reply_verifies (id : bytes) (e : Encoding) (reply : Value) : Prop :=
  exists v raw, reply = block_reply v e /\ sha256 raw = id /\
    match e with
    | EJson => default EmptyString (get_str "id" v) = cb58_encode id
    | Hexnc => exists s, v = VString s /\ hexnc_decode s = Ok raw
    | Hex | Hexc => exists s, v = VString s /\ hexnc_decode s = Ok (raw ++ checksum raw)
    end.

Lemma render_bytes_hex e raw :
  e <> EJson -> exists s, render_bytes e raw = Some s /\
    hexnc_decode s = Ok (if decide (e = Hexnc) then raw else raw ++ checksum raw).
Proof.
  intros He. destruct e; cbn [render_bytes]; try done; eexists; (split; [reflexivity|]);
    unfold hex_with_checksum; by rewrite hexnc_roundtrip.
Qed.

Lemma render_verifies st a h c e :
  refines st a -> a_blocks a !! h = Some (cmd_elements c) -> verified_cmd c ->
  exists reply, render_block st h e = Ok (Some reply) /\ reply_verifies (cmd_hash c) e reply.
Proof.
  intros Hr Hb Hc. destruct (verified_cmd_inv c Hc)
    as (hex & raw & json & rw & b & j & Hd & Hh & Hid & Hvb & Hvj & Hwf & Hel & _ & _).
  rewrite Hel in Hb. unfold render_block. destruct (decide (e = EJson)) as [->|Hne].
  - destruct (element_view st a h _ BLOCK j Hr Hb eq_refl) as (el & Ee & Ed). rewrite Ee. cbn [map_err result_bind].
    rewrite Ed, (from_to_vec json j Hwf Hvj). cbn [ok_or result_bind]. eexists. split; [done|].
    exists json, raw. rewrite Hh. done.
  - destruct (element_view st a h _ P_BYTES b Hr Hb eq_refl) as (el & Ee & Ed). rewrite Ee. cbn [map_err result_bind].
    rewrite Ed, (from_to_vec (VString hex) b eq_refl Hvb). cbn [ok_or result_bind Json.as_str]. rewrite Hd.
    cbn [result_bind]. destruct (render_bytes_hex e raw Hne) as (s & -> & Hs). eexists. split; [done|].
    exists (VString s), raw. split; [done|]. split; [by symmetry|].
    destruct e; cbn in Hs; [eauto|eauto|eauto|done].
Qed.

(** C33: a block asked for by its ID comes back self-verifying, in every
    encoding.  From a store filled with verified records of distinct heights,
    [platform.getBlock] for an ID some record carries returns the canonical
    bytes that hash to exactly that ID (followed by their checksum in [hex] and
    [hexc]), or the JSON that reports it; for any other ID it returns nothing,
    so that the caller asks elsewhere. *)
Theorem get_block_self_verifying cs st0 st id e :
  fresh st0 -> Forall verified_cmd cs -> NoDup (cmd_height <$> cs) ->
  run_puts cs st0 = (st, Ok tt) -> length id = 32%nat ->
  match get_block st {| bb_block_id := cb58_encode id; bb_encoding := Some (encoding_as_str e) |} with
  | Ok (Some reply) => reply_verifies id e reply
  | Ok None => forall c, c ∈ cs -> cmd_hash c <> id
  | Err _ => False
  end.
Proof.
  intros Hf Hv Hnd Hrun Hl.
  assert (Hok : Forall cmd_ok cs) by (eapply Forall_impl; [exact Hv|]; intros c Hc;
    by destruct (verified_cmd_inv c Hc) as (? & ? & ? & ? & ? & ? & ? & ? & ? & ? & ? & ? & ? & ? & ?)).
  destruct (run_puts_refines cs st0 st abs_empty (fresh_refines _ Hf) index_sound_empty Hok Hrun) as [Hr _].
  unfold get_block, parse_encoding. cbn [bb_encoding bb_block_id].
  rewrite encoding_roundtrip, cb58_roundtrip by done. cbn [result_bind].
  rewrite (height_of_hash_refines _ _ _ Hr). cbn [map_err result_bind].
  destruct (a_hash (abs_run cs abs_empty) !! id) as [h|] eqn:Eh.
  - destruct (abs_run_hash cs id h Hnd Eh) as (c & Hin & <- & Hb).
    rewrite Forall_forall in Hv. by destruct (render_verifies st _ h c e Hr Hb (Hv c Hin)) as (reply & -> & Hrep).
  - intros c Hin <-. destruct (abs_run_hash_some cs c Hin) as [h Hh]. by rewrite Eh in Hh.
Qed.

(** Every transaction of the stored block has an ID that decodes. *)
Definition ids_decode (c : PutCmd) : Prop :=
  forall j json, cmd_elements c !! BLOCK = Some j -> from_slice j = Some json ->
    Forall (fun tx => is_Some (tx_id_of tx)) (block_txs json).

Lemma stored_block_refines st a h es j v :
  refines st a -> a_blocks a !! h = Some es -> es !! BLOCK = Some j -> from_slice j = Some v ->
  stored_block st h = Ok (Some v).
Proof.
  intros Hr Hb Hj Hv. destruct (element_view st a h es BLOCK j Hr Hb Hj) as (el & Ee & <-).
  unfold stored_block, get_by_height. rewrite Ee. cbn. by rewrite Hv.
Qed.

Lemma extract_ids_lookup json n id :
  Forall (fun tx => is_Some (tx_id_of tx)) (block_txs json) -> extract_tx_ids json !! n = Some id ->
  exists tx, take_nth_tx json n = Some tx /\ tx_id_of tx = Some id.
Proof.
  intros Hall Hn. rewrite take_nth_tx_lookup. unfold extract_tx_ids in Hn.
  revert n Hn; induction Hall as [|tx txs [h Hh] _ IH]; intros n; [done|]. cbn. rewrite Hh.
  destruct n as [|n]; cbn; [intros [= <-]; eauto|apply IH].
Qed.

(** A P-chain transaction is found by its ID, and the right one is
    returned: from verified records of distinct heights whose transaction IDs
    decode, [platform.getTx] returns a transaction with exactly the requested
    ID when some record carries it, and nothing otherwise; and
    [platform.getTxStatus] reports it committed in exactly the same cases. *)
Theorem get_tx_returns_it cs st0 st id :
  fresh st0 -> Forall verified_cmd cs -> Forall ids_decode cs -> NoDup (cmd_height <$> cs) ->
  run_puts cs st0 = (st, Ok tt) -> length id = 32%nat ->
  let p := {| bt_tx_id := cb58_encode id; bt_encoding := Some "json"%string |} in
  match get_tx st p with
  | Ok (Some reply) => (exists tx, get "tx" reply = Some tx /\ tx_id_of tx = Some id) /\
      get_tx_status st p = Ok (Some (VObject [("status", VString "Committed")]))
  | Ok None => (forall c, c ∈ cs -> id ∉ cmd_txs c) /\ get_tx_status st p = Ok None
  | Err _ => False
  end.
Proof.
  intros Hf Hv Hid Hnd Hrun Hl p.
  assert (Hok : Forall cmd_ok cs) by (eapply Forall_impl; [exact Hv|]; intros c Hc;
    by destruct (verified_cmd_inv c Hc) as (? & ? & ? & ? & ? & ? & ? & ? & ? & ? & ? & ? & ? & ? & ?)).
  destruct (run_puts_refines cs st0 st abs_empty (fresh_refines _ Hf) index_sound_empty Hok Hrun) as [Hr _].
  unfold get_tx, get_tx_status, parse_encoding, p. cbn [bt_encoding bt_tx_id].
  change (encoding_parse (Some "json"%string)) with (@Ok Encoding EJson). cbn [result_bind].
  rewrite decide_False by (intros Hx; by apply Hx). rewrite cb58_roundtrip by done. cbn [result_bind].
  rewrite (get_tx_location_refines _ _ _ Hr). cbn [map_err result_bind].
  destruct (a_tx (abs_run cs abs_empty) !! id) as [[h i]|] eqn:Et.
  - destruct (abs_run_tx cs id h i Hnd Et) as (c & n & Hin & _ & -> & Hn & Hb).
    rewrite Forall_forall in Hv, Hid. destruct (verified_cmd_inv c (Hv c Hin))
      as (hex & raw & json & rw & b & j & _ & _ & _ & _ & Hvj & Hwf & Hel & Htx & _).
    pose proof (from_to_vec json j Hwf Hvj) as Hj. rewrite Htx in Hn.
    assert (Hall : Forall (fun tx => is_Some (tx_id_of tx)) (block_txs json))
      by (apply (Hid c Hin j json); [by rewrite Hel|done]).
    destruct (extract_ids_lookup json n id Hall Hn) as (tx & Htake & Htid).
    rewrite (stored_block_refines st _ h _ j json Hr Hb) by (done || by rewrite Hel). cbn [result_bind].
    rewrite Nat2N.id, Htake. rewrite bool_decide_true by eauto. split; [|done]. by exists tx.
  - rewrite bool_decide_false by (intros [? ?]; done). split; [|done].
    intros c Hin Hk. apply list_elem_of_lookup in Hk as [n Hn].
    destruct (abs_run_tx_some cs c n id Hin Hn) as [? ?]. congruence.
Qed.

End Serving.
