(* ===== verification/EndToEnd.v ===== *)
(** * From the upstream to a client

    The components in a row: what a completed run of either chain fetched is what
    the JSON-RPC methods answer with afterwards. *)

From Stdlib Require Import ZArith NArith Lia String Ascii.
From S2P Require Import Prelude Str Json Chain Record Backing Storage StorageSpec Join Codec Upstream Http EthFetch.
From S2P Require Import Progress Backfill Serve EthRpc PlatformIngest PlatformRpc.

(** ** Well-formed values *)

Lemma json_wf_receipt_logs b r :
  json_wf_at (S (S b)) r = true -> Forall (fun v => json_wf_at b v = true) (receipt_logs r).
Proof.
  intros Hr. unfold receipt_logs, get_array. destruct (get "logs" r) as [v|] eqn:E; cbn; [|constructor].
  apply (json_wf_get _ _ _ _ Hr) in E. destruct v; try constructor. by apply json_wf_items.
Qed.

Lemma json_wf_receipts rc : json_wf rc = true -> json_wf (logs_from_receipts rc) = true.
Proof.
  destruct rc; try done. rewrite json_wf_array. intros Hall.
  cbn [logs_from_receipts as_array]. apply json_wf_array.
  induction Hall as [|r rs Hr Hrs IH]; [constructor|].
  change ((r :: rs) ≫= receipt_logs) with (receipt_logs r ++ (rs ≫= receipt_logs)).
  apply Forall_app. split; [|done]. apply json_wf_receipt_logs in Hr. eapply Forall_impl; [exact Hr|].
  intros v. apply json_wf_at_mono. lia.
Qed.

Section Stored.
Context {J : JsonLib} {JL : JsonLaws J}.

Lemma decode_empty_logs : decode_logs EMPTY_ARRAY = Some [].
Proof. unfold decode_logs. by rewrite (from_to_vec (VArray []) EMPTY_ARRAY eq_refl to_vec_empty_array). Qed.

(** What is serialized reads back. *)
Lemma decode_serialize v :
  json_wf v = true -> decode_logs (serialize v).1 = Some (default [] (as_array v)).
Proof.
  intros Hwf. unfold serialize. destruct (to_vec_total v) as [b Hb]. rewrite Hb. cbn [fst].
  unfold decode_logs. by rewrite (from_to_vec v b Hwf Hb).
Qed.

Lemma serialize_text v : json_text (serialize v).1.
Proof.
  unfold serialize. destruct (to_vec_total v) as [b Hb]. rewrite Hb. by eapply to_vec_text.
Qed.

Lemma serialized_text w h : json_text (serialized w h).1.
Proof. unfold serialized. destruct (w !! h); [apply serialize_text|apply empty_array_text]. Qed.

Lemma decode_serialized ls h :
  json_wf ls = true -> decode_logs (serialized (load ls) h).1 = Some (logs_at h (default [] (as_array ls))).
Proof.
  intros Hwf. unfold serialized. destruct ls as [| | | |items|]; try (cbn; apply decode_empty_logs).
  rewrite load_lookup. change (default [] (as_array (VArray items))) with items.
  assert (Hl : json_wf (VArray (logs_at h items)) = true).
  { apply json_wf_array in Hwf. apply json_wf_array. rewrite Forall_forall in Hwf |- *.
    intros x [_ Hx]%list_elem_of_filter. by apply Hwf. }
  destruct (logs_at h items) as [|l ls] eqn:E; [apply decode_empty_logs|]. by rewrite decode_serialize.
Qed.

End Stored.

(** ** Where writes end up *)

Lemma abs_run_other cs a h : h ∉ cmd_height <$> cs -> a_blocks (abs_run cs a) !! h = a_blocks a !! h.
Proof.
  revert a; induction cs as [|c cs IH]; intros a Hn; cbn in *; [done|].
  apply not_elem_of_cons in Hn as [Hc Hn]. fold (abs_run cs (abs_put (cmd_height c) (cmd_hash c) (cmd_txs c) (cmd_elements c) a)).
  rewrite IH by done. cbn. by rewrite lookup_insert_ne.
Qed.

Lemma abs_run_block cs a c :
  NoDup (cmd_height <$> cs) -> c ∈ cs -> a_blocks (abs_run cs a) !! cmd_height c = Some (cmd_elements c).
Proof.
  revert a; induction cs as [|c' cs IH]; intros a Hnd Hin; [by apply not_elem_of_nil in Hin|].
  cbn in Hnd. apply NoDup_cons in Hnd as [Hnew Hnd].
  change (abs_run (c' :: cs) a) with (abs_run cs (abs_put (cmd_height c') (cmd_hash c') (cmd_txs c') (cmd_elements c') a)).
  apply elem_of_cons in Hin as [->|Hin]; [|by apply IH].
  rewrite abs_run_other by done. cbn. by rewrite lookup_insert_eq.
Qed.

Lemma NoDup_heights from to : NoDup (heights from to).
Proof. unfold heights. apply NoDup_fmap_2; [intros ???; lia|apply NoDup_seq]. Qed.

(** ** The C-chain *)

Section CChain.
Context {B : Blockstore} {F : Fjall} {J : JsonLib} {X : HexLib} {H : Http}.
Context {BL : BlockstoreLaws B} {FL : FjallLaws F} {JL : JsonLaws J}.

(** What the upstream answered is JSON that serializes without loss, and no block
    has more transactions than an index entry can count. *)
Definition wf_answers (tr : list Effect) : Prop :=
  forall body v, answered tr body v ->
    json_wf v = true /\ (N.of_nat (length (extract_tx_hashes v)) <= u32_max)%N.

(** The logs of height [h] as the upstream answered them during the run. *)
Definition upstream_logs (cfg : IngestCfg) (from to : N) (tr : list Effect) (h : N) (ls : list Value) : Prop :=
  match cfg_logs_source cfg with
  | Receipts => exists rc, answered tr (receipts_request h) rc /\ ls = block_logs rc
  | GetLogs => exists v, answered tr (logs_request from to) v /\ ls = logs_at h (default [] (as_array v))
  end.

Lemma logs_origin_text cfg from to tr h logs : logs_origin cfg from to tr h logs -> json_text logs.
Proof.
  unfold logs_origin. destruct (cfg_ingest_logs cfg); [|intros ->; apply empty_array_text].
  destruct (cfg_logs_source cfg); intros (v & _ & ->); [apply serialize_text|apply serialized_text].
Qed.

Lemma logs_origin_decodes cfg from to tr h logs :
  wf_answers tr -> cfg_ingest_logs cfg = true -> logs_origin cfg from to tr h logs ->
  exists ls, decode_logs logs = Some ls /\ upstream_logs cfg from to tr h ls.
Proof.
  intros Hwf Hi. unfold logs_origin, upstream_logs. rewrite Hi.
  destruct (cfg_logs_source cfg); intros (v & Ha & ->); destruct (Hwf _ _ Ha) as [Hv _].
  - eexists. split; [apply decode_serialize; by apply json_wf_receipts|]. by exists v.
  - eexists. split; [by apply decode_serialized|]. by exists v.
Qed.

Lemma fetched_cmd_ok cfg from to tr c :
  wf_answers tr -> is_u64 (cmd_height c) -> fetched_cmd cfg from to tr c -> cmd_ok c.
Proof.
  intros Hwf Hh (block & logs & Ha & (text & b & _ & _ & Ht & Hv & He) & Hl).
  destruct (Hwf _ _ Ha) as [_ Hn]. split; [done|]. rewrite He, Ht. split; [|done].
  apply Forall_cons_2; [by eapply to_vec_text|]. apply Forall_cons_2; [by eapply logs_origin_text|constructor].
Qed.

(** The store after a completed run, abstractly: every height the run did not
    find there holds what was fetched for it. *)
Lemma fill_range_abs cfg snap clock from to tip r r' a :
  refines (run_storage r) a -> index_sound a -> is_u64 to ->
  fill_range cfg snap clock from to tip r = (r', Done true) -> wf_answers (net_trace (run_net r')) ->
  exists a', refines (run_storage r') a' /\
    forall h, (from <= h <= to)%N -> ~ already snap h ->
      exists c, cmd_height c = h /\ fetched_cmd cfg from to (net_trace (run_net r')) c /\
        a_blocks a' !! h = Some (cmd_elements c).
Proof.
  intros Hr Hi Hto (cs & res & Hrun & Hsub & Hf & Hdone)%fill_range_wrote Hwf.
  destruct (Hdone eq_refl) as [-> Hall].
  assert (Hnd : NoDup (cmd_height <$> cs)) by (eapply sublist_NoDup; [apply NoDup_heights|exact Hsub]).
  assert (Hok : Forall cmd_ok cs).
  { rewrite Forall_forall in Hf |- *. intros c Hc. apply (fetched_cmd_ok cfg from to (net_trace (run_net r'))); [done| |by apply Hf].
    assert (Hin : cmd_height c ∈ heights from to).
    { eapply elem_of_sublist; [|exact Hsub]. apply list_elem_of_fmap. by exists c. }
    apply elem_of_heights in Hin. unfold is_u64 in *. lia. }
  exists (abs_run cs a). split; [by apply (run_puts_refines cs (run_storage r))|].
  intros h Hh Hn. destruct (Hall h) as [Hin|]; [by apply elem_of_heights| |done].
  apply list_elem_of_fmap in Hin as (c & -> & Hc). exists c. split; [done|].
  rewrite Forall_forall in Hf. split; [by apply Hf|by apply abs_run_block].
Qed.

(** C17: what the backfill fetched is what clients are answered with.  After a
    completed run over a store that was consistent before it, every height of
    the run that was not stored already is served by [eth_getBlockByNumber] as
    exactly the block the upstream answered with for that height; and, where logs
    are ingested, an [eth_getLogs] range inside the run none of whose heights was
    stored already answers with exactly the logs the upstream answered with for
    its heights that match the filter, in height order. *)
Theorem backfilled_is_served cfg snap clock from to tip r r' a api :
  refines (run_storage r) a -> index_sound a -> (to < u64_max)%N ->
  fill_range cfg snap clock from to tip r = (r', Done true) -> wf_answers (net_trace (run_net r')) ->
  ea_storage api = run_storage r' ->
  (forall h, (from <= h <= to)%N -> ~ already snap h ->
     exists block, answered (net_trace (run_net r')) (block_request h) block /\
       forall full, get_block_by_number api (hex_quantity h) full = Ok (Some (shape_block block full))) /\
  (forall f x y, cfg_ingest_logs cfg = true -> ea_ingests_logs api = true ->
     logs_range api f = Ok (Some (x, y)) -> (from <= x)%N -> (y <= to)%N ->
     (forall h, (x <= h <= y)%N -> ~ already snap h) ->
     exists lss, Forall2 (upstream_logs cfg from to (net_trace (run_net r'))) (heights x y) lss /\
       get_logs GETLOGS_TURNS api f = Some (Ok (Some (VArray (hits f (concat lss)))))).
Proof.
  intros Hr Hi Hto E Hwf Hapi.
  destruct (fill_range_abs cfg snap clock from to tip r r' a Hr Hi) as (a' & Hr' & Hall);
    [unfold is_u64; lia|done..|]. rewrite <- Hapi in Hr'. split.
  - intros h Hh Hn. destruct (Hall h Hh Hn) as (c & <- & (block & logs & Ha & (text & b & _ & _ & _ & Hv & He) & _) & Hb).
    exists block. split; [done|]. intros full. unfold get_block_by_number, lookup_block, select_block.
    rewrite hex_quantity_tag by (unfold is_u64; lia). cbn [result_bind].
    destruct (Hwf _ _ Ha) as [Hw _]. rewrite He in Hb.
    by rewrite (read_block_value_refines api a' _ [b; logs] b block Hr' Hb eq_refl (from_to_vec _ _ Hw Hv)).
  - intros f x y Hcl Hel Hrange Hx Hy Hn.
    assert (Hs : exists lss, mapM (stored_logs a') (heights x y) = Some lss /\
      Forall2 (upstream_logs cfg from to (net_trace (run_net r'))) (heights x y) lss).
    { assert (Hin : Forall (fun h => (x <= h <= y)%N) (heights x y)).
      { apply Forall_forall. intros h. apply elem_of_heights. }
      induction Hin as [|h hs Hh Hhs IH]; [by exists []|]. destruct IH as (lss & Hm & Hf2).
      destruct (Hall h) as (c & <- & (block & logs & _ & (text & b & _ & _ & _ & _ & He) & Hl) & Hb);
        [lia|by apply Hn|].
      destruct (logs_origin_decodes _ _ _ _ _ _ Hwf Hcl Hl) as (ls & Hd & Hu).
      assert (Hst : stored_logs a' (cmd_height c) = Some ls)
        by (unfold stored_logs, raw_logs; by rewrite Hb, He).
      exists (ls :: lss). split; [|by constructor].
      change (mapM (stored_logs a') (cmd_height c :: hs)) with
        (stored_logs a' (cmd_height c) ≫= fun y => mapM (stored_logs a') hs ≫= fun k => mret (y :: k)).
      rewrite Hst. cbn [mbind option_bind]. by rewrite Hm. }
    destruct Hs as (lss & Hm & Hf2). exists lss. split; [done|].
    destruct (logs_range_bounds api f x y Hrange) as [Hle Hspan].
    unfold get_logs. rewrite Hel, Hrange. cbn [negb].
    destruct (scan_range_exact api f a' y 8 x [] Hr' ltac:(lia) ltac:(lia)
                ltac:(unfold GETLOGS_READ_CHUNK; lia)) as [_ Hiff].
    change (S 8) with GETLOGS_TURNS in Hiff. rewrite (proj2 (Hiff _) (ex_intro _ lss (conj Hm eq_refl))). done.
Qed.

End CChain.

(** ** The P-chain *)

Section PChain.
Context {B : Blockstore} {F : Fjall} {J : JsonLib} {X : HexLib} {L : CodecLib} {H : Http}.
Context {BL : BlockstoreLaws B} {FL : FjallLaws F} {JL : JsonLaws J} {XL : HexLaws X} {LL : CodecLaws L}.

Definition p_wf_answers (tr : list Effect) : Prop :=
  forall body v, answered tr body v ->
    json_wf v = true /\
    forall jv, get "block" v = Some jv -> (N.of_nat (length (extract_tx_ids jv)) <= u32_max)%N.

Lemma verify_any bv jv h fb : verify bv jv (Some h) = Some fb -> verify bv jv None = Some fb.
Proof.
  unfold verify. destruct (Json.as_str bv); [|done]. destruct (hexnc_decode _); [|done]. cbv zeta.
  case_decide; [done|]. destruct (get_u64 "height" jv); [|done]. by destruct (negb _).
Qed.

Lemma verify_json bv jv want fb : verify bv jv want = Some fb ->
  to_vec jv = Some (fb_json fb) /\ fb_tx_ids fb = extract_tx_ids jv.
Proof.
  unfold verify. destruct (Json.as_str bv); [|done]. destruct (hexnc_decode _); [|done]. cbv zeta.
  case_decide; [done|]. destruct (get_u64 "height" jv); [|done]. destruct (match want with Some _ => _ | None => _ end); [done|].
  destruct (cb58_decode _); [|done]. destruct (to_vec bv); [|done]. destruct (to_vec jv); [|done]. by intros [= <-].
Qed.

Lemma verify_bytes bv jv want fb : verify bv jv want = Some fb ->
  exists hex raw, bv = VString hex /\ hexnc_decode hex = Ok raw /\ fb_id fb = sha256 raw.
Proof.
  unfold verify. destruct bv as [| | |hex| |]; cbn [Json.as_str]; try done.
  destruct (hexnc_decode hex) as [raw|] eqn:Ed; [|done]. cbv zeta.
  case_decide; [done|]. destruct (get_u64 "height" jv); [|done]. destruct (match want with Some _ => _ | None => _ end); [done|].
  unfold block_id_of. rewrite cb58_roundtrip by apply sha256_length.
  destruct (to_vec (VString hex)); [|done]. destruct (to_vec jv); [|done]. intros [= <-]. by exists hex, raw.
Qed.

Lemma consecutive_nodup lo cs : consecutive lo cs -> NoDup (cmd_height <$> cs).
Proof.
  intros Hc. apply NoDup_alt. intros i j x. rewrite !list_lookup_fmap.
  destruct (cs !! i) as [ci|] eqn:Ei, (cs !! j) as [cj|] eqn:Ej; cbn; try done.
  intros [= <-] [= Hx]. rewrite (Hc _ _ Ei), (Hc _ _ Ej) in Hx. lia.
Qed.

Lemma verified_ok cs : Forall verified_cmd cs -> Forall cmd_ok cs.
Proof.
  intros Hv. eapply Forall_impl; [exact Hv|]. intros c Hc.
  by destruct (verified_cmd_inv c Hc) as (? & ? & ? & ? & ? & ? & ? & ? & ? & ? & ? & ? & ? & ? & ?).
Qed.

Lemma rewards_text tr fb rw : rewards_settled tr fb rw -> json_text rw.
Proof.
  unfold rewards_settled. destruct (fb_reward_staking_tx fb); [|intros ->; apply empty_array_text].
  intros (nx & _ & [[_ ->]|(_ & r & _ & Hv)]); [apply empty_array_text|by eapply to_vec_text].
Qed.

Lemma settled_verified tr c :
  p_wf_answers tr -> is_u64 (cmd_height c) -> settled_cmd tr c -> verified_cmd c.
Proof.
  intros Hwf Hu (fb & rw & (bv & jv & _ & (r & Ha & Hg) & Hv) & Hrw & Hid & Htx & He).
  destruct (Hwf _ _ Ha) as [Hw Hn]. pose proof (verify_height _ _ _ _ Hv) as Hh.
  exists bv, jv, fb, rw. destruct (verify_json _ _ _ _ Hv) as [_ Ht]. rewrite Hh, Ht. split_and!.
  - eapply (json_wf_weaken 126); [lia|]. by eapply json_wf_get_126.
  - by eapply rewards_text.
  - done.
  - by apply Hn.
  - by eapply verify_any.
  - destruct c. cbn in *. subst. by rewrite Ht.
Qed.

(** The store after a completed run: the settled records of all heights below
    [next]. *)
Lemma p_fill_range_abs cfg clock from to tip r r' a :
  refines (pr_storage r) a -> index_sound a -> is_u64 to -> (from <= to)%N ->
  p_fill_range cfg clock from to tip r = (r', Done true) -> p_wf_answers (net_trace (pr_net r')) ->
  exists next a', ended_at (net_trace (pr_net r')) to next /\ refines (pr_storage r') a' /\
    forall h, (from <= h < next)%N -> exists c, cmd_height c = h /\ is_u64 h /\
      settled_cmd (net_trace (pr_net r')) c /\ verified_cmd c /\ a_blocks a' !! h = Some (cmd_elements c).
Proof.
  intros Hr Hi Hu Hle E Hwf.
  destruct (p_fill_range_ran cfg clock from to tip r r' (Done true))
    as (next & (_ & cs & res & Hrun & Hc & Hf & Hb & Hok) & He); [lia|done|].
  destruct (Hok eq_refl) as [-> <-]. rewrite Forall_lookup in Hf.
  assert (Hh64 : forall i c, cs !! i = Some c -> is_u64 (cmd_height c)).
  { intros i c Hin. rewrite (Hc _ _ Hin). apply lookup_lt_Some in Hin. unfold is_u64 in *. lia. }
  assert (Hv : Forall verified_cmd cs).
  { apply Forall_lookup. intros i c Hin. eapply settled_verified; [exact Hwf|by eapply Hh64|by eapply Hf]. }
  destruct (run_puts_refines cs _ _ a Hr Hi (verified_ok _ Hv) Hrun) as [Hr' _].
  eexists _, _. split; [by apply He|]. split; [exact Hr'|]. intros h Hh.
  destruct (lookup_lt_is_Some_2 cs (N.to_nat (h - from)) ltac:(lia)) as [c Hin]. exists c.
  assert (Hch : cmd_height c = h) by (rewrite (Hc _ _ Hin); lia).
  rewrite Forall_lookup in Hv. rewrite <- Hch.
  split_and!; [done|by eapply Hh64|by eapply Hf|by eapply Hv|].
  apply abs_run_block; [by eapply consecutive_nodup|by eapply list_elem_of_lookup_2].
Qed.

(** C18: what the P-chain ingestion fetched is what clients are answered with.
    After a completed run over a consistent store, every height of the run - but
    for the last one when it is a reward proposal the chain has not decided yet -
    is served by [platform.getBlockByHeight]: as JSON it is exactly the block the
    upstream returned for that height, and in every encoding the answer verifies
    against the hash of the canonical bytes the upstream returned for it. *)
Theorem ingested_is_served cfg clock from to tip r r' a :
  refines (pr_storage r) a -> index_sound a -> is_u64 to -> (from <= to)%N ->
  p_fill_range cfg clock from to tip r = (r', Done true) -> p_wf_answers (net_trace (pr_net r')) ->
  exists next, ended_at (net_trace (pr_net r')) to next /\
    forall h, (from <= h < next)%N ->
      exists jv hex raw, encoded_at (net_trace (pr_net r')) h EJson jv /\
        encoded_at (net_trace (pr_net r')) h Hexnc (VString hex) /\ hexnc_decode hex = Ok raw /\
        let ask e := get_block_by_height (pr_storage r')
                       {| bh_height := UStr (to_decimal h); bh_encoding := Some (encoding_as_str e) |} in
        ask EJson = Ok (Some (block_reply jv EJson)) /\
        forall e, exists reply, ask e = Ok (Some reply) /\ reply_verifies (sha256 raw) e reply.
Proof.
  intros Hr Hi Hu Hle E Hwf.
  destruct (p_fill_range_abs _ _ _ _ _ _ _ _ Hr Hi Hu Hle E Hwf) as (next & a' & He & Hr' & Hall).
  exists next. split; [done|]. intros h Hh.
  destruct (Hall h Hh) as (c & Hch & H64 & (fb & rw & (bv & jv & Hbv & Hjv & Hver) & _ & Hid & _ & Hel) & Hvc & Hblk).
  rewrite Hch in *.
  destruct (verify_bytes _ _ _ _ Hver) as (hex & raw & -> & Hd & Hraw).
  exists jv, hex, raw. split_and!; [done..|]. intros ask.
  assert (Hask : forall e, ask e = render_block (pr_storage r') h e).
  { intros e. unfold ask, get_block_by_height. cbn [bh_height bh_encoding uint64_get].
    rewrite parse_to_decimal by done. cbn [ok_or result_bind]. unfold parse_encoding.
    by rewrite encoding_roundtrip. }
  split.
  - rewrite Hask. destruct (verify_json _ _ _ _ Hver) as [Hj _]. rewrite Hel in Hblk.
    destruct Hjv as (rr & Ha & Hg). destruct (Hwf _ _ Ha) as [Hw _].
    destruct (element_view _ _ h _ BLOCK (fb_json fb) Hr' Hblk eq_refl) as (el & Ee & Ed).
    unfold render_block. rewrite decide_True by done. rewrite Ee. cbn [map_err result_bind].
    rewrite Ed, (from_to_vec jv _ (json_wf_weaken 126 _ ltac:(lia) (json_wf_get_126 _ _ _ Hw Hg)) Hj). cbn [ok_or result_bind].
    by rewrite decide_True.
  - intros e. rewrite Hask, <- Hraw, <- Hid. by apply (render_verifies _ a').
Qed.

End PChain.
