(* ===== verification/Bulk.v ===== *)
(** * Bulk export (src/bulk.rs)

    [GET /blocks]: parsing the query, picking the store, admitting the range and
    the streamed body, one block and one newline per height. *)

From Stdlib Require Import ZArith NArith Lia String Ascii.
From S2P Require Import Prelude Str Json Chain Record Backing Storage StorageSpec Join Codec Serve.

(** ** The query *)

Record Range : Type := { rg_from : N; rg_to : option N; rg_chain : option Chain }.

Definition parse_height (s : string) : result N :=
  match (match strip_prefix "0x" s with Some h => Some h | None => strip_prefix "0X" s end) with
  | Some hex => ok_or (u64_from_hex hex) (EText ("invalid hex height: " ++ s)%string)
  | None => ok_or (parse_u64 s) (EText ("invalid height: " ++ s)%string)
  end.

(** [ValueEnum::from_str] ignoring case: the value names of [Chain]. *)
Definition parse_chain (s : string) : result Chain :=
  if eq_ignore_ascii_case s "c" then Ok C
  else if eq_ignore_ascii_case s "p" then Ok P
  else Err (EText ("unknown chain: " ++ s)%string).

(** The [for] over the pairs, with the three slots. *)
Fixpoint parse_pairs (pairs : list string) (slots : option N * option N * option Chain)
    : result (option N * option N * option Chain) :=
  match pairs with
  | [] => Ok slots
  | kv :: pairs =>
      let '(from, to, chain) := slots in
      match split_once "=" kv with
      | None => parse_pairs pairs slots
      | Some (key, value) =>
          if String.eqb key "from" then let? h := parse_height value in parse_pairs pairs (Some h, to, chain)
          else if String.eqb key "to" then let? h := parse_height value in parse_pairs pairs (from, Some h, chain)
          else if String.eqb key "chain" then let? c := parse_chain value in parse_pairs pairs (from, to, Some c)
          else parse_pairs pairs slots
      end
  end.

Definition parse_range (query : string) : result Range :=
  let? slots := parse_pairs (Str.split "&" query) (None, None, None) in
  let '(from, to, chain) := slots in
  let? from := ok_or from (EText "missing 'from' query parameter") in
  Ok {| rg_from := from; rg_to := to; rg_chain := chain |}.

Definition BAD_REQUEST : N := 400.
Definition RANGE_NOT_SATISFIABLE : N := 416.
Definition newline : byte := Byte.x0a.

Section Bulk.
Context {B : Blockstore} {F : Fjall} {J : JsonLib}.

(** ** The stores *)

Record Stores : Type := { by_chain : list (Chain * Storage); default_chain : option Chain }.

Definition stores_new (chains : list ChainServe) : Stores :=
  {| by_chain := map (fun c => (cs_chain c, cs_storage c)) chains;
     default_chain := match List.find (fun c => bool_decide (c = C)) (map cs_chain chains) with
                      | Some c => Some c
                      | None => head (map cs_chain chains)
                      end |}.

Definition stores_get (s : Stores) (chain : option Chain) : option Storage :=
  want ← match chain with Some c => Some c | None => default_chain s end;
  snd <$> List.find (fun p => bool_decide (p.1 = want)) (by_chain s).

(** ** The body *)

(** The streamed frames from [height] on: a block, then its newline; the stream
    truncates where a block cannot be read.  Frames are produced on demand while
    the store lives on: [at_height h] is the store when height [h] is read.
    [fuel] bounds the heights. *)
Fixpoint stream_body (fuel : nat) (at_height : N -> Storage) (height to : N) : bytes :=
  match fuel with
  | O => []
  | S fuel =>
      if (to <? height)%N then []
      else match get_by_height (at_height height) height with
           | Ok (Some el) => deref el ++ newline :: stream_body fuel at_height (sat_add height 1) to
           | Ok None => []
           | Err _ => []
           end
  end.

(** A refusal with its status and message, or a 200 with its NDJSON body. *)
Inductive BulkReply : Type :=
  | BulkError (status : N) (msg : string)
  | Ndjson (body : bytes).

#[local] Open Scope string_scope.

(** The end of the exported range, or the status and message of the refusal. *)
Definition range_end (max_blocks : N) (st : Storage) (from : N) (to_opt : option N) : (N * string) + N :=
  let min := min_height st in
  let contiguous := max_contiguous_height st in
  if (from <? min)%N || (contiguous <? from)%N then
    inl (RANGE_NOT_SATISFIABLE, "'from' " ++ to_decimal from ++ " outside available [" ++ to_decimal min ++ "..="
                                  ++ to_decimal contiguous ++ "]")
  else
    let ended :=
      match to_opt with
      | Some t =>
          if (t <? from)%N then
            inl (BAD_REQUEST, "'to' (" ++ to_decimal t ++ ") is before 'from' (" ++ to_decimal from ++ ")")
          else if (contiguous <? t)%N then
            inl (RANGE_NOT_SATISFIABLE, "'to' " ++ to_decimal t ++ " past the contiguous tip " ++ to_decimal contiguous)
          else inr t
      | None => inr (N.min (sat_add from (sat_sub max_blocks 1)) contiguous)
      end in
    match ended with
    | inl e => inl e
    | inr to =>
        let count := sat_add (sat_sub to from) 1 in
        if (max_blocks <? count)%N then
          inl (BAD_REQUEST, "requested " ++ to_decimal count ++ " blocks; max " ++ to_decimal max_blocks ++ " per request")
        else inr to
    end.

Definition serve_range (stores : Stores) (at_height : N -> Storage) (max_blocks : N) (query : string) : BulkReply :=
  match parse_range query with
  | Err e => BulkError BAD_REQUEST (match e with EText msg => msg | _ => "" end)
  | Ok {| rg_from := from; rg_to := to_opt; rg_chain := chain |} =>
      match stores_get stores chain with
      | None => BulkError BAD_REQUEST ("chain " ++ from_option Chain.as_str "<none>" chain
                                         ++ " is not being mirrored by this instance")
      | Some st =>
          match range_end max_blocks st from to_opt with
          | inl (status, msg) => BulkError status msg
          | inr to => Ndjson (stream_body (S (N.to_nat (to + 1 - from))) at_height from to)
          end
      end
  end.

(** [BulkBlocksService::call]: [None] when the request goes to the inner service. *)
Definition bulk_call (stores : Stores) (at_height : N -> Storage) (max_blocks : N)
    (method path : string) (query : option string) : option BulkReply :=
  if String.eqb method "GET" && String.eqb path "/blocks"
  then Some (serve_range stores at_height max_blocks (default "" query))
  else None.

(** ** What is exported *)

Context {BL : BlockstoreLaws B} {FL : FjallLaws F} {JL : JsonLaws J}.

(** One line per height. *)
Definition lines (a : Abs) (hs : list N) : bytes :=
  concat (map (fun h => default [] (a_blocks a !! h ≫= fun es => es !! BLOCK) ++ [newline])%list hs).

Lemma stream_body_lines at_height a to k : forall height,
  (to < u64_max)%N -> N.of_nat k = (to + 1 - height)%N ->
  (forall h, (height <= h <= to)%N ->
     exists ah, refines (at_height h) ah /\ a_blocks ah !! h = a_blocks a !! h /\ is_Some (a_blocks a !! h)) ->
  stream_body (S k) at_height height to = lines a (heights height to).
Proof.
  induction k as [|k IH]; intros height Hto Hk Hall.
  - cbn. rewrite heights_nil by lia. destruct (N.ltb_spec to height); [done|lia].
  - rewrite heights_cons by lia. remember (S k) as k' eqn:Ek. cbn [stream_body]. subst k'.
    destruct (N.ltb_spec to height); [lia|].
    destruct (Hall height ltac:(lia)) as (ah & Hr & Hsame & es & He). rewrite He in Hsame.
    destruct (ref_records _ _ Hr _ _ Hsame) as [Hlen _]. pose proof (arity_ge_2 (st_chain (at_height height))).
    destruct (lookup_lt_is_Some_2 es BLOCK) as [b Hb]; [unfold BLOCK; lia|].
    pose proof (get_element_refines (at_height height) ah height BLOCK Hr) as Hg.
    rewrite Hsame in Hg. cbn in Hg. rewrite Hb in Hg.
    unfold get_by_height. destruct (get_element (at_height height) height BLOCK) as [[el|]|]; cbn in Hg; simplify_eq.
    replace (sat_add height 1) with (height + 1)%N by sat_lia.
    rewrite IH by (done || lia || (intros h Hh; apply Hall; lia)).
    unfold lines. cbn [map concat]. rewrite He. cbn. rewrite Hb. cbn. by rewrite <- app_assoc.
Qed.

(** The last height a request names: its [to], or the end of a full window. *)
Definition named_end (max_blocks : N) (st : Storage) (from : N) (to_opt : option N) : N :=
  match to_opt with
  | Some t => t
  | None => N.min (from + (max_blocks - 1)) (max_contiguous_height st)
  end.

(** What [range_end] lets through, and what it refuses. *)
Lemma range_end_cases max_blocks st from to_opt :
  (max_contiguous_height st < u64_max)%N ->
  let last := named_end max_blocks st from to_opt in
  ((min_height st <= from <= last)%N /\ (last <= max_contiguous_height st)%N /\ (last + 1 - from <= max_blocks)%N /\
     range_end max_blocks st from to_opt = inr last) \/
  (~ ((min_height st <= from <= last)%N /\ (last <= max_contiguous_height st)%N /\ (last + 1 - from <= max_blocks)%N) /\
     exists status msg, range_end max_blocks st from to_opt = inl (status, msg) /\
       status = if (from <? min_height st)%N || (max_contiguous_height st <? from)%N
                   || ((from <=? last) && (max_contiguous_height st <? last))%N
                then RANGE_NOT_SATISFIABLE else BAD_REQUEST).
Proof.
  unfold range_end, named_end, sat_add, sat_sub. generalize (max_contiguous_height st) (min_height st).
  intros hi lo Hhi. generalize dependent u64_max. intros m Hhi. cbv zeta.
  destruct (N.ltb_spec from lo), (N.ltb_spec hi from); cbn [orb]; try (right; split; [lia|eauto]).
  destruct to_opt as [t|].
  - destruct (N.ltb_spec t from); [right; split; [lia|]; rewrite (proj2 (N.leb_gt _ _)) by lia; eauto|].
    rewrite (proj2 (N.leb_le _ _)) by lia. cbn [andb].
    destruct (N.ltb_spec hi t); [right; split; [lia|eauto]|].
    destruct (N.ltb_spec max_blocks (N.min (t - from + 1) m)); [right; split; [lia|eauto]|]. left. split_and!; lia || done.
  - replace (N.min (N.min (from + (max_blocks - 1)) m) hi) with (N.min (from + (max_blocks - 1)) hi) by lia.
    rewrite (proj2 (N.ltb_ge hi _)) by lia. rewrite andb_false_r.
    destruct (N.ltb_spec max_blocks (N.min (N.min (from + (max_blocks - 1)) hi - from + 1) m));
      [right; split; [lia|eauto]|]. left. split_and!; lia || done.
Qed.

(** The contiguous run is what the store holds from its floor on without a gap. *)
Lemma held_contiguous st a s last :
  refines st a -> st_store st = Some s -> present s (min_block_height s) -> (min_height st <= last)%N ->
  (last <= max_contiguous_height st)%N <-> forall h, (min_height st <= h <= last)%N -> is_Some (a_blocks a !! h).
Proof.
  intros Hr Hs Hm. unfold min_height, max_contiguous_height. rewrite Hs. intros Hlo. split.
  - intros Hc h Hh. apply (refines_present st a s); [done|done|]. apply contiguous_present; [done|lia].
  - intros Hall. apply contiguous_at_least; [|done]. intros h Hh. destruct (Hall h Hh) as [es Hes].
    pose proof (ref_blocks _ _ Hr h) as Hb. unfold stored in Hb. rewrite Hs, Hes in Hb. by eexists.
Qed.

(** C36: a bulk export is complete, or refused.  For a request that parses, with the
    store of its chain anchored at its floor, let the range it names run from [from]
    to its [to], or without one through the next [max_blocks] heights up to the
    contiguous tip.  When that range starts at or above the floor, every height from
    the floor through its end is held, and it has at most [max_blocks] heights, the
    reply is a 200 whose body has exactly one line per height of the range, in
    order, each the block stored when the range was admitted, whatever is written
    meanwhile at other heights.  Every other request is refused: with 416 when its
    [from] is outside what is available or its [to] past it, with 400 when the range
    is empty or too large. *)
Theorem bulk_export_complete stores at_height max_blocks query from to_opt chain st a s :
  parse_range query = Ok {| rg_from := from; rg_to := to_opt; rg_chain := chain |} ->
  stores_get stores chain = Some st -> refines st a ->
  st_store st = Some s -> present s (min_block_height s) -> (max_contiguous_height st < u64_max)%N ->
  let last := named_end max_blocks st from to_opt in
  let available := (min_height st <= from <= last)%N /\
    (forall h, (min_height st <= h <= last)%N -> is_Some (a_blocks a !! h)) /\ (last + 1 - from <= max_blocks)%N in
  (available ->
     (forall h, (from <= h <= last)%N -> exists ah, refines (at_height h) ah /\ a_blocks ah !! h = a_blocks a !! h) ->
     bulk_call stores at_height max_blocks "GET" "/blocks" (Some query) = Some (Ndjson (lines a (heights from last)))) /\
  (~ available -> exists status msg,
     bulk_call stores at_height max_blocks "GET" "/blocks" (Some query) = Some (BulkError status msg) /\
     status = if (from <? min_height st)%N || (max_contiguous_height st <? from)%N
                 || ((from <=? last) && (max_contiguous_height st <? last))%N
              then RANGE_NOT_SATISFIABLE else BAD_REQUEST).
Proof.
  intros Hp Hg Hr Hs Hm Hhi. cbv zeta.
  change (bulk_call stores at_height max_blocks "GET" "/blocks" (Some query))
    with (Some (serve_range stores at_height max_blocks query)).
  unfold serve_range. rewrite Hp, Hg.
  pose proof (range_end_cases max_blocks st from to_opt Hhi) as Hcases. cbv zeta in Hcases.
  set (last := named_end max_blocks st from to_opt) in *.
  destruct Hcases as [(Hf & Hc & Hn & ->)|(Hno & status & msg & -> & Hst)].
  - pose proof (proj1 (held_contiguous st a s last Hr Hs Hm ltac:(lia)) Hc) as Hall. split; [|tauto].
    intros _ Hlive. do 2 f_equal. apply stream_body_lines; [lia|lia|].
    intros h Hh. destruct (Hlive h Hh) as (ah & Hra & Hsame). exists ah. split_and!; [done|done|]. apply Hall. lia.
  - split; [|by eauto]. intros (Hf & Hall & Hn). destruct Hno. split_and!; [lia..| |done].
    apply (held_contiguous st a s last Hr Hs Hm ltac:(lia)). exact Hall.
Qed.

(** An empty store is not told apart from one that holds height 0: both
    bounds read as 0, so a request for height 0 is admitted and answered with a
    200 and an empty body. *)
Theorem bulk_empty_store stores at_height max_blocks query chain st :
  parse_range query = Ok {| rg_from := 0; rg_to := None; rg_chain := chain |} ->
  stores_get stores chain = Some st -> st_store st = None -> (0 < max_blocks)%N ->
  st_store (at_height 0%N) = None ->
  serve_range stores at_height max_blocks query = Ndjson [].
Proof.
  intros Hp Hg Hs Hm Hs0. unfold serve_range. rewrite Hp, Hg. unfold range_end, min_height, max_contiguous_height.
  rewrite Hs. cbv zeta. cbn [orb]. change ((0 <? 0)%N) with false. cbn [orb].
  rewrite N.min_0_r. unfold sat_sub, sat_add. change (N.min (0 - 0 + 1) u64_max) with 1%N.
  destruct (N.ltb_spec max_blocks 1); [lia|]. cbn [stream_body].
  change ((0 <? 0)%N) with false. unfold get_by_height, get_element. by rewrite Hs0.
Qed.

End Bulk.
