(* ===== verification/Conn.v ===== *)
(** * Idle connections (src/conn.rs)

    The stream wrapper that closes a connection on which no byte has moved for
    the configured interval.  The clock is explicit, in nanoseconds: a timer
    armed at [now] for [d] is ready when polled at [now + d] or later. *)

From Stdlib Require Import NArith Lia.
From S2P Require Import Prelude.

(** The outcome of polling a future. *)
Inductive Poll (A : Type) : Type :=
  | Ready (a : A)
  | Pending_.
Arguments Ready {A} _.
Arguments Pending_ {A}.

(** The wrapped stream, over its own error type. *)
Class AsyncStream : Type := {
  Stream : Type;
  StreamError : Type;
  inner_poll_read : Stream -> N -> nat -> Stream * Poll (bytes + StreamError);
  inner_poll_write : Stream -> N -> bytes -> Stream * Poll (nat + StreamError);
  inner_poll_flush : Stream -> N -> Stream * Poll (unit + StreamError);
  inner_poll_shutdown : Stream -> N -> Stream * Poll (unit + StreamError)
}.

Section Conn.
Context {Io : AsyncStream}.

(** An error of the wrapped stream, or the reaper's. *)
Inductive IoError : Type :=
  | StreamErr (e : StreamError)
  | IdleTimeoutErr.

Record Reaper : Type := { interval : N; deadline : N }.

Record IdleTimeout : Type := { it_inner : Stream; reaper : option Reaper }.

Definition idle_new (now : N) (inner : Stream) (idle : option N) : IdleTimeout :=
  {| it_inner := inner; reaper := (fun d => {| interval := d; deadline := now + d |}) <$> idle |}.

Definition reset_timeout (now : N) (c : IdleTimeout) : IdleTimeout :=
  {| it_inner := it_inner c;
     reaper := (fun r => {| interval := interval r; deadline := now + interval r |}) <$> reaper c |}.

Definition idle_expired (now : N) (c : IdleTimeout) : bool :=
  match reaper c with
  | Some r => (deadline r <=? now)%N
  | None => false
  end.

Definition with_inner (c : IdleTimeout) (s : Stream) : IdleTimeout :=
  {| it_inner := s; reaper := reaper c |}.

Definition poll_read (now : N) (cap : nat) (c : IdleTimeout) : IdleTimeout * Poll (bytes + IoError) :=
  let (s, r) := inner_poll_read (it_inner c) now cap in
  let c := with_inner c s in
  match r with
  | Ready (inl b) => (reset_timeout now c, Ready (inl b))
  | Ready (inr e) => (c, Ready (inr (StreamErr e)))
  | Pending_ => if idle_expired now c then (c, Ready (inr IdleTimeoutErr)) else (c, Pending_)
  end.

Definition poll_write (now : N) (buf : bytes) (c : IdleTimeout) : IdleTimeout * Poll (nat + IoError) :=
  let (s, r) := inner_poll_write (it_inner c) now buf in
  let c := with_inner c s in
  match r with
  | Ready (inl n) => (reset_timeout now c, Ready (inl n))
  | Pending_ => if idle_expired now c then (c, Ready (inr IdleTimeoutErr)) else (c, Pending_)
  | Ready (inr e) => (c, Ready (inr (StreamErr e)))
  end.

Definition lift_io (r : Poll (unit + StreamError)) : Poll (unit + IoError) :=
  match r with
  | Ready (inl u) => Ready (inl u)
  | Ready (inr e) => Ready (inr (StreamErr e))
  | Pending_ => Pending_
  end.

Definition poll_flush (now : N) (c : IdleTimeout) : IdleTimeout * Poll (unit + IoError) :=
  let (s, r) := inner_poll_flush (it_inner c) now in (with_inner c s, lift_io r).

Definition poll_shutdown (now : N) (c : IdleTimeout) : IdleTimeout * Poll (unit + IoError) :=
  let (s, r) := inner_poll_shutdown (it_inner c) now in (with_inner c s, lift_io r).

(** ** A connection's life: polls at given times *)

Inductive Op : Type :=
  | PollRead (cap : nat)
  | PollWrite (buf : bytes)
  | PollFlush
  | PollShutdown.

(** What a caller sees of a poll. *)
Inductive Seen : Type :=
  | ReadBytes (b : bytes)
  | Wrote (n : nat)
  | Flushed
  | ShutDown
  | Failed (e : StreamError)
  | Waiting
  | Reaped.

Definition seen {A} (done_ : A -> Seen) (r : Poll (A + IoError)) : Seen :=
  match r with
  | Ready (inl a) => done_ a
  | Ready (inr (StreamErr e)) => Failed e
  | Ready (inr IdleTimeoutErr) => Reaped
  | Pending_ => Waiting
  end.

Definition step (c : IdleTimeout) (now : N) (op : Op) : IdleTimeout * Seen :=
  match op with
  | PollRead cap => let (c, r) := poll_read now cap c in (c, seen ReadBytes r)
  | PollWrite buf => let (c, r) := poll_write now buf c in (c, seen Wrote r)
  | PollFlush => let (c, r) := poll_flush now c in (c, seen (fun _ => Flushed) r)
  | PollShutdown => let (c, r) := poll_shutdown now c in (c, seen (fun _ => ShutDown) r)
  end.

Fixpoint drive (c : IdleTimeout) (ops : list (N * Op)) : IdleTimeout * list (N * Seen) :=
  match ops with
  | [] => (c, [])
  | (now, op) :: ops =>
      let (c, o) := step c now op in
      let (c, os) := drive c ops in (c, (now, o) :: os)
  end.

(** The reference reading: the stream on its own, and the last instant a byte
    moved on it. *)
Definition raw_step (s : Stream) (now : N) (op : Op) : Stream * Seen :=
  let plain {A} (done_ : A -> Seen) (r : Stream * Poll (A + StreamError)) :=
    (r.1, match r.2 with Ready (inl a) => done_ a | Ready (inr e) => Failed e | Pending_ => Waiting end) in
  match op with
  | PollRead cap => plain ReadBytes (inner_poll_read s now cap)
  | PollWrite buf => plain Wrote (inner_poll_write s now buf)
  | PollFlush => plain (fun _ => Flushed) (inner_poll_flush s now)
  | PollShutdown => plain (fun _ => ShutDown) (inner_poll_shutdown s now)
  end.

Definition moves_bytes (op : Op) : bool :=
  match op with PollRead _ | PollWrite _ => true | _ => false end.

Fixpoint reference (s : Stream) (last : N) (idle : option N) (ops : list (N * Op)) : Stream * list (N * Seen) :=
  match ops with
  | [] => (s, [])
  | (now, op) :: ops =>
      let (s, o) := raw_step s now op in
      let silent := match idle with Some d => (last + d <=? now)%N | None => false end in
      let last := match o with ReadBytes _ | Wrote _ => now | _ => last end in
      let o := match o with Waiting => if moves_bytes op && silent then Reaped else Waiting | o => o end in
      let (s, os) := reference s last idle ops in (s, (now, o) :: os)
  end.

(** The armed deadline is one interval after the last activity. *)
Definition armed (c : IdleTimeout) (last : N) (idle : option N) : Prop :=
  reaper c = (fun d => {| interval := d; deadline := last + d |}) <$> idle.

Lemma armed_with_inner c s last idle : armed c last idle -> armed (with_inner c s) last idle.
Proof. done. Qed.

Lemma armed_reset c last idle now : armed c last idle -> armed (reset_timeout now c) now idle.
Proof. unfold armed. cbn. intros ->. by destruct idle. Qed.

Lemma armed_expired c last idle now :
  armed c last idle ->
  idle_expired now c = match idle with Some d => (last + d <=? now)%N | None => false end.
Proof. unfold armed, idle_expired. intros ->. by destruct idle. Qed.

Lemma step_reference c last idle now op ops :
  armed c last idle ->
  exists c' last' o,
    step c now op = (c', o) /\ armed c' last' idle /\
    reference (it_inner c) last idle ((now, op) :: ops)
    = let (s, os) := reference (it_inner c') last' idle ops in (s, (now, o) :: os).
Proof.
  intros Ha. cbn [reference]. unfold raw_step, step, poll_read, poll_write, poll_flush, poll_shutdown.
  destruct op as [cap|buf| |];
    [destruct (inner_poll_read (it_inner c) now cap) as [s [[b|e]|]] eqn:E
    |destruct (inner_poll_write (it_inner c) now buf) as [s [[b|e]|]] eqn:E
    |destruct (inner_poll_flush (it_inner c) now) as [s [[b|e]|]] eqn:E
    |destruct (inner_poll_shutdown (it_inner c) now) as [s [[b|e]|]] eqn:E]; cbn;
    rewrite ?(armed_expired _ _ _ _ (armed_with_inner c s last idle Ha));
    try (by eexists _, _, _; split_and!; [done|apply (armed_reset _ last), armed_with_inner|]);
    try (by eexists _, _, _; split_and!; [done|apply armed_with_inner|]);
    destruct idle as [d|]; [destruct (last + d <=? now)%N| |destruct (last + d <=? now)%N|];
    by eexists _, _, _; split_and!; [done|apply armed_with_inner|].
Qed.

Lemma drive_reference c last idle ops :
  armed c last idle ->
  let (c', seen) := drive c ops in (it_inner c', seen) = reference (it_inner c) last idle ops.
Proof.
  revert c last. induction ops as [|[now op] ops IH]; intros c last Ha; [done|].
  destruct (step_reference c last idle now op ops Ha) as (c' & last' & o & Hs & Ha' & ->).
  cbn [drive]. rewrite Hs. specialize (IH _ _ Ha'). destruct (drive c' ops) as [c2 os]. by rewrite <- IH.
Qed.

(** A connection is reaped exactly when it has been silent.  Whatever the
    sequence of polls, the wrapped connection gives the bytes, the counts and the
    errors the bare stream gives, and leaves that stream as the same polls would,
    except that a read or write left pending is turned into the idle error
    exactly when at least the configured interval has passed since the last
    completed read or write (or since the connection was accepted); flushes
    never reap, a pending poll is not activity, and with no interval
    configured nothing is ever reaped. *)
Theorem reaped_exactly_when_silent s t0 idle ops :
  let (c, seen) := drive (idle_new t0 s idle) ops in (it_inner c, seen) = reference s t0 idle ops.
Proof. by apply drive_reference. Qed.

End Conn.
