(* ===== verification/Toml.v ===== *)
(** * TOML documents

    [toml::Value] and [toml::Table] as src/config.rs uses them: the document
    tree, the dotted-path updates [set_path] makes in it, and the [f64] values it
    can hold.  Tables are [BTreeMap]s: association lists in key order. *)

From Stdlib Require Import ZArith NArith Lia String Ascii.
From S2P Require Import Prelude Str Float64.

(** ** Documents *)

Inductive TValue : Type :=
  | TString (s : string)
  | TInteger (z : Z)
  | TFloat (x : f64)
  | TBoolean (b : bool)
  | TDatetime (text : string)
  | TArray (items : list TValue)
  | TTable (entries : list (string * TValue)).

Definition Table : Type := list (string * TValue).

Definition as_table (v : TValue) : option Table :=
  match v with TTable t => Some t | _ => None end.
Definition tas_bool (v : TValue) : option bool :=
  match v with TBoolean b => Some b | _ => None end.

(** [i64::MIN..=i64::MAX] *)
Definition is_i64 (z : Z) : bool := (- 2 ^ 63 <=? z)%Z && (z <? 2 ^ 63)%Z.

(** ** Dotted paths *)

(** The value at a path. *)
Fixpoint get_path (path : list string) (v : TValue) : option TValue :=
  match path with
  | [] => Some v
  | k :: path => as_table v ≫= fun t => assoc k t ≫= get_path path
  end.

(** [set_path]: insert [value], creating intermediate tables. *)
Fixpoint set_path (path : list string) (value : TValue) (tbl : Table) : result Table :=
  match path with
  | [] => Err EEmptyKey
  | [last] => Ok (btree_insert last value tbl)
  | head :: rest =>
      match default (TTable []) (assoc head tbl) with
      | TTable sub => let? sub := set_path rest value sub in Ok (btree_insert head (TTable sub) tbl)
      | _ => Err (ENotATable head)
      end
  end.

(** Two paths that meet: one is a prefix of the other. *)
Definition overlaps (p q : list string) : Prop := p `prefix_of` q \/ q `prefix_of` p.

#[global] Instance overlaps_dec p q : Decision (overlaps p q).
Proof. unfold overlaps. apply _. Defined.

Lemma set_path_cons head next rest value tbl :
  set_path (head :: next :: rest) value tbl =
    match default (TTable []) (assoc head tbl) with
    | TTable sub => let? sub := set_path (next :: rest) value sub in Ok (btree_insert head (TTable sub) tbl)
    | _ => Err (ENotATable head)
    end.
Proof. done. Qed.

(** What was set is there. *)
Lemma get_set_path path value tbl tbl' :
  set_path path value tbl = Ok tbl' -> get_path path (TTable tbl') = Some value.
Proof.
  revert tbl tbl'; induction path as [|head [|next rest] IH]; intros tbl tbl'; [done| |].
  - cbn. intros [= <-]. by rewrite assoc_btree_insert_eq.
  - rewrite set_path_cons. destruct (default _ _) as [| | | | | |sub]; try done.
    destruct (set_path _ _ sub) as [sub'|] eqn:E; cbn [result_bind]; intros [= <-].
    apply IH in E. cbn [get_path as_table mbind option_bind].
    rewrite assoc_btree_insert_eq. exact E.
Qed.

Lemma get_path_nil_table q : q <> [] -> get_path q (TTable []) = None.
Proof. by destruct q. Qed.

(** What it does not meet is unchanged. *)
Lemma get_set_path_other path value tbl tbl' q :
  set_path path value tbl = Ok tbl' -> ~ overlaps path q ->
  get_path q (TTable tbl') = get_path q (TTable tbl).
Proof.
  revert tbl tbl' q; induction path as [|head [|next rest] IH]; intros tbl tbl' q; [done| |].
  - cbn. intros [= <-] Hq. destruct q as [|k q].
    { destruct Hq. right. apply prefix_nil. }
    cbn. rewrite assoc_btree_insert_ne; [done|]. intros <-. destruct Hq. left. apply prefix_cons, prefix_nil.
  - rewrite set_path_cons. destruct (default _ _) as [| | | | | |sub] eqn:Es; try done.
    destruct (set_path _ _ sub) as [sub'|] eqn:E; cbn [result_bind]; intros [= <-] Hq.
    destruct q as [|k q]; [destruct Hq; right; apply prefix_nil|].
    cbn [get_path as_table mbind option_bind].
    destruct (decide (head = k)) as [<-|Hne]; [|by rewrite assoc_btree_insert_ne].
    rewrite assoc_btree_insert_eq. cbn [mbind option_bind].
    assert (Ho : ~ overlaps (next :: rest) q).
    { intros [H|H]; destruct Hq; [left|right]; by apply prefix_cons. }
    rewrite (IH _ _ q E Ho). destruct (assoc head tbl) as [v|]; cbn in Es; [by subst v|].
    injection Es as <-. apply get_path_nil_table. intros ->. destruct Ho. right. apply prefix_nil.
Qed.
