(* ===== verification/Config.v ===== *)
(** * Configuration: the schema (first half of src/config.rs)

    The command line, the file schema with the deserializers of its scalar
    types, durations, the built-in defaults and the environment.  Paths are
    texts ([PathBuf]); [components] is what comparing them looks at. *)

From Stdlib Require Import ZArith NArith Lia String Ascii.
From S2P Require Import Prelude Str Chain Upstream Float64 Toml.

#[local] Open Scope string_scope.

Definition DEFAULT_CONFIG_PATH : string := "/etc/neve/config.toml".

Definition ENV_VARS : list string :=
  ["NEVE_CONFIG"; "NEVE_UPSTREAM_TOKEN"; "NEVE_RPC_URL"; "NEVE_WS_URL"; "NEVE_P_RPC_URL"].

(** Requests per second: 25.0. *)
Definition PUBLIC_MAX_RPS : f64 := f64_of_Z 25.

(** ** Third-party parsers

    The [toml] and [parse_duration] crates, and socket addresses as texts. *)

Class ConfigLib : Type := {
  (** [toml::from_str::<Table>] and [toml::to_string_pretty] *)
  toml_parse : string -> option Table;
  toml_pretty : Table -> option string;
  (** [parse_duration::parse], in nanoseconds *)
  parse_duration : string -> option N;
  SocketAddr : Type;
  socket_parse : string -> option SocketAddr;
  socket_show : SocketAddr -> string;
  (** 127.0.0.1:8545 *)
  socket_default : SocketAddr
}.

(** What is documented of them. *)
Class ConfigLaws (L : ConfigLib) : Prop := {
  (** a number with one of the units [ms], [s], [m], [h] *)
  parse_duration_unit : forall n u d,
    is_u64 n ->
    (u, d) ∈ [("ms", 1000000); ("s", nanos); ("m", 60 * nanos); ("h", 3600 * nanos)]%N ->
    parse_duration (to_decimal n ++ u) = Some (n * d)%N;
  socket_parse_show : forall a, socket_parse (socket_show a) = Some a
}.

(** ** Paths *)

Definition PathBuf : Type := string.

(** [Path::components]: the root, then the pieces, without empty ones and
    without [.] except in front. *)
Definition components (p : PathBuf) : path :=
  let pieces := Str.split "/" p in
  let keep (first : bool) (c : string) := negb (String.eqb c "") && (first || negb (String.eqb c ".")) in
  ((if starts_with "/" p then ["/"] else [])
     ++ match pieces with
        | [] => []
        | c :: rest => List.filter (keep true) [c] ++ List.filter (keep false) rest
        end)%list.

(** [PartialEq for PathBuf] *)
Definition path_eqb (a b : PathBuf) : bool := bool_decide (components a = components b).

Fixpoint ends_with_slash (s : string) : bool :=
  match s with
  | EmptyString => false
  | String c EmptyString => Ascii.eqb c "/"
  | String _ s => ends_with_slash s
  end.

(** [Path::join] with a relative component. *)
Definition path_join (base : PathBuf) (c : string) : PathBuf :=
  if String.eqb base "" || ends_with_slash base then base ++ c else base ++ "/" ++ c.

(** ** Secrets *)

(** [Token], whose [Debug] and [Display] are [redacted_token]. *)
Inductive Token : Type := MkToken (value : string).
Definition expose (t : Token) : string := let '(MkToken v) := t in v.
Definition redacted_token (t : Token) : string := "<redacted>".

(** ** Small enums *)

Inductive LogLevel : Type := Trace | Debug | Info | Warn | Error.

Definition log_level_as_str (l : LogLevel) : string :=
  match l with Trace => "trace" | Debug => "debug" | Info => "info" | Warn => "warn" | Error => "error" end.

Inductive UpstreamKind : Type := Avalanchego | Neve.

#[global] Instance UpstreamKind_eq_dec : EqDecision UpstreamKind.
Proof. solve_decision. Defined.

(** The serialized name. *)
Definition kind_str (k : UpstreamKind) : string :=
  match k with Avalanchego => "avalanchego" | Neve => "neve" end.

Inductive PrintMode : Type := PrintConfig | PrintExample.

(** A deferred startup line, by what it says. *)
Inductive NoticeText : Type :=
  | DeprecatedVar (var key : string)
  | DeprecatedFlag (flag suggest : string)
  | BothTokens
  | HostCap (max_rps : option f64) (why : string)
  | OffHost (chain : Chain) (mine host : option string).

Inductive Notice : Type :=
  | NInfo (m : NoticeText)
  | NWarn (m : NoticeText).

(** ** The command line *)

Section Cli.
Context {L : ConfigLib}.

Record Cli : Type := {
  cli_config : option PathBuf;
  cli_network : option Network;
  cli_data_dir : option PathBuf;
  cli_rpc_addr : option SocketAddr;
  cli_chains : list Chain;
  cli_mirror_from : option string;
  cli_stop_time : option N;
  cli_log_level : option LogLevel;
  cli_ingest_logs : bool;
  cli_set : list string;
  cli_print_config : bool;
  cli_print_config_example : bool;
  cli_ws_url : option string;
  cli_rpc_url : option string;
  cli_p_rpc_url : option string;
  cli_p_poll_interval : option string;
  cli_request_interval : option string;
  cli_p_request_interval : option string;
  cli_p_concurrency : option N;
  cli_p_data_dir : option PathBuf;
  cli_backfill_floor : option N;
  cli_p_backfill_floor : option N;
  cli_max_wait : option string;
  cli_ws_idle_timeout : option string;
  cli_prefetch_delay_cap : option string;
  cli_idle_timeout : option string;
  cli_max_connections : option N;
  cli_max_blocks_per_request : option N;
  cli_summary_period : option string;
  cli_join_buffer_cap : option N
}.

(** ** Scalars *)

Definition parse_human_duration (s : string) : option N :=
  match parse_u64 s with
  | Some secs => Some (from_secs secs)
  | None => parse_duration s
  end.

(** [HumanDuration]'s visitor. *)
Definition de_duration (v : TValue) : option N :=
  match v with
  | TString s => parse_human_duration s
  | TInteger z => if (z <? 0)%Z then None else Some (from_secs (Z.to_N z))
  | _ => None
  end.

Inductive Floor : Type := Tip | At (height : N).

Definition floor_height (f : Floor) : option N := match f with Tip => None | At h => Some h end.

(** [Floor]'s visitor. *)
Definition de_floor (v : TValue) : option Floor :=
  match v with
  | TString s => if eq_ignore_ascii_case s "tip" then Some Tip else None
  | TInteger z => if (z <? 0)%Z then None else Some (At (Z.to_N z))
  | _ => None
  end.

(** The derived deserializers. *)
Definition de_string (v : TValue) : option string := match v with TString s => Some s | _ => None end.
Definition de_bool (v : TValue) : option bool := tas_bool v.
Definition de_unsigned (max : N) (v : TValue) : option N :=
  match v with
  | TInteger z => if (0 <=? z)%Z && (z <=? Z.of_N max)%Z then Some (Z.to_N z) else None
  | _ => None
  end.
Definition de_f64 (v : TValue) : option f64 :=
  match v with TFloat x => Some x | TInteger z => Some (f64_of_Z z) | _ => None end.
Definition de_socket (v : TValue) : option SocketAddr := de_string v ≫= socket_parse.
(** A unit variant by its name. *)
Definition de_variant {A} (names : list (string * A)) (v : TValue) : option A :=
  de_string v ≫= fun s => assoc s names.

Definition de_network : TValue -> option Network := de_variant [("mainnet", Mainnet); ("testnet", Testnet)].
Definition de_chain : TValue -> option Chain := de_variant [("c", C); ("p", P)].
Definition de_kind : TValue -> option UpstreamKind := de_variant [("avalanchego", Avalanchego); ("neve", Neve)].
Definition de_log_level : TValue -> option LogLevel :=
  de_variant [("trace", Trace); ("debug", Debug); ("info", Info); ("warn", Warn); ("error", Error)].

(** ** The file schema *)

Record UpstreamFile : Type := {
  uf_kind : option UpstreamKind;
  uf_base : option string;
  uf_token_file : option PathBuf;
  uf_token_param : option string;
  uf_max_rps : option f64
}.

Record ServerFile : Type := {
  sf_addr : option SocketAddr;
  sf_max_connections : option N;
  sf_idle_timeout : option N;
  sf_max_blocks_per_request : option N
}.

Record ChainFile : Type := {
  cf_enabled : option bool;
  cf_rpc_url : option string;
  cf_ws_url : option string;
  cf_data_dir : option PathBuf;
  cf_backfill_floor : option Floor;
  cf_request_interval : option N;
  cf_concurrency : option N;
  cf_poll_interval : option N;
  cf_max_wait : option N;
  cf_ws_idle_timeout : option N;
  cf_prefetch_delay_cap : option N;
  cf_ingest_logs : option bool;
  cf_join_buffer_cap : option N;
  cf_summary_period : option N
}.

Record File : Type := {
  file_network : option Network;
  file_log_level : option LogLevel;
  file_upstream : option UpstreamFile;
  file_server : option ServerFile;
  file_defaults : option ChainFile;
  file_chains : option (list (Chain * ChainFile))
}.

Definition upstream_default : UpstreamFile :=
  {| uf_kind := None; uf_base := None; uf_token_file := None; uf_token_param := None; uf_max_rps := None |}.
Definition server_default : ServerFile :=
  {| sf_addr := None; sf_max_connections := None; sf_idle_timeout := None; sf_max_blocks_per_request := None |}.
Definition chain_file_default : ChainFile :=
  {| cf_enabled := None; cf_rpc_url := None; cf_ws_url := None; cf_data_dir := None; cf_backfill_floor := None;
     cf_request_interval := None; cf_concurrency := None; cf_poll_interval := None; cf_max_wait := None;
     cf_ws_idle_timeout := None; cf_prefetch_delay_cap := None; cf_ingest_logs := None;
     cf_join_buffer_cap := None; cf_summary_period := None |}.

(** [deny_unknown_fields]. *)
Definition known (names : list string) (t : Table) : bool :=
  forallb (fun kv => bool_decide (kv.1 ∈ names)) t.

(** An optional field: absent is [None], present must decode. *)
Definition field {A} (dec : TValue -> option A) (k : string) (t : Table) : option (option A) :=
  match assoc k t with
  | None => Some None
  | Some v => Some <$> dec v
  end.

Definition UPSTREAM_KEYS : list string := ["kind"; "base"; "token_file"; "token_param"; "max_rps"].
Definition SERVER_KEYS : list string := ["addr"; "max_connections"; "idle_timeout"; "max_blocks_per_request"].
Definition CHAIN_KEYS : list string :=
  ["enabled"; "rpc_url"; "ws_url"; "data_dir"; "backfill_floor"; "request_interval"; "concurrency";
   "poll_interval"; "max_wait"; "ws_idle_timeout"; "prefetch_delay_cap"; "ingest_logs";
   "join_buffer_cap"; "summary_period"].
Definition FILE_KEYS : list string := ["network"; "log_level"; "upstream"; "server"; "defaults"; "chains"].

Definition de_upstream (v : TValue) : option UpstreamFile :=
  t ← as_table v;
  if negb (known UPSTREAM_KEYS t) then None else
  kind ← field de_kind "kind" t; base ← field de_string "base" t;
  token_file ← field de_string "token_file" t; token_param ← field de_string "token_param" t;
  max_rps ← field de_f64 "max_rps" t;
  Some {| uf_kind := kind; uf_base := base; uf_token_file := token_file; uf_token_param := token_param;
          uf_max_rps := max_rps |}.

Definition de_server (v : TValue) : option ServerFile :=
  t ← as_table v;
  if negb (known SERVER_KEYS t) then None else
  addr ← field de_socket "addr" t; max_connections ← field (de_unsigned u32_max) "max_connections" t;
  idle_timeout ← field de_duration "idle_timeout" t;
  max_blocks ← field (de_unsigned u64_max) "max_blocks_per_request" t;
  Some {| sf_addr := addr; sf_max_connections := max_connections; sf_idle_timeout := idle_timeout;
          sf_max_blocks_per_request := max_blocks |}.

Definition de_chain_file (v : TValue) : option ChainFile :=
  t ← as_table v;
  if negb (known CHAIN_KEYS t) then None else
  enabled ← field de_bool "enabled" t; rpc_url ← field de_string "rpc_url" t;
  ws_url ← field de_string "ws_url" t; data_dir ← field de_string "data_dir" t;
  backfill_floor ← field de_floor "backfill_floor" t;
  request_interval ← field de_duration "request_interval" t;
  concurrency ← field (de_unsigned u64_max) "concurrency" t;
  poll_interval ← field de_duration "poll_interval" t; max_wait ← field de_duration "max_wait" t;
  ws_idle_timeout ← field de_duration "ws_idle_timeout" t;
  prefetch_delay_cap ← field de_duration "prefetch_delay_cap" t;
  ingest_logs ← field de_bool "ingest_logs" t;
  join_buffer_cap ← field (de_unsigned u64_max) "join_buffer_cap" t;
  summary_period ← field de_duration "summary_period" t;
  Some {| cf_enabled := enabled; cf_rpc_url := rpc_url; cf_ws_url := ws_url; cf_data_dir := data_dir;
          cf_backfill_floor := backfill_floor; cf_request_interval := request_interval;
          cf_concurrency := concurrency; cf_poll_interval := poll_interval; cf_max_wait := max_wait;
          cf_ws_idle_timeout := ws_idle_timeout; cf_prefetch_delay_cap := prefetch_delay_cap;
          cf_ingest_logs := ingest_logs; cf_join_buffer_cap := join_buffer_cap;
          cf_summary_period := summary_period |}.

(** [BTreeMap<Chain, ChainFile>] *)
Definition de_chains (v : TValue) : option (list (Chain * ChainFile)) :=
  t ← as_table v;
  mapM (fun kv => c ← de_chain (TString kv.1); f ← de_chain_file kv.2; Some (c, f)) t.

(** [deserialize_tree] *)
Definition deserialize_tree (tree : Table) : result File :=
  ok_or
    (if negb (known FILE_KEYS tree) then None else
     network ← field de_network "network" tree; log_level ← field de_log_level "log_level" tree;
     upstream ← field de_upstream "upstream" tree; server ← field de_server "server" tree;
     defaults ← field de_chain_file "defaults" tree; chains ← field de_chains "chains" tree;
     Some {| file_network := network; file_log_level := log_level; file_upstream := upstream;
             file_server := server; file_defaults := defaults; file_chains := chains |})
    EConfigInvalid.

(** [ChainFile::overlay]; [enabled] is not among the keys it takes. *)
Definition overlay (self over : ChainFile) : ChainFile :=
  let take {A} (get : ChainFile -> option A) := match get over with Some v => Some v | None => get self end in
  {| cf_enabled := cf_enabled self; cf_rpc_url := take cf_rpc_url; cf_ws_url := take cf_ws_url;
     cf_data_dir := take cf_data_dir; cf_backfill_floor := take cf_backfill_floor;
     cf_request_interval := take cf_request_interval; cf_concurrency := take cf_concurrency;
     cf_poll_interval := take cf_poll_interval; cf_max_wait := take cf_max_wait;
     cf_ws_idle_timeout := take cf_ws_idle_timeout; cf_prefetch_delay_cap := take cf_prefetch_delay_cap;
     cf_ingest_logs := take cf_ingest_logs; cf_join_buffer_cap := take cf_join_buffer_cap;
     cf_summary_period := take cf_summary_period |}.

(** ** Rendering a duration *)

Definition fmt_duration (d : N) : string :=
  let millis := (d / 1000000)%N in
  if (millis =? 0)%N then "0s"
  else if negb (millis mod 1000 =? 0)%N then to_decimal millis ++ "ms"
  else
    let secs := (d / nanos)%N in
    if (secs mod 3600 =? 0)%N then to_decimal (secs / 3600) ++ "h"
    else if (secs mod 60 =? 0)%N then to_decimal (secs / 60) ++ "m"
    else to_decimal secs ++ "s".

End Cli.

(** ** Built-in defaults *)

Record Builtin : Type := {
  bi_request_interval : N;
  bi_backfill_floor : Floor;
  bi_concurrency : N;
  bi_poll_interval : N;
  bi_max_wait : N;
  bi_ws_idle_timeout : N;
  bi_prefetch_delay_cap : N;
  bi_ingest_logs : bool;
  bi_join_buffer_cap : N;
  bi_summary_period : N
}.

Definition for_chain (chain : Chain) (kind : UpstreamKind) : Builtin :=
  let mirror := bool_decide (kind = Neve) in
  {| bi_request_interval := match mirror, chain with
                            | true, _ => 0
                            | false, C => from_millis 40
                            | false, P => from_millis 200
                            end;
     bi_backfill_floor := match mirror, chain with false, P => At 0 | _, _ => Tip end;
     bi_concurrency := 8;
     bi_poll_interval := from_secs 1;
     bi_max_wait := from_secs 3900;
     bi_ws_idle_timeout := from_secs 120;
     bi_prefetch_delay_cap := 0;
     bi_ingest_logs := false;
     bi_join_buffer_cap := 8192;
     bi_summary_period := from_secs 300 |}.

(** ** The environment and the file system *)

Record Env : Type := { env_vars : list (string * string); env_default_config : option PathBuf }.

Definition env_get (env : Env) (key : string) : option string := assoc key (env_vars env).

(** [Env::from_process], from the process environment. *)
Definition from_process (getenv : string -> option string) : Env :=
  {| env_vars := foldl (fun m key => match getenv key with Some v => btree_insert key v m | None => m end)
                   [] ENV_VARS;
     env_default_config := Some DEFAULT_CONFIG_PATH |}.

(** [Path::exists] and [fs::read_to_string]. *)
Record Files : Type := { file_exists : PathBuf -> bool; read_to_string : PathBuf -> option string }.
