(* ===== verification/ConfigLayers.v ===== *)
(** * Configuration: the layers (the [Cli] half of src/config.rs)

    Loading the document, selecting the chains, and the overrides of the
    environment, the deprecated flags, the visible flags and [--set], each
    applied to the document and re-validated. *)

From Stdlib Require Import ZArith NArith Lia String Ascii.
From S2P Require Import Prelude Str Chain Upstream Float64 Toml Config.

#[local] Open Scope string_scope.

Section Layers.
Context {L : ConfigLib}.

(** ** The document *)

Definition load_tree (fs : Files) (cli : Cli) (env : Env) : result Table :=
  let '(path, required) :=
    match cli_config cli, env_get env "NEVE_CONFIG" with
    | Some p, _ => (Some p, true)
    | None, Some p => (Some p, true)
    | None, None => (env_default_config env, false)
    end in
  match path with
  | None => Ok []
  | Some path =>
      if negb required && negb (file_exists fs path) then Ok []
      else
        let? text := ok_or (read_to_string fs path) EConfigUnread in
        let? tree := ok_or (toml_parse text) EConfigInvalid in
        let? _ := deserialize_tree tree in
        Ok tree
  end.

(** ** Selecting the chains *)

(** [Ok None] without a [chains] table. *)
Definition declared_chains (tree : Table) : result (option (list Chain)) :=
  match assoc "chains" tree with
  | None => Ok None
  | Some chains =>
      let? chains := ok_or (as_table chains) EChainsNotTable in
      let? cs := foldr (fun kv acc => let? c := ok_or (de_chain (TString kv.1)) EUnknownChain in
                                      let? cs := acc in Ok (c :: cs)) (Ok []) chains in
      Ok (Some cs)
  end.

Definition file_enabled (tree : Table) (chain : Chain) : result bool :=
  match (chains ← assoc "chains" tree; t ← as_table chains;
         own ← assoc (as_str chain) t; t ← as_table own; assoc "enabled" t) with
  | None => Ok true
  | Some value => ok_or (tas_bool value) ENotBool
  end.

Definition enabled_key (chain : Chain) : string := "chains." ++ as_str chain ++ ".enabled".

(** [set_enabled]: the last [--set chains.<x>.enabled=...]. *)
Definition set_enabled (sets : list string) (chain : Chain) : result (option bool) :=
  foldl (fun (found : result (option bool)) arg =>
           let? found := found in
           match split_once "=" arg with
           | Some (key, raw) =>
               if String.eqb (trim key) (enabled_key chain)
               then let? b := ok_or (parse_bool raw) ENotBool in Ok (Some b)
               else Ok found
           | None => Ok found
           end) (Ok None) sets.

Definition chain_on (sets : list string) (tree : Table) (declared : option (list Chain)) (chain : Chain)
    : result bool :=
  let? explicit := set_enabled sets chain in
  match explicit with
  | Some b => Ok b
  | None =>
      if match declared with None => true | Some d => bool_decide (chain ∈ d) end
      then file_enabled tree chain else Ok false
  end.

Definition select_chains (cli : Cli) (tree : Table) : result (list Chain) :=
  match cli_chains cli with
  | _ :: _ => normalize_chains (cli_chains cli)
  | [] =>
      let? declared := declared_chains tree in
      if bool_decide (declared = Some []) then Err EChainsEmpty
      else
        let? chains := foldl (fun (acc : result (list Chain)) chain =>
                                let? acc := acc in
                                let? on := chain_on (cli_set cli) tree declared chain in
                                Ok (if (on : bool) then acc ++ [chain] else acc)%list) (Ok []) ALL in
        match chains with
        | [] => Err EAllDisabled
        | _ => normalize_chains chains
        end
  end.

(** [None] when the argument passes; the key it is refused for otherwise. *)
Definition idle_target (enabled : list Chain) (arg : string) : option string :=
  match split_once "=" arg with
  | None => None
  | Some (key, _) =>
      match Str.split "." (trim key) with
      | first :: name :: fld :: _ =>
          if negb (String.eqb first "chains") then None
          else match de_chain (TString name) with
               | None => None
               | Some chain =>
                   if String.eqb fld "enabled" || bool_decide (chain ∈ enabled) then None else Some key
               end
      | _ => None
      end
  end.

Definition reject_sets_for_idle_chains (cli : Cli) (enabled : list Chain) : result unit :=
  match omap (idle_target enabled) (cli_set cli) with
  | [] => Ok tt
  | key :: _ => Err (EIdleChain key)
  end.

(** ** One override *)

Definition set_checked (tree : Table) (key : string) (value : TValue) (origin : string) : result Table :=
  let path := Str.split "." key in
  if existsb (fun p => String.eqb p "") path then Err (EAt origin EEmptySegment)
  else
    let? tree := map_err (EAt origin) (set_path path value tree) in
    let? _ := map_err (EAt origin) (deserialize_tree tree) in
    Ok tree.

(** An override: key, value, origin. *)
Definition Override : Type := string * TValue * string.

Definition apply_overrides (ovs : list Override) (tree : Table) : result Table :=
  foldl (fun (acc : result Table) (ov : Override) => let? tree := acc in let '(key, value, origin) := ov in set_checked tree key value origin)
    (Ok tree) ovs.

(** [apply_key]: a [chains.*.<name>] key fans out to the chains served. *)
Definition fan_out (key : string) (value : TValue) (origin : string) (enabled : list Chain) : list Override :=
  match strip_prefix "chains.*." key with
  | None => [(key, value, origin)]
  | Some name => map (fun c => ("chains." ++ as_str c ++ "." ++ name, value, origin)) enabled
  end.

Definition apply_key (tree : Table) (key : string) (value : TValue) (origin : string) (enabled : list Chain)
    : result Table :=
  apply_overrides (fan_out key value origin enabled) tree.

(** ** The layers *)

Definition ENV_KEYS : list (string * string) :=
  [("NEVE_RPC_URL", "chains.c.rpc_url"); ("NEVE_WS_URL", "chains.c.ws_url");
   ("NEVE_P_RPC_URL", "chains.p.rpc_url")].

(** Layer 4. *)
Definition apply_env (env : Env) (tree : Table) (notices : list Notice) : result (Table * list Notice) :=
  foldl (fun (acc : result (Table * list Notice)) vk =>
           let? (tree, notices) := acc in
           match env_get env vk.1 with
           | None => Ok (tree, notices)
           | Some value =>
               let notices := (notices ++ [NWarn (DeprecatedVar vk.1 vk.2)])%list in
               let? tree := set_checked tree vk.2 (TString value)
                              ("environment variable `" ++ vk.1 ++ "`") in
               Ok (tree, notices)
           end) (Ok (tree, notices)) ENV_KEYS.

(** [int]: a flag's number as a TOML integer. *)
Definition int (v : option N) (flag : string) : result (option TValue) :=
  match v with
  | None => Ok None
  | Some n => if is_i64 (Z.of_N n) then Ok (Some (TInteger (Z.of_N n))) else Err (EFlagRange flag)
  end.

(** The table of deprecated flags. *)
Definition deprecated_flags (cli : Cli) : result (list (string * string * option TValue)) :=
  let text (v : option string) := TString <$> v in
  let? p_concurrency := int (cli_p_concurrency cli) "--p-concurrency" in
  let? join_buffer_cap := int (cli_join_buffer_cap cli) "--join-buffer-cap" in
  let? backfill_floor := int (cli_backfill_floor cli) "--backfill-floor" in
  let? p_backfill_floor := int (cli_p_backfill_floor cli) "--p-backfill-floor" in
  let? max_connections := int (cli_max_connections cli) "--max-connections" in
  let? max_blocks := int (cli_max_blocks_per_request cli) "--max-blocks-per-request" in
  Ok [("--ws-url", "chains.c.ws_url", text (cli_ws_url cli));
      ("--rpc-url", "chains.c.rpc_url", text (cli_rpc_url cli));
      ("--p-rpc-url", "chains.p.rpc_url", text (cli_p_rpc_url cli));
      ("--p-poll-interval", "chains.p.poll_interval", text (cli_p_poll_interval cli));
      ("--request-interval", "chains.c.request_interval", text (cli_request_interval cli));
      ("--p-request-interval", "chains.p.request_interval", text (cli_p_request_interval cli));
      ("--max-wait", "chains.*.max_wait", text (cli_max_wait cli));
      ("--ws-idle-timeout", "chains.*.ws_idle_timeout", text (cli_ws_idle_timeout cli));
      ("--prefetch-delay-cap", "chains.*.prefetch_delay_cap", text (cli_prefetch_delay_cap cli));
      ("--idle-timeout", "server.idle_timeout", text (cli_idle_timeout cli));
      ("--summary-period", "chains.*.summary_period", text (cli_summary_period cli));
      ("--p-data-dir", "chains.p.data_dir", text (cli_p_data_dir cli));
      ("--p-concurrency", "chains.p.concurrency", p_concurrency);
      ("--join-buffer-cap", "chains.*.join_buffer_cap", join_buffer_cap);
      ("--backfill-floor", "chains.c.backfill_floor", backfill_floor);
      ("--p-backfill-floor", "chains.p.backfill_floor", p_backfill_floor);
      ("--max-connections", "server.max_connections", max_connections);
      ("--max-blocks-per-request", "server.max_blocks_per_request", max_blocks)].

(** The key the operator is pointed at. *)
Definition suggest (key : string) : string :=
  match strip_prefix "chains.*." key with
  | Some name => "defaults." ++ name
  | None => key
  end.

Definition flag_origin (flag : string) : string := "flag `" ++ flag ++ "`".

(** Layer 5a. *)
Definition apply_deprecated_flags (cli : Cli) (enabled : list Chain) (tree : Table) (notices : list Notice)
    : result (Table * list Notice) :=
  let? pending := deprecated_flags cli in
  foldl (fun (acc : result (Table * list Notice)) fkv =>
           let? (tree, notices) := acc in
           let '(flag, key, value) := fkv in
           match value with
           | None => Ok (tree, notices)
           | Some value =>
               let notices := (notices ++ [NWarn (DeprecatedFlag flag (suggest key))])%list in
               let? tree := apply_key tree key value (flag_origin flag) enabled in
               Ok (tree, notices)
           end) (Ok (tree, notices)) pending.

(** Layer 5b: the visible flags, as the overrides they stand for. *)
Definition visible_flags (cli : Cli) (enabled : list Chain) : list Override :=
  (match cli_network cli with
   | Some n => [("network", TString (network_as_str n), flag_origin "--network")] | None => [] end
  ++ match cli_log_level cli with
     | Some l => [("log_level", TString (log_level_as_str l), flag_origin "--log-level")] | None => [] end
  ++ match cli_data_dir cli with
     | Some d => [("defaults.data_dir", TString d, flag_origin "--data-dir")] | None => [] end
  ++ match cli_rpc_addr cli with
     | Some a => [("server.addr", TString (socket_show a), flag_origin "--rpc-addr")] | None => [] end
  ++ (if cli_ingest_logs cli
      then fan_out "chains.*.ingest_logs" (TBoolean true) (flag_origin "--ingest-logs") enabled else [])
  ++ match cli_mirror_from cli with
     | Some base => [("upstream.kind", TString (kind_str Neve), flag_origin "--mirror-from");
                     ("upstream.base", TString base, flag_origin "--mirror-from")]
     | None => [] end)%list.

Definition apply_flags (cli : Cli) (enabled : list Chain) (tree : Table) : result Table :=
  apply_overrides (visible_flags cli enabled) tree.

(** [parse_scalar]: TOML if it parses as a value, else a string. *)
Definition parse_scalar (raw : string) : TValue :=
  default (TString raw) (toml_parse ("v = " ++ raw) ≫= assoc "v").

(** Layer 5c. *)
Definition apply_sets (cli : Cli) (tree : Table) : result Table :=
  foldl (fun (acc : result Table) arg =>
           let? tree := acc in
           let? (key, raw) := ok_or (split_once "=" arg) ESetSyntax in
           set_checked tree key (parse_scalar raw) ("`--set " ++ key ++ "=" ++ raw ++ "`"))
    (Ok tree) (cli_set cli).

(** The merged document, the chains served and the notices so far. *)
Definition merge (fs : Files) (cli : Cli) (env : Env) : result (Table * list Chain * list Notice) :=
  let? tree := load_tree fs cli env in
  let? enabled := select_chains cli tree in
  let? _ := reject_sets_for_idle_chains cli enabled in
  let? (tree, notices) := apply_env env tree [] in
  let? (tree, notices) := apply_deprecated_flags cli enabled tree notices in
  let? tree := apply_flags cli enabled tree in
  let? tree := apply_sets cli tree in
  Ok (tree, enabled, notices).

End Layers.
