(* ===== verification/ConfigResolve.v ===== *)
(** * Configuration: the resolved value (second half of src/config.rs)

    Turning the merged document into the configuration the process runs with:
    endpoints and tokens, the host-wide request cap, the server and each chain,
    and what [--print-config] shows of it. *)

From Stdlib Require Import ZArith NArith Lia String Ascii.
From S2P Require Import Prelude Str Chain Upstream Float64 Toml Config ConfigLayers.

#[local] Open Scope string_scope.

(** ** URLs *)

Definition derive_ws_url (base : string) : result string :=
  match strip_prefix "https://" base with
  | Some rest => Ok ("wss://" ++ rest)
  | None =>
      match strip_prefix "http://" base with
      | Some rest => Ok ("ws://" ++ rest)
      | None => if starts_with "ws://" base || starts_with "wss://" base then Ok base else Err EBadUpstreamBase
      end
  end.

(** [(rpc_url, ws_url)], before any override or token. *)
Definition derive_endpoints (kind : UpstreamKind) (base : string) (chain : Chain) : result (string * string) :=
  match kind with
  | Avalanchego =>
      let? ws := match ws_path chain with
                 | Some path => let? w := derive_ws_url base in Ok (w ++ path)
                 | None => Ok ""
                 end in
      Ok (base ++ rpc_path chain, ws)
  | Neve => let? ws := derive_ws_url base in Ok (base, ws)
  end.

(** [s.split_once("://")] *)
Fixpoint after_scheme (s : string) : option string :=
  match strip_prefix "://" s with
  | Some rest => Some rest
  | None => match s with String _ s => after_scheme s | EmptyString => None end
  end.

Definition authority (url : string) : option string :=
  let rest := trim_start_slash (default url (after_scheme url)) in
  let a := until ["/"; "?"; "#"]%char rest in
  if String.eqb a "" then None else Some a.

(** Is [param] among the parameters of a query? *)
Definition query_has (param query : string) : bool :=
  existsb (fun pair => bool_decide (head (Str.split "=" pair) = Some param)) (Str.split "&" query).

Definition with_token (url param : string) (token : Token) : string :=
  if String.eqb url "" then ""
  else
    let value := expose token in
    match split_once "?" url with
    | None => url ++ "?" ++ param ++ "=" ++ value
    | Some (_, query) =>
        if String.eqb query "" then url ++ param ++ "=" ++ value
        else if query_has param query then url
        else url ++ "&" ++ param ++ "=" ++ value
    end.

(** ** The resolved configuration *)

Section Resolve.
Context {L : ConfigLib}.

(** [host_pacer] is the interval of the one pacer the whole host shares. *)
Record Upstream_ : Type := {
  up_kind : UpstreamKind;
  up_base : string;
  up_token : option Token;
  up_token_param : string;
  up_token_file : option PathBuf;
  up_max_rps : option f64;
  up_host_pacer : option N
}.

Record Server : Type := {
  srv_addr : SocketAddr;
  srv_max_connections : N;
  srv_idle_timeout : option N;
  srv_max_blocks_per_request : N
}.

(** [cc_host_pacer] is [Some] when the chain shares the host's pacer. *)
Record ChainCfg : Type := {
  cc_chain : Chain;
  cc_rpc_url : string;
  cc_ws_url : string;
  cc_data_dir : PathBuf;
  cc_backfill_floor : option N;
  cc_request_interval : N;
  cc_concurrency : N;
  cc_poll_interval : N;
  cc_max_wait : N;
  cc_ws_idle_timeout : N;
  cc_prefetch_delay_cap : N;
  cc_ingest_logs : bool;
  cc_join_buffer_cap : N;
  cc_summary_period : N;
  cc_subscribe_blocks : bool;
  cc_host_pacer : option N
}.

(** [chains] is a map in chain order. *)
Record Resolved : Type := {
  rs_network : Network;
  rs_log_level : LogLevel;
  rs_stop_time : option N;
  rs_upstream : Upstream_;
  rs_server : Server;
  rs_chains : list (Chain * ChainCfg);
  rs_print : option PrintMode;
  rs_notices : list Notice
}.

(** ** The upstream *)

Definition carries (param : string) (url : option string) : bool :=
  match url with
  | Some u => contains ("?" ++ param ++ "=") u || contains ("&" ++ param ++ "=") u
  | None => false
  end.

Definition urls_already_carry_a_token (file : File) : bool :=
  let param := default "token" (file_upstream file ≫= uf_token_param) in
  let has (c : ChainFile) := carries param (cf_rpc_url c) || carries param (cf_ws_url c) in
  match file_defaults file with Some d => has d | None => false end
  || match file_chains file with Some m => existsb (fun kc => has kc.2) m | None => false end
  || match file_upstream file with Some u => carries param (uf_base u) | None => false end.

Definition read_token_file (fs : Files) (path : PathBuf) : result Token :=
  let? text := ok_or (read_to_string fs path) ETokenUnread in
  let token := trim text in
  if String.eqb token "" then Err EEmptyToken else Ok (MkToken token).

(** The token, and whether both sources name one. *)
Definition resolve_token (fs : Files) (token_file : option PathBuf) (env_token : option string)
    : result (option Token) :=
  match token_file, env_token with
  | Some path, _ => let? t := read_token_file fs path in Ok (Some t)
  | None, Some value =>
      let value := trim value in
      if String.eqb value "" then Err EEmptyToken else Ok (Some (MkToken value))
  | None, None => Ok None
  end.

(** The host-wide cap and why it landed there. *)
Definition resolve_max_rps (configured : option f64) (kind : UpstreamKind) (tokened : bool)
    : result (option f64 * string) :=
  match configured, kind, tokened with
  | Some rps, _, _ =>
      if negb (is_finite rps) || f64_lt rps f64_zero then Err EMaxRps
      else Ok (if f64_lt f64_zero rps then Some rps else None, "configured with `upstream.max_rps`")
  | None, Neve, _ => Ok (None, "upstream is another neve, which has no rate limit")
  | None, Avalanchego, true =>
      Ok (None, "an upstream token is in play, and bypassing the limit is what a token is for")
  | None, Avalanchego, false =>
      Ok (Some PUBLIC_MAX_RPS, "public-endpoint default for an untokened upstream")
  end.

Definition resolve_upstream (fs : Files) (env : Env) (file : option UpstreamFile) (network : Network)
    (pre_tokened : bool) (notices : list Notice) : result (Upstream_ * list Notice) :=
  let file := default upstream_default file in
  let kind := default Avalanchego (uf_kind file) in
  let base := trim_end_slash (default (default_base_url network) (uf_base file)) in
  if String.eqb base "" then Err EEmptyBase
  else
    let token_file := uf_token_file file in
    let env_token := env_get env "NEVE_UPSTREAM_TOKEN" in
    let notices := match token_file, env_token with
                   | Some _, Some _ => (notices ++ [NInfo BothTokens])%list
                   | _, _ => notices
                   end in
    let? token := resolve_token fs token_file env_token in
    let tokened := match token with Some _ => true | None => false end in
    let? (max_rps, why) := resolve_max_rps (uf_max_rps file) kind (tokened || pre_tokened) in
    let notices := (notices ++ [NInfo (HostCap max_rps why)])%list in
    let? host_pacer := match max_rps with
                       | None => Ok None
                       | Some rps => let? d := ok_or (from_secs_f64 (recip rps)) EPanic in Ok (Some d)
                       end in
    Ok ({| up_kind := kind; up_base := base; up_token := token;
           up_token_param := default "token" (uf_token_param file); up_token_file := token_file;
           up_max_rps := max_rps; up_host_pacer := host_pacer |}, notices).

(** ** The server *)

Definition resolve_server (file : option ServerFile) : result Server :=
  let file := default server_default file in
  let max_connections := default 1024%N (sf_max_connections file) in
  if (max_connections =? 0)%N then Err (EMustBePositive "server.max_connections")
  else
    let max_blocks := default 10000%N (sf_max_blocks_per_request file) in
    if (max_blocks =? 0)%N then Err (EMustBePositive "server.max_blocks_per_request")
    else
      let idle := default (from_secs 60) (sf_idle_timeout file) in
      Ok {| srv_addr := default socket_default (sf_addr file); srv_max_connections := max_connections;
            srv_idle_timeout := if (0 <? idle)%N then Some idle else None;
            srv_max_blocks_per_request := max_blocks |}.

(** ** A chain *)

Definition host_pacer_for (chain : Chain) (upstream : Upstream_) (rpc_url : string) (notices : list Notice)
    : option N * list Notice :=
  match up_host_pacer upstream with
  | None => (None, notices)
  | Some pacer =>
      let host := authority (up_base upstream) in
      let mine := authority rpc_url in
      if match mine, host with Some a, Some b => eq_ignore_ascii_case a b | _, _ => false end
      then (Some pacer, notices)
      else (None, (notices ++ [NInfo (OffHost chain mine host)])%list)
  end.

(** [Chain::data_dir] on the path's text. *)
Definition chain_data_dir (chain : Chain) (base : PathBuf) : PathBuf :=
  match chain with C => base | P => path_join base (as_str P) end.

Definition chain_key (chain : Chain) (name : string) : string := "chains." ++ as_str chain ++ "." ++ name.

(** The token on both endpoints. *)
Definition tokened_urls (upstream : Upstream_) (rpc_url ws_url : string) : string * string :=
  match up_token upstream with
  | Some token => (with_token rpc_url (up_token_param upstream) token,
                   with_token ws_url (up_token_param upstream) token)
  | None => (rpc_url, ws_url)
  end.

Definition resolve_chain (chain : Chain) (upstream : Upstream_) (defaults per : ChainFile) (base_dir : PathBuf)
    (notices : list Notice) : result (ChainCfg * list Notice) :=
  let builtin := for_chain chain (up_kind upstream) in
  let merged := overlay (overlay chain_file_default defaults) per in
  let? (derived_rpc, derived_ws) := derive_endpoints (up_kind upstream) (up_base upstream) chain in
  let rpc_url := default derived_rpc (cf_rpc_url merged) in
  let ws_url := default derived_ws (cf_ws_url merged) in
  let '(host_pacer, notices) := host_pacer_for chain upstream rpc_url notices in
  let '(rpc_url, ws_url) := tokened_urls upstream rpc_url ws_url in
  let data_dir := default (chain_data_dir chain base_dir) (cf_data_dir per) in
  let concurrency := default (bi_concurrency builtin) (cf_concurrency merged) in
  if (concurrency =? 0)%N then Err (EMustBePositive (chain_key chain "concurrency")) else
  let join_buffer_cap := default (bi_join_buffer_cap builtin) (cf_join_buffer_cap merged) in
  if (join_buffer_cap =? 0)%N then Err (EMustBePositive (chain_key chain "join_buffer_cap")) else
  let summary_period := default (bi_summary_period builtin) (cf_summary_period merged) in
  if (summary_period =? 0)%N then Err (EMustBePositive (chain_key chain "summary_period")) else
  let poll_interval := default (bi_poll_interval builtin) (cf_poll_interval merged) in
  if (poll_interval =? 0)%N then Err (EMustBePositive (chain_key chain "poll_interval")) else
  Ok ({| cc_chain := chain; cc_rpc_url := rpc_url; cc_ws_url := ws_url; cc_data_dir := data_dir;
         cc_backfill_floor := floor_height (default (bi_backfill_floor builtin) (cf_backfill_floor merged));
         cc_request_interval := default (bi_request_interval builtin) (cf_request_interval merged);
         cc_concurrency := concurrency; cc_poll_interval := poll_interval;
         cc_max_wait := default (bi_max_wait builtin) (cf_max_wait merged);
         cc_ws_idle_timeout := default (bi_ws_idle_timeout builtin) (cf_ws_idle_timeout merged);
         cc_prefetch_delay_cap := default (bi_prefetch_delay_cap builtin) (cf_prefetch_delay_cap merged);
         cc_ingest_logs := default (bi_ingest_logs builtin) (cf_ingest_logs merged) && bool_decide (chain = C);
         cc_join_buffer_cap := join_buffer_cap; cc_summary_period := summary_period;
         cc_subscribe_blocks := bool_decide (up_kind upstream = Neve);
         cc_host_pacer := host_pacer |}, notices).

(** ** The whole *)

(** [BTreeMap<Chain, _>] lookups. *)
Fixpoint chain_get {A} (chain : Chain) (m : list (Chain * A)) : option A :=
  match m with
  | [] => None
  | (c, a) :: m => if decide (c = chain) then Some a else chain_get chain m
  end.

(** The [for] over the enabled chains, which come in chain order. *)
Fixpoint resolve_chains (enabled : list Chain) (upstream : Upstream_) (defaults : ChainFile)
    (chains : option (list (Chain * ChainFile))) (base_dir : PathBuf) (notices : list Notice)
    : result (list (Chain * ChainCfg) * list Notice) :=
  match enabled with
  | [] => Ok ([], notices)
  | chain :: enabled =>
      let per := default chain_file_default (chains ≫= chain_get chain) in
      let? (cfg, notices) := resolve_chain chain upstream defaults per base_dir notices in
      let? (rest, notices) := resolve_chains enabled upstream defaults chains base_dir notices in
      Ok ((chain, cfg) :: rest, notices)
  end.

(** The first pair of chains that share a data directory. *)
Definition shared_dir (chains : list (Chain * ChainCfg)) : option (Chain * Chain) :=
  head (omap (fun kc => (fun o => (kc.1, o.1)) <$>
                List.find (fun o => negb (bool_decide (o.1 = kc.1))
                                    && path_eqb (cc_data_dir o.2) (cc_data_dir kc.2)) chains) chains).

Definition build (fs : Files) (cli : Cli) (env : Env) (file : File) (enabled : list Chain)
    (notices : list Notice) : result Resolved :=
  let network := default Mainnet (file_network file) in
  let pre_tokened := urls_already_carry_a_token file in
  let? (upstream, notices) := resolve_upstream fs env (file_upstream file) network pre_tokened notices in
  let? server := resolve_server (file_server file) in
  let defaults := default chain_file_default (file_defaults file) in
  match cf_enabled defaults with
  | Some _ => Err EDefaultsEnabled
  | None =>
      let base_dir := default ("./blockstore-data-" ++ network_as_str network) (cf_data_dir defaults) in
      let? (chains, notices) := resolve_chains enabled upstream defaults (file_chains file) base_dir notices in
      match shared_dir chains with
      | Some (a, b) => Err (ESameDataDir (as_str a) (as_str b))
      | None =>
          let print := if cli_print_config_example cli then Some PrintExample
                       else if cli_print_config cli then Some PrintConfig else None in
          Ok {| rs_network := network; rs_log_level := default Info (file_log_level file);
                rs_stop_time := cli_stop_time cli; rs_upstream := upstream; rs_server := server;
                rs_chains := chains; rs_print := print; rs_notices := notices |}
      end
  end.

(** [Cli::resolve_with] *)
Definition resolve_with (fs : Files) (cli : Cli) (env : Env) : result Resolved :=
  let? (p, notices) := merge fs cli env in
  let '(tree, enabled) := p in
  let? file := deserialize_tree tree in
  build fs cli env file enabled notices.

(** ** [--print-config] *)

Definition i64_max : Z := 2 ^ 63 - 1.

(** Serializing an unsigned integer into the document. *)
Definition ser_unsigned (n : N) : result TValue :=
  if is_i64 (Z.of_N n) then Ok (TInteger (Z.of_N n)) else Err EUnserializable.

(** A struct as a table, in key order; skipped fields are [None]. *)
Definition ser_struct (fields : list (string * option TValue)) : TValue :=
  TTable (foldl (fun t kv => match kv.2 with Some v => btree_insert kv.1 v t | None => t end) [] fields).

Definition redacted_upstream (r : Resolved) : TValue :=
  let up := rs_upstream r in
  ser_struct [
    ("kind", Some (TString (kind_str (up_kind up))));
    ("base", Some (TString (redact_url (up_base up))));
    ("token_param", Some (TString (up_token_param up)));
    ("max_rps", TFloat <$> up_max_rps up);
    ("token_file", TString <$> up_token_file up);
    ("token", match up_token up, up_token_file up with
              | Some _, None => Some (TString "<redacted, from NEVE_UPSTREAM_TOKEN>")
              | _, _ => None
              end)].

Definition redacted_server (r : Resolved) : result TValue :=
  let srv := rs_server r in
  let? max_connections := ser_unsigned (srv_max_connections srv) in
  let? max_blocks := ser_unsigned (srv_max_blocks_per_request srv) in
  Ok (ser_struct [
    ("addr", Some (TString (socket_show (srv_addr srv))));
    ("max_connections", Some max_connections);
    ("idle_timeout", Some (TString (fmt_duration (default 0%N (srv_idle_timeout srv)))));
    ("max_blocks_per_request", Some max_blocks)]).

(** [RedactedChain::of] *)
Definition redacted_chain (cfg : ChainCfg) : result TValue :=
  let? concurrency := ser_unsigned (cc_concurrency cfg) in
  let? join_buffer_cap := ser_unsigned (cc_join_buffer_cap cfg) in
  Ok (ser_struct [
    ("rpc_url", Some (TString (redact_url (cc_rpc_url cfg))));
    ("ws_url", Some (TString (redact_url (cc_ws_url cfg))));
    ("data_dir", Some (TString (cc_data_dir cfg)));
    ("backfill_floor", Some (match cc_backfill_floor cfg with
                             | None => TString "tip"
                             | Some h => TInteger (Z.min (Z.of_N h) i64_max)
                             end));
    ("request_interval", Some (TString (fmt_duration (cc_request_interval cfg))));
    ("concurrency", Some concurrency);
    ("poll_interval", Some (TString (fmt_duration (cc_poll_interval cfg))));
    ("max_wait", Some (TString (fmt_duration (cc_max_wait cfg))));
    ("ws_idle_timeout", Some (TString (fmt_duration (cc_ws_idle_timeout cfg))));
    ("prefetch_delay_cap", Some (TString (fmt_duration (cc_prefetch_delay_cap cfg))));
    ("ingest_logs", Some (TBoolean (cc_ingest_logs cfg)));
    ("join_buffer_cap", Some join_buffer_cap);
    ("summary_period", Some (TString (fmt_duration (cc_summary_period cfg))))]).

(** The document [to_redacted_toml] renders. *)
Definition redacted_document (r : Resolved) : result Table :=
  let? server := redacted_server r in
  let? chains := foldl (fun (acc : result Table) kc =>
                          let? t := acc in
                          let? v := redacted_chain kc.2 in
                          Ok (btree_insert (as_str kc.1) v t)) (Ok []) (rs_chains r) in
  Ok (foldl (fun t kv => btree_insert kv.1 kv.2 t) []
        [("network", TString (network_as_str (rs_network r)));
         ("log_level", TString (log_level_as_str (rs_log_level r)));
         ("upstream", redacted_upstream r); ("server", server); ("chains", TTable chains)]).

Definition newline_str : string := String (ascii_of_N 10) "".
Definition quote_str : string := String (ascii_of_N 34) "".

Definition to_redacted_toml (r : Resolved) : result string :=
  let? doc := redacted_document r in
  let? rendered := ok_or (toml_pretty doc) EUnserializable in
  Ok (replace (newline_str ++ "token = " ++ quote_str) (newline_str ++ "#token = " ++ quote_str) rendered).

End Resolve.
