(* ===== verification/ConfigDebug.v ===== *)
(** * Configuration: [Debug] (src/config.rs, src/chain.rs)

    What [{:?}] prints of the resolved configuration and of the ingest settings,
    before layout: a tree of named structs and their fields, whose leaves the
    standard library renders.  The hand-written impls redact the URLs; the rest
    is derived. *)

From Stdlib Require Import NArith Lia String Ascii.
From S2P Require Import Prelude Str Chain Upstream Http Float64 Toml Config ConfigLayers ConfigResolve.

#[local] Open Scope string_scope.

(** [exhaustive] is false for [finish_non_exhaustive]. *)
Inductive DebugTree : Type :=
| DWord (s : string)                      (** a unit variant, or what an impl writes itself *)
| DString (s : string)
| DNumber (n : N)
| DBool (b : bool)
| DFloat (x : f64)
| DDuration (ns : N)
| DInstant                                (** an [Instant], which the platform prints *)
| DPath (p : string)
| DNotice (n : Notice)
| DNone
| DSome (d : DebugTree)
| DList (l : list DebugTree)
| DMap (l : list (string * DebugTree))
| DStruct (name : string) (fields : list (string * DebugTree)) (exhaustive : bool).

Definition debug_option {A} (f : A -> DebugTree) (o : option A) : DebugTree :=
  match o with Some a => DSome (f a) | None => DNone end.

(** The derived names. *)
Definition debug_kind (k : UpstreamKind) : DebugTree :=
  DWord (match k with Avalanchego => "Avalanchego" | Neve => "Neve" end).
Definition debug_chain (c : Chain) : DebugTree := DWord (match c with C => "C" | P => "P" end).
Definition debug_network (n : Network) : DebugTree :=
  DWord (match n with Mainnet => "Mainnet" | Testnet => "Testnet" end).
Definition debug_level (l : LogLevel) : DebugTree :=
  DWord (match l with Trace => "Trace" | Debug => "Debug" | Info => "Info" | Warn => "Warn" | Error => "Error" end).
Definition debug_print (p : PrintMode) : DebugTree :=
  DWord (match p with PrintConfig => "Config" | PrintExample => "Example" end).

(** A pacer shows its interval and, through the unpoisoned mutex, the slot it will
    hand out next. *)
Definition debug_pacer (interval : N) : DebugTree :=
  DStruct "Pacer"
    [("interval", DDuration interval);
     ("next_slot", DStruct "Mutex" [("data", DInstant); ("poisoned", DBool false)] false)] true.

Definition debug_token (t : Token) : DebugTree := DWord (redacted_token t).

Section Debug.
Context {L : ConfigLib}.

Definition debug_upstream (up : Upstream_) : DebugTree :=
  DStruct "Upstream"
    [("kind", debug_kind (up_kind up));
     ("base", DString (redact_url (up_base up)));
     ("token", debug_option debug_token (up_token up));
     ("token_param", DString (up_token_param up));
     ("token_file", debug_option DPath (up_token_file up));
     ("max_rps", debug_option DFloat (up_max_rps up));
     ("host_pacer", debug_option debug_pacer (up_host_pacer up))] true.

Definition debug_server (s : Server) : DebugTree :=
  DStruct "Server"
    [("addr", DWord (socket_show (srv_addr s)));
     ("max_connections", DNumber (srv_max_connections s));
     ("idle_timeout", debug_option DDuration (srv_idle_timeout s));
     ("max_blocks_per_request", DNumber (srv_max_blocks_per_request s))] true.

Definition debug_chain_cfg (cfg : ChainCfg) : DebugTree :=
  DStruct "ChainCfg"
    [("chain", debug_chain (cc_chain cfg));
     ("rpc_url", DString (redact_url (cc_rpc_url cfg)));
     ("ws_url", DString (redact_url (cc_ws_url cfg)));
     ("data_dir", DPath (cc_data_dir cfg));
     ("backfill_floor", debug_option DNumber (cc_backfill_floor cfg));
     ("request_interval", DDuration (cc_request_interval cfg));
     ("concurrency", DNumber (cc_concurrency cfg));
     ("poll_interval", DDuration (cc_poll_interval cfg));
     ("max_wait", DDuration (cc_max_wait cfg));
     ("ws_idle_timeout", DDuration (cc_ws_idle_timeout cfg));
     ("prefetch_delay_cap", DDuration (cc_prefetch_delay_cap cfg));
     ("ingest_logs", DBool (cc_ingest_logs cfg));
     ("join_buffer_cap", DNumber (cc_join_buffer_cap cfg));
     ("summary_period", DDuration (cc_summary_period cfg));
     ("subscribe_blocks", DBool (cc_subscribe_blocks cfg));
     ("host_paced", DBool (bool_decide (is_Some (cc_host_pacer cfg))))] true.

Definition debug_resolved (r : Resolved) : DebugTree :=
  DStruct "Resolved"
    [("network", debug_network (rs_network r));
     ("log_level", debug_level (rs_log_level r));
     ("stop_time", debug_option DDuration (rs_stop_time r));
     ("upstream", debug_upstream (rs_upstream r));
     ("server", debug_server (rs_server r));
     ("chains", DMap (map (fun kc => (as_str kc.1, debug_chain_cfg kc.2)) (rs_chains r)));
     ("print", debug_option debug_print (rs_print r));
     ("notices", DList (map DNotice (rs_notices r)))] true.

(** The ingest settings show three fields and that there are more. *)
Definition debug_ingest_cfg (cfg : IngestCfg) : DebugTree :=
  DStruct "IngestCfg"
    [("chain", debug_chain (cfg_chain cfg));
     ("rpc_url", DString (redact_url (cfg_rpc_url cfg)));
     ("ws_url", DString (redact_url (cfg_ws_url cfg)))] false.

(** ** The deferred lines *)

Inductive LogLine : Type := LogInfo (m : NoticeText) | LogWarn (m : NoticeText).

Definition emit_notices (r : Resolved) : list LogLine :=
  map (fun n => match n with NInfo m => LogInfo m | NWarn m => LogWarn m end) (rs_notices r).

End Debug.
