(* ===== verification/ConfigSpec.v ===== *)
(** * Configuration: what the layers and the validation promise

    The documents the layers produce, as one list of overrides of which the
    last that meets a key decides it; where each setting of a chain comes from;
    what an accepted configuration satisfies. *)

From Stdlib Require Import ZArith NArith Lia String Ascii.
From S2P Require Import Prelude Str Chain Upstream Float64 Toml Config ConfigLayers ConfigResolve.

#[local] Open Scope string_scope.

(** ** Overrides *)

Section Overrides.
Context {L : ConfigLib}.

Lemma foldl_err {A B} (f : result B -> A -> result B) e l :
  (forall a, f (Err e) a = Err e) -> foldl f (Err e) l = Err e.
Proof. intros Hf. induction l as [|a l IH]; cbn; [done|]. by rewrite Hf. Qed.

Definition ov_path (ov : Override) : list string := Str.split "." ov.1.1.

Lemma apply_overrides_cons key value origin ovs tree :
  apply_overrides ((key, value, origin) :: ovs) tree =
    (let? tree := set_checked tree key value origin in apply_overrides ovs tree).
Proof.
  unfold apply_overrides. cbn [foldl result_bind].
  destruct (set_checked tree key value origin); cbn [result_bind]; [done|]. by apply foldl_err.
Qed.

Lemma apply_overrides_app l k tree :
  apply_overrides (l ++ k) tree = (let? tree := apply_overrides l tree in apply_overrides k tree).
Proof.
  revert tree; induction l as [|[[key v] o] l IH]; intros tree; [done|].
  cbn [app]. rewrite !apply_overrides_cons.
  destruct (set_checked tree key v o); cbn [result_bind]; [apply IH|done].
Qed.

Lemma set_checked_ok tree key value origin tree' :
  set_checked tree key value origin = Ok tree' ->
  set_path (Str.split "." key) value tree = Ok tree' /\ exists file, deserialize_tree tree' = Ok file.
Proof.
  unfold set_checked. destruct (existsb _ _); [done|]. unfold map_err.
  intros H. inv_ok. destruct (set_path _ _ _); [|done]. inv_ok.
  destruct (deserialize_tree _); [|done]. eauto.
Qed.

Lemma get_path_app p q v : get_path (p ++ q) v = get_path p v ≫= get_path q.
Proof.
  revert v; induction p as [|k p IH]; intros v; cbn; [done|].
  destruct (as_table v) as [t|]; cbn; [|done]. destruct (assoc k t); cbn; [apply IH|done].
Qed.

(** The override that decides a path: the last that meets it. *)
Definition winner (q : list string) (ovs : list Override) : option Override :=
  last (filter (fun ov => overlaps (ov_path ov) q) ovs).

Lemma winner_snoc q ovs ov :
  winner q (ovs ++ [ov]) = if decide (overlaps (ov_path ov) q) then Some ov else winner q ovs.
Proof.
  unfold winner. rewrite filter_app, filter_cons, filter_nil.
  destruct (decide _); [apply last_snoc|by rewrite app_nil_r].
Qed.

(** The value at [q] after the overrides, from the value before them. *)
Definition decided (q : list string) (ovs : list Override) (before after : Table) : Prop :=
  match winner q ovs with
  | None => get_path q (TTable after) = get_path q (TTable before)
  | Some ov => forall r, q = (ov_path ov ++ r)%list -> get_path q (TTable after) = get_path r ov.1.2
  end.

Lemma apply_overrides_decides ovs tree tree' q :
  apply_overrides ovs tree = Ok tree' -> decided q ovs tree tree'.
Proof.
  unfold decided. revert tree'; induction ovs as [|[[key v] o] ovs IH] using rev_ind; intros tree'.
  { by intros [= <-]. }
  rewrite apply_overrides_app, winner_snoc. intros H. inv_ok.
  rewrite apply_overrides_cons in H. inv_ok. destruct (set_checked_ok _ _ _ _ _ E0) as [Hs _].
  cbn in H. inv_ok. destruct (decide _) as [Ho|Ho].
  - intros r ->. unfold ov_path. cbn. rewrite get_path_app, (get_set_path _ _ _ _ Hs). done.
  - pose proof (get_set_path_other _ _ _ _ _ Hs Ho) as Hf. specialize (IH _ eq_refl).
    destruct (winner q ovs) as [ov|]; [|congruence]. intros r Hr. rewrite Hf. by apply IH.
Qed.

(** *** The layers as one list *)

Definition env_overrides (env : Env) : list Override :=
  omap (fun vk => (fun value => (vk.2, TString value, "environment variable `" ++ vk.1 ++ "`"))
                    <$> env_get env vk.1) ENV_KEYS.

Definition pending_overrides (enabled : list Chain) (pending : list (string * string * option TValue))
    : list Override :=
  mjoin (map (fun fkv => match fkv.2 with
                         | Some value => fan_out fkv.1.2 value (flag_origin fkv.1.1) enabled
                         | None => []
                         end) pending).

Fixpoint set_overrides (sets : list string) : result (list Override) :=
  match sets with
  | [] => Ok []
  | arg :: sets =>
      let? (key, raw) := ok_or (split_once "=" arg) ESetSyntax in
      let? ovs := set_overrides sets in
      Ok ((key, parse_scalar raw, "`--set " ++ key ++ "=" ++ raw ++ "`") :: ovs)
  end.

(** The environment, the deprecated flags, the visible flags, [--set]. *)
Definition layers (cli : Cli) (env : Env) (enabled : list Chain) : result (list Override) :=
  let? pending := deprecated_flags cli in
  let? sets := set_overrides (cli_set cli) in
  Ok (env_overrides env ++ pending_overrides enabled pending ++ visible_flags cli enabled ++ sets)%list.

Lemma apply_env_overrides env tree notices tree' notices' :
  apply_env env tree notices = Ok (tree', notices') -> apply_overrides (env_overrides env) tree = Ok tree'.
Proof.
  unfold apply_env, env_overrides. generalize ENV_KEYS as ks. intros ks.
  revert tree notices; induction ks as [|vk ks IH]; intros tree notices; cbn [foldl omap list_omap].
  { by intros [= <- _]. }
  destruct (env_get env vk.1) as [value|] eqn:Ee; cbn [result_bind fmap option_fmap option_map]; [|apply IH].
  rewrite apply_overrides_cons. destruct (set_checked tree _ _ _) as [t|e]; cbn [result_bind]; [apply IH|].
  rewrite foldl_err by done. done.
Qed.

Lemma apply_deprecated_overrides cli enabled tree notices tree' notices' :
  apply_deprecated_flags cli enabled tree notices = Ok (tree', notices') ->
  exists pending, deprecated_flags cli = Ok pending
    /\ apply_overrides (pending_overrides enabled pending) tree = Ok tree'.
Proof.
  unfold apply_deprecated_flags. destruct (deprecated_flags cli) as [pending|]; cbn [result_bind]; [|done].
  intros H. exists pending. split; [done|]. unfold pending_overrides. revert tree notices H.
  induction pending as [|[[flag key] [value|]] pending IH]; intros tree notices; cbn [foldl result_bind].
  - by intros [= <- _].
  - cbn [map mjoin list_join fst snd]. rewrite apply_overrides_app. unfold apply_key.
    destruct (apply_overrides _ tree) as [t|e]; cbn [result_bind]; [apply IH|].
    rewrite foldl_err by done. done.
  - apply IH.
Qed.

Lemma apply_sets_overrides sets tree tree' :
  foldl (fun (acc : result Table) arg =>
           let? tree := acc in
           let? (key, raw) := ok_or (split_once "=" arg) ESetSyntax in
           set_checked tree key (parse_scalar raw) ("`--set " ++ key ++ "=" ++ raw ++ "`"))
    (Ok tree) sets = Ok tree' ->
  exists ovs, set_overrides sets = Ok ovs /\ apply_overrides ovs tree = Ok tree'.
Proof.
  revert tree; induction sets as [|arg sets IH]; intros tree; cbn [foldl result_bind set_overrides].
  { intros [= <-]. by exists []. }
  destruct (split_once "=" arg) as [[key raw]|]; cbn [ok_or result_bind]; [|by rewrite foldl_err].
  destruct (set_checked tree _ _ _) as [t|e] eqn:Es; cbn [result_bind]; [|by rewrite foldl_err].
  intros H. destruct (IH t H) as (ovs & -> & Ho). eexists. split; [done|].
  rewrite apply_overrides_cons, Es. exact Ho.
Qed.

(** Merging is applying the layers to the file. *)
Lemma merge_layers fs cli env tree enabled notices :
  merge fs cli env = Ok (tree, enabled, notices) ->
  exists file ovs, load_tree fs cli env = Ok file /\ select_chains cli file = Ok enabled
    /\ reject_sets_for_idle_chains cli enabled = Ok tt
    /\ layers cli env enabled = Ok ovs /\ apply_overrides ovs file = Ok tree.
Proof.
  unfold merge. destruct (load_tree fs cli env) as [file|]; cbn [result_bind]; [|done].
  destruct (select_chains cli file) as [en|] eqn:Es; cbn [result_bind]; [|done].
  destruct (reject_sets_for_idle_chains cli en) as [[]|] eqn:Er; cbn [result_bind]; [|done].
  destruct (apply_env env file []) as [[t1 n1]|] eqn:E1; cbn [result_bind]; [|done].
  destruct (apply_deprecated_flags cli en t1 n1) as [[t2 n2]|] eqn:E2; cbn [result_bind]; [|done].
  destruct (apply_flags cli en t2) as [t3|] eqn:E3; cbn [result_bind]; [|done].
  destruct (apply_sets cli t3) as [t4|] eqn:E4; cbn [result_bind]; [|done]. intros [= <- <- <-].
  apply apply_env_overrides in E1. apply apply_deprecated_overrides in E2 as (pending & Ep & E2).
  apply apply_sets_overrides in E4 as (sets & Hs & E4).
  eexists _, _. repeat split; [eauto..| |].
  { unfold layers. by rewrite Ep, Hs. }
  rewrite apply_overrides_app, E1. cbn [result_bind]. rewrite apply_overrides_app, E2. cbn [result_bind].
  unfold apply_flags in E3. rewrite apply_overrides_app, E3. exact E4.
Qed.

End Overrides.

(** ** The merged document as the chains see it *)

Section Knobs.
Context {L : ConfigLib}.

(** A chain's table, key by key. *)
Record ChainFileOf (t : Table) (f : ChainFile) : Prop := {
  of_enabled : cf_enabled f = assoc "enabled" t ≫= de_bool;
  of_rpc_url : cf_rpc_url f = assoc "rpc_url" t ≫= de_string;
  of_ws_url : cf_ws_url f = assoc "ws_url" t ≫= de_string;
  of_data_dir : cf_data_dir f = assoc "data_dir" t ≫= de_string;
  of_backfill_floor : cf_backfill_floor f = assoc "backfill_floor" t ≫= de_floor;
  of_request_interval : cf_request_interval f = assoc "request_interval" t ≫= de_duration;
  of_concurrency : cf_concurrency f = assoc "concurrency" t ≫= de_unsigned u64_max;
  of_poll_interval : cf_poll_interval f = assoc "poll_interval" t ≫= de_duration;
  of_max_wait : cf_max_wait f = assoc "max_wait" t ≫= de_duration;
  of_ws_idle_timeout : cf_ws_idle_timeout f = assoc "ws_idle_timeout" t ≫= de_duration;
  of_prefetch_delay_cap : cf_prefetch_delay_cap f = assoc "prefetch_delay_cap" t ≫= de_duration;
  of_ingest_logs : cf_ingest_logs f = assoc "ingest_logs" t ≫= de_bool;
  of_join_buffer_cap : cf_join_buffer_cap f = assoc "join_buffer_cap" t ≫= de_unsigned u64_max;
  of_summary_period : cf_summary_period f = assoc "summary_period" t ≫= de_duration
}.

Lemma field_Some {A} (dec : TValue -> option A) k t o :
  field dec k t = Some o -> o = assoc k t ≫= dec.
Proof.
  unfold field. destruct (assoc k t) as [v|]; cbn; [|by intros [= <-]].
  destruct (dec v); cbn; by intros [= <-].
Qed.

Lemma bind_Some_inv {A B} (o : option A) (k : A -> option B) b :
  o ≫= k = Some b -> exists a, o = Some a /\ k a = Some b.
Proof. destruct o; cbn; [eauto|done]. Qed.

(** Split a chain of binds over [field]s. *)
Ltac fields H :=
  repeat (apply bind_Some_inv in H as (? & ?%field_Some & H)).

Lemma de_chain_file_of v f : de_chain_file v = Some f -> exists t, v = TTable t /\ ChainFileOf t f.
Proof.
  unfold de_chain_file. intros H. apply bind_Some_inv in H as (t & Hv & H).
  destruct v; inversion Hv; subst. exists t. split; [done|].
  destruct (negb _); [done|]. fields H. injection H as <-. by constructor.
Qed.

Lemma chain_file_default_of : ChainFileOf [] chain_file_default.
Proof. by constructor. Qed.

Lemma de_chain_name k c : de_chain (TString k) = Some c -> k = as_str c.
Proof.
  unfold de_chain, de_variant. cbn.
  destruct (String.eqb_spec k "c") as [->|_]; [by intros [= <-]|].
  destruct (String.eqb_spec k "p") as [->|_]; [by intros [= <-]|done].
Qed.

Lemma de_chains_get v m c :
  de_chains v = Some m -> chain_get c m = (as_table v ≫= assoc (as_str c)) ≫= de_chain_file.
Proof.
  unfold de_chains. intros H. apply bind_Some_inv in H as (t & -> & H). cbn.
  revert m H; induction t as [|[k v'] t IH]; intros m H; cbn in H; [by injection H as <-|].
  apply bind_Some_inv in H as ([c' f] & Hk & H). apply bind_Some_inv in H as (m' & Hm & H).
  injection H as <-. apply bind_Some_inv in Hk as (c0 & Hc & Hk).
  apply bind_Some_inv in Hk as (f0 & Hf & Hk). injection Hk as -> ->.
  apply de_chain_name in Hc as ->. cbn. specialize (IH _ Hm).
  destruct (decide (c' = c)) as [->|Hne]; [by rewrite String.eqb_refl; cbn|].
  rewrite (proj2 (String.eqb_neq _ _)); [done|]. intros ?%as_str_inj. congruence.
Qed.

(** The per-chain table and the shared one. *)
Definition chain_table (tree : Table) (c : Chain) : Table :=
  default [] (get_path ["chains"; as_str c] (TTable tree) ≫= as_table).
Definition defaults_table (tree : Table) : Table :=
  default [] (get_path ["defaults"] (TTable tree) ≫= as_table).

Lemma deserialize_tree_fields tree file :
  deserialize_tree tree = Ok file ->
  file_network file = assoc "network" tree ≫= de_network
  /\ file_upstream file = assoc "upstream" tree ≫= de_upstream
  /\ file_defaults file = assoc "defaults" tree ≫= de_chain_file
  /\ file_server file = assoc "server" tree ≫= de_server
  /\ field de_chains "chains" tree = Some (file_chains file).
Proof.
  unfold deserialize_tree. destruct (negb _); [done|].
  destruct (field de_network _ _) as [x0|] eqn:E0; cbn [mbind option_bind]; [|done].
  destruct (field de_log_level _ _) as [x1|]; cbn [mbind option_bind]; [|done].
  destruct (field de_upstream _ _) as [x2|] eqn:E2; cbn [mbind option_bind]; [|done].
  destruct (field de_server _ _) as [x3|] eqn:E3; cbn [mbind option_bind]; [|done].
  destruct (field de_chain_file _ _) as [x4|] eqn:E4; cbn [mbind option_bind]; [|done].
  destruct (field de_chains _ _) as [x5|]; cbn [mbind option_bind]; [|done].
  intros [= <-]. cbn. by rewrite <- (field_Some _ _ _ _ E0), <- (field_Some _ _ _ _ E2), <- (field_Some _ _ _ _ E3),
    <- (field_Some _ _ _ _ E4).
Qed.

Lemma chain_file_of tree file c :
  deserialize_tree tree = Ok file ->
  ChainFileOf (chain_table tree c) (default chain_file_default (file_chains file ≫= chain_get c)).
Proof.
  intros (_ & _ & _ & _ & H)%deserialize_tree_fields. unfold chain_table. cbn. unfold field in H.
  destruct (assoc "chains" tree) as [v|]; cbn in *; [|injection H as <-; apply chain_file_default_of].
  destruct (de_chains v) as [m|] eqn:Em; cbn in H; [|done]. injection H as <-. cbn.
  rewrite (de_chains_get _ _ c Em). unfold de_chains in Em. apply bind_Some_inv in Em as (t & -> & Em). cbn.
  clear v.
  destruct (assoc (as_str c) t) as [v|] eqn:Ea; cbn; [|apply chain_file_default_of].
  destruct (de_chain_file v) as [f|] eqn:Ef; cbn.
  { by apply de_chain_file_of in Ef as (t' & -> & Hf). }
  exfalso. revert m Em; induction t as [|[k v'] t IH]; intros m Em; [done|].
  cbn in Em, Ea. apply bind_Some_inv in Em as (cf & Hk & Em). apply bind_Some_inv in Em as (m' & Hm & _).
  destruct (String.eqb _ k); [|by eapply IH]. injection Ea as ->.
  apply bind_Some_inv in Hk as (? & _ & Hk). by rewrite Ef in Hk.
Qed.

Lemma defaults_file_of tree file :
  deserialize_tree tree = Ok file ->
  ChainFileOf (defaults_table tree) (default chain_file_default (file_defaults file)).
Proof.
  intros H. destruct (deserialize_tree_fields _ _ H) as (_ & _ & Hd & _). unfold defaults_table. cbn.
  rewrite Hd. destruct (assoc "defaults" tree) as [v|] eqn:Ea; cbn; [|apply chain_file_default_of].
  destruct (de_chain_file v) as [f|] eqn:Ef; cbn.
  { by apply de_chain_file_of in Ef as (t' & -> & Hf). }
  exfalso. unfold deserialize_tree in H. destruct (negb _); [done|].
  assert (Hn : field de_chain_file "defaults" tree = None) by (unfold field; by rewrite Ea, Ef).
  revert H. rewrite Hn. clear Hn.
  destruct (field de_network _ _); cbn [mbind option_bind]; [|done].
  destruct (field de_log_level _ _); cbn [mbind option_bind]; [|done].
  destruct (field de_upstream _ _); cbn [mbind option_bind]; [|done].
  by destruct (field de_server _ _); cbn [mbind option_bind].
Qed.

(** A chain's setting: its own, else the shared one, else the built-in. *)
Definition knob {A} (dec : TValue -> option A) (tree : Table) (c : Chain) (key : string) (builtin : A) : A :=
  match get_path ["chains"; as_str c; key] (TTable tree) ≫= dec with
  | Some own => own
  | None => default builtin (get_path ["defaults"; key] (TTable tree) ≫= dec)
  end.

Lemma get_chain_key tree c key : get_path ["chains"; as_str c; key] (TTable tree) = assoc key (chain_table tree c).
Proof.
  unfold chain_table. cbn. destruct (assoc "chains" tree) as [v|]; cbn; [|done].
  destruct (as_table v) as [t|]; cbn; [|done]. destruct (assoc (as_str c) t) as [w|]; cbn; [|done].
  destruct (as_table w) as [t'|]; cbn; [|done]. by destruct (assoc key t').
Qed.

Lemma get_defaults_key tree key : get_path ["defaults"; key] (TTable tree) = assoc key (defaults_table tree).
Proof.
  unfold defaults_table. cbn. destruct (assoc "defaults" tree) as [v|]; cbn; [|done].
  destruct (as_table v) as [t|]; cbn; [|done]. by destruct (assoc key t).
Qed.

(** The directory the chains live under. *)
Definition base_of (tree : Table) : PathBuf :=
  default ("./blockstore-data-" ++ network_as_str (default Mainnet (assoc "network" tree ≫= de_network)))
    (get_path ["defaults"; "data_dir"] (TTable tree) ≫= de_string).

(** Every setting of a chain, from the merged document. *)
Record ChainKnobs (tree : Table) (upstream : Upstream_) (c : Chain) (cfg : ChainCfg) : Prop := {
  kn_chain : cc_chain cfg = c;
  kn_backfill_floor : cc_backfill_floor cfg =
    floor_height (knob de_floor tree c "backfill_floor" (bi_backfill_floor (for_chain c (up_kind upstream))));
  kn_request_interval : cc_request_interval cfg =
    knob de_duration tree c "request_interval" (bi_request_interval (for_chain c (up_kind upstream)));
  kn_concurrency : cc_concurrency cfg =
    knob (de_unsigned u64_max) tree c "concurrency" (bi_concurrency (for_chain c (up_kind upstream)));
  kn_poll_interval : cc_poll_interval cfg =
    knob de_duration tree c "poll_interval" (bi_poll_interval (for_chain c (up_kind upstream)));
  kn_max_wait : cc_max_wait cfg =
    knob de_duration tree c "max_wait" (bi_max_wait (for_chain c (up_kind upstream)));
  kn_ws_idle_timeout : cc_ws_idle_timeout cfg =
    knob de_duration tree c "ws_idle_timeout" (bi_ws_idle_timeout (for_chain c (up_kind upstream)));
  kn_prefetch_delay_cap : cc_prefetch_delay_cap cfg =
    knob de_duration tree c "prefetch_delay_cap" (bi_prefetch_delay_cap (for_chain c (up_kind upstream)));
  kn_ingest_logs : cc_ingest_logs cfg =
    knob de_bool tree c "ingest_logs" (bi_ingest_logs (for_chain c (up_kind upstream)))
    && bool_decide (c = C);
  kn_join_buffer_cap : cc_join_buffer_cap cfg =
    knob (de_unsigned u64_max) tree c "join_buffer_cap" (bi_join_buffer_cap (for_chain c (up_kind upstream)));
  kn_summary_period : cc_summary_period cfg =
    knob de_duration tree c "summary_period" (bi_summary_period (for_chain c (up_kind upstream)));
  kn_subscribe_blocks : cc_subscribe_blocks cfg = bool_decide (up_kind upstream = Neve);
  kn_data_dir : cc_data_dir cfg =
    default (chain_data_dir c (base_of tree)) (get_path ["chains"; as_str c; "data_dir"] (TTable tree) ≫= de_string);
  (** the endpoints, then the token *)
  kn_urls : exists derived,
    derive_endpoints (up_kind upstream) (up_base upstream) c = Ok derived
    /\ (cc_rpc_url cfg, cc_ws_url cfg) =
         tokened_urls upstream (knob de_string tree c "rpc_url" derived.1) (knob de_string tree c "ws_url" derived.2)
    /\ (cc_host_pacer cfg <> None ->
        cc_host_pacer cfg = up_host_pacer upstream
        /\ exists mine host, authority (knob de_string tree c "rpc_url" derived.1) = Some mine
             /\ authority (up_base upstream) = Some host /\ eq_ignore_ascii_case mine host = true)
}.

(** The layered option of [resolve_chain] is the knob. *)
Lemma overlay_knob {A} (dec : TValue -> option A) tree c key (own shared : option A) b :
  own = assoc key (chain_table tree c) ≫= dec -> shared = assoc key (defaults_table tree) ≫= dec ->
  default b (match own with
             | Some v => Some v
             | None => match shared with Some v => Some v | None => None end
             end) = knob dec tree c key b.
Proof.
  intros -> ->. unfold knob. rewrite get_chain_key, get_defaults_key.
  destruct (assoc key (chain_table tree c) ≫= dec); [done|]. by destruct (_ ≫= dec).
Qed.

Lemma de_unsigned_le max v n : de_unsigned max v = Some n -> (n <= max)%N.
Proof. destruct v; try done. cbn. destruct (_ && _) eqn:E; [|done]. intros [= <-]. lia. Qed.

Lemma knob_unsigned_le max tree c key b : (b <= max)%N -> (knob (de_unsigned max) tree c key b <= max)%N.
Proof.
  intros Hb. unfold knob.
  destruct (get_path _ _) as [v|]; cbn [mbind option_bind].
  1: destruct (de_unsigned max v) eqn:E; [by eapply de_unsigned_le|].
  all: destruct (get_path ["defaults"; key] (TTable tree)) as [w|]; cbn [mbind option_bind default]; [|done].
  all: destruct (de_unsigned max w) eqn:Ew; cbn; [by eapply de_unsigned_le|done].
Qed.

(** What is checked of a chain's settings. *)
Record ChainValid (c : Chain) (cfg : ChainCfg) : Prop := {
  cv_concurrency : (0 < cc_concurrency cfg <= u64_max)%N;
  cv_join_buffer_cap : (0 < cc_join_buffer_cap cfg <= u64_max)%N;
  cv_summary_period : (0 < cc_summary_period cfg)%N;
  cv_poll_interval : (0 < cc_poll_interval cfg)%N;
  cv_logs : cc_ingest_logs cfg = true -> c = C
}.

Lemma host_pacer_for_spec c upstream url notices pacer notices' :
  host_pacer_for c upstream url notices = (pacer, notices') -> pacer <> None ->
  pacer = up_host_pacer upstream
  /\ exists mine host, authority url = Some mine /\ authority (up_base upstream) = Some host
       /\ eq_ignore_ascii_case mine host = true.
Proof.
  unfold host_pacer_for. destruct (up_host_pacer upstream) as [d|]; [|by intros [= <- _]].
  destruct (authority url) as [mine|] eqn:Em; [|by intros [= <- _]].
  destruct (authority (up_base upstream)) as [host|] eqn:Eh; [|by intros [= <- _]].
  destruct (eq_ignore_ascii_case mine host) eqn:Ee; [|by intros [= <- _]].
  intros [= <- _] _. eauto 8.
Qed.

Lemma resolve_chain_spec tree file c upstream notices cfg notices' :
  deserialize_tree tree = Ok file ->
  resolve_chain c upstream (default chain_file_default (file_defaults file))
    (default chain_file_default (file_chains file ≫= chain_get c))
    (default ("./blockstore-data-" ++ network_as_str (default Mainnet (file_network file)))
       (cf_data_dir (default chain_file_default (file_defaults file)))) notices = Ok (cfg, notices') ->
  ChainKnobs tree upstream c cfg /\ ChainValid c cfg.
Proof.
  intros Hf. pose proof (chain_file_of tree file c Hf) as Hp. pose proof (defaults_file_of tree file Hf) as Hd.
  destruct (deserialize_tree_fields _ _ Hf) as (Hn & _).
  assert (Hb : default ("./blockstore-data-" ++ network_as_str (default Mainnet (file_network file)))
                 (cf_data_dir (default chain_file_default (file_defaults file))) = base_of tree).
  { unfold base_of. by rewrite get_defaults_key, <- (of_data_dir _ _ Hd), Hn. }
  rewrite Hb. clear Hb Hn Hf. revert Hp Hd.
  generalize (default chain_file_default (file_chains file ≫= chain_get c)) as per.
  generalize (default chain_file_default (file_defaults file)) as dft. intros dft per Hp Hd.
  unfold resolve_chain. destruct (derive_endpoints _ _ c) as [[drpc dws]|] eqn:Ed; cbn [result_bind]; [|done].
  destruct (host_pacer_for _ _ _ _) as [pacer ns] eqn:Eh.
  destruct (tokened_urls _ _ _) as [rpc ws] eqn:Et.
  destruct (_ =? 0)%N eqn:E1; [done|]. destruct (_ =? 0)%N eqn:E2 in |- *; [done|].
  destruct (_ =? 0)%N eqn:E3 in |- *; [done|]. destruct (_ =? 0)%N eqn:E4 in |- *; [done|].
  intros [= <- <-]. apply N.eqb_neq in E1, E2, E3, E4. split.
  - constructor; rewrite ?get_chain_key; cbn -[chain_table base_of knob]; try done.
    all: try (first [f_equal|idtac]; apply overlay_knob; apply Hp || apply Hd).
    + by rewrite <- (of_data_dir _ _ Hp).
    + exists (drpc, dws). rewrite <- Et. cbn -[knob].
      rewrite <- !(overlay_knob _ tree c _ _ _ _ (of_rpc_url _ _ Hp) (of_rpc_url _ _ Hd)).
      rewrite <- (overlay_knob _ tree c _ _ _ _ (of_ws_url _ _ Hp) (of_ws_url _ _ Hd)).
      split_and!; [done..|]. by apply (host_pacer_for_spec c upstream _ notices pacer ns).
  - cbn in E1, E2, E3, E4. constructor; cbn -[u64_max]; [|  |lia..|].
    + split; [lia|]. rewrite (overlay_knob (de_unsigned u64_max) tree c "concurrency");
        [by apply knob_unsigned_le|apply Hp|apply Hd].
    + split; [lia|]. rewrite (overlay_knob (de_unsigned u64_max) tree c "join_buffer_cap");
        [by apply knob_unsigned_le|apply Hp|apply Hd].
    + intros H. apply andb_true_iff in H as [_ H]. by apply bool_decide_eq_true in H.
Qed.

Lemma resolve_chains_spec enabled upstream defaults chains base notices l notices' :
  resolve_chains enabled upstream defaults chains base notices = Ok (l, notices') ->
  l.*1 = enabled
  /\ Forall (fun kc => exists n n', resolve_chain kc.1 upstream defaults
                 (default chain_file_default (chains ≫= chain_get kc.1)) base n = Ok (kc.2, n')) l.
Proof.
  revert notices l; induction enabled as [|c enabled IH]; intros notices l; cbn [resolve_chains].
  { by intros [= <- <-]. }
  destruct (resolve_chain _ _ _ _ _ _) as [[cfg n1]|] eqn:Ec; cbn [result_bind]; [|done].
  destruct (resolve_chains enabled _ _ _ _ _) as [[rest n2]|] eqn:Er; cbn [result_bind]; [|done].
  intros [= <- <-]. destruct (IH _ _ Er) as [Hk Hf]. cbn. split; [by rewrite <- Hk|].
  constructor; [eauto|done].
Qed.

End Knobs.

(** ** Which chains are served *)

Section Selection.
Context {L : ConfigLib}.

(** What one [--set] argument says of a chain's [enabled]. *)
Definition enabled_value (c : Chain) (arg : string) : option bool :=
  match split_once "=" arg with
  | Some (key, raw) => if String.eqb (trim key) (enabled_key c) then parse_bool raw else None
  | None => None
  end.

(** The file's word: declared (or no chain is), and not switched off. *)
Definition file_wants (file : Table) (c : Chain) : bool :=
  match assoc "chains" file with
  | None => true
  | Some v => match as_table v ≫= assoc (as_str c) with
              | None => false
              | Some own => default true ((as_table own ≫= assoc "enabled") ≫= tas_bool)
              end
  end.

(** [--chains] names the set; otherwise the last [--set] on the chain, otherwise
    the file. *)
Definition wanted (cli : Cli) (file : Table) (c : Chain) : bool :=
  match cli_chains cli with
  | [] => match last (omap (enabled_value c) (cli_set cli)) with
          | Some b => b
          | None => file_wants file c
          end
  | _ => bool_decide (c ∈ cli_chains cli)
  end.

Lemma set_enabled_last sets c o :
  set_enabled sets c = Ok o -> o = last (omap (enabled_value c) sets).
Proof.
  unfold set_enabled. revert o; induction sets as [|arg sets IH] using rev_ind; intros o.
  { by intros [= <-]. }
  rewrite foldl_app, omap_app. cbn [foldl omap list_omap]. intros H. inv_ok. specialize (IH _ eq_refl).
  unfold enabled_value at 2. destruct (split_once "=" arg) as [[key raw]|].
  - destruct (String.eqb (trim key) (enabled_key c)).
    + destruct (parse_bool raw) as [b|]; cbn in H; inv_ok. by rewrite last_snoc.
    + inv_ok. by rewrite app_nil_r.
  - inv_ok. by rewrite app_nil_r.
Qed.

Lemma declared_names t cs c :
  foldr (fun kv acc => let? c := ok_or (de_chain (TString kv.1)) EUnknownChain in
                       let? cs := acc in Ok (c :: cs)) (Ok []) (t : Table) = Ok cs ->
  c ∈ cs <-> is_Some (assoc (as_str c) t).
Proof.
  revert cs; induction t as [|[k v] t IH]; intros cs; cbn [foldr].
  { intros [= <-]. cbn. split; [by intros ?%elem_of_nil|by intros [? ?]]. }
  cbn [fst]. destruct (de_chain (TString k)) as [c'|] eqn:Ek; cbn [ok_or result_bind]; [|done].
  apply de_chain_name in Ek as ->. destruct (foldr _ _ t) as [cs'|]; cbn [result_bind]; [|done].
  intros [= <-]. specialize (IH _ eq_refl). rewrite elem_of_cons. cbn.
  destruct (String.eqb_spec (as_str c) (as_str c')) as [->%as_str_inj|Hne]; [by split; [|left]|].
  rewrite IH. split; [|by right]. intros [->|H]; [done|exact H].
Qed.

Lemma chain_on_wanted cli file declared c b :
  cli_chains cli = [] -> declared_chains file = Ok declared ->
  chain_on (cli_set cli) file declared c = Ok b -> b = wanted cli file c.
Proof.
  intros Hc Hd. unfold chain_on, wanted. rewrite Hc.
  destruct (set_enabled (cli_set cli) c) as [o|] eqn:Eo; cbn [result_bind]; [|done].
  rewrite <- (set_enabled_last _ _ _ Eo). destruct o as [b'|]; [by intros [= <-]|].
  unfold file_wants, declared_chains, file_enabled in *.
  destruct (assoc "chains" file) as [v|]; [|injection Hd as <-; cbn; by intros [= <-]].
  cbn [mbind option_bind].
  destruct (as_table v) as [t|]; cbn [ok_or result_bind mbind option_bind] in Hd |- *; [|done].
  destruct (foldr _ _ t) as [cs|] eqn:Ef; cbn [result_bind] in Hd; [|done]. injection Hd as <-.
  apply (declared_names _ _ c) in Ef. cbn [mbind option_bind].
  case_bool_decide as Hin; apply (not_iff_compat) in Ef as Hn.
  - destruct (proj1 Ef Hin) as [own ->]. cbn.
    destruct (as_table own) as [t'|]; cbn; [|by intros [= <-]].
    destruct (assoc "enabled" t') as [w|]; cbn; [|by intros [= <-]].
    destruct (tas_bool w); cbn; by intros [= <-].
  - destruct (assoc (as_str c) t); [|by intros [= <-]]. destruct Hn as [Hn _]. destruct (Hn Hin). eauto.
Qed.

Lemma select_loop cli file declared acc cs l :
  cli_chains cli = [] -> declared_chains file = Ok declared ->
  foldl (fun (acc : result (list Chain)) chain =>
           let? acc := acc in
           let? on := chain_on (cli_set cli) file declared chain in
           Ok (if (on : bool) then acc ++ [chain] else acc)%list) (Ok acc) cs = Ok l ->
  l = (acc ++ List.filter (wanted cli file) cs)%list.
Proof.
  intros Hc Hd. revert acc; induction cs as [|c cs IH]; intros acc; cbn [foldl List.filter result_bind].
  { intros [= <-]. by rewrite app_nil_r. }
  destruct (chain_on _ _ _ c) as [b|] eqn:Eb; cbn [result_bind]; [|by rewrite foldl_err].
  intros H. apply IH in H as ->. rewrite <- (chain_on_wanted _ _ _ _ _ Hc Hd Eb).
  destruct b; [by rewrite <- app_assoc|done].
Qed.

Lemma normalize_sublist f l :
  normalize_chains (List.filter f ALL) = Ok l -> l = List.filter f ALL /\ l <> [].
Proof. cbn. by destruct (f C), (f P); intros [= <-]. Qed.

Lemma select_chains_wanted cli file l :
  select_chains cli file = Ok l -> l = List.filter (wanted cli file) ALL /\ l <> [].
Proof.
  unfold select_chains. destruct (cli_chains cli) as [|c cs] eqn:Ec.
  - destruct (declared_chains file) as [declared|] eqn:Ed; cbn [result_bind]; [|done].
    case_bool_decide; [done|].
    destruct (foldl _ _ ALL) as [l'|] eqn:El; cbn [result_bind]; [|done].
    apply (select_loop _ _ _ [] _ _ Ec Ed) in El. cbn [app] in El.
    destruct l' as [|c l']; [done|]. rewrite El. apply normalize_sublist.
  - rewrite normalize_chains_canonical. unfold wanted. rewrite Ec. intros [= <-].
    generalize (list_elem_of_here c cs). generalize (c :: cs) as named. intros named Hc.
    cbn [ALL List.filter].
    destruct (decide (C ∈ named)) as [H1|H1], (decide (P ∈ named)) as [H2|H2];
      rewrite ?(bool_decide_true _ H1), ?(bool_decide_false _ H1), ?(bool_decide_true _ H2),
        ?(bool_decide_false _ H2); try done.
    by destruct c.
Qed.

End Selection.

(** ** The resolved configuration *)

Section Resolved.
Context {L : ConfigLib}.

Lemma resolve_with_inv fs cli env r :
  resolve_with fs cli env = Ok r ->
  exists tree enabled notices file, merge fs cli env = Ok (tree, enabled, notices)
    /\ deserialize_tree tree = Ok file /\ build fs cli env file enabled notices = Ok r.
Proof.
  unfold resolve_with. destruct (merge fs cli env) as [[[tree enabled] notices]|]; cbn [result_bind]; [|done].
  destruct (deserialize_tree tree) as [file|] eqn:Ed; cbn [result_bind]; [|done]. eauto 8.
Qed.

Lemma build_inv fs cli env file enabled notices r :
  build fs cli env file enabled notices = Ok r ->
  let defaults := default chain_file_default (file_defaults file) in
  let network := default Mainnet (file_network file) in
  cf_enabled defaults = None /\ rs_network r = network
  /\ resolve_server (file_server file) = Ok (rs_server r)
  /\ shared_dir (rs_chains r) = None
  /\ exists notices', resolve_upstream fs env (file_upstream file) network (urls_already_carry_a_token file) notices
                        = Ok (rs_upstream r, notices')
     /\ resolve_chains enabled (rs_upstream r) defaults (file_chains file)
          (default ("./blockstore-data-" ++ network_as_str network) (cf_data_dir defaults)) notices'
        = Ok (rs_chains r, rs_notices r).
Proof.
  cbn zeta. unfold build.
  destruct (resolve_upstream _ _ _ _ _ _) as [[up n1]|] eqn:Eu; cbn [result_bind]; [|done].
  destruct (resolve_server _) as [srv|]; cbn [result_bind]; [|done].
  destruct (cf_enabled _) eqn:Ed; [done|].
  destruct (resolve_chains _ _ _ _ _ _) as [[chains n2]|] eqn:Ec; cbn [result_bind]; [|done].
  destruct (shared_dir chains) as [[? ?]|] eqn:Es; [done|]. intros [= <-]. cbn. repeat split; [done..|].
  by exists n1.
Qed.

(** *** The upstream *)

Record UpstreamValid (up : Upstream_) : Prop := {
  uv_base : up_base up <> "";
  uv_token : forall t, up_token up = Some t -> expose t <> "";
  uv_cap : forall rps, up_max_rps up = Some rps -> is_finite rps = true /\ f64_lt f64_zero rps = true;
  uv_pacer : up_host_pacer up = up_max_rps up ≫= fun rps => from_secs_f64 (recip rps);
  uv_paced : up_max_rps up <> None -> up_host_pacer up <> None
}.

Lemma resolve_max_rps_valid configured kind tokened cap why :
  resolve_max_rps configured kind tokened = Ok (cap, why) ->
  forall rps, cap = Some rps -> is_finite rps = true /\ f64_lt f64_zero rps = true.
Proof.
  unfold resolve_max_rps. destruct configured as [c|]; [|destruct kind, tokened; by intros [= <- _] ? [= <-]].
  destruct (is_finite c) eqn:Ef, (f64_lt c f64_zero); cbn [negb orb]; try done.
  destruct (f64_lt f64_zero c) eqn:El; by intros [= <- _] ? [= <-].
Qed.

Lemma resolve_token_nonempty fs file env_token t :
  resolve_token fs file env_token = Ok (Some t) -> expose t <> "".
Proof.
  unfold resolve_token, read_token_file. intros H.
  destruct file as [p|].
  - inv_ok. destruct (String.eqb_spec (trim a) ""); by inv_ok.
  - destruct env_token as [v|]; [|done]. destruct (String.eqb_spec (trim v) ""); by inv_ok.
Qed.

Lemma resolve_upstream_valid fs env file network pre notices up notices' :
  resolve_upstream fs env file network pre notices = Ok (up, notices') -> UpstreamValid up.
Proof.
  unfold resolve_upstream. destruct (String.eqb _ "") eqn:Eb; [done|]. apply String.eqb_neq in Eb.
  destruct (resolve_token _ _ _) as [token|] eqn:Et; cbn [result_bind]; [|done].
  destruct (resolve_max_rps _ _ _) as [[cap why]|] eqn:Em; cbn [result_bind]; [|done].
  pose proof (resolve_max_rps_valid _ _ _ _ _ Em) as Hcap.
  destruct cap as [rps|]; [|intros [= <- _]; constructor; cbn; try done].
  - destruct (from_secs_f64 (recip rps)) as [d|] eqn:Ef; cbn [ok_or result_bind]; [|done].
    intros [= <- _]. constructor; cbn; try done. intros t ->. by eapply resolve_token_nonempty.
  - intros t ->. by eapply resolve_token_nonempty.
Qed.

(** *** The server *)

Record ServerValid (s : Server) : Prop := {
  sv_connections : (0 < srv_max_connections s <= u32_max)%N;
  sv_blocks : (0 < srv_max_blocks_per_request s <= u64_max)%N;
  sv_idle : srv_idle_timeout s <> Some 0%N
}.

Lemma field_unsigned_le max k t o n :
  field (de_unsigned max) k t = Some o -> o = Some n -> (n <= max)%N.
Proof.
  intros ->%field_Some. destruct (assoc k t) as [v|]; cbn [mbind option_bind]; [|done].
  apply de_unsigned_le.
Qed.

Lemma de_server_bounds v f :
  de_server v = Some f ->
  (default 1024 (sf_max_connections f) <= u32_max)%N
  /\ (default 10000 (sf_max_blocks_per_request f) <= u64_max)%N.
Proof.
  unfold de_server. intros H. apply bind_Some_inv in H as (t & _ & H). destruct (negb _); [done|].
  apply bind_Some_inv in H as (a & _ & H). apply bind_Some_inv in H as (c & Hc & H).
  apply bind_Some_inv in H as (i & _ & H). apply bind_Some_inv in H as (b & Hb & H). injection H as <-. cbn.
  split.
  - destruct c as [n|]; [by eapply field_unsigned_le|done].
  - destruct b as [n|]; [by eapply field_unsigned_le|done].
Qed.

Lemma resolve_server_valid tree file s :
  deserialize_tree tree = Ok file -> resolve_server (file_server file) = Ok s -> ServerValid s.
Proof.
  intros (_ & _ & _ & Hs & _)%deserialize_tree_fields. unfold resolve_server.
  assert (Hb : (default 1024 (sf_max_connections (default server_default (file_server file))) <= u32_max)%N
    /\ (default 10000 (sf_max_blocks_per_request (default server_default (file_server file))) <= u64_max)%N).
  { rewrite Hs. destruct (assoc "server" tree) as [v|]; cbn [mbind option_bind]; [|done].
    destruct (de_server v) as [f|] eqn:Ef; [|done]. by eapply de_server_bounds. }
  destruct Hb as [Hc Hb].
  destruct (_ =? 0)%N eqn:E1; [done|]. destruct (_ =? 0)%N eqn:E2 in |- *; [done|].
  apply N.eqb_neq in E1, E2. intros [= <-]. constructor; cbn -[u64_max u32_max]; [lia..|].
  destruct (0 <? _)%N eqn:E; [|done]. apply N.ltb_lt in E. intros [= H]. lia.
Qed.

(** *** Distinct directories *)

Lemma shared_dir_None chains c cfg d cfg' :
  shared_dir chains = None -> (c, cfg) ∈ chains -> (d, cfg') ∈ chains -> c <> d ->
  components (cc_data_dir cfg) <> components (cc_data_dir cfg').
Proof.
  unfold shared_dir. intros H Hc Hd Hne Heq.
  destruct (omap _ chains) as [|x l] eqn:E; [|done]. clear H.
  destruct (List.find (fun o => negb (bool_decide (o.1 = c)) && path_eqb (cc_data_dir o.2) (cc_data_dir cfg)) chains)
    as [o|] eqn:Ef.
  - assert (Hin : (c, o.1) ∈ omap (fun kc => (fun o => (kc.1, o.1)) <$>
                List.find (fun o => negb (bool_decide (o.1 = kc.1))
                                    && path_eqb (cc_data_dir o.2) (cc_data_dir kc.2)) chains) chains).
    { apply list_elem_of_omap. exists (c, cfg). split; [done|]. cbn. by rewrite Ef. }
    rewrite E in Hin. by apply elem_of_nil in Hin.
  - apply list_elem_of_In in Hd. pose proof (List.find_none _ _ Ef _ Hd) as Hn. cbn in Hn.
    rewrite bool_decide_false in Hn by congruence. cbn in Hn. unfold path_eqb in Hn.
    by rewrite bool_decide_true in Hn.
Qed.

(** What every accepted configuration satisfies. *)
Record WellFormed (r : Resolved) : Prop := {
  wf_upstream : UpstreamValid (rs_upstream r);
  wf_server : ServerValid (rs_server r);
  wf_some : rs_chains r <> [];
  wf_order : exists f, (rs_chains r).*1 = List.filter f ALL;
  wf_valid : forall c cfg, (c, cfg) ∈ rs_chains r -> cc_chain cfg = c /\ ChainValid c cfg;
  wf_dirs : forall c cfg d cfg', (c, cfg) ∈ rs_chains r -> (d, cfg') ∈ rs_chains r -> c <> d ->
    components (cc_data_dir cfg) <> components (cc_data_dir cfg')
}.

Lemma resolve_with_chains fs cli env r :
  resolve_with fs cli env = Ok r ->
  exists tree enabled notices file, merge fs cli env = Ok (tree, enabled, notices)
    /\ deserialize_tree tree = Ok file /\ build fs cli env file enabled notices = Ok r
    /\ (rs_chains r).*1 = enabled
    /\ forall c cfg, (c, cfg) ∈ rs_chains r -> ChainKnobs tree (rs_upstream r) c cfg /\ ChainValid c cfg.
Proof.
  intros (tree & enabled & notices & file & Hm & Hf & Hb)%resolve_with_inv.
  destruct (build_inv _ _ _ _ _ _ _ Hb) as (_ & _ & _ & _ & n & _ & Hc).
  destruct (resolve_chains_spec _ _ _ _ _ _ _ _ Hc) as [Hk Hall].
  exists tree, enabled, notices, file. split_and!; [done..|].
  intros c cfg Hin. rewrite Forall_forall in Hall. destruct (Hall _ Hin) as (n1 & n2 & Hr).
  by eapply resolve_chain_spec.
Qed.

Lemma resolved_wf fs cli env r : resolve_with fs cli env = Ok r -> WellFormed r.
Proof.
  intros (tree & enabled & notices & file & Hm & Hf & Hb & Hk & Hc)%resolve_with_chains.
  destruct (build_inv _ _ _ _ _ _ _ Hb) as (_ & _ & Hs & Hd & n & Hu & _).
  destruct (merge_layers _ _ _ _ _ _ Hm) as (t0 & ovs & _ & Hsel & _).
  destruct (select_chains_wanted _ _ _ Hsel) as [Hw Hne].
  constructor.
  - by eapply resolve_upstream_valid.
  - by eapply resolve_server_valid.
  - intros H. rewrite H in Hk. by rewrite <- Hk in Hne.
  - exists (wanted cli t0). congruence.
  - intros c cfg Hin. destruct (Hc _ _ Hin) as [Hkn Hv]. split; [apply Hkn|done].
  - intros c cfg d cfg'. by apply shared_dir_None.
Qed.

(** C23: every configuration that is accepted is well formed: the upstream has a
    base and a usable token and pace, the server's limits are positive and in
    their widths, at least one chain is served and each once in the canonical
    order, a chain's concurrency, join buffer, summary period and poll interval
    are positive and in their widths, only the C-chain ingests logs, and no two
    chains share a data directory. *)
Theorem resolved_well_formed fs cli env r : resolve_with fs cli env = Ok r -> WellFormed r.
Proof. apply resolved_wf. Qed.

(** What [reject_sets_for_idle_chains] lets through. *)
Lemma idle_sets_refused cli enabled arg key raw name fld rest c :
  reject_sets_for_idle_chains cli enabled = Ok tt -> arg ∈ cli_set cli -> split_once "=" arg = Some (key, raw) ->
  Str.split "." (trim key) = "chains" :: name :: fld :: rest -> de_chain (TString name) = Some c ->
  fld = "enabled" \/ c ∈ enabled.
Proof.
  unfold reject_sets_for_idle_chains. destruct (omap _ _) as [|k ks] eqn:E; [|done]. intros _ Hin Hs Hp Hc.
  destruct (decide (c ∈ enabled)) as [|Hn]; [by right|]. left.
  destruct (String.eqb_spec fld "enabled") as [|Hf]; [done|]. exfalso.
  assert (Hk : key ∈ omap (idle_target enabled) (cli_set cli)).
  { apply list_elem_of_omap. exists arg. split; [done|]. unfold idle_target. rewrite Hs, Hp, Hc. cbn.
    rewrite (proj2 (String.eqb_neq _ _) Hf), bool_decide_false by done. done. }
  rewrite E in Hk. by apply elem_of_nil in Hk.
Qed.

(** C22: where every setting comes from.  The merged document is the file's with
    the environment, the deprecated flags, the visible flags and [--set] applied
    as one list of overrides, in that order: the last one that meets a path
    decides it, and a path none meets is the file's.  The chains served are the
    ones [--chains] names, otherwise the last [--set] or the file switches on; and
    a [--set] of a key [chains.<x>.<field>] other than [enabled] was accepted only
    if that chain is served.  In that document, the floor, the request interval,
    the concurrency, the poll interval, the waits, the delay cap, the join buffer
    and the summary period of a served chain are its own, else the shared default,
    else the built-in one of the chain and the kind of upstream, and so is log
    ingestion on the C-chain, while the P-chain ingests none; its directory is its
    own, else its place under the shared one; its endpoints are its own, else the
    shared ones, else derived from the base, with the token added. *)
Theorem config_precedence fs cli env r :
  resolve_with fs cli env = Ok r ->
  exists file ovs tree,
    load_tree fs cli env = Ok file
    /\ (rs_chains r).*1 = List.filter (wanted cli file) ALL
    /\ layers cli env (rs_chains r).*1 = Ok ovs
    /\ (forall q, decided q ovs file tree)
    /\ (forall arg key raw name fld rest c, arg ∈ cli_set cli -> split_once "=" arg = Some (key, raw) ->
          Str.split "." (trim key) = "chains" :: name :: fld :: rest -> de_chain (TString name) = Some c ->
          fld = "enabled" \/ c ∈ (rs_chains r).*1)
    /\ (forall c cfg, (c, cfg) ∈ rs_chains r -> ChainKnobs tree (rs_upstream r) c cfg).
Proof.
  intros (tree & enabled & notices & file & Hm & Hf & Hb & Hk & Hc)%resolve_with_chains.
  destruct (merge_layers _ _ _ _ _ _ Hm) as (t0 & ovs & Hl & Hsel & Hrej & Hlay & Hov).
  destruct (select_chains_wanted _ _ _ Hsel) as [Hw _].
  exists t0, ovs, tree. rewrite Hk. split_and!; [done..| | |].
  - intros q. by apply apply_overrides_decides.
  - intros arg key raw name fld rest c. by apply idle_sets_refused.
  - intros c cfg Hin. by destruct (Hc _ _ Hin).
Qed.

End Resolved.
