(* ===== verification/ConfigSecrets.v ===== *)
(** * Configuration: secrets and rendering

    What [--print-config] and the start-up notices reveal of the upstream token,
    how a URL comes to carry it, and durations that print and parse back. *)

From Stdlib Require Import ZArith NArith Lia String Ascii.
From S2P Require Import Prelude Str Chain Upstream Float64 Toml Config ConfigLayers ConfigResolve ConfigDebug.

#[local] Open Scope string_scope.

(** ** What printing the configuration reveals *)

Section Secrets.
Context {L : ConfigLib}.

Lemma split_once_app_r c s l r x :
  split_once c s = Some (l, r) -> split_once c (s ++ x) = Some (l, r ++ x).
Proof.
  revert l r; induction s as [|a s IH]; intros l r; cbn; [done|].
  destruct (Ascii.eqb a c); [by intros [= <- <-]|].
  destruct (split_once c s) as [[l' r']|]; [|done]. intros [= <- <-]. by rewrite (IH _ _ eq_refl).
Qed.

(** A tokened URL redacts to the same text whatever the token. *)
Lemma redact_with_token url param t t' :
  redact_url (with_token url param t) = redact_url (with_token url param t').
Proof.
  unfold with_token. destruct (String.eqb url ""); [done|].
  destruct (split_once "?" url) as [[base query]|] eqn:E.
  - destruct (String.eqb query ""); [|destruct (query_has param query); [done|]];
      unfold redact_url; by rewrite !(split_once_app_r _ _ _ _ _ E).
  - assert (Hb : contains_char "?" url = false) by (unfold contains_char; by rewrite E).
    unfold redact_url. cbn [append]. by rewrite !split_once_app.
Qed.

(** The two processes read the same configuration and differ at most in their
    secrets: the value of the token variable and of the token files, blank in
    both or in neither. *)
Record SameButSecrets (cli : Cli) (fs fs' : Files) (env env' : Env) : Prop := {
  ss_tree : load_tree fs cli env = load_tree fs' cli env';
  ss_env : forall key, key <> "NEVE_UPSTREAM_TOKEN" -> env_get env key = env_get env' key;
  ss_token : match env_get env "NEVE_UPSTREAM_TOKEN", env_get env' "NEVE_UPSTREAM_TOKEN" with
             | Some v, Some v' => trim v = "" <-> trim v' = ""
             | None, None => True
             | _, _ => False
             end;
  ss_files : forall p, match read_to_string fs p, read_to_string fs' p with
                       | Some v, Some v' => trim v = "" <-> trim v' = ""
                       | None, None => True
                       | _, _ => False
                       end
}.

Definition set_token (up : Upstream_) (t : option Token) : Upstream_ :=
  {| up_kind := up_kind up; up_base := up_base up; up_token := t; up_token_param := up_token_param up;
     up_token_file := up_token_file up; up_max_rps := up_max_rps up; up_host_pacer := up_host_pacer up |}.

(** Tokens of the same shape. *)
Definition both_or_none {A} (a b : option A) : Prop := is_Some a <-> is_Some b.

Definition hide (cfg : ChainCfg) : ChainCfg :=
  {| cc_chain := cc_chain cfg; cc_rpc_url := redact_url (cc_rpc_url cfg); cc_ws_url := redact_url (cc_ws_url cfg);
     cc_data_dir := cc_data_dir cfg; cc_backfill_floor := cc_backfill_floor cfg;
     cc_request_interval := cc_request_interval cfg; cc_concurrency := cc_concurrency cfg;
     cc_poll_interval := cc_poll_interval cfg; cc_max_wait := cc_max_wait cfg;
     cc_ws_idle_timeout := cc_ws_idle_timeout cfg; cc_prefetch_delay_cap := cc_prefetch_delay_cap cfg;
     cc_ingest_logs := cc_ingest_logs cfg; cc_join_buffer_cap := cc_join_buffer_cap cfg;
     cc_summary_period := cc_summary_period cfg; cc_subscribe_blocks := cc_subscribe_blocks cfg;
     cc_host_pacer := cc_host_pacer cfg |}.

Definition same_chain (kc kc' : Chain * ChainCfg) : Prop := kc.1 = kc'.1 /\ hide kc.2 = hide kc'.2.

Definition same_outcome {A} (R : A -> A -> Prop) (a b : result A) : Prop :=
  match a, b with Ok x, Ok y => R x y | Err e, Err e' => e = e' | _, _ => False end.

Lemma resolve_token_same cli fs fs' env env' file :
  SameButSecrets cli fs fs' env env' ->
  same_outcome both_or_none (resolve_token fs file (env_get env "NEVE_UPSTREAM_TOKEN"))
    (resolve_token fs' file (env_get env' "NEVE_UPSTREAM_TOKEN")).
Proof.
  intros [_ _ Ht Hf]. unfold resolve_token, read_token_file. destruct file as [p|].
  - specialize (Hf p). destruct (read_to_string fs p) as [v|], (read_to_string fs' p) as [v'|]; try done.
    cbn [ok_or result_bind].
    destruct (String.eqb_spec (trim v) ""), (String.eqb_spec (trim v') ""); cbn; try done; tauto.
  - destruct (env_get env _) as [v|], (env_get env' _) as [v'|]; try done.
    destruct (String.eqb_spec (trim v) ""), (String.eqb_spec (trim v') ""); cbn; try done; tauto.
Qed.

Lemma tokened_urls_same up t rpc ws :
  both_or_none (up_token up) t ->
  redact_url (tokened_urls up rpc ws).1 = redact_url (tokened_urls (set_token up t) rpc ws).1
  /\ redact_url (tokened_urls up rpc ws).2 = redact_url (tokened_urls (set_token up t) rpc ws).2.
Proof.
  unfold tokened_urls, both_or_none. cbn [up_token set_token up_token_param].
  destruct (up_token up) as [a|], t as [b|]; intros H; [|by destruct H as [[] _]|by destruct H as [_ []]|done].
  cbn [fst snd]. by split; apply redact_with_token.
Qed.

Lemma resolve_chain_same c up t dft per base notices :
  both_or_none (up_token up) t ->
  same_outcome (fun a b => hide a.1 = hide b.1 /\ a.2 = b.2)
    (resolve_chain c up dft per base notices) (resolve_chain c (set_token up t) dft per base notices).
Proof.
  intros Ht. unfold resolve_chain. cbn [up_kind up_base set_token].
  destruct (derive_endpoints _ _ c) as [[drpc dws]|e]; cbn [result_bind]; [|done].
  change (host_pacer_for c (set_token up t)) with (host_pacer_for c up).
  destruct (host_pacer_for _ _ _ _) as [pacer ns].
  destruct (tokened_urls_same up t (default drpc (cf_rpc_url (overlay (overlay chain_file_default dft) per)))
              (default dws (cf_ws_url (overlay (overlay chain_file_default dft) per))) Ht) as [H1 H2].
  destruct (tokened_urls up _ _) as [rpc ws], (tokened_urls (set_token up t) _ _) as [rpc' ws'].
  cbn [fst snd] in H1, H2.
  destruct (_ =? 0)%N; [done|]. destruct (_ =? 0)%N; [done|]. destruct (_ =? 0)%N; [done|].
  destruct (_ =? 0)%N; [done|]. split; [|done]. unfold hide. cbn. by rewrite H1, H2.
Qed.

Lemma resolve_chains_same enabled up t dft chains base notices :
  both_or_none (up_token up) t ->
  same_outcome (fun a b => Forall2 same_chain a.1 b.1 /\ a.2 = b.2)
    (resolve_chains enabled up dft chains base notices)
    (resolve_chains enabled (set_token up t) dft chains base notices).
Proof.
  intros Ht. revert notices; induction enabled as [|c enabled IH]; intros notices; cbn [resolve_chains].
  { split; [constructor|done]. }
  pose proof (resolve_chain_same c up t dft (default chain_file_default (chains ≫= chain_get c)) base notices Ht) as H.
  destruct (resolve_chain c up _ _ _ _) as [[cfg n]|e], (resolve_chain c (set_token up t) _ _ _ _) as [[cfg' n']|e'];
    try done; cbn [result_bind].
  destruct H as [Hc Hn]. cbn in Hc, Hn. subst n'. specialize (IH n).
  destruct (resolve_chains enabled up _ _ _ _) as [[l m]|e], (resolve_chains enabled (set_token up t) _ _ _ _) as [[l' m']|e'];
    try done; cbn [result_bind].
  destruct IH as [Hl Hm]. split; [|done]. by constructor.
Qed.

Lemma resolve_upstream_same cli fs fs' env env' file network pre notices :
  SameButSecrets cli fs fs' env env' ->
  same_outcome (fun a b => exists t, b = (set_token a.1 t, a.2) /\ both_or_none (up_token a.1) t)
    (resolve_upstream fs env file network pre notices) (resolve_upstream fs' env' file network pre notices).
Proof.
  intros Hs. unfold resolve_upstream. destruct (String.eqb _ ""); [done|].
  pose proof (resolve_token_same _ _ _ _ _ (uf_token_file (default upstream_default file)) Hs) as Ht.
  destruct (resolve_token fs _ _) as [t|e], (resolve_token fs' _ _) as [t'|e']; try done; cbn [result_bind].
  assert (Hn : match uf_token_file (default upstream_default file), env_get env "NEVE_UPSTREAM_TOKEN" with
               | Some _, Some _ => (notices ++ [NInfo BothTokens])%list | _, _ => notices end
             = match uf_token_file (default upstream_default file), env_get env' "NEVE_UPSTREAM_TOKEN" with
               | Some _, Some _ => (notices ++ [NInfo BothTokens])%list | _, _ => notices end).
  { pose proof (ss_token _ _ _ _ _ Hs). by destruct (uf_token_file _), (env_get env _), (env_get env' _). }
  rewrite <- Hn. clear Hn.
  assert (Htk : (match t with Some _ => true | None => false end) = match t' with Some _ => true | None => false end).
  { unfold both_or_none, same_outcome in Ht. destruct t, t'; try done; [by destruct Ht as [[] _]|by destruct Ht as [_ []]]. }
  rewrite <- Htk. destruct (resolve_max_rps _ _ _) as [[cap why]|]; cbn [result_bind]; [|done].
  destruct (match cap with None => _ | Some _ => _ end) as [pacer|]; cbn [result_bind]; [|done].
  by exists t'.
Qed.

Lemma omap_Forall2 {A B} (R : A -> A -> Prop) (f g : A -> option B) l l' :
  (forall a b, R a b -> f a = g b) -> Forall2 R l l' -> omap f l = omap g l'.
Proof.
  intros Hfg. induction 1 as [|a b l l' Hab H IH]; cbn; [done|]. rewrite (Hfg _ _ Hab), IH. done.
Qed.

Lemma shared_dir_same l l' : Forall2 same_chain l l' -> shared_dir l = shared_dir l'.
Proof.
  intros H. unfold shared_dir.
  assert (Hfind : forall kc kc', same_chain kc kc' ->
    (fun o => (kc.1, o.1)) <$> List.find (fun o => negb (bool_decide (o.1 = kc.1))
        && path_eqb (cc_data_dir o.2) (cc_data_dir kc.2)) l
    = (fun o => (kc'.1, o.1)) <$> List.find (fun o => negb (bool_decide (o.1 = kc'.1))
        && path_eqb (cc_data_dir o.2) (cc_data_dir kc'.2)) l').
  { intros kc kc' [Hk Hc]. injection Hc as _ _ _ Hd _. rewrite Hk, Hd. clear -H.
    induction H as [|o o' l l' [Ho Ho'] H IH]; cbn; [done|]. injection Ho' as _ _ _ Hd _. rewrite Ho, Hd.
    destruct (_ && _); [by cbn; rewrite Ho|exact IH]. }
  f_equal. exact (omap_Forall2 _ _ _ _ _ Hfind H).
Qed.

Lemma redacted_chain_same cfg cfg' : hide cfg = hide cfg' -> redacted_chain cfg = redacted_chain cfg'.
Proof.
  unfold redacted_chain. intros H. injection H as _ H1 H2 H3 H4 H5 H6 H7 H8 H9 H10 H11 H12 H13 _ _.
  by rewrite H1, H2, H3, H4, H5, H6, H7, H8, H9, H10, H11, H12, H13.
Qed.

Lemma redacted_chains_same l l' acc :
  Forall2 same_chain l l' ->
  foldl (fun (acc : result Table) kc => let? t := acc in let? v := redacted_chain kc.2 in
                                        Ok (btree_insert (as_str kc.1) v t)) acc l
  = foldl (fun (acc : result Table) kc => let? t := acc in let? v := redacted_chain kc.2 in
                                          Ok (btree_insert (as_str kc.1) v t)) acc l'.
Proof.
  intros H. revert acc; induction H as [|kc kc' l l' [Hk Hc] H IH]; intros acc; cbn [foldl]; [done|].
  rewrite (redacted_chain_same _ _ Hc), Hk. apply IH.
Qed.

Lemma apply_env_same cli fs fs' env env' tree notices :
  SameButSecrets cli fs fs' env env' -> apply_env env tree notices = apply_env env' tree notices.
Proof.
  intros Hs. unfold apply_env, ENV_KEYS. cbn [foldl fst snd].
  by rewrite !(ss_env _ _ _ _ _ Hs) by done.
Qed.

Lemma merge_same cli fs fs' env env' :
  SameButSecrets cli fs fs' env env' -> merge fs cli env = merge fs' cli env'.
Proof.
  intros Hs. unfold merge. rewrite (ss_tree _ _ _ _ _ Hs).
  destruct (load_tree fs' cli env') as [t|]; cbn [result_bind]; [|done].
  destruct (select_chains cli t); cbn [result_bind]; [|done].
  destruct (reject_sets_for_idle_chains _ _); cbn [result_bind]; [|done].
  by rewrite (apply_env_same _ _ _ _ _ _ _ Hs).
Qed.

(** Two configurations that differ in the value of the token alone: in the
    upstream and behind the redacted part of the chains' URLs. *)
Record SameResolved (r r' : Resolved) : Prop := {
  sr_upstream : exists t, rs_upstream r' = set_token (rs_upstream r) t /\ both_or_none (up_token (rs_upstream r)) t;
  sr_chains : Forall2 same_chain (rs_chains r) (rs_chains r');
  sr_server : rs_server r = rs_server r';
  sr_network : rs_network r = rs_network r';
  sr_log_level : rs_log_level r = rs_log_level r';
  sr_stop_time : rs_stop_time r = rs_stop_time r';
  sr_print : rs_print r = rs_print r';
  sr_notices : rs_notices r = rs_notices r'
}.

Lemma build_same cli fs fs' env env' file enabled notices :
  SameButSecrets cli fs fs' env env' ->
  same_outcome SameResolved (build fs cli env file enabled notices) (build fs' cli env' file enabled notices).
Proof.
  intros Hs. unfold build.
  pose proof (resolve_upstream_same _ _ _ _ _ (file_upstream file) (default Mainnet (file_network file))
                (urls_already_carry_a_token file) notices Hs) as Hu.
  destruct (resolve_upstream fs _ _ _ _ _) as [[up n]|e], (resolve_upstream fs' _ _ _ _ _) as [[up' n']|e'];
    try done; cbn [result_bind].
  destruct Hu as (t & [= -> ->] & Ht). cbn [fst snd] in *.
  destruct (resolve_server _) as [srv|]; cbn [result_bind]; [|done].
  destruct (cf_enabled _); [done|].
  pose proof (resolve_chains_same enabled up t (default chain_file_default (file_defaults file)) (file_chains file)
    (default ("./blockstore-data-" ++ network_as_str (default Mainnet (file_network file)))
       (cf_data_dir (default chain_file_default (file_defaults file)))) n Ht) as Hc.
  destruct (resolve_chains _ up _ _ _ _) as [[l m]|e], (resolve_chains _ (set_token up t) _ _ _ _) as [[l' m']|e'];
    try done; cbn [result_bind].
  destruct Hc as [Hl Hm]. cbn [fst snd] in Hl, Hm. rewrite <- (shared_dir_same _ _ Hl).
  destruct (shared_dir l) as [[a b]|]; [done|]. constructor; cbn; eauto.
Qed.

Lemma both_or_none_match {A C} (a b : option A) (x y : C) :
  both_or_none a b -> match a with Some _ => x | None => y end = match b with Some _ => x | None => y end.
Proof. unfold both_or_none. destruct a, b; intros H; [done|by destruct H as [[] _]|by destruct H as [_ []]|done]. Qed.

Lemma redacted_document_same r r' : SameResolved r r' -> redacted_document r = redacted_document r'.
Proof.
  intros [(t & Hu & Ht) Hl Hsrv Hn Hlv _ _ _]. unfold redacted_document, redacted_server, redacted_upstream.
  rewrite Hu, <- Hsrv, <- Hn, <- Hlv, (redacted_chains_same _ _ _ Hl).
  cbn [up_kind up_base up_token_param up_max_rps up_token_file up_token set_token].
  by rewrite (both_or_none_match _ _ _ _ Ht).
Qed.

Lemma debug_chain_cfg_same cfg cfg' : hide cfg = hide cfg' -> debug_chain_cfg cfg = debug_chain_cfg cfg'.
Proof.
  unfold debug_chain_cfg. intros H. injection H as H0 H1 H2 H3 H4 H5 H6 H7 H8 H9 H10 H11 H12 H13 H14 H15.
  by rewrite H0, H1, H2, H3, H4, H5, H6, H7, H8, H9, H10, H11, H12, H13, H14, H15.
Qed.

Lemma debug_resolved_same r r' : SameResolved r r' -> debug_resolved r = debug_resolved r'.
Proof.
  intros [(t & Hu & Ht) Hl Hsrv Hn Hlv Hst Hp Hno]. unfold debug_resolved.
  rewrite Hu, <- Hsrv, <- Hn, <- Hlv, <- Hst, <- Hp, <- Hno.
  assert (Hm : map (fun kc => (as_str kc.1, debug_chain_cfg kc.2)) (rs_chains r)
             = map (fun kc => (as_str kc.1, debug_chain_cfg kc.2)) (rs_chains r')).
  { clear -Hl. induction Hl as [|kc kc' l l' [Hk Hc] _ IH]; cbn; [done|].
    by rewrite Hk, (debug_chain_cfg_same _ _ Hc), IH. }
  rewrite Hm. unfold debug_upstream, debug_option, debug_token, redacted_token.
  cbn [up_kind up_base up_token_param up_max_rps up_token_file up_host_pacer up_token set_token].
  by rewrite (both_or_none_match _ _ _ _ Ht).
Qed.

(** C24: what is printed does not depend on the secrets.  Two processes with the
    same command line that read the same configuration, and whose upstream
    tokens - in the environment or in a token file - differ only in value, are
    both refused with the same error, or both accepted, and then print the same
    redacted configuration, emit the same start-up lines, and show the same
    text under [{:?}]. *)
Theorem token_never_shown cli fs fs' env env' :
  SameButSecrets cli fs fs' env env' ->
  same_outcome (fun r r' => to_redacted_toml r = to_redacted_toml r' /\ emit_notices r = emit_notices r' /\
                            debug_resolved r = debug_resolved r')
    (resolve_with fs cli env) (resolve_with fs' cli env').
Proof.
  intros Hs. unfold resolve_with. rewrite (merge_same _ _ _ _ _ Hs).
  destruct (merge fs' cli env') as [[[tree enabled] notices]|]; cbn [result_bind]; [|done].
  destruct (deserialize_tree tree) as [file|]; cbn [result_bind]; [|done].
  pose proof (build_same _ _ _ _ _ file enabled notices Hs) as Hb.
  destruct (build fs _ _ _ _ _), (build fs' _ _ _ _ _); try done. unfold same_outcome, to_redacted_toml, emit_notices.
  by rewrite (redacted_document_same _ _ Hb), (sr_notices _ _ Hb), (debug_resolved_same _ _ Hb).
Qed.

End Secrets.

(** ** Adding the token *)

Section Tokens.

Lemma split_app_free c a b h t :
  contains_char c a = false -> Str.split c b = h :: t -> Str.split c (a ++ b) = (a ++ h) :: t.
Proof.
  unfold contains_char. intros Ha Hb. induction a as [|x a IH]; cbn in *; [done|].
  destruct (Ascii.eqb x c); [done|]. destruct (split_once c a) as [[]|]; [done|]. by rewrite (IH eq_refl).
Qed.

Lemma split_nonempty c s : exists h t, Str.split c s = h :: t.
Proof.
  induction s as [|a s (h & t & IH)]; cbn; [eauto|]. destruct (Ascii.eqb a c); [eauto|]. rewrite IH. eauto.
Qed.

(** [p=v...] carries the parameter [p]. *)
Lemma query_has_here p v :
  contains_char "=" p = false -> contains_char "&" p = false -> query_has p (p ++ "=" ++ v) = true.
Proof.
  intros He Ha. unfold query_has. destruct (split_nonempty "&" v) as (h & t & Hv).
  assert (Hs : Str.split "&" ("=" ++ v) = ("=" ++ h) :: t) by (cbn; by rewrite Hv).
  rewrite (split_app_free _ _ _ _ _ Ha Hs). cbn [existsb]. apply orb_true_intro. left.
  assert (Hp : Str.split "=" ("=" ++ h) = "" :: Str.split "=" h) by done.
  rewrite (split_app_free _ _ _ _ _ He Hp). apply bool_decide_eq_true. cbn.
  f_equal. clear. induction p as [|c p IH]; cbn; [done|]. by rewrite IH.
Qed.

Lemma split_app_sep c q x : Str.split c (q ++ String c x) = (Str.split c q ++ Str.split c x)%list.
Proof.
  induction q as [|a q IH]; cbn; [by rewrite Ascii.eqb_refl|].
  destruct (Ascii.eqb a c); [by rewrite IH|].
  destruct (split_nonempty c q) as (h & t & Hq). by rewrite IH, Hq.
Qed.

Lemma query_has_later p q x : query_has p x = true -> query_has p (q ++ "&" ++ x) = true.
Proof.
  unfold query_has. intros Hx. cbn [append]. by rewrite split_app_sep, existsb_app, Hx, orb_true_r.
Qed.

(** [with_token] adds the parameter once.  A URL that is not empty comes
    out carrying the parameter in its query, with everything before the query
    unchanged and the query it had still in front; a URL that carries it already
    is left alone, so adding a token again changes nothing. *)
Theorem token_added_once url param t t' :
  url <> "" -> contains_char "=" param = false -> contains_char "&" param = false ->
  (exists query, split_once "?" (with_token url param t) =
       Some (match split_once "?" url with Some (base, _) => base | None => url end, query)
     /\ query_has param query = true)
  /\ (exists added, with_token url param t = url ++ added)
  /\ with_token (with_token url param t) param t' = with_token url param t.
Proof.
  intros Hu He Ha.
  assert (H : exists query, split_once "?" (with_token url param t) =
       Some (match split_once "?" url with Some (base, _) => base | None => url end, query)
     /\ query_has param query = true /\ query <> "" /\ exists added, with_token url param t = url ++ added).
  { unfold with_token at 1 2. rewrite (proj2 (String.eqb_neq _ _) Hu).
    destruct (split_once "?" url) as [[base query]|] eqn:E.
    - destruct (String.eqb_spec query "") as [->|Hq].
      + eexists. rewrite (split_once_app_r _ _ _ _ _ E). split; [done|]. cbn [append].
        split_and!; [by apply query_has_here|by destruct param|eauto].
      + destruct (query_has param query) eqn:Eq.
        * exists query. split_and!; [done..|]. exists "". clear.
          induction url as [|c u IH]; cbn; [done|by rewrite <- IH].
        * eexists. rewrite (split_once_app_r _ _ _ _ _ E). split; [done|].
          split_and!; [by apply query_has_later, query_has_here|by destruct query|eauto].
    - assert (Hc : contains_char "?" url = false) by (unfold contains_char; by rewrite E).
      eexists. cbn [append]. rewrite (split_once_app _ _ _ Hc). split; [done|].
      split_and!; [by apply query_has_here|by destruct param|eauto]. }
  destruct H as (query & Hs & Hq & Hne' & added & Hadd). split; [eauto|]. split; [eauto|].
  assert (Hne : with_token url param t <> "").
  { rewrite Hadd. by destruct url. }
  revert Hs Hne. generalize (with_token url param t) as u. intros u Hs Hne. unfold with_token.
  by rewrite (proj2 (String.eqb_neq _ _) Hne), Hs, Hq, (proj2 (String.eqb_neq _ _) Hne').
Qed.

End Tokens.

(** ** Durations *)

Section Durations.
Context {L : ConfigLib} {LL : ConfigLaws L}.

Lemma digits_value_bad max radix acc s c u :
  digit_value radix c = None -> digits_value max radix acc (s ++ String c u) = None.
Proof.
  intros Hc. revert acc; induction s as [|a s IH]; intros acc; cbn; [by rewrite Hc|].
  destruct (digit_value radix a); [|done]. destruct (_ <=? _)%N; [apply IH|done].
Qed.

(** A number with a unit is not a bare number. *)
Lemma parse_u64_unit n c u : digit_value 10 c = None -> parse_u64 (to_decimal n ++ String c u) = None.
Proof.
  intros Hc. unfold parse_u64, from_str_radix.
  pose proof (render_not_plus 64 10 n EmptyString ltac:(lia) ltac:(lia)) as Hp. unfold to_decimal.
  destruct (render 64 10 n "") as [|a s]; [done|].
  pose proof (digits_value_bad u64_max 10 0 (String a s) c u Hc) as Hd. cbn [append] in *.
  destruct a as [[] [] [] [] [] [] [] []]; try exact Hd. cbn in Hp. done.
Qed.

Lemma parse_human_unit n u d :
  is_u64 n -> (u, d) ∈ [("ms", 1000000); ("s", nanos); ("m", 60 * nanos); ("h", 3600 * nanos)]%N ->
  parse_human_duration (to_decimal n ++ u) = Some (n * d)%N.
Proof.
  intros Hn Hu. unfold parse_human_duration. rewrite <- (parse_duration_unit n u d Hn Hu).
  assert (Hnone : parse_u64 (to_decimal n ++ u) = None).
  { rewrite !elem_of_cons in Hu.
    destruct Hu as [[= -> _]|[[= -> _]|[[= -> _]|[[= -> _]|Hu]]]]; [by apply parse_u64_unit..|].
    by apply elem_of_nil in Hu. }
  by rewrite Hnone.
Qed.

(** A duration that [--print-config] prints reads back, up to the
    millisecond: parsing [fmt_duration d] - as a setting or on a flag - gives
    the whole milliseconds of [d]. *)
Theorem duration_roundtrip d :
  is_u64 (d / 1000000) ->
  de_duration (TString (fmt_duration d)) = Some (d / 1000000 * 1000000)%N
  /\ parse_human_duration (fmt_duration d) = Some (d / 1000000 * 1000000)%N.
Proof.
  intros Hd. cbn [de_duration]. enough (H : parse_human_duration (fmt_duration d) = Some (d / 1000000 * 1000000)%N) by done.
  unfold fmt_duration.
  pose proof (N.Div0.div_div d 1000000 1000) as Hs. change (1000000 * 1000)%N with nanos in Hs.
  destruct (N.eqb_spec (d / 1000000) 0) as [->|Hz].
  { change "0s" with (to_decimal 0 ++ "s"). rewrite (parse_human_unit 0 "s" nanos); [done|done|set_solver]. }
  rewrite <- Hs. revert Hd Hz. generalize (d / 1000000)%N as ms. clear d Hs. intros ms Hd Hz.
  assert (Hle : forall k, is_u64 (ms / 1000 / k)).
  { intros k. unfold is_u64 in *. clear -Hd. generalize dependent u64_max. intros m Hd.
    rewrite N.Div0.div_div. destruct (N.eq_dec (1000 * k)%N 0%N) as [->|E]; [by rewrite N.div_0_r; lia|].
    apply N.Div0.div_le_upper_bound. nia. }
  pose proof (N.Div0.div_mod ms 1000) as H1.
  destruct (N.eqb_spec (ms mod 1000) 0) as [Hm|Hm]; cbn [negb].
  2: { apply (parse_human_unit ms "ms"); [done|set_solver]. }
  pose proof (N.Div0.div_mod (ms / 1000) 3600) as H2. pose proof (N.Div0.div_mod (ms / 1000) 60) as H3.
  destruct (N.eqb_spec ((ms / 1000) mod 3600) 0) as [Hh|Hh].
  { rewrite (parse_human_unit _ "h" (3600 * nanos)); [f_equal; unfold nanos; lia|apply Hle|set_solver]. }
  destruct (N.eqb_spec ((ms / 1000) mod 60) 0) as [Hmin|Hmin].
  { rewrite (parse_human_unit _ "m" (60 * nanos)); [f_equal; unfold nanos; lia|apply Hle|set_solver]. }
  rewrite (parse_human_unit _ "s" nanos); [f_equal; unfold nanos; lia| |set_solver].
  rewrite <- (N.div_1_r (ms / 1000)). apply Hle.
Qed.

End Durations.
