(* ===== verification/ToyConfig.v ===== *)
(** * A small configuration library

    An implementation of [ConfigLib] that satisfies [ConfigLaws]: documents of
    [dotted.key = scalar] lines, durations of one number and one unit, socket
    addresses kept as texts.  The configuration properties are applied with it. *)

From Stdlib Require Import ZArith NArith Lia String Ascii.
From S2P Require Import Prelude Str Chain Upstream Float64 Toml Config ConfigResolve.

#[local] Open Scope string_scope.

(** ** Durations *)

(** The digits in front, and the rest. *)
Fixpoint scan_digits (acc : N) (s : string) : N * string :=
  match s with
  | EmptyString => (acc, s)
  | String c s' =>
      match digit_value 10 c with
      | Some d => scan_digits (acc * 10 + d)%N s'
      | None => (acc, s)
      end
  end.

Definition UNITS : list (string * N) :=
  [("ms", 1000000); ("s", nanos); ("m", 60 * nanos); ("h", 3600 * nanos)]%N.

Definition toy_duration (s : string) : option N :=
  let '(n, u) := scan_digits 0 s in (fun d => n * d)%N <$> assoc u UNITS.

Lemma scan_digits_value max acc s n c u :
  digit_value 10 c = None -> digits_value max 10 acc s = Some n ->
  scan_digits acc (s ++ String c u) = (n, String c u).
Proof.
  intros Hc. revert acc; induction s as [|a s IH]; intros acc; cbn.
  { intros [= ->]. by rewrite Hc. }
  destruct (digit_value 10 a); [|done]. destruct (_ <=? _)%N; [apply IH|done].
Qed.

Lemma scan_to_decimal n c u :
  is_u64 n -> digit_value 10 c = None -> scan_digits 0 (to_decimal n ++ String c u) = (n, String c u).
Proof.
  intros Hn Hc. apply (scan_digits_value u64_max); [done|].
  unfold to_decimal. rewrite digits_value_render; [done|lia|done|].
  unfold is_u64, u64_max in Hn. change (2 ^ N.of_nat 64)%N with 18446744073709551616%N. lia.
Qed.

(** ** Documents *)

Definition quote_char : ascii := ascii_of_N 34.
Definition newline_char : ascii := ascii_of_N 10.

Definition toy_scalar (s : string) : option TValue :=
  match parse_bool s with
  | Some b => Some (TBoolean b)
  | None =>
      match parse_u64 s with
      | Some n => Some (TInteger (Z.of_N n))
      | None =>
          match s with
          | String c rest => if Ascii.eqb c quote_char then (fun p => TString p.1) <$> split_once quote_char rest else None
          | EmptyString => None
          end
      end
  end.

Definition toy_line (t : Table) (line : string) : option Table :=
  if String.eqb (trim line) "" then Some t
  else
    kv ← split_once "=" line;
    v ← toy_scalar (trim kv.2);
    match set_path (Str.split "." (trim kv.1)) v t with Ok t => Some t | Err _ => None end.

Definition toy_parse (text : string) : option Table :=
  foldl (fun acc line => t ← acc; toy_line t line) (Some []) (Str.split newline_char text).

Definition show_scalar (v : TValue) : string :=
  match v with
  | TString s => quote_str ++ s ++ quote_str
  | TInteger z => to_decimal (Z.to_N z)
  | TBoolean true => "true"
  | TBoolean false => "false"
  | _ => "..."
  end.

Fixpoint toy_show (prefix : string) (v : TValue) : string :=
  match v with
  | TTable t =>
      (fix show_all (t : Table) : string :=
         match t with
         | [] => ""
         | (k, v) :: t => toy_show (if String.eqb prefix "" then k else prefix ++ "." ++ k) v ++ show_all t
         end) t
  | v => prefix ++ " = " ++ show_scalar v ++ newline_str
  end.

#[global] Instance ToyConfig : ConfigLib := {|
  toml_parse := toy_parse;
  toml_pretty t := Some (toy_show "" (TTable t));
  parse_duration := toy_duration;
  SocketAddr := string;
  socket_parse := Some;
  socket_show a := a;
  socket_default := "127.0.0.1:8545"
|}.

#[global] Instance ToyConfig_laws : ConfigLaws ToyConfig.
Proof.
  split; [|done]. intros n u d Hn Hu. cbn [parse_duration ToyConfig]. unfold toy_duration.
  rewrite !elem_of_cons in Hu.
  destruct Hu as [[= -> ->]|[[= -> ->]|[[= -> ->]|[[= -> ->]|Hu]]]];
    [by rewrite scan_to_decimal..|]. by apply elem_of_nil in Hu.
Qed.
