(* ===== verification/Metrics.v ===== *)
(** * Metrics (src/metrics.rs)

    The names and tables of the exported series, the recording helpers as the
    samples they emit, the guards that balance a gauge, and the clamp of the
    [method] label.  The recorder and its rendering belong to the metrics
    crates; help texts are not modelled. *)

From Stdlib Require Import ZArith NArith Lia String Ascii QArith.
From S2P Require Import Prelude Str Chain Upstream Float64 Toml Join Subscribe.

#[local] Open Scope string_scope.

(** ** Names *)

Definition CHAIN : string := "chain".
Definition BUILD_INFO : string := "neve_build_info".
Definition PROCESS_START_TIME : string := "neve_process_start_time_seconds".
Definition INGEST_HEAD_HEIGHT : string := "neve_ingest_head_height".
Definition INGEST_CONTIGUOUS_HEIGHT : string := "neve_ingest_contiguous_height".
Definition INGEST_BEHIND_BLOCKS : string := "neve_ingest_behind_blocks".
Definition INGEST_BLOCKS_TOTAL : string := "neve_ingest_blocks_total".
Definition INGEST_LOGS_TOTAL : string := "neve_ingest_logs_total".
Definition INGEST_LAST_BLOCK_TIMESTAMP : string := "neve_ingest_last_block_timestamp_seconds".
Definition INGEST_REJECTED_TOTAL : string := "neve_ingest_rejected_total".
Definition RPC_REQUESTS_TOTAL : string := "neve_rpc_requests_total".
Definition RPC_REQUEST_DURATION_SECONDS : string := "neve_rpc_request_duration_seconds".
Definition RPC_OPEN_CONNECTIONS : string := "neve_rpc_open_connections".
Definition RPC_MISDIRECTED_TOTAL : string := "neve_rpc_misdirected_total".
Definition GETLOGS_SERVED_TOTAL : string := "neve_getlogs_served_total".
Definition UPSTREAM_REQUESTS_TOTAL : string := "neve_upstream_requests_total".
Definition UPSTREAM_FIRST_ATTEMPT_TOTAL : string := "neve_upstream_first_attempt_total".
Definition UPSTREAM_PREFETCH_DELAY_SECONDS : string := "neve_upstream_prefetch_delay_seconds".
Definition UPSTREAM_REQUEST_DURATION_SECONDS : string := "neve_upstream_request_duration_seconds".
Definition UPSTREAM_RETRY_AFTER_SECONDS : string := "neve_upstream_retry_after_seconds".
Definition UPSTREAM_CONNECTED_SINCE : string := "neve_upstream_connected_since_seconds".
Definition UPSTREAM_WS_RECONNECTS_TOTAL : string := "neve_upstream_ws_reconnects_total".
Definition UPSTREAM_WS_IDLE_TIMEOUTS_TOTAL : string := "neve_upstream_ws_idle_timeouts_total".
Definition SUB_OPEN : string := "neve_sub_open".
Definition SUB_LAGGED_TOTAL : string := "neve_sub_lagged_total".
Definition SUB_SENT_BYTES_TOTAL : string := "neve_sub_sent_bytes_total".
Definition JOIN_BUFFER_INCOMPLETE : string := "neve_join_buffer_incomplete".
Definition JOIN_BUFFER_INCOMPLETE_BYTES : string := "neve_join_buffer_incomplete_bytes".
Definition JOIN_BUFFER_OLDEST_PENDING : string := "neve_join_buffer_oldest_pending_seconds".
Definition JOIN_LATENCY : string := "neve_join_latency_seconds".
Definition JOIN_COMPLETED_TOTAL : string := "neve_join_completed_total".
Definition JOIN_BUFFER_CAP_HIT_TOTAL : string := "neve_join_buffer_cap_hit_total".
Definition JOIN_BUFFER_CAPACITY : string := "neve_join_buffer_capacity".

(** ** Tables: what [describe_metrics] describes, name and unit *)

Inductive MetricUnit : Type := USeconds | UBytes.

Definition GAUGES : list (string * option MetricUnit) :=
  [(BUILD_INFO, None); (PROCESS_START_TIME, Some USeconds); (INGEST_HEAD_HEIGHT, None);
   (INGEST_CONTIGUOUS_HEIGHT, None); (INGEST_BEHIND_BLOCKS, None);
   (INGEST_LAST_BLOCK_TIMESTAMP, Some USeconds); (RPC_OPEN_CONNECTIONS, None);
   (UPSTREAM_PREFETCH_DELAY_SECONDS, Some USeconds); (UPSTREAM_CONNECTED_SINCE, Some USeconds);
   (SUB_OPEN, None); (JOIN_BUFFER_INCOMPLETE, None); (JOIN_BUFFER_INCOMPLETE_BYTES, Some UBytes);
   (JOIN_BUFFER_OLDEST_PENDING, Some USeconds); (JOIN_BUFFER_CAPACITY, None)].

Definition COUNTERS : list string :=
  [INGEST_BLOCKS_TOTAL; INGEST_LOGS_TOTAL; INGEST_REJECTED_TOTAL; RPC_REQUESTS_TOTAL; RPC_MISDIRECTED_TOTAL;
   GETLOGS_SERVED_TOTAL; UPSTREAM_REQUESTS_TOTAL; UPSTREAM_FIRST_ATTEMPT_TOTAL;
   UPSTREAM_WS_RECONNECTS_TOTAL; UPSTREAM_WS_IDLE_TIMEOUTS_TOTAL; SUB_LAGGED_TOTAL; SUB_SENT_BYTES_TOTAL;
   JOIN_COMPLETED_TOTAL; JOIN_BUFFER_CAP_HIT_TOTAL].

Definition HISTOGRAMS : list (string * MetricUnit) :=
  [(RPC_REQUEST_DURATION_SECONDS, USeconds); (UPSTREAM_REQUEST_DURATION_SECONDS, USeconds);
   (UPSTREAM_RETRY_AFTER_SECONDS, USeconds); (JOIN_LATENCY, USeconds)].

(** Bucket bounds, in seconds. *)
Definition RETRY_AFTER_BUCKETS : list Q :=
  [1 # 2; 1; 2; 5; 10; 30; 60; 120; 300; 600]%Q.
Definition UPSTREAM_DURATION_BUCKETS : list Q :=
  [1 # 100; 15 # 1000; 2 # 100; 3 # 100; 5 # 100; 7 # 100; 1 # 10; 15 # 100; 2 # 10; 3 # 10; 5 # 10; 7 # 10;
   1; 15 # 10; 2]%Q.
Definition RPC_DURATION_BUCKETS : list Q :=
  [25 # 1000000; 5 # 100000; 1 # 10000; 25 # 100000; 5 # 10000; 1 # 1000; 25 # 10000; 5 # 1000; 1 # 100;
   25 # 1000; 5 # 100; 1 # 10; 25 # 100; 5 # 10]%Q.
Definition JOIN_LATENCY_BUCKETS : list Q :=
  [1 # 1000; 5 # 1000; 1 # 100; 5 # 100; 1 # 10; 5 # 10; 1; 5; 15; 60; 120]%Q.

(** The buckets [install] configures. *)
Definition installed_buckets : list (string * list Q) :=
  [(UPSTREAM_RETRY_AFTER_SECONDS, RETRY_AFTER_BUCKETS); (RPC_REQUEST_DURATION_SECONDS, RPC_DURATION_BUCKETS);
   (UPSTREAM_REQUEST_DURATION_SECONDS, UPSTREAM_DURATION_BUCKETS); (JOIN_LATENCY, JOIN_LATENCY_BUCKETS)].

(** The help registrations of [describe_metrics]; the help texts are left out. *)
Inductive Description : Type :=
  | DescribeGauge (name : string) (unit : option MetricUnit)
  | DescribeCounter (name : string)
  | DescribeHistogram (name : string) (unit : MetricUnit).

Definition describe_metrics : list Description :=
  (map (fun g => DescribeGauge g.1 g.2) GAUGES ++ map DescribeCounter COUNTERS
   ++ map (fun h => DescribeHistogram h.1 h.2) HISTOGRAMS)%list.

(** ** Label values *)

Inductive BlockSource : Type := Live | Backfill.
Definition source_as_str (s : BlockSource) : string := match s with Live => "live" | Backfill => "backfill" end.

Inductive UpstreamOutcome : Type := OutcomeOk | OutcomeEmpty | TooManyRequests | ServiceUnavailable | OutcomeError.
Definition outcome_as_str (o : UpstreamOutcome) : string :=
  match o with
  | OutcomeOk => "ok" | OutcomeEmpty => "empty" | TooManyRequests => "429" | ServiceUnavailable => "503"
  | OutcomeError => "error"
  end.

(** [From<StatusCode>] *)
Definition outcome_of_status (status : N) : UpstreamOutcome :=
  if (status =? 429)%N then TooManyRequests
  else if (status =? 503)%N then ServiceUnavailable
  else OutcomeError.

(** ** Samples *)

Definition Labels : Type := list (string * string).

Inductive Sample : Type :=
  | CounterAdd (name : string) (labels : Labels) (n : N)
  | GaugeSet (name : string) (labels : Labels) (x : f64)
  | GaugeAdd (name : string) (labels : Labels) (d : Z)
  | HistogramRecord (name : string) (labels : Labels) (x : f64).

Definition as_f64 (n : N) : f64 := f64_of_Z (Z.of_N n).
Definition on_chain (c : Chain) : string * string := (CHAIN, as_str c).

(** [process_metadata]; [start] is the clock, 0.0 before the epoch. *)
Definition process_metadata (version commit : string) (start : f64) : list Sample :=
  [GaugeSet BUILD_INFO [("version", version); ("commit", commit)] f64_one; GaugeSet PROCESS_START_TIME [] start].

Definition ingest_heights (chain : Chain) (head contiguous behind : N) : list Sample :=
  [GaugeSet INGEST_HEAD_HEIGHT [on_chain chain] (as_f64 head);
   GaugeSet INGEST_CONTIGUOUS_HEIGHT [on_chain chain] (as_f64 contiguous);
   GaugeSet INGEST_BEHIND_BLOCKS [on_chain chain] (as_f64 behind)].

Definition block_persisted (chain : Chain) (source : BlockSource) : list Sample :=
  [CounterAdd INGEST_BLOCKS_TOTAL [on_chain chain; ("source", source_as_str source)] 1].

Definition block_rejected (chain : Chain) (reason : string) : list Sample :=
  [CounterAdd INGEST_REJECTED_TOTAL [on_chain chain; ("reason", reason)] 1].

Definition logs_persisted (chain : Chain) (source : BlockSource) (n : N) : list Sample :=
  [CounterAdd INGEST_LOGS_TOTAL [on_chain chain; ("source", source_as_str source)] n].

Definition last_block_timestamp (chain : Chain) (secs : N) : list Sample :=
  [GaugeSet INGEST_LAST_BLOCK_TIMESTAMP [on_chain chain] (as_f64 secs)].

Definition rpc_call (method status : string) (secs : f64) : list Sample :=
  [CounterAdd RPC_REQUESTS_TOTAL [("method", method); ("status", status)] 1;
   HistogramRecord RPC_REQUEST_DURATION_SECONDS [("method", method)] secs].

Definition rpc_misdirected : list Sample := [CounterAdd RPC_MISDIRECTED_TOTAL [] 1].

Definition getlogs_served (scan : string) : list Sample := [CounterAdd GETLOGS_SERVED_TOTAL [("scan", scan)] 1].

Definition upstream_request (chain : Chain) (outcome : UpstreamOutcome) (secs : f64) : list Sample :=
  [CounterAdd UPSTREAM_REQUESTS_TOTAL [on_chain chain; ("outcome", outcome_as_str outcome)] 1;
   HistogramRecord UPSTREAM_REQUEST_DURATION_SECONDS [on_chain chain] secs].

Definition upstream_first_attempt (chain : Chain) (first_try_ok : bool) (prefetch_delay : f64) : list Sample :=
  [CounterAdd UPSTREAM_FIRST_ATTEMPT_TOTAL
     [on_chain chain; ("outcome", if first_try_ok then "ok" else "empty")] 1;
   GaugeSet UPSTREAM_PREFETCH_DELAY_SECONDS [on_chain chain] prefetch_delay].

Definition upstream_retry_after (chain : Chain) (secs : N) : list Sample :=
  [HistogramRecord UPSTREAM_RETRY_AFTER_SECONDS [on_chain chain] (as_f64 secs)].

Definition upstream_connected (chain : Chain) (now : f64) : list Sample :=
  [GaugeSet UPSTREAM_CONNECTED_SINCE [on_chain chain] now].

Definition ws_reconnect (chain : Chain) : list Sample := [CounterAdd UPSTREAM_WS_RECONNECTS_TOTAL [on_chain chain] 1].
Definition ws_idle_timeout (chain : Chain) : list Sample :=
  [CounterAdd UPSTREAM_WS_IDLE_TIMEOUTS_TOTAL [on_chain chain] 1].

(** *** Guards *)

Record SubMetricsGuard : Type := { sg_chain : Chain; sg_kind : SubKind }.

Definition sub_labels (g : SubMetricsGuard) : Labels :=
  [on_chain (sg_chain g); ("kind", kind_as_str (sg_kind g))].

Definition sub_guard_new (chain : Chain) (kind : SubKind) : SubMetricsGuard * list Sample :=
  let g := {| sg_chain := chain; sg_kind := kind |} in (g, [GaugeAdd SUB_OPEN (sub_labels g) 1]).
Definition sub_lagged (g : SubMetricsGuard) (n : N) : list Sample := [CounterAdd SUB_LAGGED_TOTAL (sub_labels g) n].
Definition sub_sent_bytes (g : SubMetricsGuard) (n : N) : list Sample :=
  [CounterAdd SUB_SENT_BYTES_TOTAL (sub_labels g) n].
Definition sub_guard_drop (g : SubMetricsGuard) : list Sample := [GaugeAdd SUB_OPEN (sub_labels g) (-1)].

Definition conn_guard_new : list Sample := [GaugeAdd RPC_OPEN_CONNECTIONS [] 1].
Definition conn_guard_drop : list Sample := [GaugeAdd RPC_OPEN_CONNECTIONS [] (-1)].

(** *** The JSON-RPC middleware *)

(** [RpcMetricsService::label] *)
Definition label (methods : list string) (method : string) : string :=
  default "other" (List.find (String.eqb method) methods).

(** [RpcMetricsService::call], around a call that succeeded or not. *)
Definition rpc_service_call (methods : list string) (method : string) (success : bool) (secs : f64) : list Sample :=
  rpc_call (label methods method) (if success then "ok" else "error") secs.

(** The service under the middleware: whether a call succeeded, and what
    serving it recorded. *)
Record RpcService : Type := {
  svc_call : string -> bool * list Sample;
  svc_batch : list string -> list Sample;
  svc_notification : string -> list Sample
}.

(** [RpcMetricsService] over it: a call is timed and counted, batches and
    notifications are forwarded.  [elapsed] is the clock around a call. *)
Definition rpc_metrics_service (methods : list string) (elapsed : string -> f64) (inner : RpcService) : RpcService := {|
  svc_call m :=
    let '(ok, out) := svc_call inner m in
    (ok, (out ++ rpc_service_call methods m ok (elapsed m))%list);
  svc_batch := svc_batch inner;
  svc_notification := svc_notification inner
|}.

(** [RpcMetricsService::new], once per connection, with its guard. *)
Definition rpc_metrics_new (methods : list string) (elapsed : string -> f64) (inner : RpcService)
    : RpcService * list Sample := (rpc_metrics_service methods elapsed inner, conn_guard_new).

(** *** The join buffer's series (src/join.rs) *)

Definition join_write_samples (chain : Chain) (act : WriteAct) (latency : f64) : list Sample :=
  match act with
  | AWrite _ _ _ _ first _ =>
      [CounterAdd JOIN_COMPLETED_TOTAL [on_chain chain; ("first", half_as_str first)] 1;
       HistogramRecord JOIN_LATENCY [on_chain chain] latency]
  | ABuffered => []
  | ADeferred => [CounterAdd JOIN_BUFFER_CAP_HIT_TOTAL [on_chain chain] 1]
  end.

(** The gauges [JoinBuffer::sample] sets; ages are in nanoseconds and exported in
    seconds, as the client library converts them ([secs]). *)
Definition join_gauges (secs : N -> f64) (chain : Chain) (g : Gauges) : list Sample :=
  let half h := [on_chain chain; ("half", half_as_str h)] in
  [GaugeSet JOIN_BUFFER_INCOMPLETE (half HBlock) (as_f64 (N.of_nat (g_block_count g)));
   GaugeSet JOIN_BUFFER_INCOMPLETE (half HLog) (as_f64 (N.of_nat (g_log_count g)));
   GaugeSet JOIN_BUFFER_INCOMPLETE_BYTES (half HBlock) (as_f64 (N.of_nat (g_block_bytes g)));
   GaugeSet JOIN_BUFFER_INCOMPLETE_BYTES (half HLog) (as_f64 (N.of_nat (g_log_bytes g)));
   GaugeSet JOIN_BUFFER_OLDEST_PENDING (half HBlock) (secs (g_block_oldest g));
   GaugeSet JOIN_BUFFER_OLDEST_PENDING (half HLog) (secs (g_log_oldest g));
   GaugeSet JOIN_BUFFER_CAPACITY [on_chain chain] (as_f64 (N.of_nat (g_capacity g)))].

(** ** What can be emitted *)

(** The reasons the ingest path rejects a block for. *)
Definition REJECT_REASONS : list string := ["bad_hex"; "id_mismatch"; "no_height"; "height_mismatch"; "bad_id"].

Section Emitted.
Variables (version commit : string) (methods : list string).

(** One recording, by any helper of this module with any arguments; a rejected
    block has one of the reasons the ingest path passes.  The [process_*] series of
    the process collector and the [blockstore.*] counters of the block store are
    those crates' own and not among them. *)
Inductive emitted : list Sample -> Prop :=
  | em_process start : emitted (process_metadata version commit start)
  | em_heights c a b d : emitted (ingest_heights c a b d)
  | em_block c s : emitted (block_persisted c s)
  | em_rejected c r : r ∈ REJECT_REASONS -> emitted (block_rejected c r)
  | em_logs c s n : emitted (logs_persisted c s n)
  | em_timestamp c t : emitted (last_block_timestamp c t)
  | em_rpc m ok t : emitted (rpc_service_call methods m ok t)
  | em_misdirected : emitted rpc_misdirected
  | em_getlogs : emitted (getlogs_served "range")
  | em_request c o t : emitted (upstream_request c o t)
  | em_first c ok t : emitted (upstream_first_attempt c ok t)
  | em_retry c t : emitted (upstream_retry_after c t)
  | em_connected c t : emitted (upstream_connected c t)
  | em_reconnect c : emitted (ws_reconnect c)
  | em_idle c : emitted (ws_idle_timeout c)
  | em_sub_new c k : emitted (sub_guard_new c k).2
  | em_sub_lagged g n : emitted (sub_lagged g n)
  | em_sub_sent g n : emitted (sub_sent_bytes g n)
  | em_sub_drop g : emitted (sub_guard_drop g)
  | em_conn_new : emitted conn_guard_new
  | em_conn_drop : emitted conn_guard_drop
  | em_join c act t : emitted (join_write_samples c act t)
  | em_join_gauges secs c g : emitted (join_gauges secs c g).

Definition sample_series (s : Sample) : string * Labels :=
  match s with
  | CounterAdd n l _ | GaugeSet n l _ | GaugeAdd n l _ | HistogramRecord n l _ => (n, l)
  end.

(** A sample of a described series of its own type. *)
Definition described (s : Sample) : bool :=
  match s with
  | CounterAdd n _ _ => existsb (String.eqb n) COUNTERS
  | GaugeSet n _ _ | GaugeAdd n _ _ => existsb (String.eqb n) GAUGES.*1
  | HistogramRecord n _ _ => existsb (String.eqb n) HISTOGRAMS.*1
  end.

(** *** Every series there is *)

Definition with_chain (names : list string) (key : string) (values : list string) : list (string * Labels) :=
  ALL ≫= fun c => names ≫= fun n => map (fun v => (n, [on_chain c; (key, v)])) values.

Definition fixed_series : list (string * Labels) :=
  ([(BUILD_INFO, [("version", version); ("commit", commit)]); (PROCESS_START_TIME, []);
    (RPC_MISDIRECTED_TOTAL, []); (RPC_OPEN_CONNECTIONS, []); (GETLOGS_SERVED_TOTAL, [("scan", "range")])]
   ++ (ALL ≫= fun c => map (fun n => (n, [on_chain c]))
         [INGEST_HEAD_HEIGHT; INGEST_CONTIGUOUS_HEIGHT; INGEST_BEHIND_BLOCKS; INGEST_LAST_BLOCK_TIMESTAMP;
          UPSTREAM_PREFETCH_DELAY_SECONDS; UPSTREAM_CONNECTED_SINCE; UPSTREAM_WS_RECONNECTS_TOTAL;
          UPSTREAM_WS_IDLE_TIMEOUTS_TOTAL; UPSTREAM_REQUEST_DURATION_SECONDS; UPSTREAM_RETRY_AFTER_SECONDS;
          JOIN_LATENCY; JOIN_BUFFER_CAP_HIT_TOTAL; JOIN_BUFFER_CAPACITY])
   ++ with_chain [INGEST_BLOCKS_TOTAL; INGEST_LOGS_TOTAL] "source" ["live"; "backfill"]
   ++ with_chain [INGEST_REJECTED_TOTAL] "reason" REJECT_REASONS
   ++ with_chain [UPSTREAM_REQUESTS_TOTAL] "outcome" ["ok"; "empty"; "429"; "503"; "error"]
   ++ with_chain [UPSTREAM_FIRST_ATTEMPT_TOTAL] "outcome" ["ok"; "empty"]
   ++ with_chain [SUB_OPEN; SUB_LAGGED_TOTAL; SUB_SENT_BYTES_TOTAL] "kind"
        ["newHeads"; "newBlocks"; "newRecords"; "oldBlocks"; "oldRecords"]
   ++ with_chain [JOIN_COMPLETED_TOTAL] "first" ["block"; "log"]
   ++ with_chain [JOIN_BUFFER_INCOMPLETE; JOIN_BUFFER_INCOMPLETE_BYTES; JOIN_BUFFER_OLDEST_PENDING] "half"
        ["block"; "log"])%list.

Definition rpc_series : list (string * Labels) :=
  ((methods ++ ["other"]) ≫= fun m =>
         [(RPC_REQUESTS_TOTAL, [("method", m); ("status", "ok")]);
          (RPC_REQUESTS_TOTAL, [("method", m); ("status", "error")]);
          (RPC_REQUEST_DURATION_SECONDS, [("method", m)])])%list.

Definition catalogue : list (string * Labels) := (fixed_series ++ rpc_series)%list.

Lemma label_bounded m : label methods m ∈ (methods ++ ["other"])%list.
Proof.
  unfold label. destruct (List.find _ methods) as [x|] eqn:E; cbn; [|set_solver].
  apply List.find_some in E as [E _]. apply elem_of_app. left. by apply list_elem_of_In.
Qed.

Lemma catalogue_rpc m s :
  m ∈ (methods ++ ["other"])%list ->
  s ∈ [(RPC_REQUESTS_TOTAL, [("method", m); ("status", "ok")]);
       (RPC_REQUESTS_TOTAL, [("method", m); ("status", "error")]);
       (RPC_REQUEST_DURATION_SECONDS, [("method", m)])] -> s ∈ catalogue.
Proof.
  intros Hm Hs. unfold catalogue. apply elem_of_app. right. apply list_elem_of_bind. eauto.
Qed.

Fixpoint labels_eqb (a b : Labels) : bool :=
  match a, b with
  | [], [] => true
  | (k, v) :: a, (k', v') :: b =>
      if String.eqb k k' then if String.eqb v v' then labels_eqb a b else false else false
  | _, _ => false
  end.

Lemma labels_eqb_eq a b : labels_eqb a b = true -> a = b.
Proof.
  revert b; induction a as [|[k v] a IH]; intros [|[k' v'] b]; cbn; try done.
  destruct (String.eqb_spec k k') as [->|], (String.eqb_spec v v') as [->|]; try done.
  intros ->%IH. done.
Qed.

Definition series_eqb (s t : string * Labels) : bool := if String.eqb s.1 t.1 then labels_eqb s.2 t.2 else false.

Lemma catalogue_fixed s : existsb (series_eqb s) fixed_series = true -> s ∈ catalogue.
Proof.
  intros ([n l] & Hin & Heq)%existsb_exists. apply elem_of_app. left. unfold series_eqb in Heq. destruct s as [n' l'].
  cbn in Heq. destruct (String.eqb_spec n' n) as [->|]; [|done]. apply labels_eqb_eq in Heq as ->.
  by apply list_elem_of_In.
Qed.

Lemma catalogue_rejected c r :
  r ∈ REJECT_REASONS -> (INGEST_REJECTED_TOTAL, [on_chain c; ("reason", r)]) ∈ catalogue.
Proof.
  intros Hr. apply catalogue_fixed. unfold REJECT_REASONS in Hr.
  repeat (apply elem_of_cons in Hr as [->|Hr]; [by destruct c; vm_compute|]). by apply elem_of_nil in Hr.
Qed.

Lemma rpc_series_length : length rpc_series = (3 * (length methods + 1))%nat.
Proof.
  unfold rpc_series. induction methods as [|m ms IH]; [done|].
  cbn [app mbind list_bind length] in *. rewrite IH. lia.
Qed.

(** The series of this module are described and bounded.  Whatever its helpers
    record, with whatever arguments - any method name on the wire, any status, any
    counts - goes to a series that [describe_metrics] describes as that type,
    and its name and labels are in a catalogue of 109 entries, and three for
    each registered method and for "other". *)
Theorem metrics_bounded samples :
  emitted samples ->
  Forall (fun s => described s = true /\ sample_series s ∈ catalogue) samples
  /\ length catalogue = (109 + 3 * (length methods + 1))%nat.
Proof.
  intros Hem. split.
  2:{ unfold catalogue. rewrite length_app, rpc_series_length. done. }
  destruct Hem as [start| | |c r Hr| | |m ok t| | |c o t|c ok t| | | | | |[]|[]|[]| | |c [] t|];
    try (destruct c); try (destruct s); try (destruct o); try (destruct k); try (destruct first);
    try (destruct sg_chain0); try (destruct sg_kind0); try (destruct ok);
    repeat apply Forall_cons_2; try apply Forall_nil_2.
  all: split; [by vm_compute|]; try (apply catalogue_fixed; by vm_compute).
  - apply elem_of_app. left. apply list_elem_of_here.
  - by apply catalogue_rejected.
  - by apply catalogue_rejected.
  - apply (catalogue_rpc _ _ (label_bounded m)). set_solver.
  - apply (catalogue_rpc _ _ (label_bounded m)). set_solver.
  - apply (catalogue_rpc _ _ (label_bounded m)). set_solver.
  - apply (catalogue_rpc _ _ (label_bounded m)). set_solver.
Qed.

End Emitted.

(** ** Buckets *)

Fixpoint increasing (l : list Q) : bool :=
  match l with
  | a :: (b :: _) as l => negb (Qle_bool b a) && increasing l
  | _ => true
  end.

(** Every histogram has buckets, and they are strictly increasing. *)
Lemma buckets_installed :
  map fst installed_buckets ≡ₚ map fst HISTOGRAMS /\ forallb (fun nb => increasing nb.2) installed_buckets = true.
Proof.
  split; [|by vm_compute]. unfold installed_buckets, HISTOGRAMS. cbn [map fst].
  apply (Permutation_trans (l' := [RPC_REQUEST_DURATION_SECONDS; UPSTREAM_RETRY_AFTER_SECONDS;
    UPSTREAM_REQUEST_DURATION_SECONDS; JOIN_LATENCY])); [apply Permutation_swap|].
  apply Permutation_skip, Permutation_swap.
Qed.

(** ** Guards balance their gauges *)

(** The lifetimes of subscription guards: each is created once and dropped at
    most once.  [live] are the guards not yet dropped, [out] what was emitted. *)
Inductive guards : list SubMetricsGuard -> list Sample -> Prop :=
  | g_start : guards [] []
  | g_new live out c k : guards live out ->
      guards ((sub_guard_new c k).1 :: live) (out ++ (sub_guard_new c k).2)
  | g_use live out g n : guards live out -> g ∈ live -> guards live (out ++ sub_lagged g n)
  | g_sent live out g n : guards live out -> g ∈ live -> guards live (out ++ sub_sent_bytes g n)
  | g_drop pre g post out : guards (pre ++ g :: post) out -> guards (pre ++ post) (out ++ sub_guard_drop g).

(** The value of a gauge that is only ever incremented and decremented. *)
Definition gauge_value (name : string) (labels : Labels) (out : list Sample) : Z :=
  foldr (fun s acc => match s with
                      | GaugeAdd n l d => if decide (n = name /\ l = labels) then (d + acc)%Z else acc
                      | _ => acc
                      end) 0%Z out.

Definition live_count (labels : Labels) (live : list SubMetricsGuard) : Z :=
  Z.of_nat (length (filter (fun g => sub_labels g = labels) live)).

Lemma gauge_value_app name labels a b :
  gauge_value name labels (a ++ b) = (gauge_value name labels a + gauge_value name labels b)%Z.
Proof.
  unfold gauge_value. induction a as [|s a IH]; cbn [app foldr]; [done|].
  destruct s; try exact IH. case_decide; [rewrite IH; lia|exact IH].
Qed.

Lemma live_count_cons labels g live :
  live_count labels (g :: live) = ((if decide (sub_labels g = labels) then 1 else 0) + live_count labels live)%Z.
Proof. unfold live_count. rewrite filter_cons. case_decide; cbn [length]; lia. Qed.

Lemma live_count_app labels a b : live_count labels (a ++ b) = (live_count labels a + live_count labels b)%Z.
Proof. unfold live_count. rewrite filter_app, length_app. lia. Qed.

(** The open-subscription gauge is exact.  However subscriptions open, lag,
    send and end, the gauge of a chain and kind is the number of that chain's
    subscriptions of that kind still open. *)
Theorem sub_gauge_exact live out labels :
  guards live out -> gauge_value SUB_OPEN labels out = live_count labels live.
Proof.
  induction 1 as [|live out c k H IH|live out g n H IH Hg|live out g n H IH Hg|pre g post out H IH];
    rewrite ?gauge_value_app.
  - done.
  - cbn [fst snd sub_guard_new]. rewrite live_count_cons, IH. unfold gauge_value. cbn [foldr].
    destruct (decide (sub_labels _ = labels)); [rewrite decide_True by done|rewrite decide_False by tauto]; lia.
  - cbn. lia.
  - cbn. lia.
  - rewrite IH, !live_count_app, live_count_cons. unfold gauge_value, sub_guard_drop. cbn [foldr].
    destruct (decide (sub_labels g = labels)); [rewrite decide_True by done|rewrite decide_False by tauto]; lia.
Qed.
