(* ===== verification/Server.v ===== *)
(** * The server (src/rpc.rs: the method table and the HTTP stack)

    One JSON-RPC method table for all chains, and the stack of HTTP layers in
    front of it.  jsonrpsee binds parameters, runs the method and writes the
    response envelope: [RpcLib] is what it writes. *)

From Stdlib Require Import ZArith NArith Lia String Ascii.
From S2P Require Import Prelude Str Json Chain Record Backing Storage StorageSpec Join Codec Upstream Http EthFetch Backfill Serve Subscribe.
From S2P Require Import Progress PlatformIngest Health EthRpc PlatformRpc Bulk.

#[local] Open Scope string_scope.

(** ** The method tables *)

(** The [eth] namespace: the methods of [EthApi], then its subscription pair. *)
Definition ETH_API : list string :=
  map (append "eth_")
    ["chainId"; "blockNumber"; "getBlockByNumber"; "getBlockByHash"; "getBlockTransactionCountByNumber";
     "getBlockTransactionCountByHash"; "getTransactionByBlockNumberAndIndex";
     "getTransactionByBlockHashAndIndex"; "getTransactionByHash"; "getLogs"; "subscribe"; "unsubscribe"].

(** [platform::rpc::module], in the order it registers. *)
Definition PLATFORM_API : list string :=
  ["platform.getHeight"; "platform.getTimestamp"; "platform.getBlockByHeight"; "platform.getBlock";
   "platform.getTx"; "platform.getTxStatus"; "platform.subscribe"; "platform.unsubscribe"].

(** ** Parameters of the [platform] methods

    Derived deserializers, on the parsed parameters.  A struct is read from an
    object by name, or from an array by position. *)

(** [Option<String>] with [#[serde(default)]]. *)
Definition de_opt {A} (dec : Value -> option A) (o : option Value) : option (option A) :=
  match o with
  | None | Some Null => Some None
  | Some v => Some <$> dec v
  end.

(** [#[serde(untagged)] enum Uint64] *)
Definition de_uint64 (v : Value) : option Uint64 :=
  match v with
  | VNumber (PosInt n) => Some (Num n)
  | VString s => Some (UStr s)
  | _ => None
  end.

(** A two-field struct: a required field and an optional [encoding]. *)
Definition de_pair {A} (dec : Value -> option A) (name : string) (v : Value)
    : option (A * option string) :=
  match v with
  | VObject _ => a ← get name v ≫= dec; e ← de_opt Json.as_str (get "encoding" v); Some (a, e)
  | VArray [x] => a ← dec x; Some (a, None)
  | VArray [x; y] => a ← dec x; e ← de_opt Json.as_str (Some y); Some (a, e)
  | _ => None
  end.

Definition de_by_height (v : Value) : option ByHeight :=
  '(h, e) ← de_pair de_uint64 "height" v; Some {| bh_height := h; bh_encoding := e |}.
Definition de_by_block_id (v : Value) : option ByBlockId :=
  '(i, e) ← de_pair Json.as_str "blockID" v; Some {| bb_block_id := i; bb_encoding := e |}.
Definition de_by_tx_id (v : Value) : option ByTxId :=
  '(i, e) ← de_pair Json.as_str "txID" v; Some {| bt_tx_id := i; bt_encoding := e |}.

Definition de_subscribe (v : Value) : option SubscribeParams :=
  let params kind from to :=
    k ← kind ≫= Json.as_str; f ← de_opt de_uint64 from; t ← de_opt de_uint64 to;
    Some {| sp_kind := k; sp_from := f; sp_to := t |} in
  match v with
  | VObject _ => params (get "kind" v) (get "from" v) (get "to" v)
  | VArray [k] => params (Some k) None None
  | VArray [k; f] => params (Some k) (Some f) None
  | VArray [k; f; t] => params (Some k) (Some f) (Some t)
  | _ => None
  end.

(** [parse_params]: a shape error is an error, not a miss.  A request without
    parameters parses as [null]. *)
Definition parse_params {A} (dec : Value -> option A) (params : option Value) : result A :=
  ok_or (dec (default Null params)) EBadParams.

(** ** The [eth] calls, with their parameters bound *)

Inductive EthCall : Type :=
  | EthChainId
  | EthBlockNumber
  | EthGetBlockByNumber (block : string) (full_tx : bool)
  | EthGetBlockByHash (hash : string) (full_tx : bool)
  | EthGetBlockTransactionCountByNumber (block : string)
  | EthGetBlockTransactionCountByHash (hash : string)
  | EthGetTransactionByBlockNumberAndIndex (block index : string)
  | EthGetTransactionByBlockHashAndIndex (hash index : string)
  | EthGetTransactionByHash (hash : string)
  | EthGetLogs (filter : LogFilter).

(** The filter object: camelCase, every field optional. *)
Definition de_one_or_many (v : Value) : option OneOrMany :=
  match v with
  | VString s => Some (One s)
  | VArray items => Many <$> mapM Json.as_str items
  | _ => None
  end.

Definition de_topics (v : Value) : option (list (option OneOrMany)) :=
  items ← as_array v; mapM (fun x => de_opt de_one_or_many (Some x)) items.

Definition de_filter (v : Value) : option LogFilter :=
  match v with
  | VObject _ =>
      from ← de_opt Json.as_str (get "fromBlock" v); to ← de_opt Json.as_str (get "toBlock" v);
      hash ← de_opt Json.as_str (get "blockHash" v); address ← de_opt de_one_or_many (get "address" v);
      topics ← de_opt de_topics (get "topics" v);
      Some {| lf_from_block := from; lf_to_block := to; lf_block_hash := hash; lf_address := address;
              lf_topics := topics |}
  | _ => None
  end.

(** The arguments of [eth_subscribe], by position or by name. *)
Definition de_eth_subscribe (v : Value) : option (string * option string * option string) :=
  let params kind from to :=
    k ← kind ≫= Json.as_str; f ← de_opt Json.as_str from; t ← de_opt Json.as_str to; Some (k, f, t) in
  match v with
  | VObject _ => params (get "kind" v) (get "from" v) (get "to" v)
  | VArray (k :: rest) => params (Some k) (rest !! 0%nat) (rest !! 1%nat)
  | _ => None
  end.

(** ** The response envelope *)

Class RpcLib : Type := {
  (** the response body for a call's outcome *)
  write_response : Value -> result Value -> bytes
}.

(** What jsonrpsee writes on a subscription's socket. *)
Class PushLib : Type := {
  (** the reply to the subscribe call: the subscription's id, or the error *)
  write_subscribed : Value -> result unit -> string;
  (** a notification, under the subscription's method name; the payload is passed
      on as text *)
  write_notification : string -> bytes -> string
}.

Section Server.
Context {B : Blockstore} {F : Fjall} {J : JsonLib} {X : HexLib} {CL : CodecLib} {R : RpcLib}.

(** JSON-RPC 2.0: a success carries the [result], a failure an [error] and no
    [result].  The envelope of a value the parser takes - its own depth leaves one
    level - reads back with that value; an envelope that reads back at all tells a
    null result from another. *)
Class RpcLaws : Prop := {
  response_reads : forall id v, json_wf_at 126 id = true -> json_wf_at 126 v = true ->
    exists env, from_slice (write_response id (Ok v)) = Some env /\ get "result" env = Some v;
  response_ok : forall id v env, from_slice (write_response id (Ok v)) = Some env ->
    exists r, get "result" env = Some r /\ is_null r = is_null v;
  response_err : forall id e env, from_slice (write_response id (Err e)) = Some env -> get "result" env = None
}.

(** *** Subscriptions over a socket *)

Context {PL : PushLib}.

(** A notification holds its payload as [params.result]; the reply to the call
    has no [method]. *)
Class PushLaws : Prop := {
  subscribed_reads : forall id r, json_wf_at 126 id = true ->
    exists f, from_slice (str_bytes (write_subscribed id r)) = Some f /\ get "method" f = None;
  notification_reads : forall method payload v,
    from_slice payload = Some v -> json_wf_at 125 v = true ->
    exists f, from_slice (str_bytes (write_notification method payload)) = Some f /\
      get_str "method" f = Some method /\ (get "params" f ≫= get "result") = Some v
}.

(** The frames a subscriber is sent. *)
Definition sub_frames (method : string) (id : Value) (o : SubOutcome) : list (option Message) :=
  match o with
  | Rejected e => [Some (Text (write_subscribed id (Err e)))]
  | Streamed msgs _ =>
      Some (Text (write_subscribed id (Ok tt))) :: map (fun m => Some (Text (write_notification method m))) msgs
  | LiveStream payloads =>
      Some (Text (write_subscribed id (Ok tt)))
        :: map (fun v => Some (Text (write_notification method (default [] (to_vec v))))) payloads
  end.

(** The closure registered as [platform.subscribe]. *)
Definition platform_sub (fuel : nat) (snap : nat -> Storage) (events : list Recv) (params : option Value)
    : SubOutcome :=
  match parse_params de_subscribe params with
  | Err e => Rejected e
  | Ok p => platform_subscribe fuel snap events p
  end.

Definition eth_sub (fuel : nat) (snap : nat -> Storage) (events : list Recv) (params : option Value)
    : SubOutcome :=
  match parse_params de_eth_subscribe params with
  | Err e => Rejected e
  | Ok (kind, from, to) => eth_subscribe fuel snap events kind from to
  end.

(** A socket to a server of one chain, from the text of the first request on it:
    a subscription streams its frames; anything else is answered without one. *)
Definition sub_stream (chain : Chain) (fuel : nat) (snap : nat -> Storage) (events : list Recv)
    (text : string) : option (list (option Message)) :=
  match from_slice (str_bytes text) with
  | None => Some []
  | Some req =>
      let id := default Null (get "id" req) in
      match chain with
      | C => if decide (get_str "method" req = Some "eth_subscribe")
             then Some (sub_frames "eth_subscription" id (eth_sub fuel snap events (get "params" req)))
             else Some []
      | P => if decide (get_str "method" req = Some "platform.subscribe")
             then Some (sub_frames "platform.subscription" id (platform_sub fuel snap events (get "params" req)))
             else Some []
      end
  end.

(** *** Building the table *)

(** A method and the instance that answers it. *)
Definition RpcModule : Type := list (string * ChainServe).

Definition method_names (m : RpcModule) : list string := m.*1.

(** The dialect of an instance. *)
Definition dialect (c : ChainServe) : list string :=
  match cs_chain c with C => ETH_API | P => PLATFORM_API end.

(** [RpcModule::merge] *)
Definition merge_module (m : RpcModule) (c : ChainServe) : result RpcModule :=
  if existsb (fun n => bool_decide (n ∈ method_names m)) (dialect c) then Err EMethodConflict
  else Ok (m ++ map (fun n => (n, c)) (dialect c))%list.

Definition build_module (chains : list ChainServe) : result RpcModule :=
  let? m := foldl (fun (acc : result RpcModule) c => let? m := acc in merge_module m c) (Ok []) chains in
  match method_names m with
  | [] => Err ENothingToServe
  | _ => Ok m
  end.

(** *** Answering a call *)

Definition or_null (r : result (option Value)) : result Value := let? o := r in Ok (default Null o).
Definition or_null_str (r : result (option string)) : result Value :=
  let? o := r in Ok (from_option VString Null o).

(** [None] where the turns of the log scan run out. *)
Definition eth_answer (c : ChainServe) (call : EthCall) : option (result Value) :=
  let api := eth_new c in
  match call with
  | EthChainId => Some (let? s := chain_id api in Ok (VString s))
  | EthBlockNumber => Some (let? s := block_number api in Ok (VString s))
  | EthGetBlockByNumber block full => Some (or_null (get_block_by_number api block full))
  | EthGetBlockByHash hash full => Some (or_null (get_block_by_hash api hash full))
  | EthGetBlockTransactionCountByNumber block => Some (or_null_str (get_block_transaction_count_by_number api block))
  | EthGetBlockTransactionCountByHash hash => Some (or_null_str (get_block_transaction_count_by_hash api hash))
  | EthGetTransactionByBlockNumberAndIndex block index =>
      Some (or_null (get_transaction_by_block_number_and_index api block index))
  | EthGetTransactionByBlockHashAndIndex hash index =>
      Some (or_null (get_transaction_by_block_hash_and_index api hash index))
  | EthGetTransactionByHash hash => Some (or_null (get_transaction_by_hash api hash))
  | EthGetLogs filter => or_null <$> get_logs GETLOGS_TURNS api filter
  end.

(** The registered closures of [platform::rpc::module]; [None] for a name they
    do not include. *)
Definition platform_answer (format_rfc3339 : N -> option string) (c : ChainServe) (method : string)
    (params : option Value) : option (result Value) :=
  let st := cs_storage c in
  if String.eqb method "platform.getHeight" then Some (or_null (get_height st))
  else if String.eqb method "platform.getTimestamp" then Some (or_null (get_timestamp format_rfc3339 st))
  else if String.eqb method "platform.getBlockByHeight" then
    Some (or_null (let? p := parse_params de_by_height params in get_block_by_height st p))
  else if String.eqb method "platform.getBlock" then
    Some (or_null (let? p := parse_params de_by_block_id params in get_block st p))
  else if String.eqb method "platform.getTx" then
    Some (or_null (let? p := parse_params de_by_tx_id params in get_tx st p))
  else if String.eqb method "platform.getTxStatus" then
    Some (or_null (let? p := parse_params de_by_tx_id params in get_tx_status st p))
  else None.

(** *** The HTTP stack *)

Record HttpReq : Type := { rq_method : string; rq_path : string; rq_query : option string; rq_body : bytes }.

(** A body as the stack sees it: in memory, streamed, or failing while it is
    collected. *)
Inductive Body : Type :=
  | Whole (b : bytes)
  | Stream (b : bytes)
  | Broken.

Record HttpResp : Type := { rp_status : N; rp_body : Body }.

Definition HttpService : Type := HttpReq -> HttpResp.
Definition HttpLayer : Type := HttpService -> HttpService.

Definition is_get (path : string) (req : HttpReq) : bool :=
  String.eqb (rq_method req) "GET" && String.eqb (rq_path req) path.

(** What a bulk reply puts on the wire: [error_response] ends its message with a
    newline. *)
Definition bulk_resp (r : BulkReply) : HttpResp :=
  match r with
  | BulkError status msg =>
      {| rp_status := status; rp_body := Whole (str_bytes (msg ++ String (ascii_of_N 10) "")) |}
  | Ndjson body => {| rp_status := 200; rp_body := Stream body |}
  end.

Definition bulk_layer (stores : Stores) (at_height : N -> Storage) (max_blocks : N) : HttpLayer :=
  fun inner req =>
    match bulk_call stores at_height max_blocks (rq_method req) (rq_path req) (rq_query req) with
    | Some r => bulk_resp r
    | None => inner req
    end.

(** [to_vec_pretty] is serde_json's, [None] when it fails; the text of the 500 is
    not modelled. *)
Definition health_layer (to_vec_pretty : Value -> option bytes) (hi : HostInfo) (served : list ChainServe)
    : HttpLayer :=
  fun inner req =>
    if is_get "/health" req
    then match to_vec_pretty (build_health_response hi served) with
         | Some body => {| rp_status := 200; rp_body := Whole body |}
         | None => {| rp_status := 500; rp_body := Whole [] |}
         end
    else inner req.

(** [rendered] is what the Prometheus handle renders. *)
Definition metrics_layer (rendered : bytes) : HttpLayer :=
  fun inner req =>
    if is_get "/metrics" req then {| rp_status := 200; rp_body := Whole rendered |} else inner req.

Definition collect (b : Body) : option bytes :=
  match b with Whole b | Stream b => Some b | Broken => None end.

Definition not_found_layer : HttpLayer :=
  fun inner req =>
    let res := inner req in
    let '(status, body) := not_found_421 (rp_status res) (collect (rp_body res)) in
    {| rp_status := status; rp_body := Whole body |}.

(** The outermost layer retypes the request's body; the bytes are the same. *)
Definition map_body_layer : HttpLayer := fun inner req => inner req.

(** The layers of [serve], outermost first, over jsonrpsee's service. *)
Definition http_stack (to_vec_pretty : Value -> option bytes) (hi : HostInfo) (served : list ChainServe)
    (at_height : N -> Storage) (max_blocks : N) (rendered : bytes) (rpc : HttpService) : HttpService :=
  map_body_layer (bulk_layer (stores_new served) at_height max_blocks
    (health_layer to_vec_pretty hi served (metrics_layer rendered (not_found_layer rpc)))).

(** The paths the stack answers itself. *)
Definition own_path (req : HttpReq) : bool :=
  is_get "/blocks" req || is_get "/health" req || is_get "/metrics" req.

(** jsonrpsee's service for one call: status 200 and the envelope. *)
Definition rpc_reply (id : Value) (answer : result Value) : HttpResp :=
  {| rp_status := 200; rp_body := Whole (write_response id answer) |}.

(** ** What the table serves *)

Lemma dialect_nonempty c : dialect c <> [].
Proof. unfold dialect. by destruct (cs_chain c). Qed.

Lemma dialect_nodup c : NoDup (dialect c).
Proof. unfold dialect. destruct (cs_chain c); [apply (bool_decide_unpack (NoDup ETH_API))|apply (bool_decide_unpack (NoDup PLATFORM_API))]; by vm_compute. Qed.

Lemma namespaces_disjoint n : n ∈ ETH_API -> n ∉ PLATFORM_API.
Proof.
  assert (H : Forall (fun n => n ∉ PLATFORM_API) ETH_API).
  { apply (bool_decide_unpack (Forall (fun n => n ∉ PLATFORM_API) ETH_API)). by vm_compute. }
  rewrite Forall_forall in H. apply H.
Qed.

Lemma dialects_disjoint c d n : cs_chain c <> cs_chain d -> n ∈ dialect c -> n ∉ dialect d.
Proof.
  unfold dialect. intros Hne Hn. destruct (cs_chain c), (cs_chain d); try done.
  - by apply namespaces_disjoint.
  - intros Hd. by apply (namespaces_disjoint n Hd).
Qed.

Lemma dialect_same c d n : cs_chain c = cs_chain d -> n ∈ dialect c -> n ∈ dialect d.
Proof. unfold dialect. by intros ->. Qed.

(** The table after merging [done] instances. *)
Definition table_of (chains : list ChainServe) : RpcModule :=
  chains ≫= fun c => map (fun n => (n, c)) (dialect c).

Lemma elem_of_table name c chains : (name, c) ∈ table_of chains <-> c ∈ chains /\ name ∈ dialect c.
Proof.
  unfold table_of. rewrite list_elem_of_bind. split.
  - intros (d & Hin & Hd). apply list_elem_of_fmap in Hin as (n & [= -> ->] & Hn). done.
  - intros [Hc Hn]. exists c. split; [|done]. apply list_elem_of_fmap. eauto.
Qed.

Lemma table_names name chains :
  name ∈ method_names (table_of chains) <-> exists c, c ∈ chains /\ name ∈ dialect c.
Proof.
  unfold method_names. rewrite list_elem_of_fmap. split.
  - intros ([n c] & -> & H%elem_of_table). eauto.
  - intros (c & H). exists (name, c). split; [done|]. by apply elem_of_table.
Qed.

Lemma merge_fold chains rest :
  foldl (fun (acc : result RpcModule) c => let? m := acc in merge_module m c) (Ok (table_of chains)) rest
  = if decide (NoDup (cs_chain <$> rest) /\ Forall (fun c => cs_chain c ∉ cs_chain <$> chains) rest)
    then Ok (table_of (chains ++ rest)) else Err EMethodConflict.
Proof.
  revert chains; induction rest as [|c rest IH]; intros chains; cbn [foldl result_bind].
  { rewrite decide_True by (split; constructor). by rewrite app_nil_r. }
  unfold merge_module at 2. destruct (existsb _ (dialect c)) eqn:Ex.
  - apply existsb_exists in Ex as (n & Hn%list_elem_of_In & Hm%bool_decide_eq_true).
    apply table_names in Hm as (d & Hd & Hnd).
    rewrite decide_False.
    + clear. induction rest as [|d rest IH]; cbn; done.
    + intros [_ Hf]. apply Forall_cons_1 in Hf as [Hf _]. apply Hf. apply list_elem_of_fmap.
      exists d. split; [|done]. destruct (decide (cs_chain c = cs_chain d)); [done|].
      by destruct (dialects_disjoint c d n).
  - assert (Hnew : cs_chain c ∉ cs_chain <$> chains).
    { intros (d & Hcd & Hd)%list_elem_of_fmap. destruct (dialect c) as [|n l] eqn:El; [by apply dialect_nonempty in El|].
      assert (Hn : n ∈ dialect c) by (rewrite El; apply list_elem_of_here).
      cbn in Ex. apply orb_false_iff in Ex as [Ex _]. apply bool_decide_eq_false in Ex. apply Ex.
      apply table_names. exists d. split; [done|]. by apply (dialect_same c). }
    replace (table_of chains ++ map (fun n => (n, c)) (dialect c))%list with (table_of (chains ++ [c])).
    2:{ unfold table_of. rewrite bind_app. cbn. by rewrite app_nil_r. }
    rewrite IH, <- app_assoc. cbn [app]. apply decide_ext. cbn. rewrite NoDup_cons, Forall_cons, !Forall_forall.
    setoid_rewrite fmap_app. setoid_rewrite not_elem_of_app. setoid_rewrite list_elem_of_fmap. set_solver.
Qed.

Lemma build_module_eq chains :
  build_module chains =
    if decide (chains <> [] /\ NoDup (cs_chain <$> chains)) then Ok (table_of chains)
    else Err (if decide (NoDup (cs_chain <$> chains)) then ENothingToServe else EMethodConflict).
Proof.
  unfold build_module. etrans; [exact (f_equal (result_bind _) (merge_fold [] chains))|]. cbn [app].
  destruct (decide (NoDup (cs_chain <$> chains))) as [Hn|Hn].
  - rewrite decide_True by (split; [done|apply Forall_forall; set_solver]). cbn [result_bind].
    destruct chains as [|c chains]; [done|]. rewrite decide_True by done.
    destruct (method_names (table_of (c :: chains))) as [|n l] eqn:E; [|done]. exfalso.
    destruct (dialect c) as [|n l] eqn:El; [by apply dialect_nonempty in El|].
    assert (Hin : n ∈ method_names (table_of (c :: chains))).
    { apply table_names. exists c. rewrite El. split; apply list_elem_of_here. }
    rewrite E in Hin. by apply elem_of_nil in Hin.
  - rewrite !decide_False by tauto. done.
Qed.

Lemma table_nodup chains : NoDup (cs_chain <$> chains) -> NoDup (method_names (table_of chains)).
Proof.
  induction chains as [|c chains IH]; [constructor|].
  cbn. intros Hn. apply NoDup_cons in Hn as [Hc Hn]. unfold method_names, table_of. cbn. rewrite fmap_app.
  apply NoDup_app. split_and!.
  - rewrite <- list_fmap_compose. cbn. rewrite list_fmap_id. apply dialect_nodup.
  - intros n Hl Hr. rewrite <- list_fmap_compose in Hl. cbn in Hl. rewrite list_fmap_id in Hl.
    apply table_names in Hr as (d & Hd & Hnd). apply (dialects_disjoint c d n); [|done..].
    intros Heq. apply Hc. apply list_elem_of_fmap. eauto.
  - by apply IH.
Qed.

(** The method table is one disjoint namespace per chain.  It can be built
    exactly when at least one instance is served and no chain twice; it then
    holds the methods of each instance's dialect, each answered by that
    instance's store, and no name stands for two. *)
Theorem module_namespaces chains :
  (is_ok (build_module chains) = true <-> chains <> [] /\ NoDup (cs_chain <$> chains))
  /\ forall m, build_module chains = Ok m ->
       NoDup (method_names m) /\ forall name c, (name, c) ∈ m <-> c ∈ chains /\ name ∈ dialect c.
Proof.
  rewrite build_module_eq. case_decide as Hd; (split; [done|]); [|done].
  intros m [= <-]. split; [apply table_nodup, Hd|intros; apply elem_of_table].
Qed.

(** ** Misses over HTTP *)

Section OverHttp.
Context {BL : BlockstoreLaws B} {FL : FjallLaws F} {JL : JsonLaws J} {RL : RpcLaws}.
Variables (to_vec_pretty : Value -> option bytes) (hi : HostInfo) (served : list ChainServe)
  (at_height : N -> Storage) (max_blocks : N) (rendered : bytes) (rpc : HttpService).

Abbreviation stack := (http_stack to_vec_pretty hi served at_height max_blocks rendered rpc).

Lemma stack_rpc req : own_path req = false -> stack req = not_found_layer rpc req.
Proof.
  unfold own_path, http_stack, map_body_layer, bulk_layer, health_layer, metrics_layer, bulk_call.
  intros H. apply orb_false_iff in H as [H H3]. apply orb_false_iff in H as [H1 H2].
  unfold is_get in H1. by rewrite H1, H2, H3.
Qed.

(** The three paths the stack answers before jsonrpsee. *)
Lemma stack_own req :
  (is_get "/blocks" req = true ->
     stack req = bulk_resp (serve_range (stores_new served) at_height max_blocks (default "" (rq_query req)))) /\
  (is_get "/health" req = true ->
     stack req = match to_vec_pretty (build_health_response hi served) with
                 | Some body => {| rp_status := 200; rp_body := Whole body |}
                 | None => {| rp_status := 500; rp_body := Whole [] |}
                 end) /\
  (is_get "/metrics" req = true -> stack req = {| rp_status := 200; rp_body := Whole rendered |}).
Proof.
  unfold http_stack, map_body_layer, bulk_layer, health_layer, metrics_layer, bulk_call, is_get.
  split_and!; intros [Hm Hp]%andb_true_iff; apply String.eqb_eq in Hp; by rewrite Hm, Hp.
Qed.

Lemma stack_reply req id answer :
  own_path req = false -> json_wf_at 126 id = true -> rpc req = rpc_reply id answer ->
  stack req = {| rp_status := if match answer with Ok v => is_null v | Err _ => false end
                              then MISDIRECTED_REQUEST else 200;
                 rp_body := Whole (write_response id answer) |}.
Proof.
  intros Ho Hid Hr. rewrite stack_rpc by done. unfold not_found_layer. rewrite Hr. cbn. unfold is_result_null.
  destruct answer as [v|e].
  - destruct (from_slice (write_response id (Ok v))) as [env|] eqn:E.
    + destruct (response_ok id v env E) as (r & -> & <-). by destruct r.
    + destruct (is_null v) eqn:Hn; [|done]. destruct v; try done.
      by destruct (response_reads id Null Hid eq_refl) as (env & E' & _); congruence.
  - destruct (from_slice (write_response id (Err e))) as [env|] eqn:E; [|done]. by rewrite (response_err id e env E).
Qed.

(** The status tells a null success from every other answer. *)
Lemma status_of_answer (answer : result Value) :
  let status := if match answer with Ok v => is_null v | Err _ => false end then MISDIRECTED_REQUEST else 200%N in
  (status = MISDIRECTED_REQUEST <-> exists v, answer = Ok v /\ is_null v = true) /\
  (status = 200%N <-> forall v, answer = Ok v -> is_null v = false).
Proof.
  destruct answer as [v|e]; cbn; [destruct (is_null v) eqn:Hn|]; (split; split); intros H; try done.
  - by exists v.
  - by rewrite (H v eq_refl) in Hn.
  - destruct H as (w & [= <-] & H). congruence.
  - by intros w [= <-].
  - by destruct H as (w & ? & _).
Qed.

(** The answer a client of a chain gets for a height. *)
Definition height_answer (c : ChainServe) (h : N) : option (result Value) :=
  match cs_chain c with
  | C => eth_answer c (EthGetBlockByNumber (hex_quantity h) true)
  | P => platform_answer (fun _ => None) c "platform.getBlockByHeight"
           (Some (VObject [("encoding", VString "json"); ("height", VString (to_decimal h))]))
  end.

Lemma platform_height_answer c h :
  is_u64 h ->
  platform_answer (fun _ => None) c "platform.getBlockByHeight"
    (Some (VObject [("encoding", VString "json"); ("height", VString (to_decimal h))]))
  = Some (or_null (render_block (cs_storage c) h EJson)).
Proof.
  intros Hh. pose proof (parse_to_decimal h Hh) as Hd. generalize dependent (to_decimal h). intros d Hd.
  change (platform_answer _ _ _ _) with
    (Some (or_null (get_block_by_height (cs_storage c) {| bh_height := UStr d; bh_encoding := Some "json" |}))).
  unfold get_block_by_height. cbn [bh_height bh_encoding uint64_get]. by rewrite Hd.
Qed.

(** The block bytes an instance has for a height: the stored ones, else, on the
    C-chain, those waiting in the join buffer. *)
Definition held (c : ChainServe) (a : Abs) (h : N) : option bytes :=
  match a_blocks a !! h with
  | Some es => es !! BLOCK
  | None => match cs_chain c with C => cs_join c ≫= fun j => buffered_block j h | P => None end
  end.

Lemma height_answer_refines c a h :
  refines (cs_storage c) a -> is_u64 h ->
  (forall b, held c a h = Some b -> exists fields, from_slice b = Some (VObject fields)) ->
  exists answer, height_answer c h = Some (Ok answer) /\ (is_null answer = true <-> held c a h = None).
Proof.
  intros Hr Hh Hobj. pose proof (get_element_refines (cs_storage c) a h BLOCK Hr) as Hg.
  unfold held in *. destruct (a_blocks a !! h) as [es|] eqn:Ea; cbn in Hg.
  - destruct (ref_records _ _ Hr _ _ Ea) as [Hlen _]. destruct (lookup_lt_is_Some_2 es BLOCK) as [b Hb].
    { pose proof (arity_ge_2 (st_chain (cs_storage c))). unfold BLOCK. lia. }
    rewrite Hb in Hg |- *. destruct (Hobj b Hb) as [fields Hf].
    destruct (get_element (cs_storage c) h BLOCK) as [[el|]|] eqn:Eg; cbn in Hg; simplify_eq.
    unfold height_answer. destruct (cs_chain c).
    + unfold eth_answer, get_block_by_number, lookup_block, select_block. rewrite hex_quantity_tag by done.
      cbn [result_bind]. unfold read_block_value, get_by_height. cbn [ea_storage eth_new ea_join]. rewrite Eg.
      cbn. unfold decode_block. rewrite Hf. cbn. eexists. split; [done|]. by split.
    + rewrite (platform_height_answer c h Hh). unfold render_block. rewrite decide_True by done. rewrite Eg.
      cbn. rewrite Hf. cbn. rewrite decide_True by done. cbn. eexists. split; [done|]. by split.
  - destruct (get_element (cs_storage c) h BLOCK) as [[el|]|] eqn:Eg; cbn in Hg; simplify_eq.
    unfold height_answer. destruct (cs_chain c).
    + unfold eth_answer, get_block_by_number, lookup_block, select_block. rewrite hex_quantity_tag by done.
      cbn [result_bind]. unfold read_block_value, get_by_height. cbn [ea_storage eth_new ea_join]. rewrite Eg. cbn.
      destruct (cs_join c ≫= _) as [b|]; [|eexists; split; [done|]; by split].
      destruct (Hobj b eq_refl) as [fields Hf]. cbn. unfold decode_block. rewrite Hf. cbn. eexists. split; [done|]. by split.
    + rewrite (platform_height_answer c h Hh). unfold render_block. rewrite decide_True by done. rewrite Eg.
      cbn. eexists. split; [done|]. by split.
Qed.


End OverHttp.

End Server.
