(* ===== verification/Replica.v ===== *)
(** * A mirror of a neve is a replica

    Two instances of the program: the downstream one bootstraps from the
    upstream one.  The request the mirror writes on its socket is read by the
    server's own parameter binding, the server replays its store, and the mirror
    verifies and stores what arrives.  The theorems run both sides together:
    the bootstrap terminates, and the downstream store then holds what the
    upstream store holds. *)

From Stdlib Require Import ZArith NArith Lia String Ascii.
From S2P Require Import Prelude Str Json Chain Record Backing Storage StorageSpec Join Codec Upstream Http Socket.
From S2P Require Import EthFetch Progress Backfill Serve Subscribe Health EthIngest EthRpc PlatformIngest Mirror.
From S2P Require Import PlatformRpc Bulk Server.

#[local] Open Scope string_scope.

Section Replica.
Context {B : Blockstore} {F : Fjall} {J : JsonLib} {X : HexLib} {L : CodecLib} {H : Http} {W : WsLib H}.
Context {PL : PushLib}.
Context {BL : BlockstoreLaws B} {FL : FjallLaws F} {JL : JsonLaws J} {PLL : PushLaws}.

(** ** The upstream *)

Lemma keeps_record a lo hi st h :
  keeps a lo hi st -> (lo <= h <= hi)%N -> exists es, a_blocks a !! h = Some es /\ stored st h = Ok (Some (encode es)).
Proof.
  intros Hk Hh. destruct (keeps_at _ _ _ _ _ Hk Hh) as (a' & es & block & Hr & Hes & Hes' & _).
  exists es. split; [done|]. by rewrite (ref_blocks _ _ Hr), Hes.
Qed.

(** The upstream's health report names the end of its gapless range. *)
Definition reports (base : string) (chain : Chain) (up : ChainServe) (n : Net) (w : World) : Prop :=
  exists status header hi served,
    http_get (trim_end_slash base ++ "/health") (net_world n)
      = (w, Response status header (Some (build_health_response hi served))) /\
    is_success status = true /\ NoDup (cs_chain <$> served) /\
    serves_chain chain served = Some up /\ is_empty (cs_storage up) = false.

Lemma reports_tip base chain up n w :
  reports base chain up n w ->
  exists status header v,
    http_get (trim_end_slash base ++ "/health") (net_world n) = (w, Response status header (Some v)) /\
    is_success status = true /\
    upstream_blocks_field v chain "max_contiguous_height" = Some (max_contiguous_height (cs_storage up)).
Proof.
  intros (status & header & hi & served & Hg & Hs & Hnd & Hup & He). exists status, header, (build_health_response hi served).
  split; [exact Hg|]. split; [done|]. rewrite upstream_blocks_field_report; [|done|by vm_compute; right; left].
  unfold probe_target. rewrite Hup. cbn. by rewrite He.
Qed.

(** ** Writes that succeed *)

Lemma put_stored_all h hash txs es st st' :
  put h hash txs es st = (st', Ok tt) ->
  forall h', stored st' h' = if decide (h' = h) then Ok (Some (encode es)) else stored st h'.
Proof.
  intros (_ & st1 & Hp1 & Hp2)%put_ok h'.
  destruct (put_block_ok _ _ _ _ Hp1) as (_ & _ & Hs). destruct (put_index_ok _ _ _ _ _ Hp2) as (_ & Hs2 & _).
  unfold stored at 1. rewrite Hs2. apply Hs.
Qed.

(** The stores of a disk that takes every record of a range. *)
Definition takes (Good : Storage -> Prop) (lo hi : N) (len : nat) : Prop :=
  forall st h hash txs es, Good st -> (lo <= h <= hi)%N -> length es = len ->
    exists st', put h hash txs es st = (st', Ok tt) /\ Good st'.

(** ... or just these records. *)
Definition takes_records (Good : Storage -> Prop) (lo hi : N) (rec : N -> list bytes) : Prop :=
  forall st h hash txs, Good st -> (lo <= h <= hi)%N -> exists st', put h hash txs (rec h) st = (st', Ok tt) /\ Good st'.

Lemma takes_takes_records Good lo hi len rec :
  takes Good lo hi len -> (forall h, (lo <= h <= hi)%N -> length (rec h) = len) -> takes_records Good lo hi rec.
Proof. intros Ht Hl st h hash txs Hg Hh. by apply Ht; [..|apply Hl]. Qed.

(** [st'] is [st] with the record [rec h] at every height of the range. *)
Definition copied (rec : N -> bytes) (lo hi : N) (st st' : Storage) : Prop :=
  forall h, stored st' h = if decide (lo <= h <= hi)%N then Ok (Some (rec h)) else stored st h.

Lemma copied_step rec lo hi hash txs es st st1 st' :
  (lo <= hi)%N -> rec lo = encode es -> put lo hash txs es st = (st1, Ok tt) ->
  copied rec (lo + 1) hi st1 st' -> copied rec lo hi st st'.
Proof.
  intros Hle Hr Hp Hc h. rewrite Hc, (put_stored_all _ _ _ _ _ _ Hp).
  destruct (decide (h = lo)) as [->|]; repeat case_decide; try lia; congruence.
Qed.

Lemma copied_none rec lo hi st : (hi < lo)%N -> copied rec lo hi st st.
Proof. intros Hlt h. case_decide; [lia|done]. Qed.

(** ** The P-chain: whole records *)

(** A record as the P-chain ingestion writes it: its halves verify, and every
    element is printed from a value that reads back. *)
Definition canonical_record (h : N) (es : list bytes) : Prop :=
  exists bv jv rv fb rw,
    json_wf_at 124 jv = true /\ json_wf_at 124 bv = true /\ json_wf_at 124 rv = true /\
    verify bv jv None = Some fb /\ fb_height fb = h /\ to_vec rv = Some rw /\ es = fetched_elements fb rw.

Lemma verify_texts bv jv e fb :
  verify bv jv e = Some fb -> to_vec jv = Some (fb_json fb) /\ to_vec bv = Some (fb_bytes_json fb).
Proof.
  unfold verify. destruct (Json.as_str bv); [|done]. destruct (hexnc_decode s); [|done]. cbv zeta.
  case_decide; [done|]. destruct (get_u64 "height" jv) as [h'|]; [|done].
  destruct (match e with Some _ => _ | None => _ end); [done|]. destruct (cb58_decode _); [|done].
  destruct (to_vec bv); [|done]. destruct (to_vec jv); [|done]. by intros [= <-].
Qed.

(** It parses back to the three values it was printed from. *)
Lemma canonical_reads h es :
  canonical_record h es ->
  exists bv jv rv fb rw,
    from_slice (encode es) = Some (VArray [jv; bv; rv]) /\ json_wf_at 125 (VArray [jv; bv; rv]) = true /\
    verify bv jv None = Some fb /\ fb_height fb = h /\ to_vec rv = Some rw /\ es = fetched_elements fb rw.
Proof.
  intros (bv & jv & rv & fb & rw & Hj & Hb & Hr & Hv & Hh & Hrw & ->).
  exists bv, jv, rv, fb, rw. destruct (verify_texts _ _ _ _ Hv) as [Tj Tb].
  assert (Hwf : json_wf_at 125 (VArray [jv; bv; rv]) = true).
  { apply json_wf_items. by repeat constructor. }
  split; [|by split_and!]. rewrite encode_array_text. apply from_slice_array.
  - repeat constructor; by eapply to_vec_text.
  - repeat constructor; (eapply from_to_vec; [|eassumption]); by apply (json_wf_weaken 124); [lia|].
  - by apply (json_wf_weaken 125); [lia|].
Qed.

(** The mirror stores such a record under its own height. *)
Lemma persist_canonical h es bv jv rv fb rw st st' :
  verify bv jv None = Some fb -> fb_height fb = h -> to_vec rv = Some rw -> es = fetched_elements fb rw ->
  put h (fb_id fb) (fb_tx_ids fb) es st = (st', Ok tt) ->
  persist_record (VArray [jv; bv; rv]) st = (st', Some h).
Proof.
  intros Hv Hh Hrw -> Hp. unfold persist_record, verify_record, store_block. cbn [as_array].
  cbn [length arity Nat.eqb negb]. rewrite Hv, Hrw, Hh, Hp. done.
Qed.

Definition record_frame (payload : bytes) : option Message :=
  Some (Text (write_notification "platform.subscription" payload)).

(** The loop of the bootstrap over a complete stream. *)
Lemma mirror_loop_copies Good lo elapsed clock target (rec : N -> list bytes) :
  takes_records Good lo target rec -> (target < u64_max)%N -> (forall i, elapsed i = false) ->
  (forall h, (lo <= h <= target)%N -> canonical_record h (rec h)) ->
  forall fuel from i m, (lo <= from <= target)%N -> Good (mi_storage m) ->
    (length (heights from target) < fuel)%nat ->
    exists m', mirror_loop fuel elapsed clock i target (map (fun h => record_frame (encode (rec h))) (heights from target)) m
                 = (m', Ok tt) /\
      Good (mi_storage m') /\ copied (fun h => encode (rec h)) from target (mi_storage m) (mi_storage m').
Proof.
  intros Ht Hmax He Hrec. induction fuel as [|fuel IH]; intros from i m Hf Hg Hlen; [lia|].
  rewrite heights_cons in Hlen |- * by lia. cbn [map length] in *. cbn [mirror_loop]. rewrite He.
  destruct (canonical_reads from (rec from)) as (bv & jv & rv & fb & rw & Hp & Hwf & Hv & Hh & Hrw & Hes);
    [apply Hrec; lia|].
  destruct (notification_reads "platform.subscription" _ _ Hp Hwf) as (f & Hff & Hm & Hres).
  unfold record_frame at 1. cbn [next_frame]. rewrite Hff.
  assert (Hpay : notification_payload f = Some (VArray [jv; bv; rv])).
  { unfold notification_payload. rewrite Hm. cbn. by rewrite decide_False by (intros E; by apply E). }
  rewrite Hpay. destruct (Ht (mi_storage m) from (fb_id fb) (fb_tx_ids fb)) as (st1 & Hput & Hg1); [done|lia|].
  rewrite (persist_canonical _ _ _ _ _ _ _ _ _ Hv Hh Hrw Hes Hput).
  destruct (observe _ _ _ _ _) as [[p began] line]. cbv zeta.
  destruct (N.leb_spec target from) as [Hle|Hlt].
  - eexists. split; [done|]. cbn [mi_storage]. split; [done|].
    eapply copied_step; [lia|done|exact Hput|]. apply copied_none. lia.
  - destruct (IH (from + 1)%N (S i) {| mi_storage := st1; mi_behind := sat_sub target from;
                  mi_count := mi_count m; mi_progress := p |}) as (m' & E & Hg' & Hc); [lia|done|lia|].
    exists m'. split; [exact E|]. split; [done|]. by eapply copied_step; [lia| |exact Hput|exact Hc].
Qed.

Lemma request_reads body : json_wf body = true -> from_slice (str_bytes (request_text body)) = Some body.
Proof.
  intros Hwf. unfold request_text. destruct (to_vec_total body) as [b Hb]. rewrite Hb. cbn [default].
  rewrite str_bytes_of_str. by eapply from_to_vec.
Qed.

(** The server reads the mirror's request as the range the mirror meant. *)
Lemma oldrecords_stream fuel snap events a from target :
  (from <= target)%N -> (target < u64_max)%N -> (forall i, keeps a from target (snap i)) ->
  (N.to_nat (target + 1 - from) < fuel)%nat ->
  exists ack f, sub_stream P fuel snap events (request_text (oldrecords_request from target))
    = Some (Some (Text ack) :: map (fun h => record_frame (replay_text a true h)) (heights from target)) /\
    from_slice (str_bytes ack) = Some f /\ get "method" f = None.
Proof.
  intros Hle Hmax Hk Hf. unfold sub_stream. rewrite request_reads by (by vm_compute).
  rewrite decide_True by done.
  assert (E : platform_sub fuel snap events (get "params" (oldrecords_request from target)) =
    serve fuel P snap events {| sr_kind := OldRecords; sr_from := Some from; sr_to := Some target |} PLATFORM_SUB_KINDS)
    by reflexivity.
  rewrite E.
  rewrite (serve_keeps P snap events OldRecords from target PLATFORM_SUB_KINDS a fuel eq_refl); try done.
  2:{ apply (bool_decide_unpack (OldRecords ∈ PLATFORM_SUB_KINDS)). by vm_compute. }
  cbn [sub_frames wants_record]. rewrite map_map.
  destruct (subscribed_reads (default Null (get "id" (oldrecords_request from target))) (Ok tt) eq_refl) as (f & Hf1 & Hf2).
  by eexists _, f.
Qed.

(** The reply to the subscribe call is passed over. *)
Lemma mirror_loop_skip fuel elapsed clock i target ack f rest m :
  elapsed i = false -> from_slice (str_bytes ack) = Some f -> get "method" f = None ->
  mirror_loop (S fuel) elapsed clock i target (Some (Text ack) :: rest) m
  = mirror_loop fuel elapsed clock (S i) target rest m.
Proof.
  intros He Hf Hm. cbn [mirror_loop next_frame]. rewrite He, Hf.
  assert (Hna : notification_payload f = None) by (unfold notification_payload, get_str; by rewrite Hm).
  by rewrite Hna.
Qed.

(** The bootstrap of a mirror behind an upstream that answers copies the missing
    range. *)
Lemma mirror_copies Good cfg elapsed clock now m n up snap events a fuel w1 w2 :
  let from := mirror_from cfg (mi_storage m) in
  let target := max_contiguous_height (cs_storage up) in
  reports (cfg_rpc_url cfg) P up n w1 ->
  connect_async (cfg_ws_url cfg) w1 = (w2, Opened (sub_stream P fuel snap events)) ->
  (from <= target)%N -> (target < u64_max)%N ->
  (forall i, keeps a from target (snap i)) -> (N.to_nat (target + 1 - from) < fuel)%nat ->
  (forall h es, (from <= h <= target)%N -> a_blocks a !! h = Some es -> canonical_record h es) ->
  takes_records Good from target (fun h => default [] (a_blocks a !! h)) -> Good (mi_storage m) -> (forall i, elapsed i = false) ->
  exists m' n', mirror_bootstrap cfg elapsed clock now (m, n) = ((m', n'), Done (Ok tt)) /\
    net_world n' = w2 /\ Good (mi_storage m') /\
    copied (fun h => encode (default [] (a_blocks a !! h))) from target (mi_storage m) (mi_storage m').
Proof.
  intros from target Hrep Hws Hle Hmax Hk Hf Hcan Ht Hg He.
  destruct (reports_tip _ _ _ _ _ Hrep) as (status & header & v & Hget & Hs & Htip).
  destruct (oldrecords_stream fuel snap events a from target Hle Hmax Hk Hf) as (ack & f & Hst & Hf1 & Hf2).
  unfold mirror_bootstrap, p_fetch_upstream_contiguous, io_get, io_bind. rewrite Hget. cbn [io_ret].
  rewrite Hs, Htip. cbn [negb ok_or]. fold target from. rewrite (proj2 (N.ltb_ge _ _) Hle).
  destruct (observe _ _ _ _ _) as [[p began] line]. cbv zeta.
  unfold open_stream, connect_ws, send_request, io_connect, io_bind, emit. cbn [net_world]. rewrite Hws.
  cbn [io_ret]. rewrite Hst. cbn [ok_or length]. rewrite length_map.
  rewrite (mirror_loop_skip _ _ _ _ _ _ _ _ _ (He 0%nat) Hf1 Hf2).
  set (rec h := default [] (a_blocks a !! h)).
  assert (Hin : forall h, (from <= h <= target)%N -> a_blocks a !! h = Some (rec h)).
  { intros h Hh. destruct (keeps_record _ _ _ _ h (Hk 0%nat) Hh) as (es & Hes & _). unfold rec. by rewrite Hes. }
  rewrite (map_ext_in _ (fun h => record_frame (encode (rec h)))).
  2:{ intros h Hh%list_elem_of_In%elem_of_heights. unfold replay_text. by rewrite Hin. }
  destruct (mirror_loop_copies Good from elapsed clock target rec Ht Hmax He) with (fuel := S (length (heights from target)))
    (from := from) (i := 1%nat)
    (m := {| mi_storage := mi_storage m; mi_behind := mi_behind m; mi_count := (mi_count m + 1) mod 2 ^ 64; mi_progress := p |})
    as (m' & E & Hg' & Hc); [|lia|done|lia|].
  { intros h Hh. by apply Hcan; [|apply Hin]. }
  rewrite E. by eexists m', _.
Qed.

(** C4: A P-chain mirror of a neve is a replica of it.  Against an upstream
    that answers, whose store keeps the records of a gapless range in their
    canonical form - whatever is written to it at other heights between two
    reads - the bootstrap of a mirror
    whose disk takes the records terminates with success, and its store then
    holds, byte for byte, the upstream's record at every height from the first
    it lacked to the end of the upstream's range; nothing else changed. *)
Theorem mirror_replicates Good cfg elapsed clock now m n up snap events a fuel w1 w2 :
  let from := mirror_from cfg (mi_storage m) in
  let target := max_contiguous_height (cs_storage up) in
  reports (cfg_rpc_url cfg) P up n w1 ->
  connect_async (cfg_ws_url cfg) w1 = (w2, Opened (sub_stream P fuel snap events)) ->
  (from <= target)%N -> (target < u64_max)%N ->
  (forall i, keeps a from target (snap i)) -> (N.to_nat (target + 1 - from) < fuel)%nat ->
  (forall h es, (from <= h <= target)%N -> a_blocks a !! h = Some es -> canonical_record h es) ->
  takes Good from target 3 -> Good (mi_storage m) -> (forall i, elapsed i = false) ->
  exists m' n', mirror_bootstrap cfg elapsed clock now (m, n) = ((m', n'), Done (Ok tt)) /\
    forall h, stored (mi_storage m') h =
      if decide (from <= h <= target)%N then stored (snap 0%nat) h else stored (mi_storage m) h.
Proof.
  intros from target Hrep Hws Hle Hmax Hk Hf Hcan Ht Hg He.
  destruct (mirror_copies Good cfg elapsed clock now m n up snap events a fuel w1 w2)
    as (m' & n' & E & _ & _ & Hc); [done..| |done|done|].
  { eapply takes_takes_records; [exact Ht|]. intros h Hh.
    destruct (keeps_record _ _ _ _ h (Hk 0%nat) Hh) as (es & Hes & _). rewrite Hes. cbn [default].
    destruct (Hcan _ _ Hh Hes) as (bv & jv & rv & fb & rw & _ & _ & _ & _ & _ & _ & ->). done. }
  exists m', n'. split; [exact E|]. intros h. rewrite Hc. fold from target. case_decide as Hh; [|done].
  destruct (keeps_record _ _ _ _ h (Hk 0%nat) Hh) as (es & Hes & ->). by rewrite Hes.
Qed.

(** ** The C-chain: blocks *)

(** A block as the C-chain ingestion stores it: printed from a value that reads
    back, names its height and has a hash and transactions. *)
Definition canonical_block (h : N) (b : bytes) : Prop :=
  exists v text hash,
    json_wf_at 125 v = true /\ to_vec v = Some b /\
    (get_str "number" v ≫= fun s => u64_from_hex (trim_start_0x s)) = Some h /\
    get_str "hash" v = Some text /\ decode_hash text = Ok hash /\ is_Some (get "transactions" v).

Definition block_frame (payload : bytes) : option Message :=
  Some (Text (write_notification "eth_subscription" payload)).

Lemma next_ws_event_text t v e rest :
  from_slice (str_bytes t) = Some v -> classify_frame v = Some e ->
  next_ws_event (Some (Text t) :: rest) = (Some e, rest).
Proof. intros Hv He. unfold next_ws_event. cbn [next_ws_event_loop next_frame]. by rewrite Hv, He. Qed.

Lemma next_ws_event_skip t v rest :
  from_slice (str_bytes t) = Some v -> classify_frame v = None ->
  next_ws_event (Some (Text t) :: rest) = next_ws_event rest.
Proof.
  intros Hv He. unfold next_ws_event at 1. cbn [next_ws_event_loop next_frame]. rewrite Hv, He.
  apply next_ws_event_fuel; cbn; lia.
Qed.

(** A notification of such a block is a new block at its height. *)
Lemma canonical_event h b :
  canonical_block h b ->
  exists v text hash t, write_notification "eth_subscription" b = t /\
    (exists f, from_slice (str_bytes t) = Some f /\ classify_frame f = Some (NewBlock h text v)) /\
    to_vec v = Some b /\ get_str "hash" v = Some text /\ decode_hash text = Ok hash.
Proof.
  intros (v & text & hash & Hwf & Hv & Hn & Ht & Hd & Htx).
  assert (Hp : from_slice b = Some v) by (eapply from_to_vec; [|done]; by apply (json_wf_weaken 125); [lia|]).
  destruct (notification_reads "eth_subscription" b v Hp Hwf) as (f & Hf & Hm & Hres).
  exists v, text, hash, (write_notification "eth_subscription" b). split; [done|]. split; [|done].
  exists f. split; [done|]. unfold classify_frame. rewrite bool_decide_false.
  2:{ intros (_ & _ & Hno). unfold get_str in Hm. by rewrite Hno in Hm. }
  rewrite decide_False by (intros E; by apply E). rewrite Hres. cbn [mbind option_bind].
  destruct (get_str "number" v) as [num|] eqn:En; [|done]. cbn in Hn |- *. rewrite Ht. cbn. rewrite Hn. cbn.
  by rewrite bool_decide_true.
Qed.

Lemma bootstrap_loop_copies Good lo elapsed target (blk : N -> bytes) :
  takes Good lo target 2 -> (target < u64_max)%N -> (forall i, elapsed i = false) ->
  (forall h, (lo <= h <= target)%N -> canonical_block h (blk h)) ->
  forall fuel from i st, (lo <= from <= target)%N -> Good st -> (length (heights from target) < fuel)%nat ->
    exists st', bootstrap_loop fuel elapsed i target (map (fun h => block_frame (blk h)) (heights from target)) st
                  = (st', Ok tt) /\
      Good st' /\ copied (fun h => encode [blk h; EMPTY_ARRAY]) from target st st'.
Proof.
  intros Ht Hmax He Hblk. induction fuel as [|fuel IH]; intros from i st Hf Hg Hlen; [lia|].
  rewrite heights_cons in Hlen |- * by lia. cbn [map length] in *. cbn [bootstrap_loop]. rewrite He.
  destruct (canonical_event from (blk from)) as (v & text & hash & t & Hw & (f & Hff & Hcl) & Hv & Hh & Hd);
    [apply Hblk; lia|].
  unfold block_frame at 1. rewrite Hw, (next_ws_event_text _ _ _ _ Hff Hcl).
  destruct (Ht st from hash (extract_tx_hashes v) [blk from; EMPTY_ARRAY]) as (st1 & Hput & Hg1); [done|lia|done|].
  assert (Hpb : persist_backfilled from v EMPTY_ARRAY st = (st1, Ok tt)).
  { unfold persist_backfilled, bind, lift. rewrite Hh. cbn [ok_or]. by rewrite Hd, Hv. }
  rewrite Hpb. destruct (N.leb_spec target from) as [Hle|Hlt].
  - exists st1. split; [done|]. split; [done|].
    eapply copied_step; [lia|done|exact Hput|]. apply copied_none. lia.
  - destruct (IH (from + 1)%N (S i) st1) as (st' & E & Hg' & Hc); [lia|done|lia|].
    exists st'. split; [exact E|]. split; [done|]. by eapply copied_step; [lia| |exact Hput|exact Hc].
Qed.

(** The reply to the subscribe call is passed over. *)
Lemma bootstrap_loop_skip fuel elapsed target ack f rest st (Q : Storage * result unit -> Prop) :
  (forall i, elapsed i = false) -> from_slice (str_bytes ack) = Some f -> get "method" f = None ->
  (forall fuel' i, (fuel <= fuel')%nat -> Q (bootstrap_loop fuel' elapsed i target rest st)) ->
  Q (bootstrap_loop (S fuel) elapsed 0 target (Some (Text ack) :: rest) st).
Proof.
  intros He Hf Hm HQ. destruct (classify_frame f) as [e|] eqn:Ec.
  - assert (e = Subscribed) as ->.
    { unfold classify_frame, get_str in Ec. rewrite Hm in Ec. destruct (bool_decide _); [by injection Ec|].
      by rewrite decide_True in Ec. }
    cbn [bootstrap_loop]. rewrite He, (next_ws_event_text _ _ _ _ Hf Ec). by apply HQ.
  - assert (E : bootstrap_loop (S fuel) elapsed 0 target (Some (Text ack) :: rest) st
                = bootstrap_loop (S fuel) elapsed 0 target rest st).
    { cbn [bootstrap_loop]. by rewrite (next_ws_event_skip _ _ _ Hf Ec). }
    rewrite E. apply HQ. lia.
Qed.

Lemma oldblocks_stream fuel snap events a from target :
  (from <= target)%N -> (target < u64_max)%N -> (forall i, keeps a from target (snap i)) ->
  (N.to_nat (target + 1 - from) < fuel)%nat ->
  exists ack f, sub_stream C fuel snap events (request_text (oldblocks_request from target))
    = Some (Some (Text ack) :: map (fun h => block_frame (replay_text a false h)) (heights from target)) /\
    from_slice (str_bytes ack) = Some f /\ get "method" f = None.
Proof.
  intros Hle Hmax Hk Hf. unfold sub_stream. rewrite request_reads by done.
  rewrite decide_True by done.
  assert (E : eth_sub fuel snap events (get "params" (oldblocks_request from target)) =
    serve fuel C snap events {| sr_kind := OldBlocks; sr_from := Some from; sr_to := Some target |} ETH_SUB_KINDS).
  { change (eth_sub fuel snap events _) with
      (eth_subscribe fuel snap events "oldBlocks" (Some (hex_quantity from)) (Some (hex_quantity target))).
    unfold eth_subscribe, parse_opt_quantity. cbn [from_wire].
    rewrite !parse_quantity_roundtrip by (unfold is_u64, u64_max in *; lia). done. }
  rewrite E, (serve_keeps C snap events OldBlocks from target ETH_SUB_KINDS a fuel eq_refl); try done.
  2:{ apply (bool_decide_unpack (OldBlocks ∈ ETH_SUB_KINDS)). by vm_compute. }
  cbn [sub_frames wants_record]. rewrite map_map.
  destruct (subscribed_reads (default Null (get "id" (oldblocks_request from target))) (Ok tt) eq_refl) as (f & Hf1 & Hf2).
  by eexists _, f.
Qed.


End Replica.
