(* ===== verification/ReplicaLive.v ===== *)
(** * A mirror stays a replica

    Past its bootstrap a P-chain mirror follows the [newRecords] feed of its
    upstream.  The upstream announces each record it writes at the tip, the
    server pushes it, and the mirror verifies and stores it: the two stores go
    through the same writes. *)

From Stdlib Require Import ZArith NArith Lia String Ascii.
From S2P Require Import Prelude Str Json Chain Record Backing Storage StorageSpec Join Codec Upstream Http Socket.
From S2P Require Import EthFetch Progress Backfill Serve Subscribe Health EthIngest EthRpc PlatformIngest Mirror.
From S2P Require Import PlatformRpc Bulk Server Replica.

#[local] Open Scope string_scope.

Section Following.
Context {B : Blockstore} {F : Fjall} {J : JsonLib} {X : HexLib} {L : CodecLib} {H : Http} {W : WsLib H}.
Context {PL : PushLib}.
Context {BL : BlockstoreLaws B} {FL : FjallLaws F} {JL : JsonLaws J} {PLL : PushLaws}.

(** A write of the P-chain ingestion: the record of a verified block, its halves
    and its rewards printed from these values. *)
Definition record_write (bv jv rv : Value) (fb : FetchedBlock) (rw : bytes) (c : PutCmd) : Prop :=
  json_wf_at 124 jv = true /\ json_wf_at 124 bv = true /\ json_wf_at 124 rv = true /\
  verify bv jv None = Some fb /\ to_vec rv = Some rw /\
  c = {| cmd_height := fb_height fb; cmd_hash := fb_id fb; cmd_txs := fb_tx_ids fb;
         cmd_elements := fetched_elements fb rw |}.

(** The update that announces a write carries its whole record. *)
Definition announces (u : LiveUpdate) (c : PutCmd) : Prop :=
  exists bv jv rv fb rw, record_write bv jv rv fb rw c /\ lu_record u = Some (VArray [jv; bv; rv]).

(** ** The upstream announces what it writes *)

(** With a subscriber, a block written at the tip is announced with the record
    that was written. *)
Lemma p_emit_announces bv jv rv fb rw c clock tip r r' :
  record_write bv jv rv fb rw c -> (tip <= fb_height fb)%N -> pr_receivers r <> 0%nat ->
  p_emit clock fb rw tip r = (r', true) ->
  exists u, pr_live r' = (pr_live r ++ [u])%list /\ announces u c /\
            run_put c (pr_storage r) = (pr_storage r', Ok tt) /\ pr_receivers r' = pr_receivers r.
Proof.
  intros Hc Ht Hr. pose proof Hc as (Hj & Hb & Hrv & Hv & Hw & ->). unfold p_emit, store_block, run_put.
  cbn [cmd_height cmd_hash cmd_txs cmd_elements].
  destruct (put _ _ _ _ (pr_storage r)) as [st [[]|e]]; [|done].
  rewrite (proj2 (N.leb_le _ _) Ht). destruct (observe _ _ _ _ _) as [[p began] line].
  unfold announce. cbn [pr_receivers set_pr_report set_pr_storage].
  rewrite (proj2 (Nat.eqb_neq _ _) Hr). destruct (verify_texts _ _ _ _ Hv) as [Tj Tb].
  rewrite (from_to_vec jv (fb_json fb)); [|apply (json_wf_weaken 124); [lia|exact Hj]|exact Tj].
  intros [= <-]. cbn [pr_live pr_storage pr_receivers]. eexists. split; [done|]. split; [|done].
  exists bv, jv, rv, fb, rw. split; [done|]. cbn [lu_record]. rewrite encode_array_text. apply from_slice_array.
  - repeat constructor; by eapply to_vec_text.
  - repeat constructor; (eapply from_to_vec; [|eassumption]); by apply (json_wf_weaken 124); [lia|].
  - apply (json_wf_weaken 125); [lia|]. apply json_wf_items. by repeat constructor.
Qed.

(** The upstream emits these writes in turn, each at its tip. *)
Inductive emits : PRun -> list PutCmd -> PRun -> Prop :=
  | emits_nil r : emits r [] r
  | emits_cons bv jv rv fb rw c clock tip r r1 cs r2 :
      record_write bv jv rv fb rw c -> (tip <= fb_height fb)%N -> p_emit clock fb rw tip r = (r1, true) ->
      emits r1 cs r2 -> emits r (c :: cs) r2.

Lemma emits_announced r cs r' :
  emits r cs r' -> pr_receivers r <> 0%nat ->
  exists us, pr_live r' = (pr_live r ++ us)%list /\ Forall2 announces us cs /\
             run_puts cs (pr_storage r) = (pr_storage r', Ok tt).
Proof.
  induction 1 as [r|bv jv rv fb rw c clock tip r r1 cs r2 Hc Ht Hp _ IH]; intros Hr.
  - exists []. by rewrite app_nil_r.
  - destruct (p_emit_announces _ _ _ _ _ _ _ _ _ _ Hc Ht Hr Hp) as (u & Hl & Hu & Hput & Hrec).
    destruct IH as (us & Hl' & Hus & Hruns); [by rewrite Hrec|].
    exists (u :: us). split; [by rewrite Hl', Hl, <- app_assoc|]. split; [by constructor|].
    cbn [run_puts]. unfold bind. rewrite Hput. exact Hruns.
Qed.

(** ** The mirror makes the writes it hears of *)

(** Every update is sent. *)
Definition delivered (us : list LiveUpdate) : list Recv := map (fun u => RUpdate u true) us.

Lemma delivered_payloads us cs :
  Forall2 announces us cs -> exists vs, serve_live NewRecords (delivered us) = vs /\
    Forall2 (fun v c => exists bv jv rv fb rw, record_write bv jv rv fb rw c /\ v = VArray [jv; bv; rv]) vs cs.
Proof.
  induction 1 as [|u c us cs (bv & jv & rv & fb & rw & Hc & Hu) _ (vs & Hvs & Hall)]; [by exists []|].
  exists (VArray [jv; bv; rv] :: vs). cbn [delivered map serve_live project wants_record]. rewrite Hu.
  fold (delivered us). rewrite Hvs. split; [done|]. constructor; [|done]. by exists bv, jv, rv, fb, rw.
Qed.

Definition live_frame (v : Value) : option Message :=
  Some (Text (write_notification "platform.subscription" (default [] (to_vec v)))).

Lemma live_frame_reads bv jv rv fb rw c rest :
  record_write bv jv rv fb rw c ->
  exists f, next_frame (live_frame (VArray [jv; bv; rv]) :: rest) = (Some f, [], rest) /\
    notification_payload f = Some (VArray [jv; bv; rv]).
Proof.
  intros (Hj & Hb & Hrv & _). set (v := VArray [jv; bv; rv]).
  assert (Hwf : json_wf_at 125 v = true) by (apply json_wf_items; by repeat constructor).
  destruct (to_vec_total v) as [b Hv].
  assert (Hp : from_slice b = Some v) by (eapply from_to_vec; [by apply (json_wf_weaken 125); [lia|]|done]).
  destruct (notification_reads "platform.subscription" _ _ Hp Hwf) as (f & Hff & Hm & Hres).
  exists f. unfold live_frame. rewrite Hv. change (default [] (Some b)) with b. cbn [next_frame]. rewrite Hff. split; [done|].
  unfold notification_payload. rewrite Hm. cbn. by rewrite decide_False by (intros E; by apply E).
Qed.

(** A disk that takes these writes. *)
Definition takes_all (Good : Storage -> Prop) (cs : list PutCmd) : Prop :=
  forall st c, Good st -> c ∈ cs -> exists st', run_put c st = (st', Ok tt) /\ Good st'.

Lemma follow_loop_writes Good elapsed vs cs :
  (forall i, elapsed i = false) -> takes_all Good cs ->
  Forall2 (fun v c => exists bv jv rv fb rw, record_write bv jv rv fb rw c /\ v = VArray [jv; bv; rv]) vs cs ->
  forall fuel i m, (length vs < fuel)%nat -> Good (mi_storage m) ->
    exists m', follow_loop fuel elapsed i (map live_frame vs) m = (m', Ok tt) /\
      run_puts cs (mi_storage m) = (mi_storage m', Ok tt).
Proof.
  intros He Ht Hall. induction Hall as [|v c vs cs (bv & jv & rv & fb & rw & Hc & ->) _ IH];
    intros [|fuel] i m Hlen Hg; cbn [length] in Hlen; [lia| |lia|].
  - exists m. cbn. by rewrite He.
  - cbn [map follow_loop]. rewrite He.
    destruct (live_frame_reads _ _ _ _ _ _ (map live_frame vs) Hc) as (f & -> & ->).
    destruct (Ht (mi_storage m) c Hg) as (st1 & Hput & Hg1); [left|].
    pose proof Hc as (_ & _ & _ & Hv & Hw & Ec).
    rewrite (persist_canonical (cmd_height c) (cmd_elements c) bv jv rv fb rw (mi_storage m) st1);
      [|done|by rewrite Ec|done|by rewrite Ec|by unfold run_put in Hput; rewrite Ec in Hput |- *].
    destruct (IH ltac:(intros st c' Hst Hin; apply Ht; [done|by right]) fuel (S i)
                {| mi_storage := st1; mi_behind := 0; mi_count := mi_count m; mi_progress := mi_progress m |})
      as (m' & E & Hr); [lia|done|].
    exists m'. split; [exact E|]. cbn [run_puts]. unfold bind. rewrite Hput. exact Hr.
Qed.

(** The feed the server opens for the mirror's request. *)
Lemma newrecords_stream fuel snap events :
  exists ack f, sub_stream P fuel snap events (request_text newrecords_request)
    = Some (Some (Text ack) :: map live_frame (serve_live NewRecords events)) /\
    from_slice (str_bytes ack) = Some f /\ get "method" f = None.
Proof.
  unfold sub_stream. rewrite request_reads by (by vm_compute). rewrite decide_True by done.
  assert (E : platform_sub fuel snap events (get "params" newrecords_request) = LiveStream (serve_live NewRecords events))
    by reflexivity.
  rewrite E. cbn [sub_frames].
  destruct (subscribed_reads (default Null (get "id" newrecords_request)) (Ok tt) eq_refl) as (f & Hf1 & Hf2).
  by eexists _, f.
Qed.

Lemma follow_loop_skip fuel elapsed i ack f rest m :
  elapsed i = false -> from_slice (str_bytes ack) = Some f -> get "method" f = None ->
  follow_loop (S fuel) elapsed i (Some (Text ack) :: rest) m = follow_loop fuel elapsed (S i) rest m.
Proof.
  intros He Hf Hm. cbn [follow_loop next_frame]. rewrite He, Hf.
  assert (Hna : notification_payload f = None) by (unfold notification_payload, get_str; by rewrite Hm).
  by rewrite Hna.
Qed.

(** C7: A mirror that follows stays a replica.  Start from two stores with the
    same contents, the upstream's and the mirror's.  Let the upstream's ingestion
    emit any sequence of blocks at its tip while somebody listens, and let the
    server deliver what was announced; the mirror's disk takes the writes.  Then
    following the feed until it ends succeeds, the mirror has made the same
    writes in the same order, and the two stores again have the same contents:
    every read of either - by height, hash or transaction - answers alike. *)
Theorem mirror_stays_replica Good cfg elapsed m n r r' a us cs snap fuel w :
  refines (pr_storage r) a -> refines (mi_storage m) a -> index_sound a -> Forall cmd_ok cs ->
  pr_receivers r <> 0%nat -> emits r cs r' -> pr_live r' = (pr_live r ++ us)%list ->
  connect_async (cfg_ws_url cfg) (net_world n) = (w, Opened (sub_stream P fuel snap (delivered us))) ->
  takes_all Good cs -> Good (mi_storage m) -> (forall i, elapsed i = false) ->
  exists m' n', follow_tip cfg elapsed (m, n) = ((m', n'), Done (Ok tt)) /\
    run_puts cs (mi_storage m) = (mi_storage m', Ok tt) /\
    refines (pr_storage r') (abs_run cs a) /\ refines (mi_storage m') (abs_run cs a).
Proof.
  intros Hup Hm Hi Hok Hrec Hem Hlive Hws Ht Hg He.
  destruct (emits_announced _ _ _ Hem Hrec) as (us' & Hl & Hann & Hrun).
  assert (us' = us) as -> by (apply (app_inv_head (pr_live r)); congruence).
  destruct (delivered_payloads us cs Hann) as (vs & Hvs & Hall).
  destruct (newrecords_stream fuel snap (delivered us)) as (ack & f & Hst & Hf1 & Hf2).
  unfold follow_tip, open_stream, connect_ws, send_request, io_connect, io_bind, emit. rewrite Hws.
  cbn [io_ret net_world]. rewrite Hst. cbn [ok_or length]. rewrite length_map, Hvs.
  rewrite (follow_loop_skip _ _ _ _ _ _ _ (He 0%nat) Hf1 Hf2).
  destruct (follow_loop_writes Good elapsed vs cs He Ht Hall (S (length vs)) 1 m) as (m' & E & Hr); [lia|done|].
  rewrite E. eexists m', _. split; [done|]. split; [done|]. split.
  - exact (proj1 (run_puts_refines cs _ _ a Hup Hi Hok Hrun)).
  - exact (proj1 (run_puts_refines cs _ _ a Hm Hi Hok Hr)).
Qed.

End Following.
