(* ===== verification/ReplicaSessions.v ===== *)
(** * A mirror's sessions in sequence

    A P-chain mirror runs session after session ([mirror] in
    src/platform/mirror.rs): a bootstrap to the upstream's contiguous tip, then
    the [newRecords] feed until it ends or idles, then a wait and the next
    session.  Records announced between the end of the bootstrap and the
    subscription, or while the mirror was away, reach it through no feed: the
    next session's bootstrap starts at the first height lacked and fetches
    them.  The theorems run any number of sessions, cut anywhere, against an
    upstream whose records never change once accepted. *)

From Stdlib Require Import ZArith NArith Lia String Ascii.
From S2P Require Import Prelude Str Json Chain Record Backing Storage StorageSpec Join Codec Upstream Http Socket.
From S2P Require Import EthFetch Progress Backfill Serve Subscribe Health EthIngest EthRpc PlatformIngest Mirror.
From S2P Require Import PlatformRpc Bulk Server Replica ReplicaLive.

#[local] Open Scope string_scope.

Section Sessions.
Context {B : Blockstore} {F : Fjall} {J : JsonLib} {X : HexLib} {L : CodecLib} {H : Http} {W : WsLib H}.
Context {PL : PushLib}.
Context {BL : BlockstoreLaws B} {FL : FjallLaws F} {JL : JsonLaws J} {PLL : PushLaws}.

(** The settings, the floor of the mirror's store, the records of the chain's
    accepted blocks, the worlds of a working upstream and the stores of a
    working disk. *)
Variables (cfg : IngestCfg) (lo : N) (hist : gmap N (list bytes)).
Variables (Honest : World -> Prop) (Good : Storage -> Prop).

(** *** The upstream *)

(** A store of the upstream, at some moment: some of the history. *)
Definition holds (st : Storage) : Prop := exists a, refines st a /\ a_blocks a ⊆ hist.

(** A value that is an accepted record, at or past the mirror's floor. *)
Definition accepted_value (v : Value) : Prop :=
  exists es bv jv rv fb rw,
    v = VArray [jv; bv; rv] /\ (lo <= fb_height fb)%N /\ hist !! fb_height fb = Some es /\
    record_write bv jv rv fb rw
      {| cmd_height := fb_height fb; cmd_hash := fb_id fb; cmd_txs := fb_tx_ids fb; cmd_elements := es |}.

(** What the feed is given: accepted records, or updates without one. *)
Definition announced (e : Recv) : Prop :=
  match e with
  | RUpdate u _ => forall v, lu_record u = Some v -> accepted_value v
  | _ => True
  end.

(** A socket to a server of the history. *)
Definition serves_history (s : Socket) : Prop :=
  exists fuel snap events, (forall text, s text = sub_stream P fuel snap events text) /\
    (forall i, holds (snap i)) /\ Forall announced events.

(** The upstream reports no contiguous tip below the mirror's floor, and its
    sockets serve the history; it may fail, refuse and throttle at will. *)
Record HonestUpstream : Prop := {
  hu_get : forall w w' r, Honest w ->
    http_get (trim_end_slash (cfg_rpc_url cfg) ++ "/health") w = (w', r) ->
    Honest w' /\ forall status header v t,
      r = Response status header (Some v) -> upstream_blocks_field v P "max_contiguous_height" = Some t -> (lo <= t)%N;
  hu_socket : forall w w' r, Honest w -> connect_async (cfg_ws_url cfg) w = (w', r) ->
    Honest w' /\ forall s, r = Opened s -> serves_history s
}.

(** The accepted records are in their canonical form, and the disk takes them. *)
Record WorkingHistory : Prop := {
  wh_canonical : forall h es, hist !! h = Some es -> canonical_record h es;
  wh_range : forall h es, hist !! h = Some es -> (h < u64_max)%N;
  wh_disk : forall st h es hash txs, Good st -> (lo <= h)%N -> hist !! h = Some es ->
    exists st', put h hash txs es st = (st', Ok tt) /\ Good st'
}.

Hypothesis HU : HonestUpstream.
Hypothesis HW : WorkingHistory.

(** ** The invariant *)

(** Every record the mirror holds is the accepted one, and its store is
    anchored at its floor, or still empty and about to be. *)
Record Tracks (st : Storage) : Prop := {
  tr_agrees : forall h b, stored st h = Ok (Some b) -> exists es, hist !! h = Some es /\ b = encode es;
  tr_good : Good st;
  tr_floor : (anchored st /\ min_height st = lo) \/
             (st_store st = None /\ anchor_for st lo = lo /\ default 0%N (cfg_backfill_floor cfg) = lo)
}.

(** The mirror went on tracking and lost nothing. *)
Definition advances (st st' : Storage) : Prop :=
  Tracks st' /\ (forall h b, stored st h = Ok (Some b) -> stored st' h = Ok (Some b)) /\
  (anchored st -> anchored st').

Lemma advances_refl st : Tracks st -> advances st st.
Proof. by intros Ht. Qed.

Lemma advances_trans st st1 st' : advances st st1 -> advances st1 st' -> advances st st'.
Proof. intros (_ & H1 & A1) (Ht & H2 & A2). split; [done|]. split; auto. Qed.

(** One accepted record is stored. *)
Lemma put_advances st h es hash txs st' :
  Tracks st -> (lo <= h)%N -> hist !! h = Some es -> (anchored st \/ h = lo) ->
  put h hash txs es st = (st', Ok tt) -> Good st' -> advances st st' /\ anchored st'.
Proof.
  intros [Hag Hg Hfl] Hlo Hes Hat Hp Hg'.
  pose proof (put_stored_all _ _ _ _ _ _ Hp) as Hst.
  assert (Hnew : anchored st' /\ min_height st' = lo).
  { destruct Hfl as [[(s & Hs & Hm) Hmin]|(Hs & Ha & _)].
    - destruct (put_contiguous_mono _ _ _ _ _ _ (ex_intro _ s (conj Hs Hm)) Hp) as [Ha' _]. split; [done|].
      rewrite (put_min _ _ _ _ _ _ _ Hp Hs). unfold min_height in Hmin. by rewrite Hs in Hmin.
    - destruct Hat as [(s & Hs' & _)| ->]; [congruence|].
      by destruct (put_first_anchored _ _ _ _ _ _ Hs Ha Hp) as (Ha' & Hmin & _). }
  split; [|apply Hnew]. split; [split; [|done|by left]|split; [|by intros _; apply Hnew]].
  - intros h' b. rewrite Hst. case_decide as E; [|apply Hag]. intros [= <-]. subst h'. eauto.
  - intros h' b Hb. rewrite Hst. case_decide as E; [|done]. subst h'.
    destruct (Hag _ _ Hb) as (es' & Hes' & ->). congruence.
Qed.

(** Verifying and storing an accepted record. *)
Lemma persist_accepted v es fb st :
  Tracks st -> (lo <= fb_height fb)%N -> hist !! fb_height fb = Some es -> (anchored st \/ fb_height fb = lo) ->
  (exists bv jv rv rw, v = VArray [jv; bv; rv] /\ verify bv jv None = Some fb /\ to_vec rv = Some rw /\
                       es = fetched_elements fb rw) ->
  exists st', persist_record v st = (st', Some (fb_height fb)) /\ advances st st' /\ anchored st'.
Proof.
  intros Ht Hlo Hes Hat (bv & jv & rv & rw & -> & Hv & Hrw & E).
  destruct (wh_disk HW st _ es (fb_id fb) (fb_tx_ids fb) (tr_good _ Ht) Hlo Hes) as (st' & Hp & Hg').
  exists st'. split; [by eapply persist_canonical|]. by eapply put_advances.
Qed.

(** ** What the server sends *)

(** [k] heights from [h] up. *)
Definition run_from (h : N) (k : nat) : list N := (fun i => (h + N.of_nat i)%N) <$> seq 0 k.

Lemma run_from_cons h k : run_from h (S k) = h :: run_from (h + 1) k.
Proof.
  unfold run_from. cbn [seq fmap list_fmap]. f_equal; [lia|]. rewrite <- seq_shift, <- list_fmap_compose.
  apply list_fmap_ext. intros _ i _. cbn. lia.
Qed.

Definition hist_text (h : N) : bytes := encode (default [] (hist !! h)).

(** A replay over stores of the history sends accepted records of consecutive
    heights, from the first one asked for. *)
Lemma replay_history snap to : (forall i, holds (snap i)) ->
  forall fuel pass h, exists k closed,
    replay fuel snap true to pass h = (map hist_text (run_from h k), closed) /\
    Forall (fun h' => is_Some (hist !! h')) (run_from h k).
Proof.
  intros Hs. induction fuel as [|fuel IH]; intros pass h; cbn [replay]; [by exists 0%nat, false|].
  destruct (_ <? h)%N; [by exists 0%nat, true|].
  destruct (Hs pass) as (a & Hr & Hsub). unfold replay_bytes at 1. rewrite (get_record_refines _ _ h Hr).
  destruct (a_blocks a !! h) as [es|] eqn:Hes; [|by exists 0%nat, true]. cbn [fmap option_fmap option_map].
  pose proof (lookup_weaken _ _ _ _ Hes Hsub) as Hh.
  destruct (ref_records _ _ Hr _ _ Hes) as [Hlen _].
  destruct (lookup_lt_is_Some_2 es BLOCK) as [block Hb];
    [pose proof (arity_ge_2 (st_chain (snap pass))); unfold BLOCK; lia|].
  destruct (refines_serves _ a true h es block Hr Hes Hb) as (b & Hrb & Hm).
  unfold replay_bytes in Hrb. rewrite (get_record_refines _ _ h Hr), Hes in Hrb. injection Hrb as <-.
  rewrite Hm, sat_add_exact by (pose proof (wh_range HW _ _ Hh); sat_lia).
  destruct (IH (S pass) (h + 1)%N) as (k & closed & -> & Hall).
  exists (S k), closed. rewrite run_from_cons. cbn [map]. unfold hist_text at 2. rewrite Hh. split; [done|].
  constructor; [by eexists|done].
Qed.

(** The notifications of a subscription, past the reply to its call. *)
Definition pushes (method : string) (o : SubOutcome) : list (option Message) :=
  match o with
  | Rejected _ => []
  | Streamed msgs _ => map (fun m => Some (Text (write_notification method m))) msgs
  | LiveStream payloads => map (fun v => Some (Text (write_notification method (default [] (to_vec v))))) payloads
  end.

(** A frame the mirror passes over. *)
Definition skipped (ack : string) : Prop :=
  exists f, from_slice (str_bytes ack) = Some f /\ get "method" f = None.

Lemma sub_frames_pushes method id o :
  json_wf_at 126 id = true ->
  exists ack, sub_frames method id o = Some (Text ack) :: pushes method o /\ skipped ack.
Proof. intros Hid. destruct o; (eexists; split; [reflexivity|by apply subscribed_reads]). Qed.

Lemma check_range_start st from to start : check_range st (Some from) to = Ok start -> start = from.
Proof. unfold check_range. repeat case_match; naive_solver. Qed.

(** The stream the mirror's bootstrap reads. *)
Lemma oldrecords_history s from target msgs :
  serves_history s -> s (request_text (oldrecords_request from target)) = Some msgs ->
  exists ack k, msgs = Some (Text ack) :: map (fun h => record_frame (hist_text h)) (run_from from k) /\ skipped ack /\
    Forall (fun h => is_Some (hist !! h)) (run_from from k).
Proof.
  intros (fuel & snap & events & Heq & Hs & _). rewrite Heq. unfold sub_stream.
  rewrite request_reads by (by vm_compute). rewrite decide_True by done.
  assert (E : platform_sub fuel snap events (get "params" (oldrecords_request from target)) =
    serve fuel P snap events {| sr_kind := OldRecords; sr_from := Some from; sr_to := Some target |} PLATFORM_SUB_KINDS)
    by reflexivity.
  rewrite E. clear E.
  destruct (sub_frames_pushes "platform.subscription" (default Null (get "id" (oldrecords_request from target)))
    (serve fuel P snap events {| sr_kind := OldRecords; sr_from := Some from; sr_to := Some target |} PLATFORM_SUB_KINDS)
    eq_refl) as (ack & -> & Hack).
  intros [= <-]. exists ack. unfold serve. cbn [sr_kind sr_from sr_to]. change (is_live OldRecords) with false.
  destruct (negb _); [by exists 0%nat|]. destruct (_ && _); [by exists 0%nat|]. cbn iota.
  destruct (check_range _ _ _) as [start|e] eqn:Hc; [|by exists 0%nat].
  apply check_range_start in Hc as ->. cbn [wants_record].
  destruct (replay_history snap (Some target) Hs fuel 1 from) as (k & closed & -> & Hall).
  exists k. cbn [pushes]. by rewrite map_map.
Qed.

(** The feed the mirror follows. *)
Lemma newrecords_history s msgs :
  serves_history s -> s (request_text newrecords_request) = Some msgs ->
  exists ack vs, msgs = Some (Text ack) :: map live_frame vs /\ skipped ack /\ Forall accepted_value vs.
Proof.
  intros (fuel & snap & events & Heq & _ & Hev). rewrite Heq.
  destruct (newrecords_stream fuel snap events) as (ack & f & -> & Hf1 & Hf2). intros [= <-].
  exists ack, (serve_live NewRecords events). split; [done|]. split; [by exists f|].
  clear Heq. induction Hev as [|[u ok|n| |] events He _ IH]; cbn [serve_live]; auto.
  cbn [project wants_record]. destruct (lu_record u) as [v|] eqn:Hu; [|exact IH].
  destruct ok; [|constructor]. constructor; [by apply He|done].
Qed.

(** ** A session tracks *)

Lemma mirror_loop_tracks elapsed clock target fuel : forall k from i m m' r,
  mirror_loop fuel elapsed clock i target (map (fun h => record_frame (hist_text h)) (run_from from k)) m = (m', r) ->
  Tracks (mi_storage m) -> (lo <= from)%N -> (anchored (mi_storage m) \/ from = lo) ->
  Forall (fun h => is_Some (hist !! h)) (run_from from k) ->
  advances (mi_storage m) (mi_storage m') /\ (r = Ok tt -> anchored (mi_storage m')).
Proof.
  induction fuel as [|fuel IH]; intros k from i m m' r; cbn [mirror_loop].
  { intros [= <- <-] Ht. by split; [apply advances_refl|]. }
  destruct (elapsed i); [intros [= <- <-] Ht; by split; [apply advances_refl|]|].
  destruct k as [|k]; [intros [= <- <-] Ht; by split; [apply advances_refl|]|].
  rewrite run_from_cons. cbn [map]. intros E Ht Hlo Hat [[es Hes] Hall]%Forall_cons.
  destruct (canonical_reads from es (wh_canonical HW _ _ Hes)) as (bv & jv & rv & fb & rw & Hp & Hwf & Hv & Hh & Hrw & Hel).
  assert (Htx : hist_text from = encode es) by (unfold hist_text; by rewrite Hes).
  destruct (notification_reads "platform.subscription" _ _ Hp Hwf) as (f & Hff & Hm & Hres).
  unfold record_frame at 1 in E. rewrite Htx in E. cbn [next_frame] in E. rewrite Hff in E.
  assert (Hpay : notification_payload f = Some (VArray [jv; bv; rv])).
  { unfold notification_payload. rewrite Hm. cbn. by rewrite decide_False by (intros E'; by apply E'). }
  rewrite Hpay in E. subst from.
  destruct (persist_accepted (VArray [jv; bv; rv]) es fb (mi_storage m)) as (st1 & Hper & Hadv & Han);
    [done..|by exists bv, jv, rv, rw|].
  rewrite Hper in E. destruct (observe _ _ _ _ _) as [[p began] line]. cbv zeta in E.
  destruct (target <=? fb_height fb)%N.
  - injection E as <- <-. cbn [mi_storage]. by split.
  - destruct (IH _ _ _ _ _ _ E) as [Hadv' Hok]; cbn [mi_storage];
      [apply Hadv|lia|by left|done|].
    split; [|done]. by eapply advances_trans.
Qed.

Lemma follow_loop_tracks elapsed fuel : forall vs i m m' r,
  follow_loop fuel elapsed i (map live_frame vs) m = (m', r) ->
  Tracks (mi_storage m) -> anchored (mi_storage m) -> Forall accepted_value vs ->
  advances (mi_storage m) (mi_storage m').
Proof.
  induction fuel as [|fuel IH]; intros vs i m m' r; cbn [follow_loop].
  { intros [= <- <-] Ht _ _. by apply advances_refl. }
  destruct (elapsed i); [intros [= <- <-] Ht _ _; by apply advances_refl|].
  destruct vs as [|v vs]; [intros [= <- <-] Ht _ _; by apply advances_refl|].
  cbn [map]. intros E Ht Ha [(es & bv & jv & rv & fb & rw & -> & Hlo & Hes & Hc) Hall]%Forall_cons.
  destruct (live_frame_reads _ _ _ _ _ _ (map live_frame vs) Hc) as (f & Ef & Epay).
  rewrite Ef, Epay in E. pose proof Hc as (_ & _ & _ & Hv & Hrw & [= Hel]).
  destruct (persist_accepted (VArray [jv; bv; rv]) es fb (mi_storage m)) as (st1 & Hper & Hadv & Han);
    [done..|by left|by exists bv, jv, rv, rw|].
  rewrite Hper in E. eapply advances_trans; [exact Hadv|].
  apply (IH _ _ _ _ _ E); [apply Hadv|done|done].
Qed.

(** The first height lacked, and what is held below it. *)
Lemma tracks_from st :
  Tracks st -> (lo <= mirror_from cfg st)%N /\ (anchored st \/ mirror_from cfg st = lo) /\
  forall h, (lo <= h < mirror_from cfg st)%N -> exists es, hist !! h = Some es /\ stored st h = Ok (Some (encode es)).
Proof.
  intros [Hag _ [[Ha Hmin]|(Hs & _ & Hfl)]]; unfold mirror_from, is_empty.
  - pose proof (anchored_min _ Ha) as Hle. pose proof Ha as (s & Hs & Hm). rewrite Hs, bool_decide_false by done.
    assert (Hall : forall h, (lo <= h <= max_contiguous_height st)%N ->
              exists es, hist !! h = Some es /\ stored st h = Ok (Some (encode es))).
    { intros h Hh. unfold max_contiguous_height, min_height in *. rewrite Hs in Hh, Hmin.
      destruct (contiguous_present s h Hm) as [b Hb]; [lia|].
      assert (Hst : stored st h = Ok (Some b)) by (unfold stored; by rewrite Hs).
      destruct (Hag _ _ Hst) as (es & Hes & ->). eauto. }
    destruct (Hall (max_contiguous_height st)) as (es & Hes & _); [lia|].
    rewrite sat_add_exact by (pose proof (wh_range HW _ _ Hes); sat_lia).
    split; [lia|]. split; [by left|]. intros h Hh. apply Hall. lia.
  - rewrite Hs, bool_decide_true, Hfl by done. split; [lia|]. split; [by right|]. lia.
Qed.

Lemma open_stream_honest body n n' out :
  open_stream cfg body n = (n', out) -> Honest (net_world n) ->
  Honest (net_world n') /\ forall msgs, out = Done (Ok msgs) ->
    exists s, serves_history s /\ s (request_text body) = Some msgs.
Proof.
  intros E Hn. split.
  - revert E. unfold open_stream, connect_ws, io_connect, io_bind.
    destruct (connect_async (cfg_ws_url cfg) (net_world n)) as [w hs] eqn:Ec.
    destruct (hu_socket HU _ _ _ Hn Ec) as [Hw _].
    destruct hs as [s|status ra|]; [by intros [= <- _]| |by intros [= <- _]].
    destruct (is_throttle status); [|by intros [= <- _]].
    unfold io_throttle. destruct (handle_throttle _ _); by intros [= <- _].
  - intros msgs ->. destruct (open_stream_ok _ _ _ _ _ E) as (_ & w & s & Hc & Hs).
    destruct (hu_socket HU _ _ _ Hn Hc) as [_ Hserve]. eauto.
Qed.

Lemma bootstrap_tracks elapsed clock now m n m' n' out :
  mirror_bootstrap cfg elapsed clock now (m, n) = ((m', n'), out) ->
  Honest (net_world n) -> Tracks (mi_storage m) ->
  advances (mi_storage m) (mi_storage m') /\ Honest (net_world n') /\
  (out = Done (Ok tt) -> anchored (mi_storage m')).
Proof.
  intros E Hn Ht. destruct (tracks_from _ Ht) as (Hlo & Hat & _).
  unfold mirror_bootstrap, p_fetch_upstream_contiguous, io_get, io_bind in E.
  destruct (http_get _ (net_world n)) as [w resp] eqn:Eg. destruct (hu_get HU _ _ _ Hn Eg) as [Hw Htip]. cbn [io_ret] in E.
  destruct (match resp with SendError => _ | _ => _ end) as [target|e] eqn:Er;
    [|injection E as <- <- <-; by split; [apply advances_refl|]].
  assert (Htl : (lo <= target)%N).
  { destruct resp as [|status ra [v|]]; [done| |by destruct (negb _)]. destruct (negb _); [done|].
    apply (Htip status ra v); [done|]. unfold ok_or in Er. destruct (upstream_blocks_field _ _ _); congruence. }
  destruct (N.ltb_spec target (mirror_from cfg (mi_storage m))) as [Hlt|Hge].
  { injection E as <- <- <-. split; [by apply advances_refl|]. split; [done|]. intros _. destruct Hat; [done|lia]. }
  destruct (observe _ _ _ _ _) as [[p began] line]. cbv zeta in E.
  destruct (open_stream cfg _ _) as [n2 o2] eqn:Eo.
  destruct (open_stream_honest _ _ _ _ Eo Hw) as [Hn2 Hopen].
  destruct o2 as [[msgs|e]|]; [|injection E as <- <- <-; by split; [apply (advances_refl _ Ht)|]..].
  destruct (Hopen msgs eq_refl) as (s & Hserve & Hmsgs).
  destruct (oldrecords_history _ _ _ _ Hserve Hmsgs) as (ack & k & -> & (f & Hf1 & Hf2) & Hall).
  destruct (mirror_loop _ _ _ _ _ _ _) as [m1 r1] eqn:El. injection E as <- <- <-.
  destruct (elapsed 0%nat) eqn:E0.
  { cbn [mirror_loop] in El. rewrite E0 in El. injection El as <- <-. by split; [apply (advances_refl _ Ht)|]. }
  cbn [length] in El. rewrite (mirror_loop_skip _ _ _ _ _ _ _ _ _ E0 Hf1 Hf2) in El.
  destruct (mirror_loop_tracks _ _ _ _ _ _ _ _ _ _ El Ht Hlo Hat Hall) as [Hadv Hok].
  split; [exact Hadv|]. split; [done|]. intros [= ->]. by apply Hok.
Qed.

Lemma follow_tracks elapsed m n m' n' out :
  follow_tip cfg elapsed (m, n) = ((m', n'), out) ->
  Honest (net_world n) -> Tracks (mi_storage m) -> anchored (mi_storage m) ->
  advances (mi_storage m) (mi_storage m') /\ Honest (net_world n').
Proof.
  intros E Hn Ht Ha. unfold follow_tip in E.
  destruct (open_stream cfg _ n) as [n2 o2] eqn:Eo.
  destruct (open_stream_honest _ _ _ _ Eo Hn) as [Hn2 Hopen].
  destruct o2 as [[msgs|e]|]; [|injection E as <- <- <-; by split; [apply advances_refl|]..].
  destruct (Hopen msgs eq_refl) as (s & Hserve & Hmsgs).
  destruct (newrecords_history _ _ Hserve Hmsgs) as (ack & vs & -> & (f & Hf1 & Hf2) & Hall).
  destruct (follow_loop _ _ _ _ _) as [m1 r1] eqn:El. injection E as <- <- <-. split; [|done].
  destruct (elapsed 0%nat) eqn:E0.
  { cbn [follow_loop] in El. rewrite E0 in El. injection El as <- <-. by apply advances_refl. }
  cbn [length] in El. rewrite (follow_loop_skip _ _ _ _ _ _ _ E0 Hf1 Hf2) in El.
  by eapply follow_loop_tracks.
Qed.

Lemma turn_tracks elapsed elapsed' clock now attempt m n m' n' out :
  mirror_turn cfg elapsed elapsed' clock now attempt (m, n) = ((m', n'), out) ->
  Honest (net_world n) -> Tracks (mi_storage m) -> advances (mi_storage m) (mi_storage m').
Proof.
  intros E Hn Ht. unfold mirror_turn, mirror_session in E.
  destruct (mirror_bootstrap cfg elapsed clock now (m, n)) as [[m1 n1] o1] eqn:Eb.
  destruct (bootstrap_tracks _ _ _ _ _ _ _ _ Eb Hn Ht) as (Hadv & Hn1 & Ha).
  destruct o1 as [[[]|e]|]; [|by simplify_eq..].
  destruct (follow_tip cfg elapsed' (m1, n1)) as [[m2 n2] o2] eqn:Ef.
  destruct (follow_tracks _ _ _ _ _ _ Ef Hn1 (proj1 Hadv) (Ha eq_refl)) as [Hadv2 _].
  assert (m2 = m') as <- by (destruct o2; by simplify_eq). by eapply advances_trans.
Qed.

(** ** Any number of sessions *)

(** The turns of [mirror], each with its own timers, and the world between them
    whatever it has become. *)
Inductive mirror_turns : N * MirrorSt -> N * MirrorSt -> Prop :=
  | turns_nil s : mirror_turns s s
  | turns_cons elapsed elapsed' clock now attempt m n m1 n1 attempt1 wait s :
      Honest (net_world n) ->
      mirror_turn cfg elapsed elapsed' clock now attempt (m, n) = ((m1, n1), Done (attempt1, wait)) ->
      mirror_turns (attempt1, m1) s -> mirror_turns (attempt, m) s.

Lemma turns_track s s' : mirror_turns s s' -> Tracks (mi_storage s.2) -> advances (mi_storage s.2) (mi_storage s'.2).
Proof.
  induction 1 as [s|elapsed elapsed' clock now attempt m n m1 n1 attempt1 wait s Hn E _ IH]; intros Ht.
  - by apply advances_refl.
  - pose proof (turn_tracks _ _ _ _ _ _ _ _ _ _ E Hn Ht) as Hadv.
    eapply advances_trans; [exact Hadv|]. apply IH, Hadv.
Qed.

(** Every height from the floor to [target] is held. *)
Definition complete (target : N) (st : Storage) : Prop :=
  forall h, (lo <= h <= target)%N -> exists es, hist !! h = Some es /\ stored st h = Ok (Some (encode es)).

(** A bootstrap left undisturbed completes the range, and the turn goes on from
    there. *)
Lemma turn_copies elapsed' clock now attempt m n up snap events a fuel w1 w2 m' n' out :
  let from := mirror_from cfg (mi_storage m) in
  let target := max_contiguous_height (cs_storage up) in
  Tracks (mi_storage m) -> Honest (net_world n) -> reports (cfg_rpc_url cfg) P up n w1 ->
  connect_async (cfg_ws_url cfg) w1 = (w2, Opened (sub_stream P fuel snap events)) ->
  (from <= target)%N -> (target < u64_max)%N -> a_blocks a ⊆ hist ->
  (forall i, keeps a from target (snap i)) -> (N.to_nat (target + 1 - from) < fuel)%nat ->
  mirror_turn cfg (fun _ => false) elapsed' clock now attempt (m, n) = ((m', n'), out) ->
  exists m1, complete target (mi_storage m1) /\ advances (mi_storage m1) (mi_storage m').
Proof.
  intros from target Ht Hn Hrep Hws Hle Hmax Hsub Hk Hf E.
  destruct (tracks_from _ Ht) as (Hlo & _ & Hbelow). fold from in Hlo, Hbelow.
  assert (Hrec : forall h, (from <= h <= target)%N -> exists es, a_blocks a !! h = Some es /\ hist !! h = Some es).
  { intros h Hh. destruct (keeps_record _ _ _ _ h (Hk 0%nat) Hh) as (es & Hes & _).
    exists es. split; [done|]. by eapply lookup_weaken. }
  destruct (mirror_copies Good cfg (fun _ => false) clock now m n up snap events a fuel w1 w2)
    as (m1 & n1 & Eb & Hn1 & Hg1 & Hc); try done.
  { intros h es Hh Hes. apply (wh_canonical HW). by eapply lookup_weaken. }
  { intros st h hash txs Hg Hh. destruct (Hrec h Hh) as (es & -> & Hes). cbn [default].
    apply (wh_disk HW); [done| |done]. fold from in Hh. lia. }
  { apply Ht. }
  destruct (bootstrap_tracks _ _ _ _ _ _ _ _ Eb Hn Ht) as (Hadv & Hw & Ha).
  exists m1. split.
  - intros h Hh. fold from target in Hc. rewrite Hc. case_decide as Hin; [|apply Hbelow; lia].
    destruct (Hrec h Hin) as (es & -> & Hes). by exists es.
  - unfold mirror_turn, mirror_session in E. rewrite Eb in E.
    destruct (follow_tip cfg elapsed' (m1, n1)) as [[m2 n2] o2] eqn:Ef.
    destruct (follow_tracks _ _ _ _ _ _ Ef Hw (proj1 Hadv) (Ha eq_refl)) as [Hadv2 _].
    destruct o2; by simplify_eq.
Qed.

(** C5: A mirror heals.  Run any number of sessions of a P-chain mirror against an
    upstream that serves the accepted history - each cut off anywhere by its idle
    timer, by the end of its stream, by a failed or refused connection, with
    records announced that the mirror never heard of.  Then let the upstream
    answer one more session and let its bootstrap run undisturbed: however the
    rest of that turn ends, the mirror holds, byte for byte, the accepted record
    of every height from its floor to the upstream's contiguous tip - no gap of
    an earlier session is left - and at no height anything but the accepted
    record; and nothing it ever held was lost. *)
Theorem mirror_heals elapsed' clock now attempt0 m0 attempt m n up snap events a fuel w1 w2 m' n' out :
  let from := mirror_from cfg (mi_storage m) in
  let target := max_contiguous_height (cs_storage up) in
  Tracks (mi_storage m0) -> mirror_turns (attempt0, m0) (attempt, m) ->
  Honest (net_world n) -> reports (cfg_rpc_url cfg) P up n w1 ->
  connect_async (cfg_ws_url cfg) w1 = (w2, Opened (sub_stream P fuel snap events)) ->
  (target < u64_max)%N -> a_blocks a ⊆ hist ->
  (forall i, keeps a from target (snap i)) -> (N.to_nat (target + 1 - from) < fuel)%nat ->
  mirror_turn cfg (fun _ => false) elapsed' clock now attempt (m, n) = ((m', n'), out) ->
  (forall h, (lo <= h <= target)%N -> exists es, hist !! h = Some es /\ stored (mi_storage m') h = Ok (Some (encode es))) /\
  (forall h b, stored (mi_storage m') h = Ok (Some b) -> exists es, hist !! h = Some es /\ b = encode es) /\
  (forall h b, stored (mi_storage m0) h = Ok (Some b) -> stored (mi_storage m') h = Ok (Some b)).
Proof.
  intros from target Ht0 Hturns Hn Hrep Hws Hmax Hsub Hk Hf E.
  pose proof (turns_track _ _ Hturns Ht0) as Hadv0. cbn [snd] in Hadv0.
  pose proof (turn_tracks _ _ _ _ _ _ _ _ _ _ E Hn (proj1 Hadv0)) as Hadv1.
  split; [|split; [apply Hadv1|apply (advances_trans _ _ _ Hadv0 Hadv1)]].
  assert (Hend : exists m1, complete target (mi_storage m1) /\ advances (mi_storage m1) (mi_storage m')).
  { destruct (N.ltb_spec target from) as [Hlt|Hle].
    - exists m. split; [|done]. intros h Hh. apply (tracks_from _ (proj1 Hadv0)). fold from. lia.
    - exact (turn_copies _ _ _ _ _ _ _ _ _ _ _ _ _ _ _ _ (proj1 Hadv0) Hn Hrep Hws Hle Hmax Hsub Hk Hf E). }
  destruct Hend as (m1 & Hc & _ & Hkeep & _). intros h Hh. destruct (Hc h Hh) as (es & Hes & Hst). eauto.
Qed.

End Sessions.
