(* ===== verification/ReplicaBlocks.v ===== *)
(** * A C-chain mirror stays a replica

    Past its bootstrap a C-chain mirror follows the [newBlocks] feed of its
    upstream: whole blocks, so nothing is fetched.  The upstream announces each
    block it makes durable, the server pushes it, and the mirror's session checks
    and stores it; without log ingestion the two stores go through the same
    writes. *)

From Stdlib Require Import ZArith NArith Lia String Ascii.
From S2P Require Import Prelude Str Json Chain Record Backing Storage StorageSpec Join Codec Upstream Http Socket.
From S2P Require Import EthFetch Progress Backfill Serve Subscribe Health EthIngest EthRpc PlatformIngest Mirror.
From S2P Require Import PlatformRpc Bulk Server Replica ReplicaLive.

#[local] Open Scope string_scope.

Section Blocks.
Context {B : Blockstore} {F : Fjall} {J : JsonLib} {X : HexLib} {L : CodecLib} {H : Http} {W : WsLib H}.
Context {PL : PushLib}.
Context {BL : BlockstoreLaws B} {FL : FjallLaws F} {JL : JsonLaws J} {PLL : PushLaws}.

(** A block with its write: it names its height and hash, carries its
    transactions and prints to the stored bytes. *)
Definition block_write (v : Value) (text : string) (c : PutCmd) : Prop :=
  json_wf_at 125 v = true /\
  (get_str "number" v ≫= fun s => u64_from_hex (trim_start_0x s)) = Some (cmd_height c) /\
  get_str "hash" v = Some text /\ decode_hash text = Ok (cmd_hash c) /\ is_Some (get "transactions" v) /\
  cmd_txs c = extract_tx_hashes v /\ exists b, to_vec v = Some b /\ cmd_elements c = [b; EMPTY_ARRAY].

(** Persisting it is that write, and an announcement. *)
Lemma persist_block_writes v text c nd st :
  block_write v text c -> run_put c (nd_storage nd) = (st, Ok tt) ->
  persist_block (cmd_height c) text v nd
  = (announce_block v (set_nd_buf (set_storage st (nd_buf nd)) nd), Ok tt).
Proof.
  intros (_ & _ & Ht & Hd & _ & Htx & b & Hb & He) Hp. unfold persist_block, prepare_block, run_put in *.
  rewrite Ht. cbn [default]. rewrite decide_False by (intros E; by apply E).
  rewrite Hd, Hb, <- Htx, <- He. by rewrite Hp.
Qed.

(** ** The upstream announces what it writes *)

(** The upstream makes these blocks durable in turn. *)
Inductive persists : Node -> list Value -> list PutCmd -> Node -> Prop :=
  | persists_nil nd : persists nd [] [] nd
  | persists_cons v text c nd nd1 vs cs nd2 :
      block_write v text c -> persist_block (cmd_height c) text v nd = (nd1, Ok tt) ->
      persists nd1 vs cs nd2 -> persists nd (v :: vs) (c :: cs) nd2.

Definition block_update (v : Value) : LiveUpdate := {| lu_block := v; lu_record := None |}.

Lemma persists_announced nd vs cs nd' :
  persists nd vs cs nd' -> nd_receivers nd <> 0%nat ->
  nd_live nd' = (nd_live nd ++ map block_update vs)%list /\
  Forall2 (fun v c => exists text, block_write v text c) vs cs /\
  run_puts cs (nd_storage nd) = (nd_storage nd', Ok tt).
Proof.
  induction 1 as [nd|v text c nd nd1 vs cs nd2 Hc Hp _ IH]; intros Hr; [by rewrite app_nil_r|].
  assert (exists st, run_put c (nd_storage nd) = (st, Ok tt)) as [st Hst].
  { pose proof Hc as (_ & _ & Ht & Hd & _ & Htx & b & Hb & He). revert Hp. unfold persist_block, prepare_block, run_put.
    rewrite Ht. cbn [default]. rewrite decide_False by (intros E; by apply E).
    rewrite Hd, Hb, <- Htx, <- He. destruct (put _ _ _ _ _) as [st [[]|e]]; [by eexists|done]. }
  rewrite (persist_block_writes _ _ _ _ _ Hc Hst) in Hp. unfold announce_block in Hp.
  cbn [nd_receivers set_nd_buf] in Hp.
  assert ((0 <? nd_receivers nd)%nat = true) as E0 by (apply Nat.ltb_lt; lia). rewrite E0 in Hp. injection Hp as <-.
  destruct IH as (Hl & Hall & Hrun); [done|]. cbn [nd_live] in Hl. split; [by rewrite Hl, <- app_assoc|].
  split; [constructor; [by exists text|done]|]. cbn [run_puts]. unfold bind. rewrite Hst. exact Hrun.
Qed.

(** ** The mirror makes the writes it hears of *)

Lemma delivered_blocks vs : serve_live NewBlocks (delivered (map block_update vs)) = vs.
Proof. induction vs as [|v vs IH]; [done|]. cbn. by f_equal. Qed.

Definition block_live_frame (v : Value) : option Message := block_frame (default [] (to_vec v)).

Lemma block_frame_event v text c rest :
  block_write v text c -> next_ws_event (block_live_frame v :: rest) = (Some (NewBlock (cmd_height c) text v), rest).
Proof.
  intros (Hwf & Hn & Ht & Hd & Htx & _ & b & Hb & _).
  destruct (canonical_event (cmd_height c) b) as (v' & text' & hash & t & Hw & (f & Hf & Hcl) & Hv' & Ht' & _).
  { exists v, text, (cmd_hash c). by split_and!. }
  assert (v' = v) as ->.
  { apply (from_to_vec v b) in Hb; [|by apply (json_wf_weaken 125); [lia|]].
    destruct (notification_reads "eth_subscription" b v Hb Hwf) as (f' & Hf' & Hm & Hres).
    rewrite Hw in Hf'. assert (f' = f) as -> by congruence. revert Hcl. unfold classify_frame. rewrite Hres.
    destruct (bool_decide _); [done|]. case_decide; [done|]. cbn [mbind option_bind].
    destruct (get_str "number" v); [|done]. rewrite Ht. cbn [mbind option_bind].
    destruct (u64_from_hex _); [|done]. cbn. by destruct (bool_decide _); intros [= _ _ ->]. }
  assert (text' = text) as -> by congruence.
  unfold block_live_frame, block_frame. rewrite Hb. change (default [] (Some b)) with b. rewrite Hw. by apply next_ws_event_text with (v := f).
Qed.

(** A session over whole blocks, without log ingestion. *)
Lemma session_loop_writes Good cfg elapsed clock vs cs :
  (forall i, elapsed i = false) -> takes_all Good cs ->
  Forall2 (fun v c => exists text, block_write v text c) vs cs ->
  forall fuel i nd, (length vs < fuel)%nat -> Good (nd_storage nd) ->
    exists nd', session_loop fuel cfg false elapsed clock i (map block_live_frame vs) nd = (nd', Done (Ok tt)) /\
      nd_net nd' = nd_net nd /\ run_puts cs (nd_storage nd) = (nd_storage nd', Ok tt).
Proof.
  intros He Ht Hall. induction Hall as [|v c vs cs [text Hc] _ IH];
    intros [|fuel] i nd Hlen Hg; cbn [length] in Hlen; [lia| |lia|].
  - exists nd. cbn. by rewrite He.
  - cbn [map session_loop]. rewrite He, (block_frame_event _ _ _ _ Hc). cbn [resolve_event persist_live].
    destruct (Ht (nd_storage nd) c Hg) as (st1 & Hput & Hg1); [left|].
    rewrite (persist_block_writes _ _ _ _ _ Hc Hput).
    set (nd1 := announce_block v _).
    assert (nd_storage nd1 = st1 /\ nd_net nd1 = nd_net nd) as [Hs1 Hn1]
      by (unfold nd1, announce_block; by destruct (_ <? _)%nat).
    destruct (IH ltac:(intros st c' Hst Hin; apply Ht; [done|by right]) fuel (S i) nd1) as (nd' & E & Hn & Hr);
      [lia|by rewrite Hs1|].
    exists nd'. split; [exact E|]. split; [congruence|]. cbn [run_puts]. unfold bind. rewrite Hput, <- Hs1. exact Hr.
Qed.

(** The reply to the subscribe call is passed over. *)
Lemma session_loop_skip fuel cfg elapsed clock ack f rest nd (Q : Node * fate (result unit) -> Prop) :
  (forall i, elapsed i = false) -> from_slice (str_bytes ack) = Some f -> get "method" f = None ->
  (forall fuel' i, (fuel <= fuel')%nat -> Q (session_loop fuel' cfg false elapsed clock i rest nd)) ->
  Q (session_loop (S fuel) cfg false elapsed clock 0 (Some (Text ack) :: rest) nd).
Proof.
  intros He Hf Hm HQ. destruct (classify_frame f) as [e|] eqn:Ec.
  - assert (e = Subscribed) as ->.
    { unfold classify_frame, get_str in Ec. rewrite Hm in Ec. destruct (bool_decide _); [by injection Ec|].
      by rewrite decide_True in Ec. }
    cbn [session_loop]. rewrite He, (next_ws_event_text _ _ _ _ Hf Ec). by apply HQ.
  - assert (E : session_loop (S fuel) cfg false elapsed clock 0 (Some (Text ack) :: rest) nd
                = session_loop (S fuel) cfg false elapsed clock 0 rest nd).
    { cbn [session_loop]. by rewrite (next_ws_event_skip _ _ _ Hf Ec). }
    rewrite E. apply HQ. lia.
Qed.

(** The feed the server opens for the mirror's request. *)
Lemma newblocks_stream cfg fuel snap events :
  cfg_subscribe_blocks cfg = true ->
  exists ack f, sub_stream C fuel snap events (request_text (subscribe_request cfg))
    = Some (Some (Text ack) :: map block_live_frame (serve_live NewBlocks events)) /\
    from_slice (str_bytes ack) = Some f /\ get "method" f = None.
Proof.
  intros Hb. unfold subscribe_request. rewrite Hb. unfold sub_stream. rewrite request_reads by (by vm_compute).
  rewrite decide_True by done.
  set (req := rpc_body "eth_subscribe" _).
  assert (E : eth_sub fuel snap events (get "params" req) = LiveStream (serve_live NewBlocks events)) by reflexivity.
  rewrite E. cbn [sub_frames]. destruct (subscribed_reads (default Null (get "id" req)) (Ok tt) eq_refl) as (f & Hf1 & Hf2).
  by eexists _, f.
Qed.

(** C8: A C-chain mirror that follows stays a replica.  Start from two stores with
    the same contents, the upstream's and the mirror's, neither ingesting logs.
    Let the upstream make any sequence of blocks durable while somebody listens,
    and let the server deliver what was announced; the mirror's disk takes the
    writes.  Then the mirror's session over the [newBlocks] feed runs to the end
    of the feed and succeeds, the connection and the subscription the only traffic
    it causes; the mirror has made the same writes in the same order, and the two stores again have the
    same contents. *)
Theorem blocks_stay_replicated Good cfg elapsed clock nd up up' a vs us cs snap fuel w :
  cfg_subscribe_blocks cfg = true ->
  refines (nd_storage up) a -> refines (nd_storage nd) a -> index_sound a -> Forall cmd_ok cs ->
  nd_receivers up <> 0%nat -> persists up vs cs up' -> nd_live up' = (nd_live up ++ us)%list ->
  connect_async (cfg_ws_url cfg) (net_world (nd_net nd)) = (w, Opened (sub_stream C fuel snap (delivered us))) ->
  takes_all Good cs -> Good (nd_storage nd) -> (forall i, elapsed i = false) ->
  exists nd', run_session cfg false elapsed clock nd = (nd', Done (Ok tt)) /\
    net_trace (nd_net nd') = (net_trace (nd_net nd) ++
      [Dialed (cfg_ws_url cfg); SentText (request_text (subscribe_request cfg))])%list /\
    run_puts cs (nd_storage nd) = (nd_storage nd', Ok tt) /\
    refines (nd_storage up') (abs_run cs a) /\ refines (nd_storage nd') (abs_run cs a).
Proof.
  intros Hcfg Hup Hm Hi Hok Hrec Hper Hlive Hws Ht Hg He.
  destruct (persists_announced _ _ _ _ Hper Hrec) as (Hl & Hall & Hrun).
  assert (us = map block_update vs) as -> by (apply (app_inv_head (nd_live up)); congruence).
  destruct (newblocks_stream cfg fuel snap (delivered (map block_update vs)) Hcfg) as (ack & f & Hst & Hf1 & Hf2).
  unfold run_session, connect_and_subscribe, open_stream, connect_ws, send_request, io_connect, io_bind, emit. rewrite Hws.
  cbn [io_ret net_world]. rewrite Hst. cbn [ok_or length]. rewrite length_map, delivered_blocks.
  apply session_loop_skip with (f := f); [done..|]. intros fuel' i Hfu.
  match goal with |- context [session_loop _ _ _ _ _ _ _ ?n0] => set (nd0 := n0) end.
  destruct (session_loop_writes Good cfg elapsed clock vs cs He Ht Hall fuel' i nd0) as (nd' & E & Hn & Hr); [lia|done|].
  exists nd'. split; [exact E|]. split; [rewrite Hn; cbn; by rewrite <- app_assoc|]. split; [exact Hr|]. split.
  - exact (proj1 (run_puts_refines cs _ _ a Hup Hi Hok Hrun)).
  - exact (proj1 (run_puts_refines cs _ _ a Hm Hi Hok Hr)).
Qed.

End Blocks.
