(* ===== verification/Listener.v ===== *)
(** * The listener (src/rpc.rs, [serve])

    Building the service from the chains and the transport settings, binding,
    and the accept loop: every accepted socket is wrapped in the idle reaper and
    driven by its own service; a failed accept is logged and the loop goes on;
    the shutdown handle ends it.

    jsonrpsee's connection driver - the parsing, the connection budget and the
    WebSocket upgrade behind [serve_with_graceful_shutdown] - is the parameter
    [jsonrpsee]: a method table and a budget give an HTTP service. *)

From Stdlib Require Import NArith Lia String Ascii.
From S2P Require Import Prelude Str Json Chain Record Backing Storage Codec Serve Health EthRpc Bulk Server Conn.
From S2P Require Import Float64 Toml Config ConfigLayers ConfigResolve.

(** A bound socket, as [serve] reads it; what it accepts are the [AcceptEvent]s. *)
Record TcpListener {L : ConfigLib} : Type := { local_addr : result SocketAddr }.

Section Listener.
Context {B : Blockstore} {F : Fjall} {J : JsonLib} {X : HexLib} {CL : CodecLib} {L : ConfigLib} {Io : AsyncStream}.

Record ServeConfig : Type := {
  sc_addr : SocketAddr;
  sc_max_connections : N;
  sc_idle_timeout : option N;
  sc_max_blocks_per_request : N
}.

(** The settings [main] passes. *)
Definition serve_config (srv : Server) : ServeConfig :=
  {| sc_addr := srv_addr srv; sc_max_connections := srv_max_connections srv;
     sc_idle_timeout := srv_idle_timeout srv; sc_max_blocks_per_request := srv_max_blocks_per_request srv |}.

(** One turn of the loop's [select!]: [accept] gives a socket or an error, or the
    shutdown fires first. *)
Inductive AcceptEvent : Type :=
  | Accepted (now : N) (sock : Stream)
  | AcceptFailed
  | Shutdown.

(** What a connection's driver is spawned with. *)
Record Connection : Type := { cn_io : IdleTimeout; cn_service : HttpService }.

Variable (set_nodelay : Stream -> Stream).

Fixpoint accept_loop (idle_timeout : option N) (service : HttpService) (events : list AcceptEvent)
    : list Connection :=
  match events with
  | [] | Shutdown :: _ => []
  | AcceptFailed :: events => accept_loop idle_timeout service events
  | Accepted now sock :: events =>
      {| cn_io := idle_new now (set_nodelay sock) idle_timeout; cn_service := service |}
      :: accept_loop idle_timeout service events
  end.

(** The part of [serve] that can fail: the method table, the listener, and the
    address it reports. *)
Definition serve_start (bind : SocketAddr -> result TcpListener) (cfg : ServeConfig) (chains : list ChainServe)
    : result RpcModule :=
  let? module := build_module chains in
  let? listener := bind (sc_addr cfg) in
  let? actual := local_addr listener in
  Ok module.

Variables (jsonrpsee : N -> RpcModule -> HttpService) (to_vec_pretty : Value -> option bytes).

Definition serve (bind : SocketAddr -> result TcpListener) (cfg : ServeConfig) (chains : list ChainServe) (hi : HostInfo)
    (at_height : N -> Storage) (rendered : bytes) (events : list AcceptEvent) : result (list Connection) :=
  let? module := serve_start bind cfg chains in
  Ok (accept_loop (sc_idle_timeout cfg)
        (http_stack to_vec_pretty hi chains at_height (sc_max_blocks_per_request cfg) rendered
           (jsonrpsee (sc_max_connections cfg) module)) events).

(** ** The sockets that are served *)

(** Those accepted before the shutdown, with the instant of each. *)
Fixpoint admitted (events : list AcceptEvent) : list (N * Stream) :=
  match events with
  | [] | Shutdown :: _ => []
  | AcceptFailed :: events => admitted events
  | Accepted now sock :: events => (now, sock) :: admitted events
  end.

Lemma accept_loop_admitted idle service events :
  accept_loop idle service events
  = (fun a => {| cn_io := idle_new a.1 (set_nodelay a.2) idle; cn_service := service |}) <$> admitted events.
Proof. induction events as [|[now sock| |] events IH]; cbn; rewrite ?IH; done. Qed.

Lemma admitted_failures events : admitted (events ++ [AcceptFailed]) = admitted events.
Proof. induction events as [|[] events IH]; cbn; by rewrite ?IH. Qed.

(** What a connection accepted at [now] on [sock] does: it is the bare socket with
    the reaper, and it answers its requests from the chains' own stores, health
    report, rendered metrics and method table. *)
Definition serves_as (cfg : ServeConfig) (chains : list ChainServe) (hi : HostInfo) (at_height : N -> Storage)
    (rendered : bytes) (m : RpcModule) (a : N * Stream) (c : Connection) : Prop :=
  (forall ops, let (io, seen) := drive (cn_io c) ops in
     (it_inner io, seen) = reference (set_nodelay a.2) a.1 (sc_idle_timeout cfg) ops) /\
  (forall req, is_get "/blocks" req = true ->
     cn_service c req = bulk_resp (serve_range (stores_new chains) at_height (sc_max_blocks_per_request cfg)
                                     (default "" (rq_query req)))) /\
  (forall req, is_get "/health" req = true ->
     cn_service c req = match to_vec_pretty (build_health_response hi chains) with
                        | Some body => {| rp_status := 200; rp_body := Whole body |}
                        | None => {| rp_status := 500; rp_body := Whole [] |}
                        end) /\
  (forall req, is_get "/metrics" req = true -> cn_service c req = {| rp_status := 200; rp_body := Whole rendered |}) /\
  (forall req, own_path req = false ->
     cn_service c req = not_found_layer (jsonrpsee (sc_max_connections cfg) m) req).

(** C35: Serving is all or nothing, and every connection is reaped.  [serve] fails
    exactly when the chains give no method table - before anything is bound -
    or the address cannot be bound or read back; otherwise one connection is driven
    for each socket accepted before the shutdown, in order, whatever accepts failed
    in between.  Each one gives the bytes read, the counts written and the errors
    of its socket, and a read or write left pending is turned into the idle error
    exactly when it has been silent for the configured interval since it was
    accepted or last moved a byte.  It answers [/blocks] from the chains' stores,
    [/health] with their report, [/metrics] with the rendered metrics and every other
    request with the 421 rewrite over the chains' own method table. *)
Theorem served_connections bind cfg chains hi at_height rendered events :
  (forall e, build_module chains = Err e -> serve bind cfg chains hi at_height rendered events = Err e) /\
  (forall m e, build_module chains = Ok m -> bind (sc_addr cfg) = Err e ->
     serve bind cfg chains hi at_height rendered events = Err e) /\
  (forall m l e, build_module chains = Ok m -> bind (sc_addr cfg) = Ok l -> local_addr l = Err e ->
     serve bind cfg chains hi at_height rendered events = Err e) /\
  (forall m l actual, build_module chains = Ok m -> bind (sc_addr cfg) = Ok l -> local_addr l = Ok actual ->
     exists conns, serve bind cfg chains hi at_height rendered events = Ok conns /\
       Forall2 (serves_as cfg chains hi at_height rendered m) (admitted events) conns).
Proof.
  unfold serve, serve_start. split_and!.
  - by intros e ->.
  - by intros m e -> ->.
  - intros m l e -> ->. cbn [result_bind]. by intros ->.
  - intros m l actual -> ->. cbn [result_bind]. intros ->. cbn [result_bind]. eexists. split; [done|].
    rewrite accept_loop_admitted. apply Forall2_fmap_r, Forall_Forall2_diag, Forall_forall. intros [now sock] _.
    unfold serves_as. cbn [cn_io cn_service fst snd].
    split; [intros ops; by apply drive_reference|].
    split_and!; intros req Hr; [by apply stack_own..|by apply stack_rpc].
Qed.

End Listener.
