(* ===== verification/Main.v ===== *)
(** * Start-up and shutdown (src/main.rs)

    From the command line to running pipelines: querying the upstream's
    identity, anchoring the floor, opening the stores, choosing the logs source,
    wiring one instance per chain, which tasks run, and the flush at the end.

    The file system is what each directory holds ([Disks]); [installs] is the
    outcome of the process-wide installs (TLS provider, metrics recorder, HTTP
    client) and [bind] that of binding the listener. *)

From Stdlib Require Import ZArith NArith Lia String Ascii.
From S2P Require Import Prelude Str Json Chain Record Backing Storage StorageSpec Join Codec Upstream Http EthFetch Backfill Serve Subscribe.
From S2P Require Import Progress PlatformIngest Health EthRpc PlatformRpc Bulk Server Listener Float64 Toml Config ConfigLayers ConfigResolve ConfigDebug ConfigSpec.

#[local] Open Scope string_scope.

Section Main.
Context {B : Blockstore} {F : Fjall} {J : JsonLib} {X : HexLib} {CL : CodecLib} {H : Http} {L : ConfigLib}.

(** The texts of the client's transport and decode errors. *)
Variables (send_error decode_error : string).

(** ** Questions to the upstream *)

Definition fetch_identity (fuel : nat) (chain : Chain) (rpc_url : string) (max_wait : N)
    : IO (option (result string)) :=
  match chain with
  | C => let* id := fetch_chain_id fuel rpc_url max_wait in
         io_ret ((fun r => let? id := r in Ok (to_decimal id)) <$> id)
  | P => let* id := fetch_genesis_id rpc_url max_wait in io_ret (Some id)
  end.

Definition fetch_upstream_min_height (base : string) (chain : Chain) : IO (result N) :=
  let* resp := io_get (trim_end_slash base ++ "/health") in
  io_ret match resp with
         | SendError => Err EHttp
         | Response status _ body =>
             if negb (is_success status) then Err (EHttpStatus status)
             else match body with
                  | None => Err EHttp
                  | Some v => ok_or (upstream_blocks_field v chain "min_height") EMissingResult
                  end
         end.

Definition resolve_anchor_floor (store_exists : bool) (cfg : ChainCfg) (upstream : Upstream_) : IO (option N) :=
  match cc_backfill_floor cfg with
  | Some floor => io_ret (if store_exists then None else Some floor)
  | None =>
      if negb (bool_decide (up_kind upstream = Neve)) then io_ret None
      else if store_exists then io_ret None
      else
        let* r := fetch_upstream_min_height (up_base upstream) (cc_chain cfg) in
        io_ret (match r with Ok min_h => Some min_h | Err _ => None end)
  end.

Definition resolve_logs_source (cfg : ChainCfg) : IO LogsSource :=
  if negb (cc_ingest_logs cfg) then io_ret GetLogs
  else let* probed := probe_logs_source send_error decode_error (cc_rpc_url cfg) in io_ret probed.1.

(** ** An instance *)

(** The pacers an [IngestCfg] carries are [in_pacer], its own, and
    [in_host_pacer], the interval of the one shared by the host. *)
Record Instance : Type := {
  in_serve : ChainServe;
  in_cfg : IngestCfg;
  in_pacer : Pacer;
  in_host_pacer : option N
}.

Definition ingest_cfg (cfg : ChainCfg) (backfill_floor : option N) (logs_source : LogsSource) : IngestCfg :=
  {| cfg_chain := cc_chain cfg; cfg_max_wait := cc_max_wait cfg; cfg_ws_idle_timeout := cc_ws_idle_timeout cfg;
     cfg_ws_url := cc_ws_url cfg; cfg_rpc_url := cc_rpc_url cfg; cfg_poll_interval := cc_poll_interval cfg;
     cfg_subscribe_blocks := cc_subscribe_blocks cfg; cfg_backfill_inter_fetch := cc_request_interval cfg;
     cfg_fetch_concurrency := N.to_nat (cc_concurrency cfg); cfg_backfill_floor := backfill_floor;
     cfg_prefetch_delay_cap := cc_prefetch_delay_cap cfg; cfg_progress_period := cc_summary_period cfg;
     cfg_ingest_logs := cc_ingest_logs cfg; cfg_logs_source := logs_source |}.

(** What each directory holds, or will when it is created. *)
Definition Disks : Type := path -> Disk.
Definition set_disk (disks : Disks) (dir : path) (d : Disk) : Disks := fun p => if decide (p = dir) then d else disks p.

(** Does [blocks/blockdb.idx] exist there? *)
Definition store_exists (disks : Disks) (dir : path) : bool := bool_decide (is_Some (disk_store (disks dir))).

(** The instance of a chain whose store is open. *)
Definition wire (now : N) (cfg : ChainCfg) (dir : path) (identity : string) (storage : Storage)
    (anchor_floor : option N) (logs_source : LogsSource) : Instance :=
  let icfg := ingest_cfg cfg anchor_floor logs_source in
  {| in_serve := {| cs_chain := cc_chain cfg; cs_storage := storage; cs_data_dir := dir; cs_identity := identity;
                    cs_behind_tip := 0;
                    cs_join := if cfg_ingest_logs icfg
                               then Some (Join.new storage (N.to_nat (cc_join_buffer_cap cfg))) else None;
                    cs_ingests_logs := cfg_ingest_logs icfg |};
     in_cfg := icfg; in_pacer := pacer_new (cc_request_interval cfg) now; in_host_pacer := cc_host_pacer cfg |}.

(** [None] where the retries of the identity handshake exceed [fuel]. *)
Definition build_instance (fuel : nat) (now : N) (mkdir : path -> bool) (cfg : ChainCfg) (upstream : Upstream_)
    (disks : Disks) : IO (option (Disks * result Instance)) :=
  let* id := fetch_identity fuel (cc_chain cfg) (cc_rpc_url cfg) (cc_max_wait cfg) in
  match id with
  | None => io_ret None
  | Some (Err e) => io_ret (Some (disks, Err e))
  | Some (Ok identity) =>
      let dir := components (cc_data_dir cfg) in
      if negb (mkdir dir) then io_ret (Some (disks, Err EFilesystem))
      else
        let* anchor_floor := resolve_anchor_floor (store_exists disks dir) cfg upstream in
        match open (cc_chain cfg) identity anchor_floor (disks dir) with
        | (d, Err e) => io_ret (Some (set_disk disks dir d, Err e))
        | (d, Ok storage) =>
            let* logs_source := resolve_logs_source cfg in
            io_ret (Some (set_disk disks dir d, Ok (wire now cfg dir identity storage anchor_floor logs_source)))
        end
  end.

(** The [for] over the chains of the configuration. *)
Fixpoint build_instances (fuel : nat) (now : N) (mkdir : path -> bool) (upstream : Upstream_)
    (cfgs : list ChainCfg) (disks : Disks) : IO (option (Disks * result (list Instance))) :=
  match cfgs with
  | [] => io_ret (Some (disks, Ok []))
  | cfg :: cfgs =>
      let* r := build_instance fuel now mkdir cfg upstream disks in
      match r with
      | None => io_ret None
      | Some (disks, Err e) => io_ret (Some (disks, Err e))
      | Some (disks, Ok inst) =>
          let* r := build_instances fuel now mkdir upstream cfgs disks in
          io_ret ((fun dr : Disks * result (list Instance) => (dr.1, let? rest := dr.2 in Ok (inst :: rest))) <$> r)
      end
  end.

(** ** Pipelines *)

Inductive Task : Type :=
  | SummaryLoop (chain : Chain) (period : N)
  | BackfillLoop (cfg : IngestCfg)
  | EthIngest (cfg : IngestCfg) (joined : bool)
  | MirrorLoop (cfg : IngestCfg)
  | PlatformIngest (cfg : IngestCfg).

(** What is spawned in the background, and the future [main] drives. *)
Definition spawn_pipeline (inst : Instance) : list Task * Task :=
  let cfg := in_cfg inst in
  let chain := cs_chain (in_serve inst) in
  let summary := SummaryLoop chain (cfg_progress_period cfg) in
  match chain with
  | C => ([summary; BackfillLoop cfg], EthIngest cfg (bool_decide (is_Some (cs_join (in_serve inst)))))
  | P => ([summary], if cfg_subscribe_blocks cfg then MirrorLoop cfg else PlatformIngest cfg)
  end.

(** ** Shutdown *)

(** The arm of [select!] that fires. *)
Inductive Trigger : Type :=
  | IngestEnded (r : result unit)
  | StopTimeReached
  | SignalReceived (name : string)
  | FatalNotified.

(** [sleep_or_pending] never fires without a stop time; [wait_for_signal] names
    one of three signals. *)
Definition can_fire (stop_time : option N) (t : Trigger) : Prop :=
  match t with
  | StopTimeReached => is_Some stop_time
  | SignalReceived name => name ∈ ["SIGINT"; "SIGTERM"; "SIGQUIT"]
  | _ => True
  end.

Definition outcome (t : Trigger) : result unit :=
  match t with
  | IngestEnded r => r
  | StopTimeReached | SignalReceived _ => Ok tt
  | FatalNotified => Err EFatalUpstream
  end.

(** Every store is flushed, a failed flush only logged. *)
Definition run_until_shutdown (t : Trigger) (stores : list Storage) : list (Storage * result unit) * result unit :=
  (map persist stores, outcome t).

(** ** Logging *)

(** Standard output, and [RUST_LOG] where it is set to a filter that parses. *)
Record Terminal : Type := { tm_interactive : bool; tm_rust_log : option string }.

(** The subscriber that is installed. *)
Record Subscriber : Type := { sub_filter : string; sub_ansi : bool; sub_time : bool }.

(** Debug and trace are scoped to neve's own crate. *)
Definition scoped_level (default_level : string) : string :=
  if String.eqb default_level "debug" || String.eqb default_level "trace"
  then "info,neve=" ++ default_level
  else default_level.

Definition init_tracing (term : Terminal) (default_level : string) : Subscriber :=
  {| sub_filter := default (scoped_level default_level) (tm_rust_log term);
     sub_ansi := tm_interactive term; sub_time := tm_interactive term |}.

(** ** The process *)

(** [notices] go to standard error when something is printed, and through the
    subscriber otherwise. *)
Inductive Startup : Type :=
  | PrintedExample (notices : list Notice)
  | Printed (notices : list Notice) (text : string)
  | Failed (e : error)
  | Running (sub : Subscriber) (logged : list LogLine) (r : Resolved) (instances : list Instance) (tasks : list (list Task * Task)).

Definition main (fuel : nat) (now : N) (fs : Files) (mkdir : path -> bool) (term : Terminal) (installs : result unit)
    (bind : SocketAddr -> result TcpListener) (cli : Cli) (env : Env) (disks : Disks) : IO (option (Disks * Startup)) :=
  if cli_print_config_example cli then io_ret (Some (disks, PrintedExample []))
  else
    match resolve_with fs cli env with
    | Err e => io_ret (Some (disks, Failed e))
    | Ok r =>
        match rs_print r with
        | Some PrintExample => io_ret (Some (disks, PrintedExample (rs_notices r)))
        | Some PrintConfig =>
            io_ret (Some (disks, match to_redacted_toml r with
                                 | Ok text => Printed (rs_notices r) text
                                 | Err e => Failed e
                                 end))
        | None =>
            match installs with
            | Err e => io_ret (Some (disks, Failed e))
            | Ok _ =>
                let sub := init_tracing term (log_level_as_str (rs_log_level r)) in
                let logged := emit_notices r in
                let* built := build_instances fuel now mkdir (rs_upstream r) (rs_chains r).*2 disks in
                io_ret match built with
                       | None => None
                       | Some (disks, Err e) => Some (disks, Failed e)
                       | Some (disks, Ok instances) =>
                           Some (disks, match serve_start bind (serve_config (rs_server r))
                                                          (map in_serve instances) with
                                        | Err e => Failed e
                                        | Ok _ => Running sub logged r instances (map spawn_pipeline instances)
                                        end)
                       end
            end
        end
    end.

End Main.
