(* ===== verification/MainSpec.v ===== *)
(** * Start-up and shutdown: what they guarantee

    What runs after a successful start, where the floor of a fresh store is
    anchored, and that every store is flushed at the end. *)

From Stdlib Require Import ZArith NArith Lia String Ascii.
From S2P Require Import Prelude Str Json Chain Record Backing Storage StorageSpec Join Codec Upstream Http EthFetch Backfill Serve Subscribe.
From S2P Require Import Progress PlatformIngest Health EthRpc PlatformRpc Bulk Server Listener Float64 Toml Config ConfigLayers ConfigResolve ConfigDebug ConfigSpec ConfigSecrets Main.

#[local] Open Scope string_scope.

Section MainSpec.
Context {B : Blockstore} {F : Fjall} {J : JsonLib} {X : HexLib} {CL : CodecLib} {H : Http} {L : ConfigLib}.
Variables (send_error decode_error : string).

(** ** The floor *)

(** The floor of a store, from the settings and from what the probe found. *)
Lemma resolve_anchor_floor_spec exists_ cfg up n n' anchor :
  resolve_anchor_floor exists_ cfg up n = (n', Done anchor) ->
  (exists_ = true -> anchor = None)
  /\ (exists_ = false -> forall f, cc_backfill_floor cfg = Some f -> anchor = Some f)
  /\ (cc_backfill_floor cfg = None -> up_kind up <> Neve -> anchor = None).
Proof.
  unfold resolve_anchor_floor. destruct (cc_backfill_floor cfg) as [f|].
  { intros [= _ <-]. by destruct exists_; naive_solver. }
  case_bool_decide as Hk; cbn [negb]; [|intros [= _ <-]; naive_solver].
  destruct exists_; [intros [= _ <-]; naive_solver|]. intros _. naive_solver.
Qed.

(** C38: a fresh mirror starts where its upstream starts.  Against another neve,
    with no floor configured and no store yet: when the upstream's health report
    answers and it serves the chain, the floor is the lowest height of the chain's
    store there, or none while that store is empty; when the report answers and it
    serves no P-chain, a P-chain mirror gets no floor; and when the upstream cannot
    be reached, answers with a failure or without a report, there is no floor
    either, and the start goes on. *)
Theorem mirror_anchors_at_upstream_floor cfg up n w reply :
  cc_backfill_floor cfg = None -> up_kind up = Neve ->
  http_get (trim_end_slash (up_base up) ++ "/health") (net_world n) = (w, reply) ->
  exists n' floor, resolve_anchor_floor false cfg up n = (n', Done floor) /\
    match reply with
    | Response status _ (Some v) =>
        if is_success status then
          forall hi served, v = build_health_response hi served -> NoDup (cs_chain <$> served) ->
            (forall c, serves_chain (cc_chain cfg) served = Some c ->
               floor = if is_empty (cs_storage c) then None else Some (min_height (cs_storage c))) /\
            (cc_chain cfg = P -> serves_chain P served = None -> floor = None)
        else floor = None
    | _ => floor = None
    end.
Proof.
  intros Hf Hk Hg. unfold resolve_anchor_floor. rewrite Hf, bool_decide_true by done. cbn [negb].
  unfold fetch_upstream_min_height, io_bind, io_get. rewrite Hg. cbn [io_ret net_world].
  destruct reply as [|status header [v|]]; [by eexists _, _| |eexists _, _; by destruct (is_success status)].
  destruct (is_success status) eqn:Hs; cbn [negb]; [|by eexists _, _].
  eexists _, _. split; [done|]. intros hi served -> Hnd.
  rewrite upstream_blocks_field_report by (done || set_solver). unfold probe_target. split.
  - intros c ->. cbn [mbind option_bind]. unfold blocks_field. cbn. by destruct (is_empty (cs_storage c)).
  - intros -> ->. by rewrite decide_False.
Qed.

(** ** Instances *)

(** The tasks of a chain: its summary every configured period; on the C-chain the
    backfill and the live ingestion, joining logs where they are ingested; on the
    P-chain the mirror of another neve, or the poller of a node. *)
Definition pipeline_of (cfg : ChainCfg) (icfg : IngestCfg) (tasks : list Task * Task) : Prop :=
  match cc_chain cfg with
  | C => tasks = ([SummaryLoop C (cc_summary_period cfg); BackfillLoop icfg], EthIngest icfg (cc_ingest_logs cfg))
  | P => tasks.1 = [SummaryLoop P (cc_summary_period cfg)] /\
         (cc_subscribe_blocks cfg = true -> tasks.2 = MirrorLoop icfg) /\
         (cc_subscribe_blocks cfg = false -> tasks.2 = PlatformIngest icfg)
  end.

(** The ingest settings a chain's configuration asks for. *)
Record Configured (cfg : ChainCfg) (icfg : IngestCfg) : Prop := {
  cg_chain : cfg_chain icfg = cc_chain cfg;
  cg_rpc_url : cfg_rpc_url icfg = cc_rpc_url cfg;
  cg_ws_url : cfg_ws_url icfg = cc_ws_url cfg;
  cg_max_wait : cfg_max_wait icfg = cc_max_wait cfg;
  cg_ws_idle_timeout : cfg_ws_idle_timeout icfg = cc_ws_idle_timeout cfg;
  cg_poll_interval : cfg_poll_interval icfg = cc_poll_interval cfg;
  cg_inter_fetch : cfg_backfill_inter_fetch icfg = cc_request_interval cfg;
  cg_concurrency : N.of_nat (cfg_fetch_concurrency icfg) = cc_concurrency cfg;
  cg_delay_cap : cfg_prefetch_delay_cap icfg = cc_prefetch_delay_cap cfg;
  cg_period : cfg_progress_period icfg = cc_summary_period cfg;
  cg_subscribe : cfg_subscribe_blocks icfg = cc_subscribe_blocks cfg;
  cg_logs : cfg_ingest_logs icfg = cc_ingest_logs cfg
}.

(** An instance as it was started for a chain of the configuration, over the
    directory that held [d] and then holds [d']. *)
Record StartedFor (fuel : nat) (d d' : Disk) (cfg : ChainCfg) (inst : Instance) : Prop := {
  sf_chain : cs_chain (in_serve inst) = cc_chain cfg;
  sf_dir : cs_data_dir (in_serve inst) = components (cc_data_dir cfg);
  sf_identity : exists n n', fetch_identity fuel (cc_chain cfg) (cc_rpc_url cfg) (cc_max_wait cfg) n
                             = (n', Done (Some (Ok (cs_identity (in_serve inst)))));
  (** the store served is the one opened in that directory *)
  sf_store : open (cc_chain cfg) (cs_identity (in_serve inst)) (st_anchor_floor (cs_storage (in_serve inst))) d
             = (d', Ok (cs_storage (in_serve inst)));
  sf_stamped : stamped (cc_chain cfg) (cs_identity (in_serve inst)) (disk_db d') /\
               st_db (cs_storage (in_serve inst)) = disk_db d' /\
               st_chain (cs_storage (in_serve inst)) = cc_chain cfg;
  sf_settings : Configured cfg (in_cfg inst);
  sf_floor : cfg_backfill_floor (in_cfg inst) = st_anchor_floor (cs_storage (in_serve inst)) /\
             (is_Some (disk_store d) -> cfg_backfill_floor (in_cfg inst) = None) /\
             (disk_store d = None -> forall f, cc_backfill_floor cfg = Some f -> cfg_backfill_floor (in_cfg inst) = Some f);
  sf_pacing : p_interval (in_pacer inst) = cc_request_interval cfg /\ in_host_pacer inst = cc_host_pacer cfg;
  sf_logs : cs_ingests_logs (in_serve inst) = cc_ingest_logs cfg /\
            (cc_ingest_logs cfg = false -> cs_join (in_serve inst) = None /\ cfg_logs_source (in_cfg inst) = GetLogs) /\
            (cc_ingest_logs cfg = true -> exists j, cs_join (in_serve inst) = Some j /\
               jb_storage j = cs_storage (in_serve inst) /\ N.of_nat (jb_max_entries j) = cc_join_buffer_cap cfg /\
               jb_pending j = ∅)
}.

(** The directory of a chain. *)
Definition dir_of (cfg : ChainCfg) : path := components (cc_data_dir cfg).

Context {FL : FjallLaws F}.

Lemma open_fields chain identity anchor d d' st :
  open chain identity anchor d = (d', Ok st) ->
  st_chain st = chain /\ st_anchor_floor st = anchor /\ stamped chain identity (disk_db d') /\ st_db st = disk_db d'.
Proof.
  intros Ho. destruct (open_ok _ _ _ _ _ _ Ho) as (hbd & Hv). apply verify_and_stamp_ok in Hv.
  unfold open in Ho. destruct (verify_and_stamp_meta _ _ _ _) as [db [[]|]]; [|done].
  destruct (disk_store d) as [s|]; [destruct (store_reopen s)|]; simplify_eq; done.
Qed.

Lemma build_instance_started fuel now mkdir cfg up disks n n' disks' inst :
  build_instance send_error decode_error fuel now mkdir cfg up disks n = (n', Done (Some (disks', Ok inst))) ->
  StartedFor fuel (disks (dir_of cfg)) (disks' (dir_of cfg)) cfg inst
  /\ forall p, p <> dir_of cfg -> disks' p = disks p.
Proof.
  unfold build_instance. fold (dir_of cfg). intros Hb. apply io_bind_inv in Hb as [[_ Hp]|(n1 & id & Hid & Hb)]; [done|].
  destruct id as [[identity|e]|]; [|by injection Hb|by injection Hb].
  destruct (mkdir _); cbn [negb] in Hb; [|by injection Hb].
  apply io_bind_inv in Hb as [[_ Hp]|(n2 & anchor & Ha & Hb)]; [done|].
  apply resolve_anchor_floor_spec in Ha as (Ha1 & Ha2 & _). unfold store_exists in Ha1, Ha2.
  destruct (open _ _ _ _) as [d [storage|e]] eqn:Eo; [|by injection Hb].
  apply io_bind_inv in Hb as [[_ Hp]|(n3 & source & Hs & Hb)]; [done|].
  injection Hb as _ <- <-. destruct (open_fields _ _ _ _ _ _ Eo) as (H1 & H2 & H3 & H4). split.
  - unfold set_disk. rewrite decide_True by done. constructor; cbn; try done; [eauto|by rewrite H2|..].
    + constructor; cbn; try done. apply N2Nat.id.
    + split_and!; [done|intros Hd; apply Ha1; by apply bool_decide_true|].
      intros Hd. apply Ha2. apply bool_decide_false. rewrite Hd. by intros [].
    + unfold resolve_logs_source in Hs. destruct (cc_ingest_logs cfg); cbn in Hs |- *.
      * split_and!; [done..|]. intros _. eexists. split_and!; try done. apply N2Nat.id.
      * by injection Hs as <-.
  - intros p Hp. unfold set_disk. by rewrite decide_False.
Qed.

Lemma build_instances_started fuel now mkdir up cfgs disks n n' disks' insts :
  NoDup (dir_of <$> cfgs) ->
  build_instances send_error decode_error fuel now mkdir up cfgs disks n = (n', Done (Some (disks', Ok insts))) ->
  Forall2 (fun cfg => StartedFor fuel (disks (dir_of cfg)) (disks' (dir_of cfg)) cfg) cfgs insts
  /\ forall p, p ∉ dir_of <$> cfgs -> disks' p = disks p.
Proof.
  revert disks n n' disks' insts; induction cfgs as [|cfg cfgs IH]; intros disks n n' disks' insts Hnd; cbn [build_instances].
  { intros [= _ <- <-]. by split. }
  cbn in Hnd. apply NoDup_cons in Hnd as [Hnew Hnd].
  intros Hb. apply io_bind_inv in Hb as [[_ Hp]|(n1 & r & Hi & Hb)]; [done|].
  destruct r as [[disks1 [inst|e]]|]; [|by injection Hb|by injection Hb].
  apply build_instance_started in Hi as [Hs Hf].
  apply io_bind_inv in Hb as [[_ Hp]|(n2 & r & Hr & Hb)]; [done|].
  destruct r as [[disks2 [rest|e]]|]; cbn in Hb; try by injection Hb. injection Hb as _ <- <-.
  apply IH in Hr as [Hall Hf2]; [|done]. split.
  - constructor; [by rewrite Hf2|]. clear -Hall Hf Hnew. revert Hnew. induction Hall as [|cfg' inst' cfgs' rest' Hs' Hall IH]; [constructor|].
    cbn. intros Hnew. apply not_elem_of_cons in Hnew as [Hne Hnew]. constructor; [|by apply IH].
    by rewrite <- (Hf (dir_of cfg')).
  - cbn. intros p Hp. apply not_elem_of_cons in Hp as [Hp1 Hp2]. rewrite Hf2 by done. by apply Hf.
Qed.

Lemma started_pipelines fuel (d d' : path -> Disk) cfgs insts :
  Forall2 (fun cfg => StartedFor fuel (d (dir_of cfg)) (d' (dir_of cfg)) cfg) cfgs insts ->
  Forall2 (fun cfg it => pipeline_of cfg (in_cfg it.1) it.2) cfgs (zip insts (map spawn_pipeline insts)).
Proof.
  induction 1 as [|cfg inst cfgs insts Hs Hall IH]; [constructor|]. cbn. constructor; [|done]. cbn.
  unfold pipeline_of, spawn_pipeline. rewrite (sf_chain _ _ _ _ _ Hs), (cg_period _ _ (sf_settings _ _ _ _ _ Hs)),
    (cg_subscribe _ _ (sf_settings _ _ _ _ _ Hs)).
  destruct (cc_chain cfg).
  - f_equal. f_equal. destruct (sf_logs _ _ _ _ _ Hs) as (_ & Hn & Hy). destruct (cc_ingest_logs cfg).
    + destruct (Hy eq_refl) as (j & -> & _). by apply bool_decide_true.
    + destruct (Hn eq_refl) as (-> & _). apply bool_decide_false. by intros [].
  - split; [done|]. by destruct (cc_subscribe_blocks cfg).
Qed.

(** ** The process *)

Lemma wellformed_dirs r : WellFormed r -> NoDup (dir_of <$> (rs_chains r).*2).
Proof.
  intros Hw. destruct (wf_order r Hw) as [f Hf]. pose proof (wf_dirs r Hw) as Hd.
  destruct (rs_chains r) as [|[c1 g1] [|[c2 g2] [|x l]]]; cbn in *.
  - constructor.
  - apply NoDup_singleton.
  - apply NoDup_cons. split; [|apply NoDup_singleton]. rewrite list_elem_of_singleton.
    apply (Hd c1 g1 c2 g2); [set_solver..|]. destruct (f C), (f P); cbn in Hf; by simplify_eq.
  - exfalso. by destruct (f C), (f P).
Qed.

Lemma started_chains fuel (d d' : path -> Disk) cfgs insts :
  Forall2 (fun cfg => StartedFor fuel (d (dir_of cfg)) (d' (dir_of cfg)) cfg) cfgs insts ->
  (cs_chain ∘ in_serve) <$> insts = cc_chain <$> cfgs.
Proof. induction 1 as [|cfg inst cfgs insts Hs Hall IH]; [done|]. cbn. f_equal; [apply Hs|done]. Qed.

Lemma wellformed_chains r :
  WellFormed r -> cc_chain <$> (rs_chains r).*2 = (rs_chains r).*1 /\ NoDup (rs_chains r).*1.
Proof.
  intros Hw. split.
  - pose proof (wf_valid r Hw) as Hv. induction (rs_chains r) as [|[c g] l IH]; cbn; [done|]. f_equal.
    + apply (Hv c g). apply list_elem_of_here.
    + apply IH. intros c' g' Hin. apply Hv. by apply list_elem_of_further.
  - destruct (wf_order r Hw) as [f ->]. cbn. destruct (f C), (f P); repeat constructor; set_solver.
Qed.

Lemma emit_notices_all r :
  length (emit_notices r) = length (rs_notices r) /\
  forall m, LogWarn m ∈ emit_notices r <-> NWarn m ∈ rs_notices r.
Proof.
  unfold emit_notices. rewrite length_map. split; [done|]. intros m. rewrite list_elem_of_fmap. split.
  - by intros ([m'|m'] & [= ->] & Hin).
  - intros Hin. by exists (NWarn m).
Qed.

(** The ingest settings of two chains that differ behind the redacted part of
    their URLs show the same under [{:?}]. *)
Lemma debug_ingest_cfg_same cfg cfg' floor source :
  hide cfg = hide cfg' ->
  debug_ingest_cfg (ingest_cfg cfg floor source) = debug_ingest_cfg (ingest_cfg cfg' floor source).
Proof. intros Hh. injection Hh as H0 H1 H2 _. unfold debug_ingest_cfg. cbn. by rewrite H0, H1, H2. Qed.

(** What is running: one instance per configured chain, opened and stamped, with
    its tasks. *)
Record Launched (fuel : nat) (term : Terminal) (disks disks' : Disks) (sub : Subscriber)
    (logged : list LogLine) (r : Resolved) (insts : list Instance) (tasks : list (list Task * Task)) : Prop := {
  ln_filter : tm_rust_log term = None -> sub_filter sub = scoped_level (log_level_as_str (rs_log_level r));
  ln_logged : length logged = length (rs_notices r) /\
              forall m, LogWarn m ∈ logged <-> NWarn m ∈ rs_notices r;
  ln_started : Forall2 (fun cfg => StartedFor fuel (disks (dir_of cfg)) (disks' (dir_of cfg)) cfg) (rs_chains r).*2 insts;
  ln_chains : (cs_chain ∘ in_serve) <$> insts = (rs_chains r).*1;
  ln_tasks : length tasks = length insts /\
             Forall2 (fun cfg it => pipeline_of cfg (in_cfg it.1) it.2) (rs_chains r).*2 (zip insts tasks);
  ln_frame : forall p, p ∉ dir_of <$> (rs_chains r).*2 -> disks' p = disks p
}.

(** C21: the process runs what is configured.  When start-up ends with the server
    running, the configuration was accepted, and there is one instance for each
    of its chains, in order: its store is the one opened in that chain's own
    directory and stamped for that chain and the identity the upstream answered
    with; each ingest setting is the configured one; a floor is anchored only
    where there was no store, and then at the configured height if there is one;
    there is a join buffer, empty, over that store and of the configured size,
    exactly where logs are ingested; the tasks are the summary of the configured
    period with, on the C-chain, the backfill and the live ingestion, and on the
    P-chain the mirror or the poller, by the kind of the upstream; no other
    directory was touched; every deferred warning was logged, at the configured
    level.  Conversely, once the
    instances are up and the listener is bound nothing else can fail: the method
    table always builds. *)
Theorem main_runs_what_is_configured fuel now fs mkdir term installs bind cli env disks n :
  (forall n' disks' sub logged r insts tasks,
     main send_error decode_error fuel now fs mkdir term installs bind cli env disks n
       = (n', Done (Some (disks', Running sub logged r insts tasks))) ->
     resolve_with fs cli env = Ok r /\ Launched fuel term disks disks' sub logged r insts tasks)
  /\ (forall n' disks' r insts l actual,
     cli_print_config_example cli = false -> resolve_with fs cli env = Ok r -> rs_print r = None ->
     installs = Ok tt -> bind (srv_addr (rs_server r)) = Ok l -> local_addr l = Ok actual ->
     build_instances send_error decode_error fuel now mkdir (rs_upstream r) (rs_chains r).*2 disks n
       = (n', Done (Some (disks', Ok insts))) ->
     main send_error decode_error fuel now fs mkdir term installs bind cli env disks n
       = (n', Done (Some (disks', Running (init_tracing term (log_level_as_str (rs_log_level r))) (emit_notices r)
                                r insts (map spawn_pipeline insts))))).
Proof.
  split.
  - intros n' disks' sub logged r insts tasks. unfold main. destruct (cli_print_config_example cli); [done|].
    destruct (resolve_with fs cli env) as [r0|] eqn:Er; [|done].
    destruct (rs_print r0) as [[]|]; [by destruct (to_redacted_toml r0)|done|].
    destruct installs as [[]|]; [|done]. intros Hb.
    apply io_bind_inv in Hb as [[_ Hp]|(n1 & built & Hi & Hb)]; [done|].
    destruct built as [[disks1 [insts1|e]]|]; [|done..].
    destruct (serve_start _ _ _); [|done].
    injection Hb as _ <- <- <- <- <- <-. split; [done|].
    pose proof (resolved_wf _ _ _ _ Er) as Hw.
    apply build_instances_started in Hi as [Hs Hf]; [|by apply wellformed_dirs].
    constructor; try done; [by cbn; intros ->|by apply emit_notices_all| |].
    + rewrite (started_chains _ _ _ _ _ Hs). by apply wellformed_chains.
    + split; [by rewrite length_map|by eapply started_pipelines].
  - intros n' disks' r insts l actual He Hr Hp -> Hbind Hla Hi. pose proof (resolved_wf _ _ _ _ Hr) as Hw.
    unfold main. rewrite He, Hr, Hp. rewrite (io_bind_done _ _ _ _ _ Hi).
    apply build_instances_started in Hi as [Hs Hf]; [|by apply wellformed_dirs].
    pose proof (started_chains _ _ _ _ _ Hs) as Hc. destruct (wellformed_chains r Hw) as [Hc1 Hc2].
    unfold serve_start. rewrite build_module_eq, decide_True; [cbn; rewrite Hbind; cbn; by rewrite Hla|]. rewrite <- list_fmap_compose, Hc, Hc1.
    split; [|done]. intros Hnil. apply (wf_some r Hw).
    destruct (rs_chains r) as [|[c g] l0]; [done|]. by destruct insts; inversion Hs.
Qed.

(** ** Shutdown *)

(** Every store is flushed on the way out.  Whatever ends the run - an
    ingest that returns, the stop time, a signal, a fatal upstream condition -
    each store is persisted once, and a flush that fails neither keeps the
    others from being flushed nor changes what is read from the stores; the run
    fails exactly when an ingest failed or the upstream condition was fatal, and
    the stop time can end it only if one was set. *)
Theorem shutdown_flushes_every_store stop_time t stores flushed r :
  can_fire stop_time t -> run_until_shutdown t stores = (flushed, r) ->
  Forall2 (fun st f => f = persist st
             /\ st_chain f.1 = st_chain st /\ st_store f.1 = st_store st
             /\ forall ks k, db_get (st_db f.1) ks k = db_get (st_db st) ks k) stores flushed
  /\ (r <> Ok tt <-> t = FatalNotified \/ exists e, t = IngestEnded (Err e))
  /\ (t = StopTimeReached -> is_Some stop_time).
Proof.
  intros Hf [= <- <-]. split_and!.
  - induction stores as [|st stores IH]; [constructor|]. cbn. constructor; [|exact IH]. split; [done|].
    unfold persist. destruct (db_persist (st_db st)) as [db o] eqn:E. cbn. split_and!; [done..|].
    intros ks k. by apply (persist_get _ _ _ _ _ E).
  - destruct t as [[[]|e]| | |]; cbn; split; try done; naive_solver.
  - by intros ->.
Qed.

End MainSpec.
