(* ===== verification/Witnesses.v ===== *)
(** * Witnesses

    Each property with hypotheses applied at a concrete input, with the
    third-party interfaces instantiated by the implementations of [Backing],
    [ToyJson] and [Codec.Toy]. *)

From Stdlib Require Import ZArith NArith Lia String Ascii.
From S2P Require Import Prelude Str Json ToyJson Chain Record Backing Storage StorageSpec Join.
From S2P Require Import Codec Upstream Progress Subscribe.

#[local] Existing Instances MapStore MapDb ToyJson Toy.ToyHex Toy.ToyCodec.
#[local] Existing Instances MapStore_laws MapDb_laws ToyJson_laws Toy.ToyHex_laws Toy.ToyCodec_laws.

(** A step paired with its result: only the result has to be computed. *)
Lemma step_to {S A} (m : M S A) (s : S) (r : result A) : (m s).2 = r -> m s = ((m s).1, r).
Proof. intros <-. by destruct (m s). Qed.

(** A fresh in-memory store for a chain. *)
Definition st0 (c : Chain) : Storage :=
  {| st_chain := c; st_store := None; st_db := ∅; st_anchor_floor := None |}.

Definition hash1 : bytes := replicate 32 Byte.x01.
Definition tx1 : bytes := replicate 32 Byte.x02.

(** [{"a"}]: an object-shaped text the toy scanner accepts. *)
Definition bare : bytes := [lbrace; quote; Byte.x61; quote; Byte.x7d].

Definition cmd1 : PutCmd :=
  {| cmd_height := 5; cmd_hash := hash1; cmd_txs := [tx1]; cmd_elements := [bare; EMPTY_ARRAY] |}.

Definition st1 : Storage := (run_puts [cmd1] (st0 C)).1.

Lemma bare_text : json_text bare.
Proof. by repeat split. Qed.

Lemma pair_text : Forall json_text [bare; EMPTY_ARRAY].
Proof. repeat constructor; by repeat split. Qed.

Lemma cmd1_ok : cmd_ok cmd1.
Proof. split; [by vm_compute|]. split; [exact pair_text|]. by vm_compute. Qed.

Lemma st0_fresh c : fresh (st0 c).
Proof. split; [done|]. split; intros k; cbn; by rewrite lookup_empty. Qed.

Lemma st0_refines c : refines (st0 c) abs_empty.
Proof. apply fresh_refines, st0_fresh. Qed.

(** ** Storage *)

Lemma storage_refinement_witness :
  run_puts [cmd1] (st0 C) = (st1, Ok tt) /\
  view (get_element st1 5 0) = Ok (Some bare) /\ view (get_by_hash st1 hash1) = Ok (Some bare).
Proof.
  assert (E : run_puts [cmd1] (st0 C) = (st1, Ok tt)) by (apply step_to; vm_compute; reflexivity).
  split; [exact E|].
  destruct (storage_refinement [cmd1] (st0 C) st1 (st0_fresh C)
              (Forall_cons_2 _ _ _ cmd1_ok (Forall_nil_2 _)) E) as (H1 & _ & _ & H4).
  split; [exact (H1 5%N 0%nat)|].
  destruct (H4 hash1 5%N eq_refl) as (es & block & He & Hb & Hv).
  cbn in He. rewrite lookup_insert_eq in He. injection He as <-. injection Hb as <-. exact Hv.
Defined.

Lemma record_roundtrip_witness :
  match at_ (encode [bare; EMPTY_ARRAY]) 0 with
  | Ok (Some el) => Ok (Some (deref el))
  | Ok None => Ok None
  | Err e => Err e
  end = Ok (Some bare).
Proof. exact (record_roundtrip [bare; EMPTY_ARRAY] 0 (le_n 2) pair_text). Defined.

Lemma bare_block_reads_witness :
  is_bare_block bare = true /\ at_ bare 1 = Ok None.
Proof.
  split; [reflexivity|].
  exact (proj1 (proj2 (bare_block_reads bare eq_refl bare_text)) 1%nat (le_n 1)).
Defined.

(** A database whose disk is full: it can be read, and no batch commits. *)
Section FullDisk.

Definition FullDb : Fjall := {|
  Db := gmap (keyspace * bytes) bytes;
  db_get db ks k := Ok (db !! (ks, k));
  db_insert ks k v db := (db, Err EIndex);
  db_commit bt db := (db, Err EIndex);
  db_persist db := (db, Ok tt)
|}.

Lemma FullDb_laws : FjallLaws FullDb.
Proof. split; [done|done|by intros db bt db' e ks k [= <- _]|by intros db db' r ks k [= <- _]]. Qed.

#[local] Existing Instances FullDb FullDb_laws.

Definition full0 : Storage (F := FullDb) :=
  {| st_chain := C; st_store := None; st_db := ∅; st_anchor_floor := None |}.

Definition full1 : Storage (F := FullDb) := (put 5 hash1 [tx1] [bare; EMPTY_ARRAY] full0).1.

(** The block is written and its index entries are not; a record of one element
    is refused before anything is written. *)
Lemma put_failure_window_witness :
  put 5 hash1 [tx1] [bare; EMPTY_ARRAY] full0 = (full1, Err EIndex) /\
  view (get_element full1 5 0) = Ok (Some bare) /\
  height_of_hash full1 hash1 = Ok None /\ get_tx_location full1 tx1 = Ok None /\
  (put 5 hash1 [tx1] [bare] full0).1 = full0.
Proof.
  assert (E : put 5 hash1 [tx1] [bare; EMPTY_ARRAY] full0 = (full1, Err EIndex))
    by (apply step_to; vm_compute; reflexivity).
  destruct (put_failure_window 5 hash1 [tx1] [bare; EMPTY_ARRAY] full0 full1 EIndex pair_text E)
    as (_ & Hh & Ht & _ & He).
  split; [exact E|]. split; [|split; [|split]].
  - apply (He (put_block 5 (encode [bare; EMPTY_ARRAY]) full0).1 0%nat eq_refl).
    apply step_to. vm_compute. reflexivity.
  - rewrite Hh. reflexivity.
  - rewrite Ht. reflexivity.
  - apply (proj1 (put_failure_window 5 hash1 [tx1] [bare] full0 _ (EWrongArity 2 1)
                    (Forall_cons_2 _ _ _ bare_text (Forall_nil_2 _)) eq_refl)).
    discriminate.
Defined.

End FullDisk.

Definition disk0 : Disk := {| disk_store := None; disk_db := ∅ |}.
Definition disk1 : Disk := (open C "43114" None disk0).1.
Definition opened1 : Storage :=
  {| st_chain := C; st_store := None; st_db := disk_db disk1; st_anchor_floor := None |}.
Definition disk2 : Disk := {| disk_store := None; disk_db := disk_db disk1 |}.
Definition disk3 : Disk := (open C "43114" None disk2).1.
Definition opened3 : Storage :=
  {| st_chain := C; st_store := None; st_db := disk_db disk3; st_anchor_floor := None |}.

Lemma open_binds_chain_and_network_witness :
  open C "43114" None disk2 = (disk3, Ok opened3) /\ C = C /\ "43114"%string = "43114"%string.
Proof.
  assert (E2 : open C "43114" None disk2 = (disk3, Ok opened3)) by (unfold disk3; reflexivity).
  split; [exact E2|].
  exact (open_binds_chain_and_network C "43114" None disk0 disk1 opened1 [] opened1 (Ok tt)
           C "43114" None disk2 opened3 ltac:(reflexivity) eq_refl E2).
Defined.

Definition disk_unstamped : Disk :=
  {| disk_store := Some {| ms_min := 0; ms_blocks := ∅ |}; disk_db := ∅ |}.

Lemma open_refusals_witness :
  exists e, open C "43114" None disk_unstamped = (disk_unstamped, Err e).
Proof.
  apply (open_refusals C "43114" None disk_unstamped None None None);
    [by repeat split|].
  left. split; [by eexists|]. split; reflexivity.
Defined.

(** ** Join buffer *)

Definition jb0 : JoinBuffer := Join.new (st0 C) 4.

Lemma join_cap_witness :
  (size (jb_pending (deliver (DLogs 0 7 EMPTY_ARRAY) jb0).1) <= 4)%nat.
Proof.
  apply (join_cap (st0 C) 4 [DLogs 0 7 EMPTY_ARRAY]).
  apply (reach_step _ _ [] jb0 (DLogs 0 7 EMPTY_ARRAY) _ (Ok Buffered)); [constructor|].
  apply step_to. vm_compute. reflexivity.
Defined.

Definition jb1 : JoinBuffer := (deliver (DLogs 0 7 EMPTY_ARRAY) jb0).1.
Definition jb2 : JoinBuffer := (deliver (DBlock 3 7 hash1 [tx1] bare) jb1).1.

Lemma join_writes_newest_pair_witness :
  deliver (DBlock 3 7 hash1 [tx1] bare) jb1 = (jb2, Ok Completed) /\ jb_pending jb2 !! 7%N = None.
Proof.
  assert (E : deliver (DBlock 3 7 hash1 [tx1] bare) jb1 = (jb2, Ok Completed))
    by (apply step_to; vm_compute; reflexivity).
  split; [exact E|].
  assert (Hr : reachable (st0 C) 4 [DLogs 0 7 EMPTY_ARRAY] jb1).
  { apply (reach_step _ _ [] jb0 _ _ (Ok Buffered)); [constructor|]. apply step_to. vm_compute. reflexivity. }
  destruct (join_writes_newest_pair (st0 C) 4 _ jb1 _ jb2 (Ok Completed) Hr E)
    as [(h & t & b & l & _ & _ & _ & _ & ->)|[(H & _)|(H & _)]]; [|done|done].
  apply lookup_delete_eq.
Defined.

Lemma join_order_independent_witness :
  (let! _ := on_block 1 7 hash1 [tx1] bare in on_logs 2 7 EMPTY_ARRAY) jb0 =
  (let! _ := on_logs 5 7 EMPTY_ARRAY in on_block 9 7 hash1 [tx1] bare) jb0.
Proof.
  apply (join_order_independent 1 2 5 9 7 hash1 [tx1] bare EMPTY_ARRAY jb0); [reflexivity|].
  vm_compute. lia.
Defined.

(** ** Codec *)

Lemma cb58_sound_and_complete_witness : cb58_decode (cb58_encode hash1) = Ok hash1.
Proof. exact (proj1 (cb58_sound_and_complete (LL := Toy.ToyCodec_laws)) hash1 eq_refl). Defined.

Lemma render_bytes_decodes_witness : hexnc_decode ("0x" ++ hex_encode hash1)%string = Ok hash1.
Proof. exact (render_bytes_decodes (HL := Toy.ToyHex_laws) Hexnc hash1). Defined.

(** ** Upstream *)

Lemma redact_url_hides_query_witness :
  redact_url "https://h/ext?token=a" = redact_url "https://h/ext?token=b".
Proof. exact (proj1 (redact_url_hides_query "https://h/ext" "token=a" "token=b" eq_refl)). Defined.

(** Three callers at once, and one after the queue has drained. *)
Lemma pacer_rate_bound_witness :
  claims (pacer_new 10 0) [0; 1; 2; 50]%N = [0; 10; 20; 50]%N /\
  prompt 10 0 [0; 1; 2; 50]%N (claims (pacer_new 10 0) [0; 1; 2; 50]%N) /\
  spaced 10 0 (claims (pacer_new 10 0) [0; 1; 2; 50]%N).
Proof.
  split; [reflexivity|].
  destruct (pacer_rate_bound (pacer_new 10 0) [0; 1; 2; 50]%N 0 5 eq_refl) as (Hp & _ & Hs & _).
  - repeat constructor; by vm_compute.
  - split; [exact Hp|exact Hs].
Defined.

(** ** Progress *)

Lemma summary_reports_worse_gap_witness :
  summary_tick 7 None 9 4 3 2 = (SummaryStartup 9 4 5 2, Some (9, 7)%N, 0%N) /\ 5%N = N.max (9 - 4) 3.
Proof.
  split; [reflexivity|].
  exact (proj1 (proj2 (proj2 (summary_reports_worse_gap 7 None 9 4 3 2 _ _ _ eq_refl)))).
Defined.

(** ** Subscriptions *)

Lemma replay_gapless_witness :
  serve 2 C (fun _ => st1) [] {| sr_kind := OldBlocks; sr_from := Some 5%N; sr_to := Some 5%N |}
    [OldBlocks] = Streamed [bare] true /\
  exists err, serve 2 C (fun _ => st1) [] {| sr_kind := OldBlocks; sr_from := Some 5%N; sr_to := Some 6%N |}
    [OldBlocks] = Rejected err.
Proof.
  assert (Hin : OldBlocks ∈ [OldBlocks]) by left. split.
  - apply (replay_gapless C (fun _ => st1) [] OldBlocks 5 5 [OldBlocks] (abs_run [cmd1] abs_empty) 2 eq_refl Hin eq_refl);
      [done| |vm_compute; lia].
    intros _. apply refines_keeps with (s := {| ms_min := 5; ms_blocks := <[5%N := encode [bare; EMPTY_ARRAY]]> ∅ |}).
    + apply (run_puts_refines [cmd1] (st0 C) st1 abs_empty (st0_refines C) index_sound_empty);
        [constructor; [exact cmd1_ok|constructor]|].
      apply step_to. vm_compute. reflexivity.
    + by vm_compute.
    + eexists; by vm_compute.
    + by vm_compute.
    + by vm_compute.
  - apply (replay_gapless C (fun _ => st1) [] OldBlocks 5 6 [OldBlocks] (abs_run [cmd1] abs_empty) 2 eq_refl Hin eq_refl).
    by right; right; right; vm_compute.
Defined.
