(* ===== verification/LiveWitnesses.v ===== *)
(** * Witnesses for the ingest and serving sides

    The properties of [EthFetch] to [Bulk] applied at concrete inputs: a
    scripted upstream, one C-chain block and one P-chain block. *)

From Stdlib Require Import ZArith NArith Lia String Ascii.
From S2P Require Import Prelude Str Json ToyJson Chain Record Backing Storage StorageSpec Join.
From S2P Require Import Codec Upstream Progress Subscribe Http Socket EthFetch Backfill Serve Health.
From S2P Require Import EthIngest EthRpc PlatformIngest Mirror PlatformRpc Bulk EndToEnd Witnesses.

#[local] Existing Instances MapStore MapDb ToyJson Toy.ToyHex Toy.ToyCodec.
#[local] Existing Instances MapStore_laws MapDb_laws ToyJson_laws Toy.ToyHex_laws Toy.ToyCodec_laws.

(** An upstream that gives its scripted replies in turn, then goes away. *)
#[local] Instance Scripted : Http := {|
  World := list HttpReply;
  post _ _ w := match w with [] => ([], SendError) | r :: w => (w, r) end;
  http_get _ w := match w with [] => ([], SendError) | r :: w => (w, r) end
|}.

Definition reply (v : Value) : HttpReply := Response 200 None (Some (VObject [("result", v)])).
Definition net (script : list HttpReply) : Net := {| net_world := script; net_trace := [] |}.

(** The result of a computation, paired with the state it leaves. *)
Lemma pair_to {S A} (p : S * A) (a : A) : p.2 = a -> p = (p.1, a).
Proof. intros <-. by destruct p. Qed.

Definition cfg0 : IngestCfg :=
  {| cfg_chain := C; cfg_max_wait := 0; cfg_ws_idle_timeout := 0; cfg_ws_url := "ws://up";
     cfg_rpc_url := "http://up"; cfg_poll_interval := 0;
     cfg_subscribe_blocks := true; cfg_backfill_inter_fetch := 0; cfg_fetch_concurrency := 1; cfg_backfill_floor := Some 5%N;
     cfg_prefetch_delay_cap := 0; cfg_progress_period := 0; cfg_ingest_logs := true;
     cfg_logs_source := Receipts |}.

Definition hash_text : string := "0x" ++ hex_encode hash1.
Definition tx_value : Value := VObject [("hash", VString ("0x" ++ hex_encode tx1))].
Definition log_value : Value := VObject [("blockNumber", VString "0x5")].
Definition receipt_value : Value := VObject [("logs", VArray [log_value])].
Definition receipts_value : Value := VArray [receipt_value].
Definition block_value : Value :=
  VObject [("hash", VString hash_text); ("number", VString "0x5"); ("transactions", VArray [tx_value])].

Definition block_bytes : bytes := default [] (to_vec block_value).
Definition logs_bytes : bytes := default [] (to_vec (VArray [log_value])).

Lemma block_bytes_ok : to_vec block_value = Some block_bytes.
Proof. vm_compute. reflexivity. Qed.

(** ** Fetching and backfill *)

Lemma aimd_envelope_witness :
  aimd_current (aimd_run (replicate 2 true) (aimd_run [false] (aimd_new (from_millis 50)))) = from_millis 8.
Proof.
  exact (proj2 (proj2 (aimd_envelope (from_millis 50) [false] 2 ltac:(by vm_compute)))).
Defined.

Lemma logs_sources_agree_witness :
  serialized (load (VArray [log_value])) 5 = serialize (logs_from_receipts receipts_value).
Proof.
  apply (logs_sources_agree [(5%N, receipts_value)] 5 receipts_value).
  - repeat constructor. apply not_elem_of_nil.
  - left.
  - repeat constructor.
Defined.

Definition progress0 : BackfillProgress := Progress.new C 0.

Definition run0 : Run :=
  {| run_storage := {| st_chain := C; st_store := None; st_db := ∅; st_anchor_floor := Some 5%N |};
     run_net := net [reply block_value; reply receipts_value];
     run_progress := progress0; run_behind_tip := 0; run_logs := ∅ |}.

Definition snap0 (h : N) : Storage := run_storage run0.
Definition run1 : Run := (fill_range cfg0 snap0 (fun _ => 0%N) 5 5 5 run0).1.

Lemma run1_filled : fill_range cfg0 snap0 (fun _ => 0%N) 5 5 5 run0 = (run1, Done true).
Proof. apply pair_to. vm_compute. reflexivity. Qed.

Lemma fill_range_faithful_witness :
  exists res, evolves (fun c => (5 <= cmd_height c <= 5)%N /\
                                fetched_cmd cfg0 5 5 (net_trace (run_net run1)) c)
                (run_storage run0) (run_storage run1) res.
Proof. exact (fill_range_faithful cfg0 snap0 (fun _ => 0%N) 5 5 5 run0 run1 (Done true) run1_filled). Defined.

Lemma fill_range_closes_gap_witness :
  anchored (run_storage run1) /\ (5 <= max_contiguous_height (run_storage run1))%N.
Proof.
  apply (fill_range_closes_gap cfg0 snap0 (fun _ => 0%N) 5 5 5 run0 run1).
  - lia.
  - right. split; reflexivity.
  - intros h el _ E. discriminate E.
  - exact run1_filled.
Defined.

(** What the run was answered, as JSON. *)
Definition answer_ok (e : Effect) : bool :=
  match e with
  | Posted _ _ rep =>
      match reply_result rep with
      | Some v => json_wf v && (N.of_nat (length (extract_tx_hashes v)) <=? u32_max)%N
      | None => true
      end
  | _ => true
  end.

Lemma answers_ok tr : forallb answer_ok tr = true -> wf_answers tr.
Proof.
  intros Hall body v (url & rep & Hin & Hv). rewrite forallb_forall in Hall.
  specialize (Hall _ (proj1 (list_elem_of_In _ _) Hin)). cbn [answer_ok] in Hall. rewrite Hv in Hall.
  apply andb_true_iff in Hall as [? ?%N.leb_le]. done.
Qed.

Lemma run1_answers : wf_answers (net_trace (run_net run1)).
Proof. apply answers_ok. vm_compute. reflexivity. Qed.

Lemma run0_fresh : fresh (run_storage run0).
Proof. split; [done|]. split; intros k; cbn; by rewrite lookup_empty. Qed.

Definition api1 : EthApiImpl :=
  {| ea_storage := run_storage run1; ea_chain_id := 43114; ea_join := None; ea_ingests_logs := true |}.

Lemma backfilled_is_served_witness :
  exists block, answered (net_trace (run_net run1)) (block_request 5) block /\
    get_block_by_number api1 "0x5" true = Ok (Some block).
Proof.
  destruct (proj1 (backfilled_is_served cfg0 snap0 (fun _ => 0%N) 5 5 5 run0 run1 abs_empty api1
                     (fresh_refines _ run0_fresh)
                     index_sound_empty ltac:(by vm_compute) run1_filled run1_answers eq_refl) 5%N)
    as (block & Ha & Hg).
  - lia.
  - intros [el E]. discriminate E.
  - exists block. split; [exact Ha|]. exact (Hg true).
Defined.

(** A pass that needs a fresh tip: one request for the tip, then the run. *)
Definition run_tip : Run :=
  {| run_storage := run_storage run0;
     run_net := net [reply (VString "0x5"); reply block_value; reply receipts_value];
     run_progress := progress0; run_behind_tip := 0; run_logs := ∅ |}.

Definition passed := backfill_pass cfg0 snap0 0 0 (fun _ => 0%N) (run_tip, tip_new, 0%N).

Lemma backfill_pass_decides_witness :
  passed.2 = Filled 5 5 true /\ (5 + 1 - 5 <= LOGS_WINDOW)%N.
Proof.
  assert (Ep : passed.2 = Filled 5 5 true) by (vm_compute; reflexivity).
  split; [exact Ep|].
  pose proof (backfill_pass_decides cfg0 snap0 0 0 (fun _ => 0%N) run_tip tip_new 0
                passed.1.1.1 passed.1.1.2 passed.1.2 (Filled 5 5 true)
                ltac:(by vm_compute) ltac:(by vm_compute)) as H.
  refine (proj2 (proj2 (proj2 (H _)))).
  rewrite <- Ep. unfold passed. by destruct (backfill_pass _ _ _ _ _ _) as [[[? ?] ?] ?].
Defined.

(** ** Serving *)

Definition null_reply : Value := VObject [("id", VNumber (PosInt 1)); ("result", Null)].

Definition null_bytes : bytes := default [] (to_vec null_reply).

Lemma null_bytes_ok : to_vec null_reply = Some null_bytes.
Proof. vm_compute. reflexivity. Qed.

Lemma misdirected_iff_null_result_witness :
  (not_found_421 200 (Some null_bytes)).1 = MISDIRECTED_REQUEST.
Proof.
  apply (proj2 (proj1 (proj2 (misdirected_iff_null_result null_reply null_bytes 200
           eq_refl null_bytes_ok ltac:(done))))).
  eexists. split; reflexivity.
Defined.

Definition serve0 (c : Chain) (st : Storage) : ChainServe :=
  {| cs_chain := c; cs_storage := st; cs_data_dir := []; cs_identity := "43114"; cs_behind_tip := 0;
     cs_join := None; cs_ingests_logs := true |}.

Definition host0 : HostInfo :=
  {| hi_version := "0"; hi_commit := "0"; hi_uptime_secs := 0; hi_format_duration _ := "0s"%string;
     hi_memory := None; hi_fs _ := None; hi_human_bytes _ := "0 B"%string; hi_display _ := ""%string |}.

Lemma health_probe_reads_back_witness :
  upstream_blocks_field (build_health_response host0 [serve0 P (st0 P); serve0 C st1]) C
    "max_contiguous_height" = Some 5%N.
Proof.
  rewrite (health_probe_reads_back host0 [serve0 P (st0 P); serve0 C st1] C "max_contiguous_height").
  - vm_compute. reflexivity.
  - repeat constructor; rewrite ?elem_of_cons, ?elem_of_nil; intros H; repeat destruct H as [H|H]; done.
  - vm_compute. right. left.
Defined.

(** ** Live ingestion *)

Definition node0 (script : list HttpReply) : Node :=
  {| nd_net := net script; nd_buf := jb0; nd_live := []; nd_receivers := 1; nd_aimd := aimd_new 0 |}.

Definition head_frame : Value :=
  VObject [("method", VString "eth_subscription");
           ("params", VObject [("result", VObject [("hash", VString hash_text); ("number", VString "0x5")])])].

Definition text_of (v : Value) : option Message := Some (Binary (default [] (to_vec v))).

Definition live_script : list HttpReply := [reply block_value; reply receipts_value].

(** A peer that opens a socket and delivers these messages. *)
Definition delivers (msgs : list (option Message)) : WsLib Scripted := {|
  connect_async _ w := (w, Opened (fun _ => Some msgs))
|}.

Definition session1 :=
  run_session (W := delivers [text_of head_frame]) cfg0 true (fun _ => false) (fun _ => 0%N) (node0 live_script).

Lemma session_writes_sound_witness :
  session1.2 = Done (Ok tt) /\
  (exists b, stored (nd_storage session1.1) 5 = Ok (Some b)) /\
  exists res, evolves (session_cmd (trace session1.1)) (st0 C) (nd_storage session1.1) res.
Proof.
  split; [vm_compute; reflexivity|]. split; [eexists; vm_compute; reflexivity|].
  refine (proj2 (session_writes_sound (W := delivers [text_of head_frame]) cfg0 true (fun _ => false) (fun _ => 0%N)
                   (node0 live_script) session1.1 session1.2 _ (surjective_pairing _))).
  intros h p Hp. cbn in Hp. by rewrite lookup_empty in Hp.
Defined.

Definition live1 := persist_live true 0 1 cfg0 5 hash_text block_value (node0 [reply receipts_value]).

(** With log joining the block is published and then written with its logs; without,
    a listener hears nothing when the announced hash is another. *)
Lemma announced_is_servable_witness :
  nd_live live1.1 = [{| lu_block := block_value; lu_record := None |}] /\
  servable live1.1 5 block_bytes /\
  nd_live (persist_live false 0 1 cfg0 5 "0x00" block_value (node0 [])).1 = [].
Proof.
  assert (Hpl : forall script pl, jb_pending (nd_buf (node0 script)) !! 5%N = Some (PLogs pl) -> json_text (pl_bytes pl)).
  { intros script pl Hp. cbn in Hp. by rewrite lookup_empty in Hp. }
  destruct (announced_is_servable true 0 1 cfg0 5 hash_text block_value block_bytes
              (node0 [reply receipts_value]) live1.1 live1.2 block_bytes_ok (Hpl _) (surjective_pairing _)) as [H _].
  assert (Hout : live1.2 = Done (Ok tt)) by (vm_compute; reflexivity).
  assert (Htold : told block_value (node0 [reply receipts_value]) = [{| lu_block := block_value; lu_record := None |}])
    by (vm_compute; reflexivity).
  assert (Ht : match taken true 0 5 hash_text block_value (node0 [reply receipts_value]) with
               | Some _ => true | None => false end = true) by (vm_compute; reflexivity).
  destruct (taken true 0 5 hash_text block_value (node0 [reply receipts_value])) as [at_|]; [|discriminate Ht].
  destruct H as (Hl & _ & Hs). rewrite Htold in Hl.
  split; [exact Hl|]. split; [exact (Hs Hout)|].
  destruct (announced_is_servable false 0 1 cfg0 5 "0x00" block_value block_bytes (node0 []) _ _ block_bytes_ok
              (Hpl _) (surjective_pairing _)) as (_ & Hne & _).
  apply Hne. vm_compute. discriminate.
Defined.

Definition block_frame : Value :=
  VObject [("method", VString "eth_subscription"); ("params", VObject [("result", block_value)])].

Definition health_reply : HttpReply :=
  Response 200 None (Some (VObject [("blocks", VObject [("max_contiguous_height", VNumber (PosInt 5))])])).

Definition boot1 :=
  bootstrap_via_oldblocks (W := delivers [text_of block_frame]) cfg0 (fun _ => false) (st0 C, net [health_reply]).

Lemma bootstrap_ends_at_target_witness :
  boot1.2 = Done (Ok tt) /\ exists res, evolves streamed_cmd (st0 C) boot1.1.1 res.
Proof.
  split; [vm_compute; reflexivity|].
  refine (proj1 (bootstrap_ends_at_target (W := delivers [text_of block_frame]) cfg0 (fun _ => false)
                   (st0 C) (net [health_reply]) boot1.1.1 boot1.1.2 (Ok tt) _)).
  rewrite <- surjective_pairing. apply pair_to. vm_compute. reflexivity.
Defined.

(** ** The C-chain methods *)

Definition cmd5 : PutCmd :=
  {| cmd_height := 5; cmd_hash := hash1; cmd_txs := extract_tx_hashes block_value;
     cmd_elements := [block_bytes; logs_bytes] |}.

Definition st5 : Storage := (run_puts [cmd5] (st0 C)).1.
Definition abs5 : Abs := abs_run [cmd5] abs_empty.

Lemma st5_run : run_puts [cmd5] (st0 C) = (st5, Ok tt).
Proof. apply step_to. vm_compute. reflexivity. Qed.

Lemma cmd5_ok : cmd_ok cmd5.
Proof.
  split; [by vm_compute|]. split; [|by vm_compute].
  apply Forall_cons_2; [|apply Forall_cons_2; [|apply Forall_nil_2]].
  - apply (to_vec_text block_value). exact block_bytes_ok.
  - apply (to_vec_text (VArray [log_value])). vm_compute. reflexivity.
Qed.

Lemma st5_refines : refines st5 abs5.
Proof.
  apply (run_puts_refines [cmd5] (st0 C) st5 abs_empty (st0_refines C) index_sound_empty); [|exact st5_run].
  constructor; [exact cmd5_ok|constructor].
Qed.

Definition api5 : EthApiImpl :=
  {| ea_storage := st5; ea_chain_id := 43114; ea_join := None; ea_ingests_logs := true |}.

Definition any_log : LogFilter :=
  {| lf_from_block := Some "0x5"%string; lf_to_block := None; lf_block_hash := None; lf_address := None;
     lf_topics := None |}.

Lemma get_logs_exact_witness :
  get_logs GETLOGS_TURNS api5 any_log = Some (Ok (Some (VArray [log_value]))).
Proof.
  apply (proj2 (proj2 (get_logs_exact api5 any_log abs5 5 5 st5_refines eq_refl
                         ltac:(vm_compute; reflexivity) ltac:(by vm_compute)) (VArray [log_value]))).
  exists [[log_value]]. split; [vm_compute; reflexivity|reflexivity].
Defined.

Lemma tx_by_hash_returns_it_witness :
  exists tx, get_transaction_by_hash api5 ("0x" ++ hex_encode tx1) = Ok (Some tx) /\ tx_hash_of tx = Some tx1.
Proof.
  assert (Hi : indexes_block cmd5).
  { exists block_value, block_bytes, logs_bytes.
    split_and!; [reflexivity|exact block_bytes_ok|reflexivity|reflexivity|].
    apply Forall_cons_2; [|apply Forall_nil_2]. eexists. vm_compute. reflexivity. }
  pose proof (tx_by_hash_returns_it [cmd5] (st0 C) api5 tx1 (st0_fresh C)
                (Forall_cons_2 _ _ _ cmd5_ok (Forall_nil_2 _)) (Forall_cons_2 _ _ _ Hi (Forall_nil_2 _))
                (NoDup_singleton _) st5_run eq_refl) as H.
  destruct (get_transaction_by_hash api5 _) as [[tx|]|]; [exists tx; split; [done|apply H]| |done].
  destruct (H cmd5); [left|]. vm_compute. left.
Defined.

Lemma tx_value_hash : tx_hash_of tx_value = Some tx1.
Proof. vm_compute. reflexivity. Qed.

(** An entry without a hash comes first: the index says 0, the block says 1. *)
Lemma tx_index_position_witness :
  let block := VObject [("transactions", VArray [VObject []; tx_value])] in
  extract_tx_hashes block !! 0%nat = Some tx1 /\ nth_transaction block 1 = Some tx_value.
Proof.
  intros block.
  destruct (tx_index_position block [VObject []] tx_value [] tx1 eq_refl tx_value_hash)
    as (H1 & H2 & _).
  split; [exact H1|exact H2].
Defined.

Lemma block_lookups_agree_witness :
  get_block_by_number api5 (hex_quantity 5) true = Ok (Some block_value) /\
  get_block_by_hash api5 ("0x" ++ hex_encode hash1) true = Ok (Some block_value).
Proof.
  apply (proj1 (block_lookups_agree api5 abs5 5 hash1 block_value block_bytes logs_bytes true st5_refines
                  ltac:(by vm_compute) eq_refl eq_refl block_bytes_ok)); vm_compute; reflexivity.
Defined.

(** ** The P-chain *)

(** A proposal to reward a staker at height 7, committed by the block at 8. *)
Definition raw7 : bytes := [Byte.x00; Byte.x00; Byte.x00; Byte.x00; Byte.x00; Byte.x00; Byte.x07].
Definition raw8 : bytes := [Byte.x00; Byte.x00; Byte.x00; Byte.x00; Byte.x00; Byte.x02; Byte.x08].

Definition bytes_of (raw : bytes) : Value := VString ("0x" ++ hex_encode raw).

Definition json7 : Value :=
  VObject [("height", VNumber (PosInt 7)); ("id", VString (block_id_of raw7));
           ("tx", VObject [("id", VString (cb58_encode tx1));
                           ("unsignedTx", VObject [("txID", VString "staked")])])].

Definition json8 : Value :=
  VObject [("height", VNumber (PosInt 8)); ("id", VString (block_id_of raw8))].

Definition block_in (v : Value) : HttpReply := reply (VObject [("block", v)]).

(** The halves of the block at height 7 are accepted at that height, and no block
    comes out of them at another. *)
Lemma verify_exact_witness :
  (exists fb, verify (bytes_of raw7) json7 (Some 7%N) = Some fb /\ fb_id fb = sha256 raw7) /\
  verify (bytes_of raw7) json7 (Some 8%N) = None.
Proof.
  split.
  - eexists. split.
    + apply (proj2 (verify_exact (bytes_of raw7) json7 (Some 7%N) _)).
      eexists ("0x" ++ hex_encode raw7)%string, raw7, 7%N, _, _.
      split_and!; try (vm_compute; reflexivity). by intros want [= <-].
    + reflexivity.
  - destruct (verify (bytes_of raw7) json7 (Some 8%N)) as [fb|] eqn:E; [|done].
    apply verify_exact in E as (hex & raw & h & b & j & _ & _ & _ & Eh & Hw & _).
    specialize (Hw 8%N eq_refl). subst h. discriminate Eh.
Defined.

Definition cfg_p : IngestCfg := handshake_cfg "http://up" 0.

Definition prun0 : PRun :=
  {| pr_storage := {| st_chain := P; st_store := None; st_db := ∅; st_anchor_floor := Some 7%N |};
     pr_net := net [block_in (bytes_of raw7); block_in json7; block_in (bytes_of raw8); block_in json8;
                    reply (VObject [("utxos", VArray [VString "0x01"])])];
     pr_progress := Progress.new P 0; pr_behind_tip := 0; pr_live := []; pr_receivers := 0 |}.

Definition pfilled := p_fill_range cfg_p (fun _ => 0%N) 7 8 8 prun0.

Lemma p_fill_range_settles_witness :
  pfilled.2 = Done true /\ max_contiguous_height (pr_storage pfilled.1) = 8%N /\
  exists res, evolves (fun c => (7 <= cmd_height c <= 8)%N /\ settled_cmd (net_trace (pr_net pfilled.1)) c)
                (pr_storage prun0) (pr_storage pfilled.1) res.
Proof.
  split; [vm_compute; reflexivity|]. split; [vm_compute; reflexivity|].
  exact (p_fill_range_settles cfg_p (fun _ => 0%N) 7 8 8 prun0 pfilled.1 pfilled.2 (surjective_pairing _)).
Defined.

Definition p_answer_ok (e : Effect) : bool :=
  match e with
  | Posted _ _ rep =>
      match reply_result rep with
      | Some v => json_wf v && match get "block" v with
                               | Some jv => (N.of_nat (length (extract_tx_ids jv)) <=? u32_max)%N
                               | None => true
                               end
      | None => true
      end
  | _ => true
  end.

Lemma p_answers_ok tr : forallb p_answer_ok tr = true -> p_wf_answers tr.
Proof.
  intros Hall body v (url & rep & Hin & Hv). rewrite forallb_forall in Hall.
  specialize (Hall _ (proj1 (list_elem_of_In _ _) Hin)). cbn [p_answer_ok] in Hall. rewrite Hv in Hall.
  apply andb_true_iff in Hall as [? Hb]. split; [done|]. intros jv Hg. rewrite Hg in Hb. by apply N.leb_le.
Qed.

Lemma pfilled_answers : p_wf_answers (net_trace (pr_net pfilled.1)).
Proof. apply p_answers_ok. vm_compute. reflexivity. Qed.

Lemma pfilled_done : p_fill_range cfg_p (fun _ => 0%N) 7 8 8 prun0 = (pfilled.1, Done true).
Proof. apply pair_to. vm_compute. reflexivity. Qed.

Lemma prun0_fresh : fresh (pr_storage prun0).
Proof. split; [done|]. split; intros k; cbn; by rewrite lookup_empty. Qed.

(** The block at height 7, held until the one at 8 committed it, is served. *)
Lemma ingested_is_served_witness :
  exists jv, encoded_at (net_trace (pr_net pfilled.1)) 7 EJson jv /\
    get_block_by_height (pr_storage pfilled.1) {| bh_height := UStr "7"; bh_encoding := Some "json"%string |}
      = Ok (Some (block_reply jv EJson)).
Proof.
  destruct (ingested_is_served cfg_p (fun _ => 0%N) 7 8 8 prun0 pfilled.1 abs_empty (fresh_refines _ prun0_fresh)
              index_sound_empty ltac:(by vm_compute) ltac:(lia) pfilled_done pfilled_answers) as (next & He & Hall).
  destruct (Hall 7%N) as (jv & hex & raw & Hj & _ & _ & Ha & _).
  - split; [lia|]. destruct He as [->|[-> _]]; lia.
  - exists jv. split; [exact Hj|exact Ha].
Defined.

Definition record_frame : Value :=
  VObject [("method", VString "platform.subscription");
           ("params", VObject [("result", VArray [json8; bytes_of raw8; VArray []])])].

Definition p_health_reply : HttpReply :=
  Response 200 None (Some (VObject [("chains", VObject [("p", VObject [("blocks",
    VObject [("max_contiguous_height", VNumber (PosInt 8))])])])])).

Definition mirror0 : MirrorSt :=
  {| mi_storage := st0 P; mi_behind := 0; mi_count := 0; mi_progress := Progress.new P 0 |}.

Definition mirrored :=
  mirror_bootstrap (W := delivers [text_of record_frame]) cfg_p (fun _ => false) (fun _ => 0%N) 0
    (mirror0, net [p_health_reply]).

Lemma mirror_bootstrap_sound_witness :
  mirrored.2 = Done (Ok tt) /\ exists res, evolves mirrored_cmd (st0 P) (mi_storage mirrored.1.1) res.
Proof.
  split; [vm_compute; reflexivity|].
  refine (proj1 (mirror_bootstrap_sound (W := delivers [text_of record_frame]) cfg_p (fun _ => false) (fun _ => 0%N) 0
                   mirror0 (net [p_health_reply])
                   mirrored.1.1 mirrored.1.2 (Ok tt) _)).
  rewrite <- surjective_pairing. apply pair_to. vm_compute. reflexivity.
Defined.

Definition fb7 : FetchedBlock :=
  default {| fb_height := 0; fb_bytes_json := []; fb_json := []; fb_id := []; fb_tx_ids := [];
             fb_timestamp := None; fb_kind := Other; fb_reward_staking_tx := None |}
    (verify (bytes_of raw7) json7 None).

Definition cmd7 : PutCmd :=
  {| cmd_height := fb_height fb7; cmd_hash := fb_id fb7; cmd_txs := fb_tx_ids fb7;
     cmd_elements := fetched_elements fb7 EMPTY_ARRAY |}.

Definition st7 : Storage := (run_puts [cmd7] (st0 P)).1.

Lemma st7_run : run_puts [cmd7] (st0 P) = (st7, Ok tt).
Proof. apply step_to. vm_compute. reflexivity. Qed.

Lemma cmd7_verified : Forall verified_cmd [cmd7].
Proof.
  apply Forall_cons_2; [|apply Forall_nil_2]. exists (bytes_of raw7), json7, fb7, EMPTY_ARRAY.
  split_and!; try (vm_compute; reflexivity); by vm_compute.
Qed.

Definition id7 : bytes := fb_id fb7.

Lemma get_block_self_verifying_witness :
  exists r, get_block st7 {| bb_block_id := cb58_encode id7; bb_encoding := Some "hexnc"%string |} = Ok (Some r) /\
            reply_verifies id7 Hexnc r.
Proof.
  pose proof (get_block_self_verifying [cmd7] (st0 P) st7 id7 Hexnc (st0_fresh P) cmd7_verified
                (NoDup_singleton _) st7_run ltac:(vm_compute; reflexivity)) as H.
  change (encoding_as_str Hexnc) with "hexnc"%string in H.
  destruct (get_block st7 _) as [[r|]|]; [by exists r| |done].
  destruct (H cmd7); [left|]. reflexivity.
Defined.

Lemma get_tx_returns_it_witness :
  exists r tx, get_tx st7 {| bt_tx_id := cb58_encode tx1; bt_encoding := Some "json"%string |} = Ok (Some r) /\
               get "tx" r = Some tx /\ tx_id_of tx = Some tx1.
Proof.
  assert (Hd : Forall ids_decode [cmd7]).
  { apply Forall_cons_2; [|apply Forall_nil_2]. intros j json Hj Hf. vm_compute in Hj. injection Hj as <-.
    vm_compute in Hf. injection Hf as <-.
    apply Forall_cons_2; [|apply Forall_nil_2]. eexists. vm_compute. reflexivity. }
  pose proof (get_tx_returns_it [cmd7] (st0 P) st7 tx1 (st0_fresh P) cmd7_verified Hd
                (NoDup_singleton _) st7_run eq_refl) as H. cbv zeta in H.
  destruct (get_tx st7 _) as [[r|]|]; [|destruct H as [H _]|done].
  - destruct H as [(tx & H1 & H2) _]. by exists r, tx.
  - destruct (H cmd7); [left|]. vm_compute. left.
Defined.

(** ** Bulk export *)

Definition stores5 : Stores := stores_new [serve0 C st5].

(** Height 5 is exported, up to the tip; height 6 is past it. *)
Lemma bulk_export_complete_witness :
  bulk_call stores5 (fun _ => st5) 10 "GET" "/blocks" (Some "from=5&to=5"%string)
    = Some (Ndjson (block_bytes ++ [newline])) /\
  exists msg, bulk_call stores5 (fun _ => st5) 10 "GET" "/blocks" (Some "from=5&to=6"%string)
    = Some (BulkError RANGE_NOT_SATISFIABLE msg).
Proof.
  assert (H : forall query to,
    parse_range query = Ok {| rg_from := 5; rg_to := Some to; rg_chain := None |} -> _) by
    exact (fun query to Hq => bulk_export_complete stores5 (fun _ => st5) 10 query 5 (Some to) None st5 abs5
             {| ms_min := 5; ms_blocks := <[5%N := Record.encode [block_bytes; logs_bytes]]> ∅ |}
             Hq ltac:(reflexivity) st5_refines ltac:(by vm_compute) ltac:(eexists; by vm_compute) ltac:(by vm_compute)).
  change (min_height st5) with 5%N in H. change (max_contiguous_height st5) with 5%N in H.
  split.
  - rewrite (proj1 (H "from=5&to=5" 5%N ltac:(reflexivity))).
    + vm_compute. reflexivity.
    + split_and!; [cbn; lia..| |cbn; lia]. intros h Hh. cbn in Hh. replace h with 5%N by lia. by eexists.
    + intros h _. by exists abs5; split; [exact st5_refines|].
  - destruct (proj2 (H "from=5&to=6" 6%N ltac:(reflexivity))) as (status & msg & E & ->).
    + intros (_ & Hall & _). destruct (Hall 6%N ltac:(cbn; lia)) as [es Hes]. vm_compute in Hes. discriminate Hes.
    + exists msg. exact E.
Defined.
