(* ===== verification/ConfigWitnesses.v ===== *)
(** * Witnesses for the configuration and the metrics

    The properties of [ConfigSpec], [ConfigSecrets] and [Metrics] applied at
    concrete inputs, with [ToyConfig] for the parsers. *)

From Stdlib Require Import ZArith NArith Lia String Ascii.
From S2P Require Import Prelude Str Chain Upstream Join Subscribe Float64 Toml Config ConfigLayers ConfigResolve.
From S2P Require Import ConfigSpec ConfigSecrets ToyConfig Metrics.

#[local] Open Scope string_scope.

(** ** A configuration *)

(** Both chains in the file, a floor for the P-chain, a shared cap. *)
Definition config_text : string :=
  "network = " ++ quote_str ++ "testnet" ++ quote_str ++ newline_str
  ++ "defaults.join_buffer_cap = 64" ++ newline_str
  ++ "chains.c.ingest_logs = true" ++ newline_str
  ++ "chains.p.backfill_floor = 7".

Definition files0 : Files :=
  {| file_exists p := String.eqb p DEFAULT_CONFIG_PATH;
     read_to_string p := if String.eqb p DEFAULT_CONFIG_PATH then Some config_text else None |}.

Definition env_with (token : string) : Env :=
  from_process (fun key => if String.eqb key "NEVE_UPSTREAM_TOKEN" then Some token else None).

Lemma env_with_vars token : env_vars (env_with token) = [("NEVE_UPSTREAM_TOKEN", token)].
Proof. vm_compute. reflexivity. Qed.

(** [--set chains.p.concurrency=3 --join-buffer-cap 16] *)
Definition cli0 : Cli := {|
  cli_config := None; cli_network := None; cli_data_dir := None; cli_rpc_addr := None; cli_chains := [];
  cli_mirror_from := None; cli_stop_time := None; cli_log_level := None; cli_ingest_logs := false;
  cli_set := ["chains.p.concurrency=3"]; cli_print_config := false; cli_print_config_example := false;
  cli_ws_url := None; cli_rpc_url := None; cli_p_rpc_url := None; cli_p_poll_interval := None;
  cli_request_interval := None; cli_p_request_interval := None; cli_p_concurrency := None;
  cli_p_data_dir := None; cli_backfill_floor := None; cli_p_backfill_floor := None; cli_max_wait := None;
  cli_ws_idle_timeout := None; cli_prefetch_delay_cap := None; cli_idle_timeout := None;
  cli_max_connections := None; cli_max_blocks_per_request := None; cli_summary_period := None;
  cli_join_buffer_cap := Some 16%N
|}.

Definition ok_of {A} (o : result A) (d : A) : A := match o with Ok a => a | Err _ => d end.

Lemma ok_of_is_ok {A} (o : result A) d : is_ok o = true -> o = Ok (ok_of o d).
Proof. by destruct o. Qed.

Definition resolved_none : Resolved :=
  {| rs_network := Mainnet; rs_log_level := Info; rs_stop_time := None;
     rs_upstream := {| up_kind := Neve; up_base := ""; up_token := None; up_token_param := "";
                       up_token_file := None; up_max_rps := None; up_host_pacer := None |};
     rs_server := {| srv_addr := (""  : SocketAddr); srv_max_connections := 0; srv_idle_timeout := None;
                     srv_max_blocks_per_request := 0 |};
     rs_chains := []; rs_print := None; rs_notices := [] |}.

Definition resolved_with (token : string) : Resolved :=
  ok_of (resolve_with files0 cli0 (env_with token)) resolved_none.

Definition resolved0 : Resolved := resolved_with "secret".

Lemma resolved0_ok : resolve_with files0 cli0 (env_with "secret") = Ok resolved0.
Proof. apply ok_of_is_ok. vm_compute. reflexivity. Qed.

Lemma resolved_hidden_ok : resolve_with files0 cli0 (env_with "hidden") = Ok (resolved_with "hidden").
Proof. apply ok_of_is_ok. vm_compute. reflexivity. Qed.

Lemma resolved_well_formed_witness :
  (rs_chains resolved0).*1 = [C; P] /\ WellFormed resolved0.
Proof.
  split; [vm_compute; reflexivity|].
  exact (resolved_well_formed files0 cli0 (env_with "secret") resolved0 resolved0_ok).
Defined.

(** The deprecated flag decides the P-chain's cap, [--set] its concurrency. *)
Lemma config_precedence_witness :
  (fun kc => (cc_join_buffer_cap kc.2, cc_concurrency kc.2, cc_backfill_floor kc.2)) <$> rs_chains resolved0
    = [(16, 8, None); (16, 3, Some 7)]%N
  /\ exists file, load_tree files0 cli0 (env_with "secret") = Ok file
       /\ (rs_chains resolved0).*1 = List.filter (wanted cli0 file) ALL.
Proof.
  split; [vm_compute; reflexivity|].
  destruct (config_precedence files0 cli0 (env_with "secret") resolved0 resolved0_ok)
    as (file & ovs & tree & Hl & Hc & _). by exists file.
Defined.

Lemma same_but_token : SameButSecrets cli0 files0 files0 (env_with "secret") (env_with "hidden").
Proof.
  constructor.
  - reflexivity.
  - intros key Hk. unfold env_get. rewrite !env_with_vars. cbn [assoc].
    destruct (String.eqb_spec key "NEVE_UPSTREAM_TOKEN"); [done|].
    destruct (String.eqb_spec "NEVE_UPSTREAM_TOKEN" key); [congruence|reflexivity].
  - vm_compute. split; discriminate.
  - intros p. destruct (read_to_string files0 p); tauto.
Qed.

Lemma token_never_shown_witness :
  (option_map expose (up_token (rs_upstream resolved0)) = Some "secret"
   /\ option_map expose (up_token (rs_upstream (resolved_with "hidden"))) = Some "hidden")
  /\ to_redacted_toml resolved0 = to_redacted_toml (resolved_with "hidden").
Proof.
  split; [split; vm_compute; reflexivity|].
  pose proof (token_never_shown cli0 files0 files0 (env_with "secret") (env_with "hidden") same_but_token) as H.
  rewrite resolved0_ok, resolved_hidden_ok in H. exact (proj1 H).
Defined.

(** 90 seconds and half a millisecond print as [90s]. *)
Lemma duration_roundtrip_witness :
  fmt_duration 90000500000 = "90s" /\ parse_human_duration (fmt_duration 90000500000) = Some 90000000000%N.
Proof.
  split; [vm_compute; reflexivity|].
  exact (proj2 (duration_roundtrip 90000500000 ltac:(by vm_compute))).
Defined.

(** ** Metrics *)

Lemma metrics_bounded_witness :
  let samples := rpc_service_call ["eth_chainId"] "eth_mine" false f64_zero in
  Forall (fun s => described s = true) samples.
Proof.
  intros samples.
  destruct (metrics_bounded "1.0" "abc" ["eth_chainId"] samples (em_rpc _ _ _ "eth_mine" false f64_zero)) as [H _].
  apply (Forall_impl _ _ _ H). by intros s [Hs _].
Defined.
