(* ===== verification/SystemWitnesses.v ===== *)
(** * Witnesses for the server, the start-up and the backfill's progress

    The properties of [Server], [Listener MainSpec] and [BackfillLive] applied at concrete
    inputs. *)

From Stdlib Require Import ZArith NArith Lia String Ascii.
From S2P Require Import Prelude Str Json ToyJson Chain Record Backing Storage StorageSpec Join.
From S2P Require Import Codec Upstream Progress Subscribe Http EthFetch Backfill BackfillLive Serve Health.
From S2P Require Import EthIngest EthRpc PlatformIngest PlatformLive PlatformRpc Bulk Server.
From S2P Require Import Float64 Toml Config ConfigLayers ConfigResolve ConfigSpec ToyConfig Listener Main MainSpec.
From S2P Require Import Witnesses LiveWitnesses ConfigWitnesses.

#[local] Existing Instances MapStore MapDb ToyJson Toy.ToyHex Toy.ToyCodec.
#[local] Existing Instances MapStore_laws MapDb_laws ToyJson_laws Toy.ToyHex_laws Toy.ToyCodec_laws.

(** ** Misses over HTTP *)

(** The envelope of a response, as JSON. *)
#[local] Instance ToyRpc : RpcLib := {|
  write_response id answer :=
    default [] (to_vec (VObject (("id", id) :: match answer with
                                               | Ok v => [("result", v)]
                                               | Err _ => [("error", Null)]
                                               end)))
|}.

Lemma write_response_reads id answer :
  from_slice (write_response id answer) =
    Some (VObject (("id", id) :: match answer with Ok v => [("result", v)] | Err _ => [("error", Null)] end)).
Proof.
  cbn [write_response ToyRpc]. set (v := VObject _).
  destruct (toy_to_vec_cases v) as [[E _]|E]; [done|].
  change (to_vec v) with (toy_to_vec v). rewrite E. cbn [default]. by apply toy_from_to_vec.
Qed.

#[local] Instance ToyRpc_laws : RpcLaws.
Proof.
  split.
  - intros id v _ _. eexists. by split; [apply write_response_reads|].
  - intros id v env. rewrite write_response_reads. intros [= <-]. by exists v.
  - intros id e env. rewrite write_response_reads. by intros [= <-].
Qed.

Definition chain5 : ChainServe := serve0 C st5.
Definition ask (h : N) : result Value := default (Err EHttp) (height_answer chain5 h).
Definition rpc5 (h : N) (req : HttpReq) : HttpResp := rpc_reply (VNumber (PosInt 1)) (ask h).
Definition req5 : HttpReq := {| rq_method := "POST"; rq_path := "/"; rq_query := None; rq_body := [] |}.
Definition stack5 (h : N) : HttpResp :=
  http_stack (fun _ => None) host0 [chain5] (fun _ => st5) 10 [] (rpc5 h) req5.

Lemma abs5_objects h es :
  a_blocks abs5 !! h = Some es ->
  exists b fields, es !! BLOCK = Some b /\ from_slice b = Some (VObject fields).
Proof.
  change (a_blocks abs5) with (<[5%N := [block_bytes; logs_bytes]]> (∅ : gmap N (list bytes))).
  rewrite lookup_insert. case_decide; [|by rewrite lookup_empty]. intros [= <-].
  eexists block_bytes, _. split; [done|]. apply toy_from_to_vec. exact block_bytes_ok.
Qed.

Lemma held5_objects h b : held chain5 abs5 h = Some b -> exists fields, from_slice b = Some (VObject fields).
Proof.
  unfold held. destruct (a_blocks abs5 !! h) as [es|] eqn:E; [|done].
  destruct (abs5_objects h es E) as (b' & fields & Hb & Hf). rewrite Hb. intros [= <-]. by exists fields.
Qed.


(** ** Backfill *)

Section Backfilling.

(** An upstream whose blocks are all [block_value] and whose tip is 6. *)
Definition upstream6 (body : Value) : Value :=
  match get_str "method" body with
  | Some m => if String.eqb m "eth_getBlockByNumber" then block_value
              else if String.eqb m "eth_blockNumber" then VString "0x6" else VArray []
  | None => VArray []
  end.

#[local] Instance Answering : Http := {|
  World := unit;
  post _ body w := (w, reply (upstream6 body));
  http_get _ w := (w, SendError)
|}.

Definition honest6 (w : World) : Prop := True.

Lemma answers_with body ok r :
  upstream6 body = r -> is_null r = false -> ok r -> answers cfg0 honest6 body ok.
Proof.
  intros E Hn Hok w _. exists w, 200%N, None, (VObject [("result", r)]), r.
  split; [cbn; by rewrite E|]. split_and!; try done. cbn. by destruct r.
Qed.

Lemma working_upstream6 : WorkingUpstream cfg0 6 6 honest6.
Proof.
  constructor; intros; try done.
  - apply (answers_with _ _ block_value); [done..|].
    exists hash_text, hash1, block_bytes. split_and!; [done|by vm_compute|exact block_bytes_ok].
  - by apply (answers_with _ _ (VArray [])).
  - by apply (answers_with _ _ (VArray [])).
  - apply (answers_with _ _ (VString "0x6")); [done..|]. exists "0x6"%string. split; [done|by vm_compute].
Qed.

Definition good6 (st : Storage) : Prop :=
  st_chain st = C
  /\ exists s : map_store, st_store st = Some s /\ forall h, is_Some (ms_blocks s !! h) -> (h <= 6)%N.

Lemma highest_le (blocks : gmap N bytes) top :
  (forall h, is_Some (blocks !! h) -> (h <= top)%N) -> (highest blocks <= top)%N.
Proof.
  intros Hall. unfold highest.
  assert (Hl : Forall (fun h => h <= top)%N (elements (dom blocks))).
  { apply Forall_forall. intros h Hh. apply Hall, elem_of_dom. by apply elem_of_elements. }
  induction Hl; cbn; lia.
Qed.

Lemma working_disk6 : WorkingDisk 6 good6.
Proof.
  constructor.
  - intros st h hash txs b logs (Hc & s & Hs & Hall) Hle. unfold min_height in Hle. rewrite Hs in Hle. cbn in Hle.
    eexists. split.
    { unfold put. rewrite Hc, decide_False by auto. unfold bind, put_block. rewrite Hs. cbn. unfold ms_write.
      rewrite decide_False by lia. reflexivity. }
    split; [done|]. eexists. split; [done|]. cbn. intros h' Hh'. rewrite lookup_insert in Hh'.
    case_decide; [lia|by apply Hall].
  - intros st (_ & s & Hs & Hall). unfold high_water. rewrite Hs. by apply highest_le.
Qed.

Definition run5 : Run :=
  {| run_storage := st5; run_net := {| net_world := tt; net_trace := [] |};
     run_progress := progress0; run_behind_tip := 0; run_logs := ∅ |}.

Definition state5 : State := (run5, tip_new, 0%N).

Lemma inv5 : Inv cfg0 6 honest6 good6 state5.
Proof.
  constructor; [|done|by vm_compute]. constructor; cbn [fst snd state5 run5 run_storage].
  - eexists. split; [reflexivity|]. eexists. vm_compute. reflexivity.
  - split; [done|]. eexists. split; [reflexivity|]. cbn. intros h [b Hb]. revert Hb.
    rewrite lookup_insert. case_decide; [lia|by rewrite lookup_empty].
  - vm_compute. discriminate.
  - right. eexists. reflexivity.
Qed.


End Backfilling.

(** ** P-chain ingestion *)

Section Ingesting.

(** A chain of two blocks: a reward proposal and the block that commits it. *)
Definition raw_at (h : N) : bytes :=
  [Byte.x00; Byte.x00; Byte.x00; Byte.x00; Byte.x00; if (h =? 0)%N then Byte.x00 else Byte.x02;
   if (h =? 0)%N then Byte.x07 else Byte.x08].

Definition json_at (h : N) : Value :=
  VObject (("height", VNumber (PosInt h)) :: ("id", VString (block_id_of (raw_at h))) ::
    if (h =? 0)%N then [("tx", VObject [("id", VString (cb58_encode tx1));
                                        ("unsignedTx", VObject [("txID", VString "staked")])])]
    else []).

Definition blk_at (h : N) : FetchedBlock := default fb7 (verify (bytes_of (raw_at h)) (json_at h) (Some h)).

Definition node_answer (body : Value) : Value :=
  match get_str "method" body, get "params" body with
  | Some m, Some params =>
      if String.eqb m "platform.getHeight" then VObject [("height", VString "1")]
      else if String.eqb m "platform.getBlockByHeight" then
        let h := default 0%N (get_u64 "height" params) in
        VObject [("block", if bool_decide (get_str "encoding" params = Some "json"%string)
                           then json_at h else bytes_of (raw_at h))]
      else VObject [("utxos", VArray [])]
  | _, _ => Null
  end.

#[local] Instance Node1 : Http := {|
  World := unit;
  post _ body w := (w, reply (node_answer body));
  http_get _ w := (w, SendError)
|}.

Definition honest1 (w : World) : Prop := True.

Lemma node_answers method params ok r :
  node_answer (rpc_body method params) = r -> is_null r = false -> ok r -> p_answers cfg_p honest1 method params ok.
Proof.
  intros E Hn Hok w _. exists w, 200%N, None, (VObject [("result", r)]), r.
  split; [cbn -[node_answer]; by rewrite E|]. split_and!; try done. cbn. by destruct r.
Qed.

Lemma verify_at h : (h <= 1)%N -> verify (bytes_of (raw_at h)) (json_at h) (Some h) = Some (blk_at h).
Proof.
  intros Hh. unfold blk_at. assert (h = 0%N \/ h = 1%N) as [-> | ->] by lia; vm_compute; reflexivity.
Qed.

Lemma working_node1 : WorkingNode cfg_p 1 blk_at honest1.
Proof.
  constructor.
  - intros h Hh. exists (bytes_of (raw_at h)), (json_at h). split; [by apply verify_at|].
    split; (eapply node_answers; [reflexivity|done|]); by destruct h.
  - intros h Hh _. left. assert (h = 0%N) as -> by lia. vm_compute. reflexivity.
  - intros tx. eapply node_answers; [reflexivity|done|done].
  - eapply node_answers; [reflexivity|done|]. vm_compute. reflexivity.
  - by vm_compute.
Qed.

Definition good1 (st : Storage) : Prop :=
  st_chain st = P /\ forall s : map_store, st_store st = Some s ->
    forall h, is_Some (ms_blocks s !! h) -> (h <= 1)%N.

Lemma working_pdisk1 : WorkingPDisk 1 good1.
Proof.
  constructor.
  - intros st h hash txs j b rw (Hc & Hall) Hr [Hmin Hle].
    assert (Hw : exists s', put_block h (Record.encode [j; b; rw]) st = (set_store s' st, Ok tt) /\
      forall h', is_Some (ms_blocks s' !! h') -> (h' <= 1)%N).
    { unfold put_block. unfold min_height in Hmin. destruct (st_store st) as [s|] eqn:Es; cbn in *; unfold ms_write.
      - rewrite decide_False by lia. eexists. split; [reflexivity|]. cbn. intros h' Hh'. rewrite lookup_insert in Hh'.
        case_decide; [lia|by apply (Hall s)].
      - destruct Hr as [[(s & Hs & _) _]|[_ Hf]]; [congruence|]. rewrite Hf, decide_False by (cbn; lia).
        eexists. split; [reflexivity|]. cbn. intros h' Hh'. rewrite lookup_insert in Hh'.
        case_decide; [lia|]. rewrite lookup_empty in Hh'. by destruct Hh'. }
    destruct Hw as (s' & Hw & Hall'). eexists. split.
    { unfold put. rewrite Hc, decide_False by auto. unfold bind. rewrite Hw. reflexivity. }
    split; [done|]. intros s [= <-]. exact Hall'.
  - intros st (_ & Hall). unfold high_water. destruct (st_store st) as [s|]; [|lia]. apply highest_le. by apply Hall.
Qed.

(** A fresh store with the floor at genesis. *)
Definition cfg_floor : IngestCfg :=
  {| cfg_chain := P; cfg_max_wait := 0; cfg_ws_idle_timeout := 0; cfg_ws_url := ""; cfg_rpc_url := "http://up";
     cfg_poll_interval := from_secs 1; cfg_subscribe_blocks := false; cfg_backfill_inter_fetch := 0;
     cfg_fetch_concurrency := 1; cfg_backfill_floor := Some 0%N; cfg_prefetch_delay_cap := 0;
     cfg_progress_period := from_secs 60; cfg_ingest_logs := false; cfg_logs_source := GetLogs |}.

Definition pstate0 : PState :=
  {| ps_run := {| pr_storage := {| st_chain := P; st_store := None; st_db := ∅; st_anchor_floor := Some 0%N |};
                  pr_net := {| net_world := tt; net_trace := [] |}; pr_progress := Progress.new P 0;
                  pr_behind_tip := 0; pr_live := []; pr_receivers := 0 |};
     ps_tip := 0; ps_tip_read_at := None; ps_count := 0 |}.

Lemma working_floor1 : WorkingNode cfg_floor 1 blk_at honest1.
Proof. destruct working_node1. constructor; done. Qed.

Lemma pinv0 : PInv cfg_floor 1 honest1 good1 pstate0.
Proof.
  constructor; [|done|by left]. constructor.
  - right. split; reflexivity.
  - vm_compute. discriminate.
  - split; [reflexivity|]. intros s Hs. discriminate Hs.
Qed.

Definition ppassed := p_pass cfg_floor 0 0 (fun _ => 0%N) pstate0.

Lemma ppassed_eq : p_pass cfg_floor 0 0 (fun _ => 0%N) pstate0 = (ppassed.1, ppassed.2).
Proof. unfold ppassed. apply surjective_pairing. Qed.

(** One pass brings the empty store past both blocks. *)
Lemma p_ingest_reaches_tip_witness :
  ppassed.2 = PFilled 0 1 true /\ (1 <= pos cfg_floor 1 (pr_storage (ps_run ppassed.1)))%N.
Proof.
  split; [vm_compute; reflexivity|].
  destruct (p_ingest_reaches_tip cfg_floor 1 blk_at honest1 good1 working_floor1 working_pdisk1 pstate0 pinv0) as [Hall _].
  destruct (Hall 1%nat ppassed.1) as [_ Hle].
  - exact (p_passes_more _ 0 pstate0 pstate0 0 0 (fun _ => 0%N) ppassed.1 ppassed.2 (p_passes_none _ _) ppassed_eq).
  - refine (N.le_trans _ _ _ _ Hle). vm_compute. discriminate.
Defined.

End Ingesting.

(** ** Start-up and shutdown *)

#[local] Existing Instance LiveWitnesses.Scripted.

Definition mirror_cfg : ChainCfg :=
  {| cc_chain := C; cc_rpc_url := "http://up"; cc_ws_url := "ws://up"; cc_data_dir := "d";
     cc_backfill_floor := None; cc_request_interval := 0; cc_concurrency := 1; cc_poll_interval := 1;
     cc_max_wait := 0; cc_ws_idle_timeout := 0; cc_prefetch_delay_cap := 0; cc_ingest_logs := false;
     cc_join_buffer_cap := 1; cc_summary_period := 1; cc_subscribe_blocks := true; cc_host_pacer := None |}.

Definition mirror_up : Upstream_ :=
  {| up_kind := Neve; up_base := "http://up"; up_token := None; up_token_param := "token";
     up_token_file := None; up_max_rps := None; up_host_pacer := None |}.

Definition served5 : list ChainServe := [serve0 P (st0 P); serve0 C st5].

(** The upstream's C-chain store starts at height 5. *)
Lemma mirror_anchors_at_upstream_floor_witness :
  exists n', resolve_anchor_floor false mirror_cfg mirror_up
               (net [Response 200 None (Some (build_health_response host0 served5))]) = (n', Done (Some 5%N)).
Proof.
  destruct (mirror_anchors_at_upstream_floor mirror_cfg mirror_up
              (net [Response 200 None (Some (build_health_response host0 served5))]) []
              (Response 200 None (Some (build_health_response host0 served5))) eq_refl eq_refl eq_refl)
    as (n' & floor & E & Hfloor). exists n'. rewrite E.
  destruct (Hfloor host0 served5 eq_refl) as [Hc _].
  - repeat constructor; rewrite ?elem_of_cons, ?elem_of_nil; intros H; repeat destruct H as [H|H]; done.
  - rewrite (Hc (serve0 C st5) eq_refl). vm_compute. reflexivity.
Defined.

Definition cli_c : Cli := {|
  cli_config := None; cli_network := None; cli_data_dir := None; cli_rpc_addr := None; cli_chains := [C];
  cli_mirror_from := None; cli_stop_time := None; cli_log_level := None; cli_ingest_logs := false;
  cli_set := []; cli_print_config := false; cli_print_config_example := false;
  cli_ws_url := None; cli_rpc_url := None; cli_p_rpc_url := None; cli_p_poll_interval := None;
  cli_request_interval := None; cli_p_request_interval := None; cli_p_concurrency := None;
  cli_p_data_dir := None; cli_backfill_floor := Some 5%N; cli_p_backfill_floor := None; cli_max_wait := None;
  cli_ws_idle_timeout := None; cli_prefetch_delay_cap := None; cli_idle_timeout := None;
  cli_max_connections := None; cli_max_blocks_per_request := None; cli_summary_period := None;
  cli_join_buffer_cap := None
|}.

Definition no_files : Files := {| file_exists _ := false; read_to_string _ := None |}.
Definition disks0 : Disks := fun _ => disk0.

Definition term0 : Terminal := {| tm_interactive := false; tm_rust_log := None |}.

(** A listener on the address asked for. *)
Definition bound0 (addr : SocketAddr) : result TcpListener := Ok {| local_addr := Ok addr |}.

Definition started :=
  main "send" "decode" 1 0 no_files (fun _ => true) term0 (Ok tt) bound0 cli_c (from_process (fun _ => None))
    disks0 (net [reply (VString "0xa86a")]).

(** The start-up ended with the server running. *)
Definition is_running (o : Disks * Startup) : bool :=
  match o.2 with Running _ _ _ _ _ => true | _ => false end.

Lemma main_runs_what_is_configured_witness :
  exists disks' sub logged r insts tasks,
    started.2 = Done (Some (disks', Running sub logged r insts tasks)) /\
    Launched 1 term0 disks0 disks' sub logged r insts tasks.
Proof.
  destruct started as [n' o] eqn:E. cbn [snd].
  assert (Hr : match o with Done (Some d) => is_running d | _ => false end = true).
  { change o with (n', o).2. rewrite <- E. vm_compute. reflexivity. }
  destruct o as [[[disks' [| | |sub logged r insts tasks]]|]|]; try discriminate Hr.
  exists disks', sub, logged, r, insts, tasks. split; [reflexivity|].
  exact (proj2 (proj1 (main_runs_what_is_configured "send" "decode" 1 0 no_files (fun _ => true) term0 (Ok tt)
           bound0 cli_c (from_process (fun _ => None)) disks0 (net [reply (VString "0xa86a")]))
           n' disks' sub logged r insts tasks E)).
Defined.

Definition stopped := run_until_shutdown (SignalReceived "SIGTERM") [st5].

Lemma shutdown_flushes_every_store_witness :
  stopped.2 = Ok tt /\ Forall2 (fun st f => f = persist st) [st5] stopped.1.
Proof.
  split; [reflexivity|].
  destruct (shutdown_flushes_every_store None (SignalReceived "SIGTERM") [st5] stopped.1 stopped.2) as [H _].
  - right. left.
  - reflexivity.
  - apply (Forall2_impl _ _ _ _ H). intros st f [E _]. exact E.
Defined.
