(* ===== verification/TestsCore.v ===== *)
(** * The unit tests, run on the model: chains, records, storage, the join buffer

    Each test of the program's own suite in src/chain.rs, src/record.rs,
    src/storage.rs, src/join.rs, src/upstream.rs, src/progress.rs,
    src/subscribe.rs and src/conn.rs, as a boolean over the definitions that
    model those files: the same inputs, the same assertions.  The libraries are
    the reference ones ([RefJson], the maps of [Backing]); a pattern on an error
    stands for the assertion on its text. *)

From Stdlib Require Import ZArith NArith Lia String Ascii.
From S2P Require Import Prelude Str Json ToyJson RefJson Chain Record Backing Storage StorageSpec Join Codec Upstream.
From S2P Require Import Float64 Progress Subscribe Conn.

#[local] Open Scope string_scope.
#[local] Existing Instances MapStore MapDb RefJson.

(** ** Assertions *)

(** [assert_eq!] *)
Definition eqs {A} `{EqDecision A} (x y : A) : bool := bool_decide (x = y).

(** [assert_eq!(r.unwrap(), x)], [assert!(r.is_err())] *)
Definition ok_eq {A} `{EqDecision A} (r : result A) (x : A) : bool :=
  match r with Ok y => eqs y x | Err _ => false end.
Definition is_err {A} (r : result A) : bool := negb (is_ok r).

(** Every assertion of a test; a test that unwraps what is not there fails. *)
Definition all (asserts : list bool) : bool := forallb id asserts.
Definition passes (test : option bool) : bool := default false test.

(** A step whose success is unwrapped. *)
Definition unwrap {S A} (m : M S A) (s : S) : option (S * A) :=
  match m s with (s, Ok a) => Some (s, a) | (_, Err _) => None end.

Definition is_none {A} (r : result (option A)) : bool := match r with Ok None => true | _ => false end.
Definition is_some {A} (r : result (option A)) : bool := match r with Ok (Some _) => true | _ => false end.

(** [ [b; n] ] *)
Definition rep (n : nat) (b : byte) : bytes := replicate n b.

(** ** src/chain.rs *)

Definition normalize_dedups_and_orders : bool :=
  all [ok_eq (normalize_chains [C]) [C];
       match normalize_chains [P; C], normalize_chains [C; P] with Ok a, Ok b => eqs a b | _, _ => false end;
       ok_eq (normalize_chains [P; P]) [P]].

Definition normalize_rejects_an_empty_selection : bool := is_err (normalize_chains []).

(** The instants at which four (or so) requests are released, each issued when
    the one before was; a chain is its own pacer, the host's is shared. *)
Fixpoint paced_run (now : N) (host : option Pacer) (c p : Pacer) (turns : list Chain) : N :=
  match turns with
  | [] => now
  | C :: turns => let '(host, c, now) := pace now host c in paced_run now host c p turns
  | P :: turns => let '(host, p, now) := pace now host p in paced_run now host c p turns
  end.

Definition within (lo hi x : N) : bool := ((lo <=? x) && (x <? hi))%N.

Definition the_host_pacer_bounds_every_chain_together : bool :=
  let host := pacer_new (from_millis 100) 0 in
  within (from_millis 300) (from_millis 310)
    (paced_run 0 (Some host) (pacer_new 0 0) (pacer_new 0 0) [C; P; C; P]).

Definition chains_are_independent_when_the_host_is_uncapped : bool :=
  (paced_run 0 None (pacer_new (from_millis 100) 0) (pacer_new (from_millis 100) 0) [C; P] <? from_millis 50)%N.

Definition the_per_chain_interval_still_applies_under_a_looser_host_cap : bool :=
  let host := pacer_new (from_millis 10) 0 in
  within (from_millis 400) (from_millis 410)
    (paced_run 0 (Some host) (pacer_new 0 0) (pacer_new (from_millis 200) 0) [P; P; P]).

Definition data_dir_keeps_c_chain_at_the_base : bool :=
  let base := ["var"; "lib"; "neve"] in
  all [eqs (data_dir C base) ["var"; "lib"; "neve"]; eqs (data_dir P base) ["var"; "lib"; "neve"; "p"]].

Definition endpoints_are_the_base_plus_a_per_chain_path : bool :=
  all [eqs (default_base_url Mainnet) "https://api.avax.network";
       eqs (default_base_url Mainnet ++ rpc_path C) "https://api.avax.network/ext/bc/C/rpc";
       eqs (default_base_url Testnet ++ rpc_path P) "https://api.avax-test.network/ext/bc/P";
       eqs (ws_path C) (Some "/ext/bc/C/ws");
       eqs (ws_path P) None].

(** ** src/record.rs *)

(** [element(record, idx).unwrap()], as bytes *)
Definition element_bytes (record : bytes) (idx : nat) : result (option bytes) :=
  match element record idx with Ok o => Ok ((fun s => slice s record) <$> o) | Err e => Err e end.

Definition array_len (b : bytes) : option nat := 
  v ← from_slice b; vs ← as_array v; Some (length vs).

Definition record_is_a_valid_json_array_of_the_right_arity : bool :=
  let block := raw "{'number':'0x1','transactions':[]}" in
  let logs := raw "[{'address':'0xabc'}]" in
  all [eqs (array_len (encode [block; logs])) (Some 2%nat);
       eqs (array_len (encode [block; raw "'0xdeadbeef'"; EMPTY_ARRAY])) (Some 3%nat)].

Definition arity_is_per_chain : bool := all [eqs (arity C) 2%nat; eqs (arity P) 3%nat].

Definition block_element_is_byte_identical : bool :=
  let block := raw "{ 'number':'0x10',  'hash':'0xff' ,'transactions':[ '0x1' ] }" in
  ok_eq (element_bytes (encode [block; EMPTY_ARRAY]) BLOCK) (Some block).

Definition P_REWARDS : nat := 2.

Definition every_element_is_recovered_byte_identically : bool :=
  let block := raw "{'id':'abc','txs':[]}" in
  let bytes := raw "'0x0000dead'" in
  let rewards := raw "[{'amount':'5'}]" in
  let rec_ := encode [block; bytes; rewards] in
  all [ok_eq (element_bytes rec_ BLOCK) (Some block);
       ok_eq (element_bytes rec_ P_BYTES) (Some bytes);
       ok_eq (element_bytes rec_ P_REWARDS) (Some rewards)].

Definition split_skips_tricky_trailing_elements : bool :=
  let block := raw "{'number':'0x1','extra':'a,b][c'}" in
  let logs := raw "[{'data':'0x5d2c5b','note':']],[\'q\''}]" in
  ok_eq (element_bytes (encode [block; logs]) BLOCK) (Some block).

Definition rejects_malformed_records : bool :=
  all [is_err (element (raw "[1]") BLOCK);
       is_err (element (raw "not json at all") BLOCK);
       is_err (element (raw "{'unterminated': ") BLOCK)].

Definition out_of_range_element_is_absent : bool :=
  ok_eq (element_bytes (encode [raw "{'n':1}"; EMPTY_ARRAY]) P_REWARDS) None.

Definition newline : string := String (ascii_of_N 10) "".

Definition bare_block_reads_as_element_zero_with_no_derived_data : bool :=
  let bare := raw "{'number':'0x10','hash':'0xff','transactions':[{'hash':'0x1'}]}" in
  all [is_bare_block bare;
       ok_eq (element_bytes bare BLOCK) (Some bare);
       ok_eq (element_bytes bare C_LOGS) None;
       ok_eq (element_bytes bare P_REWARDS) None;
       is_bare_block (raw ("  " ++ newline ++ " {'a':1}"));
       negb (is_bare_block (raw "[{'a':1},[]]"));
       negb (is_bare_block [])].

Definition both_layouts_read_correctly_side_by_side : bool :=
  let bare := raw "{'number':'0x1'}" in
  let combined := encode [raw "{'number':'0x2'}"; raw "[{'address':'0xa'}]"] in
  all [ok_eq (element_bytes bare BLOCK) (Some bare);
       ok_eq (element_bytes bare C_LOGS) None;
       ok_eq (element_bytes combined BLOCK) (Some (raw "{'number':'0x2'}"));
       ok_eq (element_bytes combined C_LOGS) (Some (raw "[{'address':'0xa'}]"))].

Definition element_view_derefs_to_its_own_slice : bool :=
  let block := raw "{'id':'abc'}" in
  let rewards := raw "[{'amount':'5'}]" in
  let rec_ := encode [block; raw "'0x00'"; rewards] in
  all [ok_eq (view (at_ rec_ BLOCK)) (Some block);
       ok_eq (view (at_ rec_ P_REWARDS)) (Some rewards);
       is_none (at_ rec_ 9)].

(** ** src/storage.rs *)

Definition IDENTITY : string := "43114".

Definition fresh_disk : Disk := {| disk_store := None; disk_db := ∅ |}.

Definition open_c : M Disk Storage := Storage.open C IDENTITY None.

(** The index with these stamps and nothing else. *)
Definition stamp_meta (stamps : list (bytes * string)) (d : Disk) : Disk :=
  {| disk_store := disk_store d;
     disk_db := foldl (fun db kv => <[(KMeta, kv.1) := str_bytes kv.2]> db) (disk_db d) stamps |}.

(** A value written straight through the blockstore, the index untouched. *)
Definition write_bare_block (height : N) (b : bytes) (d : Disk) : Disk :=
  {| disk_store := s ← store_create height; Some (write_block s height b).1; disk_db := disk_db d |}.

(** What lies on disk once the handle is dropped. *)
Definition drop_storage (st : Storage) : Disk := {| disk_store := st_store st; disk_db := st_db st |}.

Definition reads_as (r : result (option Element)) (b : bytes) : bool := ok_eq (view r) (Some b).

Definition put_get_roundtrip_unwraps_block_half : bool := passes (
  let block := raw "{'number':'0xa','hash':'0xbb','transactions':[]}" in
  '(_, st) ← unwrap open_c fresh_disk;
  '(st, _) ← unwrap (put 10 (rep 32 Byte.xbb) [] [block; EMPTY_ARRAY]) st;
  Some (reads_as (get_by_height st 10) block)).

Definition stored_value_is_combined_record : bool := passes (
  let block := raw "{'number':'0x1'}" in
  '(_, st) ← unwrap open_c fresh_disk;
  '(st, _) ← unwrap (put 1 (rep 32 Byte.x01) [] [block; EMPTY_ARRAY]) st;
  store ← st_store st;
  Some (ok_eq (read_block store 1) (Some (encode [block; EMPTY_ARRAY])))).

Definition reopen_same_version_ok : bool := passes (
  '(_, st) ← unwrap open_c fresh_disk;
  '(st, _) ← unwrap (put 5 (rep 32 Byte.x05) [] [raw "{'number':'0x5'}"; EMPTY_ARRAY]) st;
  '(st, _) ← unwrap persist st;
  '(_, reopened) ← unwrap open_c (drop_storage st);
  Some (is_some (get_by_height reopened 5))).

Definition refuses_block_data_with_no_network_stamp : bool :=
  match open_c (write_bare_block 100 (raw "{'number':'0x64'}") fresh_disk) with
  | (_, Err ENoNetworkStamp) => true
  | _ => false
  end.

Definition meta_stamp (d : Disk) (k : bytes) : result (option bytes) := db_get (disk_db d) KMeta k.

Definition adopts_pre_logs_store_without_format_stamp : bool := passes (
  '(d, st) ← unwrap open_c (stamp_meta [(IDENTITY_KEY, "43114")] fresh_disk);
  Some (all [eqs (st_chain st) C;
             ok_eq (meta_stamp d FORMAT_VERSION_KEY) (Some (str_bytes "1"));
             ok_eq (meta_stamp d CHAIN_KEY) (Some (str_bytes "c"))])).

Definition rejects_incompatible_format_version : bool :=
  match open_c (stamp_meta [(IDENTITY_KEY, "43114"); (FORMAT_VERSION_KEY, "999")] fresh_disk) with
  | (_, Err (EWrongFormat stored _)) => (stored =? 999)%N
  | _ => false
  end.

Definition adopts_and_reads_a_bare_block_store : bool := passes (
  let bare := raw "{'number':'0x64','hash':'0xabc','transactions':[]}" in
  '(_, st) ← unwrap open_c (write_bare_block 100 bare (stamp_meta [(IDENTITY_KEY, IDENTITY)] fresh_disk));
  '(st', _) ← unwrap (put 101 (rep 32 (byte_of_N 101)) [] [raw "{'number':'0x65'}"; raw "[{'address':'0xa'}]"]) st;
  Some (all [reads_as (get_by_height st 100) bare;
             is_none (read_element_range st 100 100 C_LOGS);
             reads_as (get_by_height st' 101) (raw "{'number':'0x65'}");
             ok_eq (read_element_range st' 101 101 C_LOGS) (Some [raw "[{'address':'0xa'}]"]);
             is_none (read_element_range st' 100 101 C_LOGS);
             is_none (get_record st' 100);
             is_some (get_record st' 101)])).

Definition adopts_and_stamps_a_pre_multichain_c_store : bool := passes (
  '(_, st) ← unwrap open_c (stamp_meta [(IDENTITY_KEY, "43114"); (FORMAT_VERSION_KEY, "1")] fresh_disk);
  '(st', _) ← unwrap (put 9 (rep 32 Byte.x09) [] [raw "{'number':'0x9'}"; EMPTY_ARRAY]) st;
  Some (all [eqs (st_chain st) C; ok_eq (meta_stamp (drop_storage st') CHAIN_KEY) (Some (str_bytes "c"))])).

Definition refuses_pre_multichain_store_as_another_chain : bool :=
  match Storage.open P "genesis-id" None (stamp_meta [(IDENTITY_KEY, "43114"); (FORMAT_VERSION_KEY, "1")] fresh_disk) with
  | (_, Err ELegacyNotC) => true
  | _ => false
  end.

Definition rejects_cross_chain_open : bool := passes (
  '(d, _) ← unwrap (Storage.open P "genesis-id" None) fresh_disk;
  Some match open_c d with (_, Err (EWrongChain stored)) => eqs stored "p" | _ => false end).

(** Each directory has a disk of its own. *)
Definition sibling_chain_stores_coexist_under_one_base : bool := passes (
  '(_, c) ← unwrap open_c fresh_disk;
  '(_, p) ← unwrap (Storage.open P "genesis-id" None) fresh_disk;
  '(c', _) ← unwrap (put 1 (rep 32 Byte.x01) [] [raw "{'number':'0x1'}"; EMPTY_ARRAY]) c;
  Some (all [negb (eqs (data_dir C ["base"]) (data_dir P ["base"]));
             eqs (st_chain c) C; eqs (st_chain p) P;
             is_none (get_by_height p 1); is_some (get_by_height c' 1)])).

Definition rejects_identity_mismatch : bool := passes (
  '(d, _) ← unwrap open_c fresh_disk;
  Some match Storage.open C "43113" None d with (_, Err (EWrongIdentity stored)) => eqs stored "43114" | _ => false end).

(** ** src/join.rs *)

Definition JOIN_BLOCK : bytes := raw "{'number':'0x5'}".
Definition BLOCK_B : bytes := raw "{'number':'0x5','v':2}".
Definition LOGS : bytes := raw "[{'address':'0xabc'}]".

Definition buffer (max_entries : nat) : option JoinBuffer :=
  '(_, st) ← unwrap open_c fresh_disk; Some (Join.new st max_entries).

Definition block_then_logs_completes : bool := passes (
  buf ← buffer 16;
  '(b1, o1) ← unwrap (on_block 0 5 (rep 32 Byte.x05) [] JOIN_BLOCK) buf;
  '(b2, o2) ← unwrap (on_logs 0 5 LOGS) b1;
  Some (all [eqs o1 Buffered; eqs (jb_len b1) 1%nat; is_none (get_by_height (jb_storage b1) 5);
             eqs (buffered_block b1 5) (Some JOIN_BLOCK);
             eqs o2 Completed; jb_is_empty b2; reads_as (get_by_height (jb_storage b2) 5) JOIN_BLOCK])).

Definition logs_then_block_completes : bool := passes (
  buf ← buffer 16;
  '(b1, o1) ← unwrap (on_logs 0 7 LOGS) buf;
  '(b2, o2) ← unwrap (on_block 0 7 (rep 32 Byte.x07) [] JOIN_BLOCK) b1;
  Some (all [eqs o1 Buffered; eqs (buffered_block b1 7) None;
             eqs o2 Completed; jb_is_empty b2; is_some (get_by_height (jb_storage b2) 7)])).

Definition cap_flushes_buffer_and_defers : bool := passes (
  buf ← buffer 1;
  '(b1, o1) ← unwrap (on_block 0 1 (rep 32 Byte.x01) [] JOIN_BLOCK) buf;
  '(b2, o2) ← unwrap (on_block 0 2 (rep 32 Byte.x02) [] JOIN_BLOCK) b1;
  '(_, o3) ← unwrap (on_block 0 2 (rep 32 Byte.x02) [] JOIN_BLOCK) b2;
  Some (all [eqs o1 Buffered; eqs o2 Deferred; jb_is_empty b2; eqs o3 Buffered])).

Definition duplicate_block_replaces_and_keeps_one_entry : bool := passes (
  buf ← buffer 16;
  '(b1, _) ← unwrap (on_block 0 3 (rep 32 Byte.x03) [] JOIN_BLOCK) buf;
  '(b2, o2) ← unwrap (on_block 0 3 (rep 32 Byte.x33) [] BLOCK_B) b1;
  '(b3, _) ← unwrap (on_logs 0 3 LOGS) b2;
  Some (all [eqs o2 Buffered; eqs (jb_len b2) 1%nat; eqs (buffered_block b2 3) (Some BLOCK_B);
             reads_as (get_by_height (jb_storage b3) 3) BLOCK_B])).

(** ** src/upstream.rs *)

Definition CARGO_PKG_VERSION : string := "0.2.2".

Definition user_agent_reports_the_crate_version : bool := passes (
  let ua := USER_AGENT CARGO_PKG_VERSION in
  '(name, version) ← split_once "/" ua;
  Some (all [eqs name "neve"; eqs version CARGO_PKG_VERSION;
             (2 <=? length (Str.split "." version))%nat;
             forallb (fun bad => negb (Str.contains bad ua)) ["Mozilla"; "Chrome"; "Safari"; "AppleWebKit"]])).

Definition redact_url_drops_the_query_and_keeps_the_rest : bool :=
  let r := redact_url "https://h/p?a=1&token=secret&b=2" in
  all [eqs (redact_url "https://api.avax.network/ext/bc/platform?token=deadbeef")
           "https://api.avax.network/ext/bc/platform?<redacted>";
       eqs r "https://h/p?<redacted>"; negb (Str.contains "secret" r);
       eqs (redact_url "https://api.avax.network/ext/bc/P") "https://api.avax.network/ext/bc/P";
       eqs (redact_url "https://h/p?") "https://h/p?<redacted>"].

(** [n] waits in a row, each when the one before was released. *)
Fixpoint serial_waits (n : nat) (now : N) (p : Pacer) : N :=
  match n with
  | O => now
  | S n => let '(p, s) := pacer_wait now p in serial_waits n (release now s) p
  end.

Definition zero_interval_never_waits : bool := eqs (serial_waits 100 0 (pacer_new 0 0)) 0%N.

Definition serial_waiters_are_spaced : bool :=
  within (from_millis 600) (from_millis 610) (serial_waits 4 0 (pacer_new (from_millis 200) 0)).

(** Ten waiters claim their slots at once; the run ends when the last is
    released. *)
Definition concurrent_waiters_do_not_multiply_the_rate : bool :=
  within (from_millis 900) (from_millis 910)
    (foldr N.max 0%N (claims (pacer_new (from_millis 100) 0) (replicate 10 0%N))).

(** ** src/progress.rs *)

Definition format_secs_buckets : bool :=
  all [eqs (format_secs 0) "<1s"; eqs (format_secs 5) "5s"; eqs (format_secs 59) "59s";
       eqs (format_secs 60) "1m00s"; eqs (format_secs 125) "2m05s"; eqs (format_secs 3600) "1h00m";
       eqs (format_secs (3 * 3600 + 12 * 60 + 7)) "3h12m"].

Definition behind_prefers_the_worse_gap : bool :=
  all [eqs (behind_of 3372390 3372390 21984910) 21984910%N;
       eqs (behind_of 1500 1000 0) 500%N; eqs (behind_of 1000 1000 0) 0%N].

Definition TEST_PERIOD : N := from_secs 60.

Definition eta_idle_when_no_progress : bool :=
  let '(rate, eta) := eta 0 100 50 (Progress.new C TEST_PERIOD) in
  all [f64_le rate f64_zero && f64_le f64_zero rate; eqs eta None].

Definition eta_math_from_known_rate : bool :=
  let now := from_secs 10 in
  let p := {| bp_chain := C; bp_start_height := Some 1000%N; bp_start_time := Some (now - from_secs 2)%N;
              bp_last_logged_at := None; bp_period := TEST_PERIOD; bp_start_behind := 0 |} in
  let '(rate, eta) := eta now 1020 80 p in
  all [f64_lt (f64_div (f64_of_N 17) (f64_of_N 2)) rate && f64_lt rate (f64_div (f64_of_N 23) (f64_of_N 2));
       match eta with Some e => ((6 <=? e) && (e <=? 10))%N | None => false end].

(** A thousand heights go by in one instant. *)
Definition progress_lines_are_throttled_to_the_period : bool :=
  let p := Progress.new P TEST_PERIOD in
  let '(p1, _, _) := observe 0 100 25000000 24999900 p in
  let p2 := foldl (fun p h => (observe 0 h 25000000 (25000000 - h) p).1.1) p1 (heights 101 999) in
  let '(eager, _, _) := observe 0 100 200 100 (Progress.new P 0) in
  all [due 0 p; negb (due 0 p1); negb (due 0 p2); due 0 eager].

Definition caught_up_returns_tracker_to_idle : bool :=
  let '(p, began1, _) := observe 0 100 200 100 (Progress.new P TEST_PERIOD) in
  let '(p, began2, _) := observe 0 101 200 99 p in
  let idle := (caught_up 0 200 p).1 in
  let '(_, began3, _) := observe 0 200 300 100 idle in
  all [began1; negb began2; eqs (bp_start_height idle) None; eqs (bp_chain idle) P;
       eqs (bp_period idle) TEST_PERIOD; began3].

(** ** src/subscribe.rs *)

Definition sub_update : LiveUpdate :=
  {| lu_block := json "{'number': '0x1', 'hash': '0xaa', 'transactions': [{'hash': '0x11'}]}";
     lu_record := Some (json "[{'number': '0x1'}, []]") |}.

Definition wire_spellings_round_trip : bool :=
  all [forallb (fun kind => eqs (from_wire (kind_as_str kind)) (Some kind))
         [NewHeads; NewBlocks; NewRecords; OldBlocks; OldRecords];
       eqs (from_wire "logs") None; eqs (from_wire "newPendingTransactions") None].

Definition live_and_record_kinds_are_classified : bool :=
  all [is_live NewBlocks; is_live NewRecords; negb (is_live OldRecords);
       wants_record NewRecords; wants_record OldRecords; negb (wants_record NewBlocks); negb (wants_record OldBlocks)].

Definition array_of (k : string) (v : Value) : nat := from_option length 0%nat (get_array k v).

Definition projection_shapes_the_payload_per_kind : bool := passes (
  head ← project sub_update NewHeads;
  block ← project sub_update NewBlocks;
  rec_ ← project sub_update NewRecords;
  items ← as_array rec_;
  Some (all [eqs (get_str "number" head) (Some "0x1"); eqs (get "transactions" head) None;
             eqs (array_of "transactions" block) 1%nat; eqs (length items) 2%nat])).

Definition projection_does_not_mutate_the_shared_update : bool := passes (
  _ ← project sub_update NewHeads;
  block ← project sub_update NewBlocks;
  Some (bool_decide (is_Some (get "transactions" block)))).

Definition record_projection_is_none_without_a_record : bool :=
  let u := {| lu_block := json "{'number': '0x1'}"; lu_record := None |} in
  all [eqs (project u NewRecords) None; bool_decide (is_Some (project u NewBlocks))].

(** ** src/conn.rs *)

(** Reads that are always pending, and one that gives a byte first. *)
Definition Quiet : AsyncStream := {|
  Stream := unit; StreamError := unit;
  inner_poll_read s _ _ := (s, Pending_); inner_poll_write s _ _ := (s, Pending_);
  inner_poll_flush s _ := (s, Pending_); inner_poll_shutdown s _ := (s, Pending_)
|}.

Definition OnceThenQuiet : AsyncStream := {|
  Stream := bool; StreamError := unit;
  inner_poll_read s _ _ := if s then (s, Pending_) else (true, Ready (inl [Byte.x78]));
  inner_poll_write s _ _ := (s, Pending_);
  inner_poll_flush s _ := (s, Pending_); inner_poll_shutdown s _ := (s, Pending_)
|}.

Definition reaper_armed_only_when_enabled : bool :=
  all [match reaper (idle_new (Io := Quiet) 0 tt None) with None => true | Some _ => false end;
       match reaper (idle_new (Io := Quiet) 0 tt (Some (from_secs 60))) with Some _ => true | None => false end].

(** A pending read is polled again when its timer fires. *)
Definition polled_at {Io : AsyncStream} (c : IdleTimeout) (times : list N) : list Seen :=
  map snd (drive c (map (fun t => (t, PollRead 8)) times)).2.

Definition is_waiting {Io : AsyncStream} (s : Seen) : bool := match s with Waiting => true | _ => false end.
Definition is_reaped {Io : AsyncStream} (s : Seen) : bool := match s with Reaped => true | _ => false end.
Definition is_moved {Io : AsyncStream} (s : Seen) : bool := match s with ReadBytes _ | Wrote _ => true | _ => false end.

Definition times_out_after_the_interval_when_idle : bool :=
  match polled_at (idle_new (Io := Quiet) 0 tt (Some (from_secs 30))) [0; from_secs 30 - 1; from_secs 30]%N with
  | [a; b; c] => all [is_waiting a; is_waiting b; is_reaped c]
  | _ => false
  end.

Definition disabled_reaper_never_times_out : bool :=
  forallb is_waiting (polled_at (idle_new (Io := Quiet) 0 tt None) [0; from_secs 30; from_secs 86400]%N).

Definition activity_resets_the_deadline : bool :=
  let opened := idle_new (Io := OnceThenQuiet) 0 false (Some (from_secs 30)) in
  match polled_at opened [0; from_secs 30 - 1; from_secs 30]%N with
  | [a; b; c] => all [is_moved a; is_waiting b; is_reaped c]
  | _ => false
  end.

(** ** The suite *)

Definition core_suite : list (string * bool) := [
  ("normalize_dedups_and_orders", normalize_dedups_and_orders);
  ("normalize_rejects_an_empty_selection", normalize_rejects_an_empty_selection);
  ("the_host_pacer_bounds_every_chain_together", the_host_pacer_bounds_every_chain_together);
  ("chains_are_independent_when_the_host_is_uncapped", chains_are_independent_when_the_host_is_uncapped);
  ("the_per_chain_interval_still_applies_under_a_looser_host_cap", the_per_chain_interval_still_applies_under_a_looser_host_cap);
  ("data_dir_keeps_c_chain_at_the_base", data_dir_keeps_c_chain_at_the_base);
  ("endpoints_are_the_base_plus_a_per_chain_path", endpoints_are_the_base_plus_a_per_chain_path);
  ("record_is_a_valid_json_array_of_the_right_arity", record_is_a_valid_json_array_of_the_right_arity);
  ("arity_is_per_chain", arity_is_per_chain);
  ("block_element_is_byte_identical", block_element_is_byte_identical);
  ("every_element_is_recovered_byte_identically", every_element_is_recovered_byte_identically);
  ("split_skips_tricky_trailing_elements", split_skips_tricky_trailing_elements);
  ("rejects_malformed_records", rejects_malformed_records);
  ("out_of_range_element_is_absent", out_of_range_element_is_absent);
  ("bare_block_reads_as_element_zero_with_no_derived_data", bare_block_reads_as_element_zero_with_no_derived_data);
  ("both_layouts_read_correctly_side_by_side", both_layouts_read_correctly_side_by_side);
  ("element_view_derefs_to_its_own_slice", element_view_derefs_to_its_own_slice);
  ("put_get_roundtrip_unwraps_block_half", put_get_roundtrip_unwraps_block_half);
  ("stored_value_is_combined_record", stored_value_is_combined_record);
  ("reopen_same_version_ok", reopen_same_version_ok);
  ("refuses_block_data_with_no_network_stamp", refuses_block_data_with_no_network_stamp);
  ("adopts_pre_logs_store_without_format_stamp", adopts_pre_logs_store_without_format_stamp);
  ("rejects_incompatible_format_version", rejects_incompatible_format_version);
  ("adopts_and_reads_a_bare_block_store", adopts_and_reads_a_bare_block_store);
  ("adopts_and_stamps_a_pre_multichain_c_store", adopts_and_stamps_a_pre_multichain_c_store);
  ("refuses_pre_multichain_store_as_another_chain", refuses_pre_multichain_store_as_another_chain);
  ("rejects_cross_chain_open", rejects_cross_chain_open);
  ("sibling_chain_stores_coexist_under_one_base", sibling_chain_stores_coexist_under_one_base);
  ("rejects_identity_mismatch", rejects_identity_mismatch);
  ("block_then_logs_completes", block_then_logs_completes);
  ("logs_then_block_completes", logs_then_block_completes);
  ("cap_flushes_buffer_and_defers", cap_flushes_buffer_and_defers);
  ("duplicate_block_replaces_and_keeps_one_entry", duplicate_block_replaces_and_keeps_one_entry);
  ("user_agent_reports_the_crate_version", user_agent_reports_the_crate_version);
  ("redact_url_drops_the_query_and_keeps_the_rest", redact_url_drops_the_query_and_keeps_the_rest);
  ("zero_interval_never_waits", zero_interval_never_waits);
  ("serial_waiters_are_spaced", serial_waiters_are_spaced);
  ("concurrent_waiters_do_not_multiply_the_rate", concurrent_waiters_do_not_multiply_the_rate);
  ("format_secs_buckets", format_secs_buckets);
  ("behind_prefers_the_worse_gap", behind_prefers_the_worse_gap);
  ("eta_idle_when_no_progress", eta_idle_when_no_progress);
  ("eta_math_from_known_rate", eta_math_from_known_rate);
  ("progress_lines_are_throttled_to_the_period", progress_lines_are_throttled_to_the_period);
  ("caught_up_returns_tracker_to_idle", caught_up_returns_tracker_to_idle);
  ("wire_spellings_round_trip", wire_spellings_round_trip);
  ("live_and_record_kinds_are_classified", live_and_record_kinds_are_classified);
  ("projection_shapes_the_payload_per_kind", projection_shapes_the_payload_per_kind);
  ("projection_does_not_mutate_the_shared_update", projection_does_not_mutate_the_shared_update);
  ("record_projection_is_none_without_a_record", record_projection_is_none_without_a_record);
  ("reaper_armed_only_when_enabled", reaper_armed_only_when_enabled);
  ("times_out_after_the_interval_when_idle", times_out_after_the_interval_when_idle);
  ("disabled_reaper_never_times_out", disabled_reaper_never_times_out);
  ("activity_resets_the_deadline", activity_resets_the_deadline)
].

(** The program's tests of its chains, records, stores, join buffer, pacers,
    progress, subscriptions and idle connections all pass on the model, each on
    its own inputs with its own assertions. *)
Theorem core_tests_pass : Forall (fun t => t.2 = true) core_suite.
Proof. apply Forall_fold_right. vm_compute. repeat split; reflexivity. Qed.
