(* ===== verification/TestsServe.v ===== *)
(** * The unit tests, run on the model: the served interface

    The tests of src/rpc.rs, src/health.rs and src/bulk.rs, as booleans over the
    definitions that model those files; see [TestsCore]. *)

From Stdlib Require Import ZArith NArith Lia String Ascii.
From S2P Require Import Prelude Str Json ToyJson RefJson Chain Record Backing Storage StorageSpec Join Codec Upstream.
From S2P Require Import RefCodec Http EthFetch Serve Health Bulk Support Server TestsCore.

#[local] Open Scope string_scope.
#[local] Existing Instances MapStore MapDb RefJson Toy.ToyHex RefCodec.

(** ** src/rpc.rs *)

Definition parse_quantity_accepts_hex_with_and_without_prefix : bool :=
  all [ok_eq (parse_quantity "0x10") 16%N; ok_eq (parse_quantity "10") 16%N; ok_eq (parse_quantity "0x0") 0%N;
       is_err (parse_quantity "0xZZ")].

Fixpoint repeat_str (n : nat) (s : string) : string := match n with O => "" | S n => s ++ repeat_str n s end.

Definition parse_hash_round_trip : bool :=
  all [ok_eq (parse_hash ("0x" ++ repeat_str 32 "ab")) (rep 32 Byte.xab);
       is_err (parse_hash "0xab"); is_err (parse_hash "0xZZ")].

(** An instance over a fresh store in the directory of its chain. *)
Definition test_serve (c : Chain) : option ChainServe := (chain_serve c ["base"] fresh_disk).2.

Definition names_of (chains : list ChainServe) : option (list string) :=
  match build_module chains with Ok m => Some (method_names m) | Err _ => None end.

Definition has (names : list string) (n : string) : bool := existsb (String.eqb n) names.

Definition c_chain_module_registers_only_the_eth_namespace : bool := passes (
  c ← test_serve C;
  names ← names_of [c];
  Some (all [has names "eth_blockNumber"; has names "eth_getLogs";
             negb (existsb (starts_with "platform") names)])).

Definition merged_module_registers_both_namespaces : bool := passes (
  c ← test_serve C; p ← test_serve P;
  names ← names_of [c; p];
  Some (all [has names "eth_blockNumber"; has names "platform.getHeight"; has names "eth_subscribe"])).

Definition p_chain_module_registers_only_the_platform_namespace : bool := passes (
  p ← test_serve P;
  names ← names_of [p];
  Some (all [has names "platform.getBlockByHeight"; negb (existsb (starts_with "eth") names)])).

Definition empty_chain_set_is_refused : bool := is_err (build_module []).

(** ** Stores with blocks in them *)

Definition with_storage (st : Storage) (c : ChainServe) : ChainServe :=
  {| cs_chain := cs_chain c; cs_storage := st; cs_data_dir := cs_data_dir c; cs_identity := cs_identity c;
     cs_behind_tip := cs_behind_tip c; cs_join := cs_join c; cs_ingests_logs := cs_ingests_logs c |}.

Fixpoint put_blocks (hs : list N) (st : Storage) : option Storage :=
  match hs with
  | [] => Some st
  | h :: hs => '(st, _) ← unwrap (put_test_block h) st; put_blocks hs st
  end.

(** [chain_serve], then [put_block] for each height. *)
Definition serve_with (c : Chain) (hs : list N) : option ChainServe :=
  s ← test_serve c; st ← put_blocks hs (cs_storage s); Some (with_storage st s).

(** ** src/health.rs *)

Definition test_host : HostInfo :=
  {| hi_version := CARGO_PKG_VERSION; hi_commit := "unknown"; hi_uptime_secs := 0;
     hi_format_duration _ := "0s"; hi_memory := None; hi_fs _ := None;
     hi_human_bytes _ := "0 B"; hi_display := foldr (fun c s => "/" ++ c ++ s) "" |}.

Definition report (chains : list ChainServe) : Value := build_health_response test_host chains.

(** [v["a"]["b"]...]: an absent key reads as [null]. *)
Definition idx (path : list string) (v : Value) : Value :=
  foldl (fun v k => default Null (get k v)) v path.

Definition num (n : N) : Value := VNumber (PosInt n).

Definition multi_chain_report_keeps_legacy_top_level_on_c : bool := passes (
  c ← serve_with C [10; 11; 12]%N; p ← serve_with P [700%N];
  let v := report [c; p] in
  Some (all [eqs (idx ["default_chain"] v) (VString "c"); eqs (idx ["chain_id"] v) (num 43114);
             eqs (idx ["blocks"; "min_height"] v) (num 10);
             eqs (idx ["blocks"; "max_contiguous_height"] v) (num 12);
             eqs (idx ["chains"; "c"; "blocks"; "min_height"] v) (num 10);
             eqs (idx ["chains"; "c"; "network"] v) (VString "43114");
             eqs (idx ["chains"; "p"; "blocks"; "min_height"] v) (num 700);
             eqs (idx ["chains"; "p"; "network"] v) (VString "test-genesis-id");
             negb (eqs (idx ["chains"; "c"; "storage"; "data_dir"] v) (idx ["chains"; "p"; "storage"; "data_dir"] v))])).

Definition a_store_anchored_at_genesis_reports_height_zero : bool := passes (
  p ← serve_with P [0%N];
  let v := report [p] in
  Some (all [eqs (idx ["chains"; "p"; "blocks"; "min_height"] v) (num 0);
             eqs (idx ["chains"; "p"; "blocks"; "max_contiguous_height"] v) (num 0);
             eqs (idx ["blocks"; "min_height"] v) (num 0)])).

Definition an_empty_store_reports_null_heights : bool := passes (
  c ← test_serve C;
  let v := report [c] in
  Some (all [is_null (idx ["chains"; "c"; "blocks"; "min_height"] v);
             is_null (idx ["chains"; "c"; "blocks"; "high_water"] v)])).

Definition p_only_report_names_itself_the_default : bool := passes (
  p ← serve_with P [700%N];
  let v := report [p] in
  Some (all [eqs (idx ["default_chain"] v) (VString "p"); is_null (idx ["chain_id"] v);
             eqs (idx ["blocks"; "min_height"] v) (num 700); is_null (idx ["chains"; "c"] v)])).

Definition upstream_reader_prefers_the_per_chain_path : bool :=
  let body := json "{ 'blocks': { 'min_height': 10 },
                      'chains': { 'c': { 'blocks': { 'min_height': 10 } }, 'p': { 'blocks': { 'min_height': 700 } } } }" in
  all [eqs (upstream_blocks_field body C "min_height") (Some 10%N);
       eqs (upstream_blocks_field body P "min_height") (Some 700%N)].

Definition upstream_reader_falls_back_only_for_the_c_chain : bool :=
  let legacy := json "{ 'blocks': { 'min_height': 10 } }" in
  all [eqs (upstream_blocks_field legacy C "min_height") (Some 10%N);
       eqs (upstream_blocks_field legacy P "min_height") None].

Definition upstream_reader_rejects_a_non_neve_body : bool :=
  eqs (upstream_blocks_field (json "{ 'status': 'ok' }") C "min_height") None.

(** ** src/bulk.rs *)

(** The service under a request for [uri]: the status and the body; the inner
    service answers "inner". *)
Definition inner_service : HttpService := fun _ => {| rp_status := 200; rp_body := Whole (str_bytes ("inner" ++ TestsCore.newline)) |}.

Definition body_bytes (b : Body) : bytes := match b with Whole b | Stream b => b | Broken => [] end.

(** [read] is the instance whose store the body is read from. *)
Definition get_uri (chains : list ChainServe) (read : ChainServe) (max_blocks : N) (uri : string) : N * bytes :=
  let '(path, query) := match split_once "?" uri with Some (p, q) => (p, Some q) | None => (uri, None) end in
  let r := bulk_layer (stores_new chains) (fun _ => cs_storage read) max_blocks inner_service
             {| rq_method := "GET"; rq_path := path; rq_query := query; rq_body := [] |} in
  (rp_status r, body_bytes (rp_body r)).

Definition parse_height_decimal_and_hex : bool :=
  all [ok_eq (parse_height "10") 10%N; ok_eq (parse_height "0x52aba41") 86686273%N; ok_eq (parse_height "0X10") 16%N;
       is_err (parse_height "0xzz"); is_err (parse_height "nope")].

#[local] Instance Range_eq_dec : EqDecision Range.
Proof. solve_decision. Defined.

Definition parse_range_requires_from_to_and_chain_optional : bool :=
  all [is_err (parse_range "to=10");
       ok_eq (parse_range "from=10") {| rg_from := 10; rg_to := None; rg_chain := None |};
       ok_eq (parse_range "from=10&to=0x14") {| rg_from := 10; rg_to := Some 20%N; rg_chain := None |};
       ok_eq (parse_range "from=10&chain=p") {| rg_from := 10; rg_to := None; rg_chain := Some P |};
       is_err (parse_range "from=10&chain=x")].

(** The lines of an NDJSON body. *)
Definition body_lines (b : bytes) : list string :=
  List.filter (fun l => negb (String.eqb l "")) (Str.split (ascii_of_N 10) (bytes_str b)).

Definition line_number (l : string) : option string := from_slice (str_bytes l) ≫= get_str "number".

Definition streams_range_as_ndjson : bool := passes (
  c ← serve_with C [10; 11; 12]%N;
  let '(status, body) := get_uri [c] c 100 "/blocks?from=10&to=12" in
  Some (all [eqs status 200%N; eqs (length (body_lines body)) 3%nat;
             eqs (map line_number (body_lines body)) [Some "0xa"; Some "0xb"; Some "0xc"]])).

Definition rejects_oversized_range : bool := passes (
  c ← serve_with C [10; 11; 12]%N;
  let '(status, body) := get_uri [c] c 2 "/blocks?from=10&to=12" in
  Some (all [eqs status 400%N; Str.contains "max 2 per request" (bytes_str body)])).

Definition rejects_range_outside_store : bool := passes (
  c ← serve_with C [10; 11; 12]%N;
  Some (all [eqs (get_uri [c] c 100 "/blocks?from=9&to=12").1 416%N;
             eqs (get_uri [c] c 100 "/blocks?from=10&to=13").1 416%N])).

Definition to_defaults_to_a_capped_window : bool := passes (
  c ← serve_with C [10; 11; 12; 13; 14]%N;
  let '(status, body) := get_uri [c] c 3 "/blocks?from=10" in
  let '(status', body') := get_uri [c] c 100 "/blocks?from=10" in
  Some (all [eqs status 200%N; eqs (length (body_lines body)) 3%nat;
             eqs status' 200%N; eqs (length (body_lines body')) 5%nat])).

Definition bad_request_on_missing_from_or_swapped_params : bool := passes (
  c ← serve_with C [10; 11; 12]%N;
  Some (all [eqs (get_uri [c] c 100 "/blocks").1 400%N;
             eqs (get_uri [c] c 100 "/blocks?to=12").1 400%N;
             eqs (get_uri [c] c 100 "/blocks?from=11&to=10").1 400%N])).

Definition chain_param_selects_the_store : bool := passes (
  c ← serve_with C [10; 11; 12]%N; p ← serve_with P [10; 11]%N;
  let count read uri := let '(status, body) := get_uri [c; p] read 100 uri in (status, length (body_lines body)) in
  Some (all [eqs (count c "/blocks?from=10") (200%N, 3%nat);
             eqs (count c "/blocks?from=10&chain=c") (200%N, 3%nat);
             eqs (count p "/blocks?from=10&chain=p") (200%N, 2%nat);
             eqs (get_uri [c; p] c 100 "/blocks?from=10&chain=zzz").1 400%N])).

Definition unmirrored_chain_is_rejected : bool := passes (
  c ← serve_with C [10%N];
  let '(status, body) := get_uri [c] c 100 "/blocks?from=10&chain=p" in
  Some (all [eqs status 400%N; Str.contains "not being mirrored" (bytes_str body)])).

Definition non_blocks_path_passes_through : bool := passes (
  c ← test_serve C;
  Some (eqs (get_uri [c] c 100 "/something-else").2 (str_bytes ("inner" ++ TestsCore.newline)))).

(** ** The suite *)

Definition serve_suite : list (string * bool) := [
  ("parse_quantity_accepts_hex_with_and_without_prefix", parse_quantity_accepts_hex_with_and_without_prefix);
  ("parse_hash_round_trip", parse_hash_round_trip);
  ("c_chain_module_registers_only_the_eth_namespace", c_chain_module_registers_only_the_eth_namespace);
  ("merged_module_registers_both_namespaces", merged_module_registers_both_namespaces);
  ("p_chain_module_registers_only_the_platform_namespace", p_chain_module_registers_only_the_platform_namespace);
  ("empty_chain_set_is_refused", empty_chain_set_is_refused);
  ("multi_chain_report_keeps_legacy_top_level_on_c", multi_chain_report_keeps_legacy_top_level_on_c);
  ("a_store_anchored_at_genesis_reports_height_zero", a_store_anchored_at_genesis_reports_height_zero);
  ("an_empty_store_reports_null_heights", an_empty_store_reports_null_heights);
  ("p_only_report_names_itself_the_default", p_only_report_names_itself_the_default);
  ("upstream_reader_prefers_the_per_chain_path", upstream_reader_prefers_the_per_chain_path);
  ("upstream_reader_falls_back_only_for_the_c_chain", upstream_reader_falls_back_only_for_the_c_chain);
  ("upstream_reader_rejects_a_non_neve_body", upstream_reader_rejects_a_non_neve_body);
  ("parse_height_decimal_and_hex", parse_height_decimal_and_hex);
  ("parse_range_requires_from_to_and_chain_optional", parse_range_requires_from_to_and_chain_optional);
  ("streams_range_as_ndjson", streams_range_as_ndjson);
  ("rejects_oversized_range", rejects_oversized_range);
  ("rejects_range_outside_store", rejects_range_outside_store);
  ("to_defaults_to_a_capped_window", to_defaults_to_a_capped_window);
  ("bad_request_on_missing_from_or_swapped_params", bad_request_on_missing_from_or_swapped_params);
  ("chain_param_selects_the_store", chain_param_selects_the_store);
  ("unmirrored_chain_is_rejected", unmirrored_chain_is_rejected);
  ("non_blocks_path_passes_through", non_blocks_path_passes_through)
].

(** The program's tests of its RPC table, its health report and its bulk export
    all pass on the model. *)
Theorem serve_tests_pass : Forall (fun t => t.2 = true) serve_suite.
Proof. apply Forall_fold_right. vm_compute. repeat split; reflexivity. Qed.
