(* ===== verification/TestsPlatform.v ===== *)
(** * The unit tests, run on the model: the P-chain

    The tests of src/platform/codec.rs, mod.rs, ingest.rs, mirror.rs and rpc.rs,
    as booleans over the definitions that model those files, with real hashes and
    real identifiers ([RefCodec]); see [TestsCore]. *)

From Stdlib Require Import ZArith NArith Lia String Ascii.
From S2P Require Import Prelude Str Json ToyJson RefJson Chain Record Backing Storage StorageSpec Join Codec Upstream.
From S2P Require Import RefCodec Http EthFetch Progress Serve Subscribe Support PlatformIngest Mirror PlatformRpc Server TestsCore TestsServe.

#[local] Open Scope string_scope.
#[local] Existing Instances MapStore MapDb RefJson Toy.ToyHex RefCodec.

(** ** src/platform/codec.rs *)

Definition FUJI_292000_ID : string := "cDkr8hB3eX6RM8XJMu4nR9rvwUbKSHqbNx2a9U13JkCYyctbx".
Definition FUJI_GENESIS_HEXNC : string :=
  "0x0000000000022e6b699298a664793bff42dae9c1af8d9c54645d8b376fd331e0b67475578e0a0000000000000000".

Definition cb58_round_trips : bool :=
  let id := rep 32 Byte.xab in ok_eq (cb58_decode (cb58_encode id)) id.

Definition cb58_decodes_a_real_block_id : bool :=
  match cb58_decode FUJI_292000_ID with Ok id => eqs (cb58_encode id) FUJI_292000_ID | Err _ => false end.

(** The character at position 1 replaced. *)
Definition flip_1 (s : string) : string :=
  match s with
  | String c0 (String c1 s) => String c0 (String (if Ascii.eqb c1 "a" then "b" else "a")%char s)
  | _ => s
  end.

Definition cb58_rejects_a_bad_checksum : bool :=
  let good := cb58_encode (rep 32 Byte.x11) in is_err (cb58_decode (flip_1 good)).

Definition cb58_rejects_wrong_length_and_non_base58 : bool :=
  all [is_err (cb58_decode "abc"); is_err (cb58_decode "0l0l"); is_err (cb58_decode "")].

Definition block_id_derives_from_the_bytes : bool :=
  match hexnc_decode FUJI_GENESIS_HEXNC with
  | Ok bytes => all [eqs (length bytes) 46%nat; ok_eq (cb58_decode (block_id_of bytes)) (Codec.sha256 bytes)]
  | Err _ => false
  end.

Definition ends_with (p s : string) : bool :=
  eqs (String.substring (String.length s - String.length p) (String.length p) s) p.

Definition hex_appends_the_checksum_to_hexnc : bool :=
  match hexnc_decode FUJI_GENESIS_HEXNC with
  | Ok bytes => passes (
      plain ← render_bytes Hexnc bytes;
      summed ← render_bytes Hex bytes;
      Some (all [eqs plain FUJI_GENESIS_HEXNC; starts_with plain summed;
                 eqs (String.length summed) (String.length plain + 8)%nat;
                 ends_with (hex_encode (checksum bytes)) summed;
                 eqs (render_bytes Hexc bytes) (Some summed)]))
  | Err _ => false
  end.

Definition hexnc_round_trips_a_real_block : bool :=
  all [match hexnc_decode FUJI_GENESIS_HEXNC with
       | Ok bytes => eqs (render_bytes Hexnc bytes) (Some FUJI_GENESIS_HEXNC)
       | Err _ => false
       end;
       is_err (hexnc_decode "00ff"); is_err (hexnc_decode "0xzz"); is_err (hexnc_decode "0xabc")].

Definition encoding_parses_every_accepted_spelling_and_defaults_to_hex : bool :=
  all [ok_eq (encoding_parse None) Hex; ok_eq (encoding_parse (Some "hex")) Hex;
       ok_eq (encoding_parse (Some "hexc")) Hexc; ok_eq (encoding_parse (Some "hexnc")) Hexnc;
       ok_eq (encoding_parse (Some "json")) EJson;
       is_err (encoding_parse (Some "cb58")); is_err (encoding_parse (Some ""))].

Definition encoding_echoes_its_own_spelling : bool :=
  forallb (fun e => ok_eq (encoding_parse (Some (encoding_as_str e))) e) [Hex; Hexc; Hexnc; EJson].

Definition json_encoding_renders_no_bytes : bool := eqs (render_bytes EJson (str_bytes "anything")) None.

Definition block_kind_reads_a_real_genesis_block : bool :=
  match hexnc_decode FUJI_GENESIS_HEXNC with Ok bytes => eqs (block_kind bytes) Commit | Err _ => false end.

(** A codec version and a type ID. *)
Definition typed (id : N) : bytes := (map byte_of_N [0; 0]%N ++ reverse (to_le_bytes 4 id))%list.

Definition block_kind_covers_both_eras : bool :=
  let kind_of id := block_kind (typed id) in
  all [eqs (kind_of 0%N) Proposal; eqs (kind_of 1%N) Abort; eqs (kind_of 2%N) Commit; eqs (kind_of 3%N) Other; eqs (kind_of 4%N) Other;
       eqs (kind_of 29%N) Proposal; eqs (kind_of 30%N) Abort; eqs (kind_of 31%N) Commit; eqs (kind_of 32%N) Other].

Definition block_kind_tolerates_unknown_and_truncated : bool :=
  all [eqs (block_kind (typed 99)) Other; eqs (block_kind (map byte_of_N [0; 0; 0]%N)) Other; eqs (block_kind []) Other].

(** ** src/platform/mod.rs *)

Definition id_at (i : nat) (txs : list Value) : option string := txs !! i ≫= get_str "id".
Definition id_of (tx : option Value) : option string := tx ≫= get_str "id".

Definition block_txs_reads_every_wire_shape : bool :=
  let banff := json "{ 'txs': [{'id': 'a'}, {'id': 'b'}] }" in
  let apricot := json "{ 'tx': {'id': 'solo'} }" in
  all [eqs (length (block_txs banff)) 2%nat; eqs (id_at 1 (block_txs banff)) (Some "b");
       eqs (length (block_txs apricot)) 1%nat; eqs (id_at 0 (block_txs apricot)) (Some "solo");
       eqs (block_txs (json "{ 'height': 3 }")) []; eqs (block_txs (json "{ 'txs': [] }")) []].

Definition block_txs_includes_the_proposal_tx_alongside_txs : bool :=
  let empty_txs_plus_proposal := json "{ 'txs': [], 'tx': {'id': 'reward'} }" in
  let got := block_txs (json "{ 'txs': [{'id': 'a'}, {'id': 'b'}], 'tx': {'id': 'reward'} }") in
  all [eqs (length (block_txs empty_txs_plus_proposal)) 1%nat;
       eqs (id_at 0 (block_txs empty_txs_plus_proposal)) (Some "reward");
       eqs (length got) 3%nat;
       eqs (id_at 0 got) (Some "a"); eqs (id_at 1 got) (Some "b"); eqs (id_at 2 got) (Some "reward")].

Definition take_nth_tx_agrees_with_block_txs_on_the_union : bool :=
  let both := json "{ 'txs': [{'id': 'a'}, {'id': 'b'}], 'tx': {'id': 'reward'} }" in
  all [forallb (fun '(i, want) => eqs (id_at i (block_txs both)) (Some want) && eqs (id_of (take_nth_tx both i)) (Some want))
         [(0%nat, "a"); (1%nat, "b"); (2%nat, "reward")];
       eqs (take_nth_tx both 3) None;
       eqs (id_of (take_nth_tx (json "{ 'txs': [], 'tx': {'id': 'reward'} }") 0)) (Some "reward");
       eqs (take_nth_tx (json "{ 'txs': [], 'tx': {'id': 'r'} }") 1) None].

Definition take_nth_tx_indexes_every_wire_shape : bool :=
  all [eqs (id_of (take_nth_tx (json "{ 'txs': [{'id': 'a'}, {'id': 'b'}] }") 1)) (Some "b");
       eqs (take_nth_tx (json "{ 'txs': [{'id': 'a'}] }") 1) None;
       eqs (id_of (take_nth_tx (json "{ 'tx': {'id': 'solo'} }") 0)) (Some "solo");
       eqs (take_nth_tx (json "{ 'tx': {'id': 'solo'} }") 1) None;
       eqs (take_nth_tx (json "{ 'height': 3 }") 0) None].

(** ** src/platform/ingest.rs *)

Definition cfg_with_floor (floor : option N) : IngestCfg :=
  let cfg := handshake_cfg "http://unused" (from_secs 1) in
  {| cfg_chain := cfg_chain cfg; cfg_max_wait := cfg_max_wait cfg; cfg_ws_idle_timeout := cfg_ws_idle_timeout cfg;
     cfg_ws_url := cfg_ws_url cfg; cfg_rpc_url := cfg_rpc_url cfg; cfg_poll_interval := cfg_poll_interval cfg;
     cfg_subscribe_blocks := cfg_subscribe_blocks cfg; cfg_backfill_inter_fetch := cfg_backfill_inter_fetch cfg;
     cfg_fetch_concurrency := cfg_fetch_concurrency cfg; cfg_backfill_floor := floor;
     cfg_prefetch_delay_cap := cfg_prefetch_delay_cap cfg; cfg_progress_period := cfg_progress_period cfg;
     cfg_ingest_logs := cfg_ingest_logs cfg; cfg_logs_source := cfg_logs_source cfg |}.

Definition fresh_store_without_a_floor_anchors_at_the_tip : bool :=
  eqs (next_height true 0 (cfg_with_floor None) 500) 500%N.

Definition fresh_store_with_a_floor_starts_there_including_genesis : bool :=
  all [eqs (next_height true 0 (cfg_with_floor (Some 100%N)) 500) 100%N;
       eqs (next_height true 0 (cfg_with_floor (Some 0%N)) 500) 0%N].

Definition populated_store_walks_the_contiguous_frontier : bool :=
  let cfg := cfg_with_floor (Some 100%N) in
  all [eqs (next_height false 120 cfg 500) 121%N; eqs (next_height false 500 cfg 500) 501%N].

Definition str_field (k v : string) : string * Value := (k, VString v).

Definition tx_ids_tolerate_missing_and_unparseable_entries : bool :=
  let good := cb58_encode (rep 32 Byte.x07) in
  let block := VObject [("txs", VArray [VObject [str_field "id" good]; VObject [str_field "id" "not-valid-cb58!!"];
                                        VObject [("unsignedTx", VObject [])]])] in
  all [eqs (extract_tx_ids (json "{'height': 5}")) []; eqs (extract_tx_ids (json "{'height': 5, 'txs': []}")) [];
       eqs (extract_tx_ids block) [rep 32 Byte.x07]].

Definition canonical : bytes := str_bytes "canonical-block-bytes".
Definition hexnc_of (b : bytes) : Value := from_option VString Null (render_bytes Hexnc b).

Definition verify_accepts_a_consistent_pair : bool := passes (
  let id := block_id_of canonical in
  let tx := rep 32 Byte.x5a in
  let v := VObject [("height", num 42); str_field "id" id; ("time", num 1786114324);
                    ("tx", VObject [str_field "id" (cb58_encode tx)])] in
  got ← verify (hexnc_of canonical) v (Some 42%N);
  got' ← verify (hexnc_of canonical) v None;
  Some (all [eqs (fb_height got) 42%N; ok_eq (cb58_decode id) (fb_id got); eqs (fb_tx_ids got) [tx];
             eqs (fb_timestamp got) (Some 1786114324%N); eqs (fb_height got') 42%N])).

Definition refused {A} (o : option A) : bool := match o with None => true | Some _ => false end.

Definition verify_refuses_halves_that_disagree : bool :=
  let hexnc := hexnc_of canonical in
  let wrong_id := VObject [("height", num 42); str_field "id" (cb58_encode (rep 32 Byte.xff))] in
  let other := hexnc_of (str_bytes "different-bytes") in
  let good := VObject [("height", num 42); str_field "id" (block_id_of canonical)] in
  all [refused (verify hexnc wrong_id (Some 42%N));
       refused (verify other good (Some 42%N));
       refused (verify hexnc good (Some 43%N));
       refused (verify (num 7) good None);
       refused (verify hexnc (VObject [str_field "id" (block_id_of canonical)]) None)].

(** An ingest run with these subscribers to the live channel. *)
#[local] Instance Offline : Http := {|
  World := unit; post _ _ w := (w, SendError); http_get _ w := (w, SendError)
|}.

Definition run_with (receivers : nat) : option PRun :=
  c ← test_serve P;
  Some {| pr_storage := cs_storage c; pr_net := {| net_world := tt; net_trace := [] |};
          pr_progress := Progress.new P 0; pr_behind_tip := 0; pr_live := []; pr_receivers := receivers |}.

Definition announce_publishes_the_block_and_the_whole_record : bool := passes (
  let block := raw "{'height':42,'id':'abc'}" in
  let bytes := raw "'0xdeadbeef'" in
  r ← run_with 1;
  update ← head (pr_live (announce block [block; bytes; EMPTY_ARRAY] r));
  rec_ ← lu_record update;
  parts ← as_array rec_;
  Some (all [eqs (get_u64 "height" (lu_block update)) (Some 42%N); eqs (length parts) (arity P);
             eqs (parts !! 0%nat ≫= get_u64 "height") (Some 42%N);
             eqs (parts !! 1%nat) (Some (VString "0xdeadbeef")); eqs (parts !! 2%nat) (Some (VArray []))])).

Definition announce_is_a_noop_without_subscribers : bool := passes (
  r ← run_with 0;
  let r' := announce (str_bytes "not even valid json") [str_bytes "x"] r in
  Some (all [eqs (length (pr_live r')) 0%nat; eqs (pr_receivers r') 0%nat])).

Definition tx_ids_index_the_apricot_single_tx_shape : bool :=
  let id := rep 32 Byte.x5a in
  let block := VObject [("height", num 1); ("tx", VObject [str_field "id" (cb58_encode id); ("unsignedTx", VObject [])])] in
  eqs (extract_tx_ids block) [id].

Definition reward_proposal_yields_the_staking_tx : bool :=
  let block := json "{ 'height': 25345668, 'id': '2Kx...', 'parentID': '2Jy...', 'time': 1755000000, 'txs': [],
      'tx': { 'id': '21j195CaGa5NQjcDjqFSAT5pCdNxhRxtcaamfwLrES8f9Vw53B',
              'unsignedTx': {'txID': 'e8ZVrKrTCrK2tyKakgYk3HnRAwQSyHC41VpVNrpsrH5UESvmo'} } }" in
  eqs (reward_staking_tx block) (Some "e8ZVrKrTCrK2tyKakgYk3HnRAwQSyHC41VpVNrpsrH5UESvmo").

Definition non_reward_proposals_are_not_mistaken_for_rewards : bool :=
  let advance := json "{'tx': {'unsignedTx': {'time': 1600000000}}}" in
  let delegator := json "{'tx': {'unsignedTx': {
      'blockchainID': '11111', 'inputs': [], 'memo': '0x', 'networkID': 1,
      'outputs': [], 'rewardsOwner': {'addresses': []}, 'stake': [],
      'validator': {'nodeID': 'NodeID-x', 'start': 1, 'end': 2, 'weight': 3} }}}" in
  let validator := json "{'tx': {'unsignedTx': {
      'blockchainID': '11111', 'inputs': [], 'memo': '0x', 'networkID': 1,
      'outputs': [], 'rewardsOwner': {'addresses': []}, 'shares': 20000,
      'stake': [], 'validator': {'nodeID': 'NodeID-x', 'start': 1, 'end': 2, 'weight': 3} }}}" in
  all [negb (is_null advance); negb (is_null delegator); negb (is_null validator);
       eqs (reward_staking_tx advance) None; eqs (reward_staking_tx delegator) None;
       eqs (reward_staking_tx validator) None].

Definition standard_and_resolution_blocks_hold_no_reward : bool :=
  all [eqs (reward_staking_tx (json "{'height': 1, 'txs': [{'id': 'a'}]}")) None;
       eqs (reward_staking_tx (json "{'height': 2, 'id': 'x', 'parentID': 'y', 'time': 3}")) None].

(** ** src/platform/mirror.rs *)

Definition persist_record_refuses_malformed_or_inconsistent_records : bool := passes (
  let hexnc := hexnc_of canonical in
  let good_block := VObject [("height", num 7); str_field "id" (block_id_of canonical); ("txs", VArray [])] in
  let bad := [json "{ 'height': 7 }"; VArray [good_block; hexnc];
              VArray [VObject [("height", num 7); str_field "id" (cb58_encode (rep 32 Byte.x09))]; hexnc; VArray []]] in
  c ← test_serve P;
  let st := cs_storage c in
  let '(st', stored) := persist_record (VArray [good_block; hexnc; VArray []]) st in
  Some (all [forallb (fun v => let '(st1, o) := persist_record v st in refused o && is_empty st1) bad;
             eqs stored (Some 7%N); is_some (get_by_height st' 7)])).

Definition notification_payload_extracts_only_subscription_frames : bool := passes (
  let notif := json "{ 'jsonrpc': '2.0', 'method': 'platform.subscription',
                       'params': { 'subscription': '0x1', 'result': [{'height': 7}, '0x00', []] } }" in
  got ← notification_payload notif;
  items ← as_array got;
  Some (all [eqs (items !! 0%nat ≫= get_u64 "height") (Some 7%N);
             refused (notification_payload (json "{'id': 1, 'result': '0xsub'}"));
             refused (notification_payload (json "{'id': 1, 'error': {'code': -32000}}"));
             refused (notification_payload (json "{'method': 'eth_subscription'}"))])).

(** ** src/platform/rpc.rs *)

(** A record of [height] with these transactions, as ingest writes one: the store
    after it, and the block's ID. *)
Definition put_pblock (height : N) (tx_ids : list bytes) (st : Storage) : option (Storage * string) :=
  let bytes := str_bytes ("block-bytes-at-height-" ++ to_decimal height) in
  let block_id := block_id_of bytes in
  hexnc ← render_bytes Hexnc bytes;
  let txs := map (fun id => VObject [str_field "id" (cb58_encode id); ("unsignedTx", VObject [str_field "memo" "0x"])]) tx_ids in
  let block_json :=
    VObject [("height", num height); str_field "id" block_id; str_field "parentID" (cb58_encode (rep 32 Byte.x01));
             ("time", num ((1786114324 + height) mod 2 ^ 64)); ("txs", VArray txs)] in
  json_bytes ← to_vec block_json;
  hexnc_bytes ← to_vec (VString hexnc);
  match cb58_decode block_id with
  | Ok id => '(st, _) ← unwrap (put height id tx_ids [json_bytes; hexnc_bytes; EMPTY_ARRAY]) st; Some (st, block_id)
  | Err _ => None
  end.

Definition by_height (height : N) (encoding : option string) : ByHeight :=
  {| bh_height := Num height; bh_encoding := encoding |}.
Definition by_tx (id : bytes) (encoding : option string) : ByTxId :=
  {| bt_tx_id := cb58_encode id; bt_encoding := encoding |}.

Definition service : option Storage := c ← test_serve P; Some (cs_storage c).

(** [humantime::format_rfc3339_seconds]: the civil date of a day number, and the
    time of day. *)
Definition civil (days : N) : N * N * N :=
  let z := (days + 719468)%N in
  let era := (z / 146097)%N in
  let doe := (z - era * 146097)%N in
  let yoe := ((doe - doe / 1460 + doe / 36524 - doe / 146096) / 365)%N in
  let doy := (doe - (365 * yoe + yoe / 4 - yoe / 100))%N in
  let mp := ((5 * doy + 2) / 153)%N in
  let d := (doy - (153 * mp + 2) / 5 + 1)%N in
  let m := if (mp <? 10)%N then (mp + 3)%N else (mp - 9)%N in
  ((yoe + era * 400 + if (m <=? 2)%N then 1 else 0)%N, m, d).

Definition ref_rfc3339 (secs : N) : option string :=
  let '(y, m, d) := civil (secs / 86400) in
  if (9999 <? y)%N then None else Some (
  let t := (secs mod 86400)%N in
  to_decimal y ++ "-" ++ pad2 m ++ "-" ++ pad2 d ++ "T" ++ pad2 (t / 3600) ++ ":" ++ pad2 (t / 60 mod 60) ++ ":"
    ++ pad2 (t mod 60) ++ "Z").

Definition empty_store_defers_everything : bool := passes (
  st ← service;
  Some (all [is_none (get_height st); is_none (get_timestamp ref_rfc3339 st);
             is_none (get_block_by_height st (by_height 5 None))])).

(** [r.unwrap().unwrap()[..]] *)
Definition at_path (path : list string) (r : result (option Value)) : option Value :=
  match r with Ok (Some v) => Some (idx path v) | _ => None end.
Definition at_str (path : list string) (r : result (option Value)) : option string := at_path path r ≫= Json.as_str.

Definition get_height_reports_the_contiguous_tip_as_a_string : bool := passes (
  st ← service; '(st, _) ← put_pblock 700 [] st; '(st, _) ← put_pblock 701 [] st;
  Some (eqs (at_str ["height"] (get_height st)) (Some "701"))).

Definition genesis_only_store_reports_height_zero : bool := passes (
  st ← service; '(st, _) ← put_pblock 0 [] st;
  Some (eqs (at_str ["height"] (get_height st)) (Some "0"))).

Definition every_encoding_is_served_from_storage : bool := passes (
  st ← service; '(st, block_id) ← put_pblock 700 [] st;
  let get enc := get_block_by_height st (by_height 700 enc) in
  nc_hex ← at_str ["block"] (get (Some "hexnc"));
  hex ← at_str ["block"] (get None);
  Some (all [eqs (at_str ["encoding"] (get (Some "json"))) (Some "json");
             eqs (at_path ["block"; "height"] (get (Some "json"))) (Some (num 700));
             eqs (at_str ["block"; "id"] (get (Some "json"))) (Some block_id);
             eqs (at_str ["encoding"] (get (Some "hexnc"))) (Some "hexnc");
             eqs (at_str ["encoding"] (get None)) (Some "hex");
             starts_with nc_hex hex; eqs (String.length hex) (String.length nc_hex + 8)%nat;
             eqs (at_str ["encoding"] (get (Some "hexc"))) (Some "hexc");
             eqs (at_str ["block"] (get (Some "hexc"))) (Some hex);
             match hexnc_decode nc_hex with Ok bytes => eqs (block_id_of bytes) block_id | Err _ => false end])).

Definition unheld_height_defers_but_a_bad_encoding_errors : bool := passes (
  st ← service; '(st, _) ← put_pblock 700 [] st;
  Some (all [is_none (get_block_by_height st (by_height 9999 None));
             is_err (get_block_by_height st (by_height 700 (Some "cb58")))])).

Definition get_block_resolves_a_cb58_id : bool := passes (
  st ← service; '(st, block_id) ← put_pblock 700 [] st;
  by_id ← at_path [] (get_block st {| bb_block_id := block_id; bb_encoding := Some "json" |});
  by_h ← at_path [] (get_block_by_height st (by_height 700 (Some "json")));
  Some (all [eqs by_id by_h;
             is_none (get_block st {| bb_block_id := cb58_encode (rep 32 Byte.xee); bb_encoding := None |});
             is_err (get_block st {| bb_block_id := "not-cb58!!"; bb_encoding := None |})])).

Definition get_tx_slices_from_the_stored_block : bool := passes (
  let tx_a := rep 32 Byte.xa1 in let tx_b := rep 32 Byte.xb2 in
  st ← service; '(st, _) ← put_pblock 700 [tx_a; tx_b] st;
  let v := get_tx st (by_tx tx_b (Some "json")) in
  Some (all [eqs (at_str ["encoding"] v) (Some "json"); eqs (at_str ["tx"; "id"] v) (Some (cb58_encode tx_b));
             eqs (at_str ["status"] (get_tx_status st (by_tx tx_a None))) (Some "Committed")])).

Definition unknown_tx_defers_rather_than_guessing_status : bool := passes (
  let unknown := rep 32 Byte.xcc in
  st ← service; '(st, _) ← put_pblock 700 [rep 32 Byte.xa1] st;
  Some (all [is_none (get_tx_status st (by_tx unknown None)); is_none (get_tx st (by_tx unknown (Some "json")))])).

Definition get_tx_byte_encodings_defer : bool := passes (
  let tx := rep 32 Byte.xa1 in
  st ← service; '(st, _) ← put_pblock 700 [tx] st;
  Some (all [forallb (fun enc => is_none (get_tx st (by_tx tx enc))) [None; Some "hex"; Some "hexc"; Some "hexnc"];
             is_some (get_tx st (by_tx tx (Some "json")))])).

Definition get_timestamp_renders_rfc3339_from_the_tip : bool := passes (
  st ← service; '(st, _) ← put_pblock 0 [] st;
  ts ← at_str ["timestamp"] (get_timestamp ref_rfc3339 st);
  Some (all [ends_with "Z" ts; eqs ts "2026-08-07T14:52:04Z"])).

Definition registers_dot_separated_method_names : bool := passes (
  p ← test_serve P;
  names ← names_of [p];
  Some (all [forallb (has names) ["platform.getHeight"; "platform.getTimestamp"; "platform.getBlock";
                                  "platform.getBlockByHeight"; "platform.getTx"; "platform.getTxStatus"];
             negb (existsb (starts_with "platform_") names)])).

(** The result of a call with these parameters, or [None] for an error. *)
Definition call_platform (c : ChainServe) (method : string) (params : Value) : option Value :=
  match platform_answer ref_rfc3339 c method (Some params) with Some (Ok v) => Some v | _ => None end.

Definition params_bind_by_name_in_the_upstream_dialect : bool := passes (
  c ← test_serve P; '(st, block_id) ← put_pblock 700 [rep 32 Byte.xa1] (cs_storage c);
  let c := with_storage st c in
  let call params := call_platform c "platform.getBlockByHeight" (json params) in
  by_id ← call_platform c "platform.getBlock" (VObject [str_field "blockID" block_id; str_field "encoding" "json"]);
  Some (all [forallb (fun params => match call params with Some v => eqs (idx ["block"; "height"] v) (num 700) | None => false end)
               ["{'height':700,'encoding':'json'}"; "{'height':'700','encoding':'json'}"; "{'encoding':'json','height':700}"];
             eqs (idx ["block"; "id"] by_id) (VString block_id);
             refused (call_platform c "platform.getBlock" (VObject [str_field "block_id" block_id]))])).

(** ** The suite *)

Definition platform_suite : list (string * bool) := [
  ("cb58_round_trips", cb58_round_trips);
  ("cb58_decodes_a_real_block_id", cb58_decodes_a_real_block_id);
  ("cb58_rejects_a_bad_checksum", cb58_rejects_a_bad_checksum);
  ("cb58_rejects_wrong_length_and_non_base58", cb58_rejects_wrong_length_and_non_base58);
  ("block_id_derives_from_the_bytes", block_id_derives_from_the_bytes);
  ("hex_appends_the_checksum_to_hexnc", hex_appends_the_checksum_to_hexnc);
  ("hexnc_round_trips_a_real_block", hexnc_round_trips_a_real_block);
  ("encoding_parses_every_accepted_spelling_and_defaults_to_hex", encoding_parses_every_accepted_spelling_and_defaults_to_hex);
  ("encoding_echoes_its_own_spelling", encoding_echoes_its_own_spelling);
  ("json_encoding_renders_no_bytes", json_encoding_renders_no_bytes);
  ("block_kind_reads_a_real_genesis_block", block_kind_reads_a_real_genesis_block);
  ("block_kind_covers_both_eras", block_kind_covers_both_eras);
  ("block_kind_tolerates_unknown_and_truncated", block_kind_tolerates_unknown_and_truncated);
  ("block_txs_reads_every_wire_shape", block_txs_reads_every_wire_shape);
  ("block_txs_includes_the_proposal_tx_alongside_txs", block_txs_includes_the_proposal_tx_alongside_txs);
  ("take_nth_tx_agrees_with_block_txs_on_the_union", take_nth_tx_agrees_with_block_txs_on_the_union);
  ("take_nth_tx_indexes_every_wire_shape", take_nth_tx_indexes_every_wire_shape);
  ("fresh_store_without_a_floor_anchors_at_the_tip", fresh_store_without_a_floor_anchors_at_the_tip);
  ("fresh_store_with_a_floor_starts_there_including_genesis", fresh_store_with_a_floor_starts_there_including_genesis);
  ("populated_store_walks_the_contiguous_frontier", populated_store_walks_the_contiguous_frontier);
  ("tx_ids_tolerate_missing_and_unparseable_entries", tx_ids_tolerate_missing_and_unparseable_entries);
  ("verify_accepts_a_consistent_pair", verify_accepts_a_consistent_pair);
  ("verify_refuses_halves_that_disagree", verify_refuses_halves_that_disagree);
  ("announce_publishes_the_block_and_the_whole_record", announce_publishes_the_block_and_the_whole_record);
  ("announce_is_a_noop_without_subscribers", announce_is_a_noop_without_subscribers);
  ("tx_ids_index_the_apricot_single_tx_shape", tx_ids_index_the_apricot_single_tx_shape);
  ("reward_proposal_yields_the_staking_tx", reward_proposal_yields_the_staking_tx);
  ("non_reward_proposals_are_not_mistaken_for_rewards", non_reward_proposals_are_not_mistaken_for_rewards);
  ("standard_and_resolution_blocks_hold_no_reward", standard_and_resolution_blocks_hold_no_reward);
  ("persist_record_refuses_malformed_or_inconsistent_records", persist_record_refuses_malformed_or_inconsistent_records);
  ("notification_payload_extracts_only_subscription_frames", notification_payload_extracts_only_subscription_frames);
  ("empty_store_defers_everything", empty_store_defers_everything);
  ("get_height_reports_the_contiguous_tip_as_a_string", get_height_reports_the_contiguous_tip_as_a_string);
  ("genesis_only_store_reports_height_zero", genesis_only_store_reports_height_zero);
  ("every_encoding_is_served_from_storage", every_encoding_is_served_from_storage);
  ("unheld_height_defers_but_a_bad_encoding_errors", unheld_height_defers_but_a_bad_encoding_errors);
  ("get_block_resolves_a_cb58_id", get_block_resolves_a_cb58_id);
  ("get_tx_slices_from_the_stored_block", get_tx_slices_from_the_stored_block);
  ("unknown_tx_defers_rather_than_guessing_status", unknown_tx_defers_rather_than_guessing_status);
  ("get_tx_byte_encodings_defer", get_tx_byte_encodings_defer);
  ("get_timestamp_renders_rfc3339_from_the_tip", get_timestamp_renders_rfc3339_from_the_tip);
  ("registers_dot_separated_method_names", registers_dot_separated_method_names);
  ("params_bind_by_name_in_the_upstream_dialect", params_bind_by_name_in_the_upstream_dialect)
].

(** The program's tests of its P-chain codec, ingestion, mirror and RPC all pass
    on the model, on real hashes and identifiers. *)
Theorem platform_tests_pass : Forall (fun t => t.2 = true) platform_suite.
Proof. apply Forall_fold_right. vm_compute. repeat split; reflexivity. Qed.
