(* ===== verification/TestsEth.v ===== *)
(** * The unit tests, run on the model: the C-chain

    The tests of src/eth/backfill.rs, src/eth/ingest.rs and src/eth/rpc.rs, as
    booleans over the definitions that model those files; see [TestsCore].  A
    request reaches the stand-in upstream of [Support] as the bytes of its body
    and is answered with the bytes that server writes; the upstream nothing
    listens on refuses every connection. *)

From Stdlib Require Import ZArith NArith Lia String Ascii.
From S2P Require Import Prelude Str Json ToyJson RefJson Chain Record Backing Storage StorageSpec Join Codec Upstream.
From S2P Require Import RefCodec Http EthFetch Progress Backfill Subscribe Serve EthRpc Support Server TestsCore TestsServe.

#[local] Open Scope string_scope.
#[local] Existing Instances MapStore MapDb RefJson Toy.ToyHex RefCodec.

(** ** src/eth/backfill.rs *)

(** Nothing listens: every request fails to send. *)
Definition Unreachable : Http :=
  {| World := unit; post _ _ w := (w, SendError); http_get _ w := (w, SendError) |}.

Definition test_cfg (rpc_url : string) (ingest_logs : bool) (logs_source : LogsSource) : IngestCfg :=
  {| cfg_chain := C; cfg_max_wait := 0; cfg_ws_idle_timeout := 0; cfg_ws_url := ""; cfg_rpc_url := rpc_url;
     cfg_poll_interval := 0; cfg_subscribe_blocks := false; cfg_backfill_inter_fetch := 0;
     cfg_fetch_concurrency := 1; cfg_backfill_floor := None; cfg_prefetch_delay_cap := 0;
     cfg_progress_period := from_secs 60; cfg_ingest_logs := ingest_logs; cfg_logs_source := logs_source |}.

Definition unreachable_cfg : IngestCfg := test_cfg "http://127.0.0.1:1" false GetLogs.

(** What a computation that is not parked comes back with, over a fresh connection. *)
Definition outcome {H : Http} {A} (w : World) (m : IO A) : option A :=
  match m {| net_world := w; net_trace := [] |} with (_, Done a) => Some a | (_, ParkedForever) => None end.

(** A tip read at [now] against the unreachable upstream. *)
Definition read_tip (now : N) (tip : TipCache) : option TipCache :=
  outcome (H := Unreachable) tt (tip_get (H := Unreachable) now now unreachable_cfg tip).

Definition tip_cache_refreshes_when_never_fetched : bool := passes (
  tip ← read_tip 0 tip_new;
  Some (all [eqs (tc_fetched tip_new) None; eqs (tc_height tip) 0%N; negb (eqs (tc_fetched tip) None)])).

Definition tip_cache_keeps_stale_value_when_refresh_fails : bool := passes (
  tip ← read_tip (TIP_TTL + from_secs 1) {| tc_height := 500; tc_fetched := Some 0%N |};
  Some (eqs (tc_height tip) 500%N)).

Definition tip_cache_serves_fresh_value_without_a_request : bool := passes (
  tip ← read_tip (from_millis 1) {| tc_height := 700; tc_fetched := Some 0%N |};
  Some (all [eqs (tc_height tip) 700%N; eqs (tc_fetched tip) (Some 0%N)])).

Definition tip_cache_is_bypassed_when_confirming_caught_up : bool := passes (
  tip ← outcome (H := Unreachable) tt
          (tip_get_uncached (H := Unreachable) (from_millis 1) unreachable_cfg
             {| tc_height := 900; tc_fetched := Some 0%N |});
  Some (all [eqs (tc_height tip) 900%N; negb (eqs (tc_fetched tip) (Some 0%N))])).

Definition cached_tip_suffices_until_the_frontier_reaches_what_is_known : bool :=
  let suffices hw cached_tip contiguous := (contiguous <? N.max hw cached_tip)%N in
  all [suffices 92570000 92570000 89700000; suffices 92570000 92570000 92569500;
       negb (suffices 92570000 92570000 92570000); suffices 89700000 92570000 89700000;
       negb (suffices 0 0 0)]%N.

Definition log_window_load_replaces_previous_contents : bool :=
  let w := load (json "[{'blockNumber': '0x10', 'logIndex': '0x0'}]") in
  let w' := load (json "[{'blockNumber': '0x20', 'logIndex': '0x0'}]") in
  all [eqs (serialized w 16).2 1%nat; eqs (serialized w' 32).2 1%nat; eqs (serialized w' 16) (raw "[]", 0%nat)].

Definition log_window_buckets_logs_by_height : bool :=
  let w := load (json "[ {'blockNumber': '0x10', 'logIndex': '0x0'}, {'blockNumber': '0x10', 'logIndex': '0x1'},
                         {'blockNumber': '0x12', 'logIndex': '0x0'} ]") in
  let '(h10, n10) := serialized w 16 in
  all [eqs n10 2%nat; eqs (array_len h10) (Some 2%nat); eqs (serialized w 17) (raw "[]", 0%nat);
       eqs (serialized w 18).2 1%nat].

Definition log_window_serialized_preserves_log_objects : bool := passes (
  let w := load (json "[{'blockNumber': '0x1', 'address': '0xabc'}]") in
  parsed ← from_slice (serialized w 1).1;
  logs ← as_array parsed;
  Some (eqs (logs !! 0%nat ≫= get_str "address") (Some "0xabc"))).

(** ** src/eth/ingest.rs *)

Definition TEST_CAP : N := from_millis 200.

Definition aimd_starts_at_zero_and_floors_at_zero : bool :=
  let a := aimd_new TEST_CAP in
  all [eqs (aimd_current a) 0%N; eqs (aimd_current (aimd_record true a)) 0%N].

Definition aimd_increases_on_empty_decreases_on_ok : bool :=
  let a1 := aimd_record false (aimd_new TEST_CAP) in
  let a2 := aimd_record false a1 in
  all [eqs (aimd_current a1) INC; eqs (aimd_current a2) (INC * 2)%N;
       eqs (aimd_current (aimd_record true a2)) (sat_sub (INC * 2) DEC)].

Definition aimd_clamps_at_cap : bool :=
  eqs (aimd_current (Nat.iter 1000 (aimd_record false) (aimd_new TEST_CAP))) TEST_CAP.

Definition aimd_zero_cap_stays_inert : bool :=
  eqs (aimd_current (Nat.iter 100 (aimd_record false) (aimd_new 0))) 0%N.

(** The source a probe settles on, and whether its reason mentions [needle]. *)
Definition falls_back (needle : string) (probe : LogsSource * option string) : bool :=
  eqs probe.1 GetLogs && match probe.2 with Some reason => Str.contains needle reason | None => false end.

Definition probe_falls_back_when_the_method_is_missing : bool :=
  falls_back "-32601" (classify_probe (json "{ 'jsonrpc': '2.0', 'id': 1,
    'error': {'code': -32601, 'message': 'the method eth_getBlockReceipts does not exist'} }")).

Definition probe_accepts_an_empty_receipts_array : bool :=
  eqs (classify_probe (json "{'jsonrpc': '2.0', 'id': 1, 'result': []}")) (Receipts, None).

Definition probe_accepts_a_populated_receipts_array : bool :=
  eqs (classify_probe (json "{'result': [{'logs': []}]}")).1 Receipts.

Definition probe_falls_back_on_unrecognized_shapes : bool :=
  forallb (fun body => falls_back "" (classify_probe body))
    [json "{'result': null}"; json "{'result': '0x1'}"; json "{'jsonrpc': '2.0', 'id': 1}"].

Definition receipts_flatten_to_getlogs_order : bool := passes (
  let receipts := json "[
    {'transactionIndex': '0x0', 'logs': [ {'logIndex': '0x0', 'address': '0xa'}, {'logIndex': '0x1', 'address': '0xb'} ]},
    {'transactionIndex': '0x1', 'logs': []},
    {'transactionIndex': '0x2', 'logs': [{'logIndex': '0x2', 'address': '0xc'}]} ]" in
  logs ← as_array (logs_from_receipts receipts);
  Some (eqs (omap (get_str "logIndex") logs) ["0x0"; "0x1"; "0x2"])).

Definition receipts_with_no_logs_flatten_to_empty : bool :=
  eqs (logs_from_receipts (json "[{'logs': []}, {'logs': []}]")) (VArray []).

Definition receipts_tolerate_missing_or_malformed_logs : bool :=
  forallb (fun receipts => eqs (logs_from_receipts receipts) (VArray []))
    [json "[{'status': '0x1'}]"; json "{'not': 'an array'}"; Null].

(** The stand-in server: the request's body after a head, its answer's body
    after the head it writes. *)
Definition MockRpc (responses : list (string * Value)) : Http := {|
  World := unit;
  post _ body w :=
    (w, match to_vec body with
        | Some b =>
            let answer := mock_answer responses (str_bytes ("POST / HTTP/1.1" ++ crlf2) ++ b)%list in
            Response 200 None (after_crlf2 (bytes_str answer) ≫= fun text => from_slice (str_bytes text))
        | None => SendError
        end);
  http_get _ w := (w, SendError)
|}.

Definition probe_cfg (url : string) (logs_source : LogsSource) : IngestCfg := test_cfg url true logs_source.

Definition mock_url : string := "http://127.0.0.1:8545".

(** The probe, then the fetch at height 0x10 with the source it should give. *)
Definition probe_then_fetch (responses : list (string * Value)) (source : LogsSource)
    : option ((LogsSource * option string) * option Value) :=
  let H := MockRpc responses in
  outcome (H := H) tt
    (let* probe := probe_logs_source (H := H) "send" "decode" mock_url in
     let* logs := fetch_logs_for_height (H := H) (probe_cfg mock_url source) 16 in
     io_ret (H := H) (probe, logs)).

Definition receipts_source_probes_and_fetches_end_to_end : bool := passes (
  '(probe, logs) ← probe_then_fetch
    [("eth_getBlockReceipts",
      json "[ {'transactionIndex': '0x0', 'logs': [{'logIndex': '0x0', 'address': '0xa'}]},
              {'transactionIndex': '0x1', 'logs': [{'logIndex': '0x1', 'address': '0xb'}]} ]")] Receipts;
  logs ← logs; ls ← as_array logs;
  Some (all [eqs probe.1 Receipts; eqs (length ls) 2%nat])).

Definition getlogs_fallback_probes_and_fetches_end_to_end : bool := passes (
  '(probe, logs) ← probe_then_fetch [("eth_getLogs", json "[{'logIndex': '0x0', 'address': '0xa'}]")] GetLogs;
  logs ← logs; ls ← as_array logs;
  Some (all [falls_back "-32601" probe; eqs (length ls) 1%nat])).

(** ** src/eth/rpc.rs *)

(** The array parameters of a subscription. *)
Definition kind (k : string) : Value := VArray [VString k].

Definition old_blocks (from : string) (to : option string) : Value :=
  VArray ([VString "oldBlocks"; VString from] ++ from_option (fun t => [VString t]) [] to)%list.

Definition ingesting_logs (b : bool) (c : ChainServe) : ChainServe :=
  {| cs_chain := cs_chain c; cs_storage := cs_storage c; cs_data_dir := cs_data_dir c; cs_identity := cs_identity c;
     cs_behind_tip := cs_behind_tip c; cs_join := cs_join c; cs_ingests_logs := b |}.

Definition joining (j : JoinBuffer) (c : ChainServe) : ChainServe :=
  {| cs_chain := cs_chain c; cs_storage := cs_storage c; cs_data_dir := cs_data_dir c; cs_identity := cs_identity c;
     cs_behind_tip := cs_behind_tip c; cs_join := Some j; cs_ingests_logs := cs_ingests_logs c |}.

Definition eth_service_with_logs (ingests_logs : bool) : option ChainServe :=
  ingesting_logs ingests_logs <$> test_serve C.

Definition eth_service : option ChainServe := eth_service_with_logs false.

Definition chain_id_comes_from_the_instance_identity : bool := passes (
  c ← eth_service;
  Some (all [ok_eq (chain_id (eth_new c)) "0xa86a"; eqs (parse_u64 C_IDENTITY) (Some 43114%N)])).

Definition read_block_value_falls_back_to_in_flight_buffer : bool := passes (
  c ← test_serve C;
  bytes ← to_vec (json "{ 'number': '0x64', 'transactions': [] }");
  '(buf, _) ← unwrap (on_block 0 100 (rep 32 Byte.x64) [] bytes) (Join.new (cs_storage c) 16);
  Some (all [is_none (get_by_height (cs_storage c) 100);
             is_none (read_block_value (eth_new c) 100);
             match read_block_value (eth_new (joining buf c)) 100 with
             | Ok (Some v) => eqs (get_str "number" v) (Some "0x64")
             | _ => false
             end])).

(** [log_filter(..)] and [get_logs]. *)
Definition get_logs_of (c : ChainServe) (filter : string) : option (result (option Value)) :=
  f ← de_filter (json filter); get_logs GETLOGS_TURNS (eth_new c) f.

Definition count_logs (c : ChainServe) (filter : string) : option nat :=
  match get_logs_of c filter with Some (Ok (Some v)) => length <$> as_array v | _ => None end.

Definition punts (c : ChainServe) (filter : string) : bool :=
  match get_logs_of c filter with Some (Ok None) => true | _ => false end.

Definition put_block_with_logs (h : N) (logs : Value) (st : Storage) : option Storage :=
  let block := VObject [("hash", VString ("0x" ++ hex_064 h)); ("number", VString (hex_quantity h));
                        ("transactions", VArray [])] in
  block_bytes ← to_vec block; logs_bytes ← to_vec logs;
  fst <$> unwrap (put h (test_hash h) [] [block_bytes; logs_bytes]) st.

(** The heights 1, 2 and 3, each with these logs. *)
Definition three_with_logs (logs : Value) (c : ChainServe) : option ChainServe :=
  st ← put_block_with_logs 1 logs (cs_storage c); st ← put_block_with_logs 2 logs st;
  st ← put_block_with_logs 3 logs st; Some (with_storage st c).

Definition get_logs_filters_range_address_and_topics : bool := passes (
  c ← eth_service_with_logs true;
  c ← three_with_logs (json "[ {'address': '0xAAA', 'topics': ['0x01', '0x02']}, {'address': '0xBBB', 'topics': ['0x09']} ]") c;
  Some (all [eqs (count_logs c "{'fromBlock': '0x1', 'toBlock': '0x3'}") (Some 6%nat);
             eqs (count_logs c "{'fromBlock': '0x1', 'toBlock': '0x3', 'address': '0xaaa'}") (Some 3%nat);
             eqs (count_logs c "{'fromBlock': '0x1', 'toBlock': '0x3', 'topics': ['0x09']}") (Some 3%nat);
             eqs (count_logs c ("{'blockHash': '0x" ++ hex_064 2 ++ "'}")) (Some 2%nat)])).

Definition get_logs_punts_out_of_range_and_rejects_oversized : bool := passes (
  c ← eth_service_with_logs true;
  c ← three_with_logs (VArray []) c;
  oversized ← get_logs_of c "{'fromBlock': '0x1', 'toBlock': '0x901'}";
  Some (all [punts c "{'fromBlock': '0x1', 'toBlock': '0x9'}"; is_err oversized])).

Definition get_logs_refuses_when_logs_are_not_ingested : bool := passes (
  c ← test_serve C;
  c ← three_with_logs (VArray []) c;
  answered ← get_logs_of (ingesting_logs true c) "{'fromBlock': '0x1', 'toBlock': '0x3'}";
  Some (all [punts (ingesting_logs false c) "{'fromBlock': '0x1', 'toBlock': '0x3'}"; is_some answered])).

Definition sample_block : Value :=
  json "{ 'hash': '0xaa', 'number': '0x1',
          'transactions': [ {'hash': '0x11', 'from': '0xaaa'}, {'hash': '0x22', 'from': '0xbbb'},
                            {'hash': '0x33', 'from': '0xccc'} ] }".

Definition tx_count_hex_counts_array_len : bool :=
  all [eqs (tx_count_hex sample_block) "0x3"; eqs (tx_count_hex (json "{'transactions': []}")) "0x0";
       eqs (tx_count_hex (VObject [])) "0x0";
       eqs (tx_count_hex (VObject [("transactions", VArray (replicate 16 (json "{'hash': '0x0'}")))])) "0x10"].

Definition nth_transaction_in_range_returns_tx : bool :=
  eqs (nth_transaction sample_block 1 ≫= get_str "hash") (Some "0x22").

Definition nth_transaction_out_of_range_returns_none : bool := eqs (nth_transaction sample_block 3) None.

Definition nth_transaction_missing_field_returns_none : bool := eqs (nth_transaction (VObject []) 0) None.

Definition shaped_txs (full_tx : bool) : list Value := default [] (get_array "transactions" (shape_block sample_block full_tx)).

Definition is_object (v : Value) : bool := match v with VObject _ => true | _ => false end.

Definition shape_block_full_tx_keeps_objects : bool := passes (
  tx ← shaped_txs true !! 0%nat;
  Some (all [is_object tx; eqs (get_str "hash" tx) (Some "0x11")])).

Definition shape_block_no_full_tx_collapses_to_hashes : bool :=
  eqs (shaped_txs false) [VString "0x11"; VString "0x22"; VString "0x33"].

Definition shape_block_preserves_other_fields : bool :=
  let shaped := shape_block sample_block false in
  all [eqs (get_str "hash" shaped) (Some "0xaa"); eqs (get_str "number" shaped) (Some "0x1")].

(** [subscribe_unbounded] on the module of [c], whose live channel yields [events]. *)
Definition subscribe_to (c : ChainServe) (events : list Recv) (params : Value) : SubOutcome :=
  eth_sub 16 (fun _ => cs_storage c) events (Some params).

Definition refused_sub (o : SubOutcome) : bool := match o with Rejected _ => true | _ => false end.

Definition subscription_rejects_others_strips_heads_keeps_blocks : bool := passes (
  c ← eth_service;
  let update := {| lu_block := json "{ 'number': '0x1', 'hash': '0xaa', 'transactions': [{'hash': '0x11'}, {'hash': '0x22'}] }";
                   lu_record := None |} in
  let next k := match subscribe_to c [RUpdate update true] (kind k) with LiveStream (v :: _) => Some v | _ => None end in
  h ← next "newHeads"; b ← next "newBlocks";
  Some (all [refused_sub (subscribe_to c [] (kind "logs")); refused_sub (subscribe_to c [] (kind "newRecords"));
             eqs (get_str "number" h) (Some "0x1"); eqs (get_str "hash" h) (Some "0xaa");
             eqs (get "transactions" h) None;
             eqs (get_str "number" b) (Some "0x1"); eqs (length <$> get_array "transactions" b) (Some 2%nat)])).

(** The blocks a replay delivers, and that it then ends. *)
Definition streams (o : SubOutcome) (numbers : list string) : bool :=
  match o with
  | Streamed msgs true =>
      match mapM from_slice msgs with
      | Some blocks => eqs (map (get_str "number") blocks) (map Some numbers) &&
                       forallb (fun b => match get "transactions" b with Some (VArray _) => true | _ => false end) blocks
      | None => false
      end
  | _ => false
  end.

Definition old_blocks_streams_finite_range_then_completes : bool := passes (
  c ← serve_with C [10; 11; 12]%N;
  Some (streams (subscribe_to c [] (old_blocks "0xa" (Some "0xc"))) ["0xa"; "0xb"; "0xc"])).

Definition old_blocks_open_ended_streams_to_contiguous_tip : bool := passes (
  c ← serve_with C [10; 11; 12]%N;
  Some (streams (subscribe_to c [] (old_blocks "0xa" None)) ["0xa"; "0xb"; "0xc"])).

Definition old_blocks_rejects_unsatisfiable_ranges : bool := passes (
  c ← serve_with C [10; 11; 12]%N;
  Some (forallb (fun params => refused_sub (subscribe_to c [] params))
          [old_blocks "0x9" (Some "0xc"); old_blocks "0xa" (Some "0xd"); old_blocks "0xc" (Some "0xa");
           kind "oldBlocks"])).

(** ** The suite *)

Definition eth_suite : list (string * bool) := [
  ("tip_cache_refreshes_when_never_fetched", tip_cache_refreshes_when_never_fetched);
  ("tip_cache_keeps_stale_value_when_refresh_fails", tip_cache_keeps_stale_value_when_refresh_fails);
  ("tip_cache_serves_fresh_value_without_a_request", tip_cache_serves_fresh_value_without_a_request);
  ("tip_cache_is_bypassed_when_confirming_caught_up", tip_cache_is_bypassed_when_confirming_caught_up);
  ("cached_tip_suffices_until_the_frontier_reaches_what_is_known", cached_tip_suffices_until_the_frontier_reaches_what_is_known);
  ("log_window_load_replaces_previous_contents", log_window_load_replaces_previous_contents);
  ("log_window_buckets_logs_by_height", log_window_buckets_logs_by_height);
  ("log_window_serialized_preserves_log_objects", log_window_serialized_preserves_log_objects);
  ("aimd_starts_at_zero_and_floors_at_zero", aimd_starts_at_zero_and_floors_at_zero);
  ("aimd_increases_on_empty_decreases_on_ok", aimd_increases_on_empty_decreases_on_ok);
  ("aimd_clamps_at_cap", aimd_clamps_at_cap);
  ("aimd_zero_cap_stays_inert", aimd_zero_cap_stays_inert);
  ("probe_falls_back_when_the_method_is_missing", probe_falls_back_when_the_method_is_missing);
  ("probe_accepts_an_empty_receipts_array", probe_accepts_an_empty_receipts_array);
  ("probe_accepts_a_populated_receipts_array", probe_accepts_a_populated_receipts_array);
  ("probe_falls_back_on_unrecognized_shapes", probe_falls_back_on_unrecognized_shapes);
  ("receipts_flatten_to_getlogs_order", receipts_flatten_to_getlogs_order);
  ("receipts_with_no_logs_flatten_to_empty", receipts_with_no_logs_flatten_to_empty);
  ("receipts_tolerate_missing_or_malformed_logs", receipts_tolerate_missing_or_malformed_logs);
  ("receipts_source_probes_and_fetches_end_to_end", receipts_source_probes_and_fetches_end_to_end);
  ("getlogs_fallback_probes_and_fetches_end_to_end", getlogs_fallback_probes_and_fetches_end_to_end);
  ("chain_id_comes_from_the_instance_identity", chain_id_comes_from_the_instance_identity);
  ("read_block_value_falls_back_to_in_flight_buffer", read_block_value_falls_back_to_in_flight_buffer);
  ("get_logs_filters_range_address_and_topics", get_logs_filters_range_address_and_topics);
  ("get_logs_punts_out_of_range_and_rejects_oversized", get_logs_punts_out_of_range_and_rejects_oversized);
  ("get_logs_refuses_when_logs_are_not_ingested", get_logs_refuses_when_logs_are_not_ingested);
  ("tx_count_hex_counts_array_len", tx_count_hex_counts_array_len);
  ("nth_transaction_in_range_returns_tx", nth_transaction_in_range_returns_tx);
  ("nth_transaction_out_of_range_returns_none", nth_transaction_out_of_range_returns_none);
  ("nth_transaction_missing_field_returns_none", nth_transaction_missing_field_returns_none);
  ("shape_block_full_tx_keeps_objects", shape_block_full_tx_keeps_objects);
  ("shape_block_no_full_tx_collapses_to_hashes", shape_block_no_full_tx_collapses_to_hashes);
  ("shape_block_preserves_other_fields", shape_block_preserves_other_fields);
  ("subscription_rejects_others_strips_heads_keeps_blocks", subscription_rejects_others_strips_heads_keeps_blocks);
  ("old_blocks_streams_finite_range_then_completes", old_blocks_streams_finite_range_then_completes);
  ("old_blocks_open_ended_streams_to_contiguous_tip", old_blocks_open_ended_streams_to_contiguous_tip);
  ("old_blocks_rejects_unsatisfiable_ranges", old_blocks_rejects_unsatisfiable_ranges)
].

(** The program's tests of its C-chain backfill, live ingestion and RPC all pass
    on the model. *)
Theorem eth_tests_pass : Forall (fun t => t.2 = true) eth_suite.
Proof. apply Forall_fold_right. vm_compute. repeat split; reflexivity. Qed.
