(* ===== verification/RefConfig.v ===== *)
(** * A reference configuration library

    An executable [ConfigLib]: documents with table headers, dotted keys,
    comments, strings, integers, decimals and booleans, one entry a line, and
    their pretty form; durations that are a sequence of numbers with units;
    socket addresses that are an IPv4 address and a port.  It is what the
    configuration tests are run with.  Arrays, inline tables, dates and texts
    over several lines are not read; a number with a fraction is read and not
    printed. *)

From Stdlib Require Import ZArith NArith Lia String Ascii SpecFloat.
From S2P Require Import Prelude Str Upstream Float64 Toml Config.

#[local] Open Scope string_scope.

Definition dquote : ascii := ascii_of_N 34.
Definition backslash : ascii := ascii_of_N 92.
Definition linefeed : ascii := ascii_of_N 10.

(** A text in which a character stands for the double quote. *)
Fixpoint quoting (c : ascii) (s : string) : string :=
  match s with
  | EmptyString => ""
  | String a s => String (if Ascii.eqb a c then dquote else a) (quoting c s)
  end.

(** [str::lines] *)
Definition lines (s : string) : list string :=
  match reverse (Str.split linefeed s) with
  | "" :: rest => reverse rest
  | _ => Str.split linefeed s
  end.

(** ** Scalars *)

(** After the opening quote: the text, and what follows the closing one. *)
Fixpoint basic_string (s acc : string) : option (string * string) :=
  match s with
  | EmptyString => None
  | String c s =>
      if Ascii.eqb c dquote then Some (acc, s)
      else if Ascii.eqb c backslash then
        match s with
        | String "n" s => basic_string s (acc ++ String linefeed "")
        | String "t" s => basic_string s (acc ++ String (ascii_of_N 9) "")
        | String e s => if Ascii.eqb e dquote || Ascii.eqb e backslash then basic_string s (acc ++ String e "") else None
        | EmptyString => None
        end
      else basic_string s (acc ++ String c "")
  end.

(** [text] is the value of [digits], and how many there were. *)
Fixpoint decimal_digits (s : string) (n : N) (len : nat) : N * nat * string :=
  match s with
  | EmptyString => (n, len, s)
  | String c s' =>
      match digit_value 10 c with
      | Some d => decimal_digits s' (n * 10 + d)%N (S len)
      | None => (n, len, s)
      end
  end.

(** An integer, or a decimal with digits on both sides of the point. *)
Definition number (s : string) : option (TValue * string) :=
  let '(neg, s) := match strip_prefix "-" s with Some s => (true, s) | None => (false, s) end in
  let signed (n : N) := (if neg then - Z.of_N n else Z.of_N n)%Z in
  match decimal_digits s 0 0 with
  | (_, O, _) => None
  | (n, S _, String "." frac) =>
      match decimal_digits frac n 0 with
      | (_, O, _) => None
      | (m, k, rest) => Some (TFloat (f64_div (f64_of_Z (signed m)) (f64_of_Z (10 ^ Z.of_nat k))), rest)
      end
  | (n, S _, rest) => if is_i64 (signed n) then Some (TInteger (signed n), rest) else None
  end.

Definition scalar (s : string) : option (TValue * string) :=
  match s with
  | EmptyString => None
  | String c rest =>
      if Ascii.eqb c dquote then (fun p => (TString p.1, p.2)) <$> basic_string rest ""
      else match strip_prefix "true" s with
           | Some rest => Some (TBoolean true, rest)
           | None => match strip_prefix "false" s with
                     | Some rest => Some (TBoolean false, rest)
                     | None => number s
                     end
           end
  end.

(** Nothing but a comment. *)
Definition blank (s : string) : bool :=
  match trim_start s with EmptyString => true | String c _ => Ascii.eqb c "#" end.

(** ** Documents *)

Definition bare_char (c : ascii) : bool :=
  match alnum_value c with Some _ => true | None => Ascii.eqb c "_" || Ascii.eqb c "-" end.

Fixpoint bare (s : string) : bool := match s with EmptyString => true | String c s => bare_char c && bare s end.

(** A dotted key: bare pieces, none empty. *)
Definition dotted (s : string) : option (list string) :=
  let path := map trim (Str.split "." s) in
  if forallb (fun k => bare k && negb (String.eqb k "")) path then Some path else None.

(** The document so far, the table the entries go to, the headers seen. *)
Record Reading : Type := { rd_table : Table; rd_at : list string; rd_headers : list (list string) }.

Definition header_line (s : string) (r : Reading) : option Reading :=
  '(name, rest) ← split_once "]" s;
  path ← dotted name;
  if negb (blank rest) || bool_decide (path ∈ rd_headers r) then None
  else match get_path path (TTable (rd_table r)) with
       | Some (TTable _) => Some {| rd_table := rd_table r; rd_at := path; rd_headers := path :: rd_headers r |}
       | Some _ => None
       | None => match set_path path (TTable []) (rd_table r) with
                 | Ok t => Some {| rd_table := t; rd_at := path; rd_headers := path :: rd_headers r |}
                 | Err _ => None
                 end
       end.

Definition entry_line (s : string) (r : Reading) : option Reading :=
  '(k, v) ← split_once "=" s;
  key ← dotted k;
  '(value, rest) ← scalar (trim_start v);
  let path := (rd_at r ++ key)%list in
  match blank rest, get_path path (TTable (rd_table r)), set_path path value (rd_table r) with
  | true, None, Ok t => Some {| rd_table := t; rd_at := rd_at r; rd_headers := rd_headers r |}
  | _, _, _ => None
  end.

Definition read_line (r : Reading) (line : string) : option Reading :=
  if blank line then Some r
  else match strip_prefix "[" (trim_start line) with
       | Some s => header_line s r
       | None => entry_line line r
       end.

Definition ref_toml (text : string) : option Table :=
  rd_table <$> foldl (fun acc line => r ← acc; read_line r line)
                 (Some {| rd_table := []; rd_at := []; rd_headers := [] |}) (lines text).

(** ** The pretty form *)

Fixpoint escape (s : string) : string :=
  match s with
  | EmptyString => ""
  | String c s =>
      (if Ascii.eqb c dquote || Ascii.eqb c backslash then String backslash (String c "")
       else if Ascii.eqb c linefeed then String backslash "n" else String c "") ++ escape s
  end.

Definition show_Z (z : Z) : string :=
  if (z <? 0)%Z then "-" ++ to_decimal (Z.to_N (- z)) else to_decimal (Z.to_N z).

(** A whole number, with its [.0]. *)
Definition show_f64 (x : f64) : option string :=
  match x with
  | S754_zero _ => Some "0.0"
  | S754_finite sign m e =>
      let z := if sign then Z.neg m else Z.pos m in
      if (0 <=? e)%Z then Some (show_Z (z * 2 ^ e) ++ ".0")
      else if (z mod 2 ^ (- e) =? 0)%Z then Some (show_Z (z / 2 ^ (- e)) ++ ".0") else None
  | _ => None
  end.

Definition show_entry (v : TValue) : option string :=
  match v with
  | TString s => Some (String dquote "" ++ escape s ++ String dquote "")
  | TInteger z => Some (show_Z z)
  | TFloat x => show_f64 x
  | TBoolean b => Some (if b then "true" else "false")
  | _ => None
  end.

Definition nl : string := String linefeed "".

(** The entries of a table, then its tables, each under its header; a table of
    tables has none. *)
Fixpoint show_table (fuel : nat) (at_ : list string) (t : Table) : option string :=
  match fuel with
  | O => None
  | S fuel =>
      let '(subs, entries) := List.partition (fun kv => match kv.2 with TTable _ => true | _ => false end) t in
      texts ← mapM (fun kv => v ← show_entry kv.2; Some (kv.1 ++ " = " ++ v ++ nl)) entries;
      tables ← mapM (fun kv => sub ← as_table kv.2; show_table fuel (at_ ++ [kv.1])%list sub) subs;
      let header := match at_, entries, subs with
                    | [], _, _ => ""
                    | _, [], _ :: _ => ""
                    | _, _, _ => nl ++ "[" ++ String.concat "." at_ ++ "]" ++ nl
                    end in
      Some (header ++ String.concat "" texts ++ String.concat "" tables)
  end.

(** ** Durations *)

Definition DURATION_UNITS : list (string * N) :=
  let with_names (d : N) (names : list string) := map (fun u => (u, d)) names in
  (with_names 1 ["ns"; "nanos"] ++ with_names 1000 ["us"; "micros"] ++ with_names 1000000 ["ms"; "millis"]
   ++ with_names nanos ["s"; "sec"; "secs"; "second"; "seconds"]
   ++ with_names (60 * nanos) ["m"; "min"; "mins"; "minute"; "minutes"]
   ++ with_names (3600 * nanos) ["h"; "hr"; "hrs"; "hour"; "hours"]
   ++ with_names (86400 * nanos) ["d"; "day"; "days"])%N%list.

(** The letters in front, and the rest. *)
Fixpoint word (s : string) : string * string :=
  match s with
  | EmptyString => ("", s)
  | String c s' =>
      match alnum_value c, digit_value 10 c with
      | Some _, None => let '(w, rest) := word s' in (String c w, rest)
      | _, _ => ("", s)
      end
  end.

Fixpoint units (fuel : nat) (s : string) (acc : N) : option N :=
  match fuel, trim_start s with
  | _, EmptyString => Some acc
  | O, _ => None
  | S fuel, s =>
      match decimal_digits s 0 0 with
      | (_, O, _) => None
      | (n, S _, rest) => let '(u, rest) := word (trim_start rest) in
                          d ← assoc u DURATION_UNITS; units fuel rest (acc + n * d)%N
      end
  end.

Definition ref_duration (s : string) : option N :=
  if String.eqb (trim s) "" then None else units (String.length s) s 0.

(** ** Socket addresses *)

Definition ref_socket (s : string) : option string :=
  '(ip, port) ← split_once ":" s;
  octets ← mapM (from_str_radix 255 10) (Str.split "." ip);
  _ ← from_str_radix 65535 10 port;
  if (length octets =? 4)%nat then Some s else None.

Definition RefConfig : ConfigLib := {|
  toml_parse := ref_toml;
  toml_pretty := show_table 8 [];
  parse_duration := ref_duration;
  SocketAddr := string;
  socket_parse := ref_socket;
  socket_show a := a;
  socket_default := "127.0.0.1:8545"
|}.

(** ** Vectors *)

Example ref_toml_reads :
  ref_toml (quoting "'" ("a = 1 # one" ++ nl ++ "[t.u]" ++ nl ++ "s = 'x y'" ++ nl ++ "f = -2.5" ++ nl))
  = Some [("a", TInteger 1);
          ("t", TTable [("u", TTable [("f", TFloat (f64_div (f64_of_Z (-5)) (f64_of_Z 2))); ("s", TString "x y")])])].
Proof. vm_compute. reflexivity. Qed.

Example ref_toml_refuses_duplicates :
  map ref_toml ["a = 1" ++ nl ++ "a = 2"; "[t]" ++ nl ++ "[t]"; "a = 1 2"; "a ="; "= 1"] = [None; None; None; None; None].
Proof. vm_compute. reflexivity. Qed.

Example ref_durations :
  map ref_duration ["1h2m50ms"; "1m 30s"; "90 fortnights"; "40ms"; ""]
  = [Some 3720050000000; Some 90000000000; None; Some 40000000; None]%N.
Proof. vm_compute. reflexivity. Qed.
