(* ===== verification/TestsConfig.v ===== *)
(** * The unit tests, run on the model: configuration

    The tests of src/config.rs, as booleans over the definitions that model it,
    on the reference configuration library; see [TestsCore].  The arguments are
    read by [cli], which does for the options these tests use what the derived
    parser does: a long option for each field, with its value after it.  A
    pattern on an error or a notice stands for the assertion on its text. *)

From Stdlib Require Import ZArith NArith Lia String Ascii SpecFloat.
From S2P Require Import Prelude Str Chain Upstream Float64 Http Toml Config ConfigLayers ConfigResolve ConfigDebug.
From S2P Require Import RefConfig ExampleConfig Storage Conn TestsCore.

#[local] Open Scope string_scope.
#[local] Existing Instance RefConfig.

#[local] Instance f64_eq_dec : EqDecision f64.
Proof. solve_decision. Defined.
#[local] Instance LogLevel_eq_dec : EqDecision LogLevel.
Proof. solve_decision. Defined.
#[local] Instance PrintMode_eq_dec : EqDecision PrintMode.
Proof. solve_decision. Defined.

(** ** The command line *)

Definition BARE : list string := ["--ingest-logs"; "--print-config"; "--print-config-example"].

(** The options in order, each with its value. *)
Fixpoint options (args : list string) : option (list (string * string)) :=
  match args with
  | [] => Some []
  | o :: args' =>
      if bool_decide (o ∈ BARE) then cons (o, "") <$> options args'
      else if starts_with "--" o then match args' with v :: args' => cons (o, v) <$> options args' | [] => None end
      else None
  end.

Section Options.
Context (os : list (string * string)).

Definition values (o : string) : list string := omap (fun ov => if String.eqb ov.1 o then Some ov.2 else None) os.

(** An option given at most once, whose value parses. *)
Definition single {A} (parse : string -> option A) (o : string) : option (option A) :=
  match values o with [] => Some None | [v] => Some <$> parse v | _ => None end.

Definition given (o : string) : bool := match values o with [] => false | _ => true end.

Definition parse_options : option Cli :=
  let text := single Some in
  let number (max : N) := single (from_str_radix max 10) in
  config ← text "--config";
  network ← single (fun s => assoc s [("mainnet", Mainnet); ("testnet", Testnet)]) "--network";
  data_dir ← text "--data-dir"; rpc_addr ← single socket_parse "--rpc-addr";
  chains ← mapM (fun s => assoc s [("c", C); ("p", P)]) (mjoin (map (Str.split ",") (values "--chains")));
  mirror_from ← text "--mirror-from"; stop_time ← single parse_human_duration "--stop-time";
  log_level ← single (fun s => assoc s [("trace", Trace); ("debug", Debug); ("info", Info); ("warn", Warn);
                                        ("error", Error)]) "--log-level";
  ws_url ← text "--ws-url"; rpc_url ← text "--rpc-url"; p_rpc_url ← text "--p-rpc-url";
  p_poll_interval ← text "--p-poll-interval"; request_interval ← text "--request-interval";
  p_request_interval ← text "--p-request-interval"; p_concurrency ← number u64_max "--p-concurrency";
  p_data_dir ← text "--p-data-dir"; backfill_floor ← number u64_max "--backfill-floor";
  p_backfill_floor ← number u64_max "--p-backfill-floor"; max_wait ← text "--max-wait";
  ws_idle_timeout ← text "--ws-idle-timeout"; prefetch_delay_cap ← text "--prefetch-delay-cap";
  idle_timeout ← text "--idle-timeout"; max_connections ← number u32_max "--max-connections";
  max_blocks ← number u64_max "--max-blocks-per-request"; summary_period ← text "--summary-period";
  join_buffer_cap ← number u64_max "--join-buffer-cap";
  if given "--print-config" && given "--print-config-example" then None else
  Some {| cli_config := config; cli_network := network; cli_data_dir := data_dir; cli_rpc_addr := rpc_addr;
          cli_chains := chains; cli_mirror_from := mirror_from; cli_stop_time := stop_time;
          cli_log_level := log_level; cli_ingest_logs := given "--ingest-logs"; cli_set := values "--set";
          cli_print_config := given "--print-config"; cli_print_config_example := given "--print-config-example";
          cli_ws_url := ws_url; cli_rpc_url := rpc_url; cli_p_rpc_url := p_rpc_url;
          cli_p_poll_interval := p_poll_interval; cli_request_interval := request_interval;
          cli_p_request_interval := p_request_interval; cli_p_concurrency := p_concurrency;
          cli_p_data_dir := p_data_dir; cli_backfill_floor := backfill_floor;
          cli_p_backfill_floor := p_backfill_floor; cli_max_wait := max_wait;
          cli_ws_idle_timeout := ws_idle_timeout; cli_prefetch_delay_cap := prefetch_delay_cap;
          cli_idle_timeout := idle_timeout; cli_max_connections := max_connections;
          cli_max_blocks_per_request := max_blocks; cli_summary_period := summary_period;
          cli_join_buffer_cap := join_buffer_cap |}.

End Options.

Definition cli (args : list string) : option Cli := options args ≫= parse_options.

(** ** Resolving *)

(** The files there are. *)
Definition files (fs : list (PathBuf * string)) : Files :=
  {| file_exists p := match assoc p fs with Some _ => true | None => false end; read_to_string p := assoc p fs |}.

(** [resolve_env]: a synthetic environment, no implicit configuration file. *)
Definition resolve_in (fs : list (PathBuf * string)) (args : list string) (vars : list (string * string))
    : result Resolved :=
  match cli args with
  | Some cli => resolve_with (files fs) cli {| env_vars := vars; env_default_config := None |}
  | None => Err EPanic
  end.

Definition resolve_env : list string -> list (string * string) -> result Resolved := resolve_in [].

Definition ok {A} (r : result A) : option A := match r with Ok a => Some a | Err _ => None end.

Definition resolve (args : list string) : option Resolved := ok (resolve_env args []).

Definition config_path : PathBuf := "/tmp/neve-config-1-0-0/config.toml".

Definition resolve_file_env (text : string) (args : list string) (vars : list (string * string)) : result Resolved :=
  resolve_in [(config_path, text)] ("--config" :: config_path :: args) vars.

Definition resolve_file (text : string) (args : list string) : result Resolved := resolve_file_env text args [].

(** Lines of a file, an apostrophe standing for the double quote. *)
Definition text_of (ls : list string) : string := String.concat "" (map (fun l => quoting "'" l ++ nl) ls).

Definition c (r : Resolved) : option ChainCfg := chain_get C (rs_chains r).
Definition p (r : Resolved) : option ChainCfg := chain_get P (rs_chains r).

Definition keys (r : Resolved) : list Chain := (rs_chains r).*1.
Definition cfgs (r : Resolved) : list ChainCfg := (rs_chains r).*2.

(** A key of the C-chain, or of the P-chain. *)
Definition c_is {A} `{EqDecision A} (r : Resolved) (get : ChainCfg -> A) (x : A) : bool := eqs (get <$> c r) (Some x).
Definition p_is {A} `{EqDecision A} (r : Resolved) (get : ChainCfg -> A) (x : A) : bool := eqs (get <$> p r) (Some x).

(** ** Defaults *)

Definition no_configuration_enables_both_chains : bool := passes (
  r ← resolve [];
  Some (all [eqs (keys r) [C; P]; eqs (rs_network r) Mainnet; eqs (rs_log_level r) Info;
             String.eqb (socket_show (srv_addr (rs_server r))) "127.0.0.1:8545";
             eqs (srv_max_connections (rs_server r)) 1024%N;
             eqs (srv_idle_timeout (rs_server r)) (Some (from_secs 60));
             eqs (srv_max_blocks_per_request (rs_server r)) 10000%N])).

Definition builtin_per_chain_defaults : bool := passes (
  r ← resolve [];
  Some (all [c_is r cc_request_interval (from_millis 40); p_is r cc_request_interval (from_millis 200);
             c_is r cc_backfill_floor None; p_is r cc_backfill_floor (Some 0%N);
             forallb (fun cfg => all [eqs (cc_max_wait cfg) (from_secs (65 * 60)); eqs (cc_ws_idle_timeout cfg) (from_secs 120);
                                      eqs (cc_summary_period cfg) (from_secs 300); eqs (cc_prefetch_delay_cap cfg) 0%N;
                                      negb (cc_ingest_logs cfg); eqs (cc_join_buffer_cap cfg) 8192%N;
                                      eqs (cc_poll_interval cfg) (from_secs 1); eqs (cc_concurrency cfg) 8%N;
                                      negb (cc_subscribe_blocks cfg)]) (cfgs r)])).

(** ** Precedence *)

Definition precedence_runs_builtin_defaults_chain_env_flag_set : bool := passes (
  let file := text_of ["[chains.c]"; "rpc_url = 'http://from-file'"; "[chains.p]"] in
  let env := [("NEVE_RPC_URL", "http://from-env")] in
  builtin ← resolve [];
  defaults ← ok (resolve_file (text_of ["[defaults]"; "summary_period = '1m'"]) []);
  chain ← ok (resolve_file (text_of ["[defaults]"; "summary_period = '1m'"; "[chains.c]"; "[chains.p]";
                                     "summary_period = '2m'"]) []);
  by_env ← ok (resolve_file_env file [] env);
  by_flag ← ok (resolve_file_env file ["--rpc-url"; "http://from-flag"] env);
  by_set ← ok (resolve_file_env file ["--rpc-url"; "http://from-flag"; "--set"; "chains.c.rpc_url=http://from-set"] env);
  Some (all [c_is builtin cc_summary_period (from_secs 300);
             c_is defaults cc_summary_period (from_secs 60); p_is defaults cc_summary_period (from_secs 60);
             c_is chain cc_summary_period (from_secs 60); p_is chain cc_summary_period (from_secs 120);
             c_is by_env cc_rpc_url "http://from-env"; c_is by_flag cc_rpc_url "http://from-flag";
             c_is by_set cc_rpc_url "http://from-set"])).

Definition warnings (r : Resolved) : list NoticeText :=
  omap (fun n => match n with NWarn m => Some m | NInfo _ => None end) (rs_notices r).

Definition deprecated_inputs_warn_once : bool := passes (
  r ← ok (resolve_env ["--p-request-interval"; "0"] [("NEVE_P_RPC_URL", "http://p.local")]);
  Some (all [p_is r cc_request_interval 0%N; p_is r cc_rpc_url "http://p.local";
             eqs (length (warnings r)) 2%nat;
             existsb (fun m => match m with DeprecatedVar v _ => String.eqb v "NEVE_P_RPC_URL" | _ => false end) (warnings r);
             existsb (fun m => match m with
                               | DeprecatedFlag f s => String.eqb f "--p-request-interval" && contains "request_interval" s
                               | _ => false end) (warnings r)])).

(** ** [--set] *)

Definition set_reaches_a_nested_key_and_creates_missing_tables : bool := passes (
  r ← resolve ["--set"; "chains.p.concurrency=32"];
  s ← resolve ["--set"; "server.max_connections=4096"];
  Some (all [p_is r cc_concurrency 32%N; eqs (srv_max_connections (rs_server s)) 4096%N])).

(** The error's context mentions [needle]. *)
Definition names (needle : string) (r : result Resolved) : bool :=
  match r with Err (EAt origin _) => contains needle origin | _ => false end.

Definition set_with_an_unknown_key_is_an_error_naming_it : bool :=
  all [names "chains.p.concurency=32" (resolve_env ["--set"; "chains.p.concurency=32"] []);
       names "upstreem.base=http://h" (resolve_env ["--set"; "upstreem.base=http://h"] []);
       match resolve_env ["--set"; "chains.x.rpc_url=http://h"] [] with Err (EAt _ EConfigInvalid) => true | _ => false end].

Definition is_string (s : string) (v : TValue) : bool := match v with TString t => String.eqb s t | _ => false end.

Definition set_values_parse_as_toml_then_fall_back_to_strings : bool :=
  all [match parse_scalar "12" with TInteger z => eqs z 12%Z | _ => false end;
       match parse_scalar "true" with TBoolean b => b | _ => false end;
       is_string "12" (parse_scalar (quoting "'" "'12'"));
       is_string "http://h:8545" (parse_scalar "http://h:8545");
       is_string "40ms" (parse_scalar "40ms"); is_string "tip" (parse_scalar "tip")].

Definition set_without_an_equals_sign_is_rejected : bool :=
  match resolve_env ["--set"; "network"] [] with Err ESetSyntax => true | _ => false end.

(** ** Scalar shapes *)

Definition invalid (r : result Resolved) : bool := match r with Err EConfigInvalid => true | _ => false end.

Definition durations_accept_a_string_or_a_bare_integer : bool :=
  let period (v : string) (d : N) :=
    match resolve_file (text_of ["[defaults]"; "summary_period = " ++ v]) [] with
    | Ok r => c_is r cc_summary_period d | Err _ => false end in
  all [period "90" (from_secs 90); period "'90s'" (from_secs 90); period "'1m 30s'" (from_secs 90);
       period "'1h2m50ms'" (from_secs 3720 + from_millis 50)%N;
       invalid (resolve_file (text_of ["[defaults]"; "summary_period = '90 fortnights'"]) [])].

Definition backfill_floor_accepts_an_integer_or_tip : bool := passes (
  at_height ← ok (resolve_file (text_of ["[chains.c]"; "backfill_floor = 12345"]) []);
  tip ← ok (resolve_file (text_of ["[chains.p]"; "backfill_floor = 'tip'"]) []);
  Some (all [c_is at_height cc_backfill_floor (Some 12345%N); p_is tip cc_backfill_floor None;
             invalid (resolve_file (text_of ["[chains.c]"; "backfill_floor = 'genesis'"]) [])])).

Definition durations_round_trip_through_the_printed_form : bool :=
  all [forallb (fun d => eqs (parse_human_duration (fmt_duration d)) (Some d))
         [0%N; from_millis 40; from_millis 1500; from_secs 90; from_secs 300; from_secs 3900; from_secs 7200];
       eqs (fmt_duration (from_secs 3900)) "65m"; eqs (fmt_duration (from_secs 7200)) "2h"].

Definition idle_timeout_zero_disables_the_reaper : bool := passes (
  r ← ok (resolve_file (text_of ["[server]"; "idle_timeout = 0"]) []);
  Some (eqs (srv_idle_timeout (rs_server r)) None)).

(** ** URLs *)

Definition per_chain_endpoints : bool := passes (
  testnet ← resolve ["--network"; "testnet"];
  node ← ok (resolve_file (text_of ["[upstream]"; "base = 'http://node.local:9650/'"]) []);
  explicit ← resolve ["--rpc-url"; "http://c.local"; "--p-rpc-url"; "http://p.local"];
  Some (all [c_is testnet cc_rpc_url "https://api.avax-test.network/ext/bc/C/rpc";
             c_is testnet cc_ws_url "wss://api.avax-test.network/ext/bc/C/ws";
             p_is testnet cc_rpc_url "https://api.avax-test.network/ext/bc/P"; p_is testnet cc_ws_url "";
             c_is node cc_rpc_url "http://node.local:9650/ext/bc/C/rpc";
             c_is node cc_ws_url "ws://node.local:9650/ext/bc/C/ws";
             p_is node cc_rpc_url "http://node.local:9650/ext/bc/P";
             c_is explicit cc_rpc_url "http://c.local"; p_is explicit cc_rpc_url "http://p.local"])).

Definition mirror_from_overrides_every_chain : bool := passes (
  r ← resolve ["--mirror-from"; "http://10.0.0.5:8545/"];
  from_file ← ok (resolve_file (text_of ["[upstream]"; "kind = 'neve'"; "base = 'http://10.0.0.5:8545/'"]) []);
  Some (all [forallb (fun cfg => all [eqs (cc_rpc_url cfg) "http://10.0.0.5:8545"; eqs (cc_ws_url cfg) "ws://10.0.0.5:8545";
                                      eqs (cc_request_interval cfg) 0%N; cc_subscribe_blocks cfg;
                                      eqs (cc_backfill_floor cfg) None]) (cfgs r);
             eqs (up_kind (rs_upstream r)) Neve; eqs (up_base (rs_upstream r)) "http://10.0.0.5:8545";
             eqs (up_host_pacer (rs_upstream r)) None;
             eqs (up_base (rs_upstream from_file)) (up_base (rs_upstream r));
             eqs (cc_rpc_url <$> c from_file) (cc_rpc_url <$> c r); eqs (cc_ws_url <$> c from_file) (cc_ws_url <$> c r)])).

Definition derive_ws_url_maps_schemes : bool :=
  all [ok_eq (derive_ws_url "https://h:1") "wss://h:1"; ok_eq (derive_ws_url "http://h:1") "ws://h:1";
       ok_eq (derive_ws_url "wss://h:1") "wss://h:1"; is_err (derive_ws_url "h:1")].

(** ** The token *)

Definition token_is_appended_to_every_url_shape : bool :=
  let tokened url := with_token url "token" (MkToken "secret") in
  all [eqs (tokened "https://h/ext/bc/P") "https://h/ext/bc/P?token=secret";
       eqs (tokened "https://h/p?a=1") "https://h/p?a=1&token=secret";
       eqs (tokened "https://h/p?token=other") "https://h/p?token=other";
       eqs (tokened "https://h/p?a=1&token=other&b=2") "https://h/p?a=1&token=other&b=2";
       eqs (tokened "https://h/p?") "https://h/p?token=secret"; eqs (tokened "") ""].

Fixpoint ends_with (suffix s : string) : bool :=
  String.eqb suffix s || match s with String _ s => ends_with suffix s | EmptyString => false end.

Definition token_from_a_file_lands_on_every_chain_url : bool := passes (
  let token_path := "/tmp/neve-config-token-1-0-1/token" in
  r ← ok (resolve_in [(config_path, text_of ["[upstream]"; "token_file = '" ++ token_path ++ "'"]);
                      (token_path, "s3cr3t" ++ nl)] ["--config"; config_path] []);
  cc ← c r; pc ← p r;
  Some (all [ends_with "?token=s3cr3t" (cc_rpc_url cc); ends_with "?token=s3cr3t" (cc_ws_url cc);
             ends_with "?token=s3cr3t" (cc_rpc_url pc); eqs (cc_ws_url pc) ""])).

Definition token_comes_from_the_environment_when_no_file_is_configured : bool := passes (
  r ← ok (resolve_env [] [("NEVE_UPSTREAM_TOKEN", " s3cr3t" ++ nl)]);
  Some (eqs (expose <$> up_token (rs_upstream r)) (Some "s3cr3t"))).

(** The texts a [Debug] form is made of. *)
Fixpoint debug_texts (d : DebugTree) : list string :=
  match d with
  | DWord s | DString s | DPath s => [s]
  | DNotice (NInfo (HostCap _ why)) => [why]
  | DNotice (NInfo (OffHost _ mine host)) => omap id [mine; host]
  | DNotice (NWarn (DeprecatedVar a b)) | DNotice (NWarn (DeprecatedFlag a b)) => [a; b]
  | DSome d => debug_texts d
  | DList l => mjoin (map debug_texts l)
  | DMap l => mjoin (map (fun kd => kd.1 :: debug_texts kd.2) l)
  | DStruct name fields _ => name :: mjoin (map (fun kd => kd.1 :: debug_texts kd.2) fields)
  | _ => []
  end.

Definition shown (needle : string) (r : Resolved) : bool := existsb (contains needle) (debug_texts (debug_resolved r)).

Definition the_token_never_appears_in_debug_or_printed_output : bool := passes (
  r ← ok (resolve_env [] [("NEVE_UPSTREAM_TOKEN", "s3cr3t")]);
  hand_written ← ok (resolve_file (text_of ["[upstream]"; "base = 'https://h?token=s3cr3t'"]) []);
  printed ← ok (to_redacted_toml r); printed' ← ok (to_redacted_toml hand_written);
  cc ← c r;
  Some (all [negb (shown "s3cr3t" r); shown "<redacted>" r; eqs (redacted_token (MkToken "s3cr3t")) "<redacted>";
             negb (shown "s3cr3t" hand_written); negb (contains "s3cr3t" printed');
             contains "s3cr3t" (cc_rpc_url cc); negb (contains "s3cr3t" printed);
             contains "<redacted, from NEVE_UPSTREAM_TOKEN>" printed])).

(** ** The host pacer *)

Definition rps_of (r : Resolved) : option f64 := up_max_rps (rs_upstream r).
Definition host_paced (r : Resolved) : bool := bool_decide (is_Some (up_host_pacer (rs_upstream r))).

Definition max_rps_defaults_to_the_public_cap_unless_a_token_or_a_neve_upstream : bool := passes (
  bare ← resolve [];
  tokened ← ok (resolve_env [] [("NEVE_UPSTREAM_TOKEN", "s3cr3t")]);
  mirror ← resolve ["--mirror-from"; "http://h:8545"];
  fifty ← resolve ["--set"; "upstream.max_rps=50"];
  zero ← resolve ["--set"; "upstream.max_rps=0"];
  seven ← ok (resolve_file (text_of ["[upstream]"; "max_rps = 7"]) []);
  Some (all [eqs (rps_of bare) (Some (f64_of_Z 25)); host_paced bare;
             eqs (rps_of tokened) None; negb (host_paced tokened); eqs (rps_of mirror) None;
             eqs (rps_of fifty) (Some (f64_of_Z 50)); eqs (rps_of zero) None; negb (host_paced zero);
             eqs (rps_of seven) (Some (f64_of_Z 7))])).

(** ** Selecting chains *)

Definition chains_flag_selects_a_subset_and_enables_chains_the_file_omits : bool := passes (
  only_p ← resolve ["--chains"; "p"];
  omitted ← ok (resolve_file (text_of ["[chains.c]"; "request_interval = '1s'"]) ["--chains"; "p"]);
  reordered ← resolve ["--chains"; "p,c,p"];
  Some (all [eqs (keys only_p) [P]; eqs (keys omitted) [P]; p_is omitted cc_request_interval (from_millis 200);
             eqs (keys reordered) [C; P]])).

Definition a_chains_table_in_the_file_is_the_enabled_set : bool := passes (
  r ← ok (resolve_file (text_of ["[chains.p]"]) []);
  d ← ok (resolve_file (text_of ["[defaults]"; "summary_period = '1m'"]) []);
  Some (all [eqs (keys r) [P]; eqs (length (rs_chains d)) 2%nat])).

Definition a_c_chain_flag_does_not_disable_the_p_chain : bool := passes (
  r ← resolve ["--rpc-url"; "http://c.local"]; Some (eqs (length (rs_chains r)) 2%nat)).

Definition a_chainless_flag_beats_a_per_chain_key : bool := passes (
  let file := text_of ["[chains.c]"; "summary_period = '1m'"; "max_wait = '10m'"; "[chains.p]"] in
  r ← ok (resolve_file file ["--summary-period"; "30s"; "--max-wait"; "70m"]);
  l ← ok (resolve_file (text_of ["[chains.c]"; "ingest_logs = false"]) ["--ingest-logs"]);
  Some (all [forallb (fun cfg => all [eqs (cc_summary_period cfg) (from_secs 30);
                                      eqs (cc_max_wait cfg) (from_secs (70 * 60))]) (cfgs r);
             c_is l cc_ingest_logs true])).

Definition ingest_logs_is_a_c_chain_setting_however_it_is_set : bool := passes (
  r ← ok (resolve_file (text_of ["[defaults]"; "ingest_logs = true"]) []);
  printed ← ok (to_redacted_toml r);
  Some (all [c_is r cc_ingest_logs true; p_is r cc_ingest_logs false; contains "ingest_logs = false" printed])).

Definition enabled_false_disables_a_chain_and_chains_flag_overrides_it : bool := passes (
  let file := text_of ["[chains.c]"; "[chains.p]"; "enabled = false"; "concurrency = 32"] in
  off ← ok (resolve_file file []);
  selected ← ok (resolve_file file ["--chains"; "c,p"]);
  set_on ← ok (resolve_file file ["--set"; "chains.p.enabled=true"]);
  set_off ← resolve ["--set"; "chains.c.enabled=false"];
  Some (all [eqs (keys off) [C]; eqs (length (rs_chains selected)) 2%nat; p_is selected cc_concurrency 32%N;
             eqs (length (rs_chains set_on)) 2%nat; eqs (keys set_off) [P]])).

Definition disabling_every_chain_is_an_error : bool :=
  match resolve_file (text_of ["[chains.c]"; "enabled = false"]) [] with Err EAllDisabled => true | _ => false end.

Definition enabled_is_rejected_in_defaults : bool :=
  match resolve_file (text_of ["[defaults]"; "enabled = false"]) [] with Err EDefaultsEnabled => true | _ => false end.

Definition a_set_for_an_idle_chain_is_refused : bool := passes (
  r ← ok (resolve_file (text_of ["[chains.c]"]) ["--chains"; "c,p"; "--set"; "chains.p.concurrency=4"]);
  Some (all [match resolve_file (text_of ["[chains.c]"]) ["--set"; "chains.p.concurrency=4"] with
             | Err (EIdleChain key) => eqs key "chains.p.concurrency" | _ => false end;
             p_is r cc_concurrency 4%N])).

Definition a_token_written_into_a_url_also_lifts_the_cap : bool := passes (
  let with_url (head : list string) (url : string) :=
    ok (resolve_file (text_of (head ++ ["[chains.c]"; ("rpc_url = '" ++ url ++ "'")%string])%list) ["--chains"; "c"]) in
  tokened ← with_url [] "https://api.avax.network/ext/bc/C/rpc?token=abc";
  renamed ← with_url ["[upstream]"; "token_param = 'key'"] "http://n/rpc?key=abc";
  other ← with_url [] "https://api.avax.network/ext/bc/C/rpc?trace=1";
  Some (all [eqs (rps_of tokened) None; eqs (rps_of renamed) None; eqs (rps_of other) (Some PUBLIC_MAX_RPS)])).

Definition the_host_cap_skips_a_chain_pointed_somewhere_else : bool := passes (
  let with_p (url : string) := ok (resolve_file (text_of ["[chains.c]"; "[chains.p]"; "rpc_url = '" ++ url ++ "'"]) []) in
  away ← with_p "http://node.local:9650/ext/bc/P";
  same ← with_p "https://api.avax.network/ext/bc/P";
  a ← c same ≫= cc_host_pacer; b ← p same ≫= cc_host_pacer; shared ← up_host_pacer (rs_upstream same);
  Some (all [negb (eqs (cc_host_pacer <$> c away) (Some None)); p_is away cc_host_pacer None;
             existsb (fun n => match n with NInfo (OffHost _ (Some mine) _) => contains "node.local:9650" mine | _ => false end)
               (rs_notices away);
             eqs a shared; eqs b shared])).

Definition an_unknown_chain_key_is_rejected : bool := invalid (resolve_file (text_of ["[chains.x]"]) []).

(** ** Data directories *)

Definition dirs (r : Resolved) : option (path * path) :=
  cc ← c r; pc ← p r; Some (components (cc_data_dir cc), components (cc_data_dir pc)).

Definition per_chain_data_dirs : bool := passes (
  r ← resolve ["--data-dir"; "/srv/neve"] ≫= dirs;
  s ← resolve ["--data-dir"; "/srv/neve"; "--p-data-dir"; "/mnt/big/p"] ≫= dirs;
  t ← resolve ["--network"; "testnet"] ≫= dirs;
  Some (all [eqs r (components "/srv/neve", components "/srv/neve/p");
             eqs s (components "/srv/neve", components "/mnt/big/p");
             eqs t (components "./blockstore-data-testnet", components "./blockstore-data-testnet/p")])).

Definition two_chains_may_not_share_a_data_dir : bool :=
  match resolve_file (text_of ["[chains.c]"; "data_dir = '/srv/x'"; "[chains.p]"; "data_dir = '/srv/x'"]) [] with
  | Err (ESameDataDir _ _) => true | _ => false end.

Definition per_chain_backfill_floors : bool := passes (
  r ← resolve ["--backfill-floor"; "10"; "--p-backfill-floor"; "20"];
  s ← resolve ["--backfill-floor"; "10"];
  Some (all [c_is r cc_backfill_floor (Some 10%N); p_is r cc_backfill_floor (Some 20%N);
             c_is s cc_backfill_floor (Some 10%N); p_is s cc_backfill_floor (Some 0%N)])).

(** ** The file *)

Definition an_unknown_file_key_is_rejected_with_its_position : bool :=
  invalid (resolve_file (text_of ["[server]"; "adr = '127.0.0.1:1'"]) []).

Definition an_explicitly_requested_config_file_must_exist : bool :=
  match resolve_env ["--config"; "/nonexistent/neve.toml"] [] with Err EConfigUnread => true | _ => false end.

Definition neve_config_names_the_file_like_the_flag : bool := passes (
  r ← ok (resolve_in [(config_path, text_of ["[chains.p]"; "concurrency = 3"])] [] [("NEVE_CONFIG", config_path)]);
  Some (all [eqs (keys r) [P]; p_is r cc_concurrency 3%N])).

(** ** Printing *)

Definition print_modes_are_reported : bool := passes (
  none ← resolve []; config ← resolve ["--print-config"]; example ← resolve ["--print-config-example"];
  Some (all [eqs (rs_print none) None; eqs (rs_print config) (Some PrintConfig);
             eqs (rs_print example) (Some PrintExample)])).

Definition printed_config_is_a_config_file : bool := passes (
  r ← resolve ["--network"; "testnet"; "--set"; "chains.p.concurrency=32"];
  printed ← ok (to_redacted_toml r);
  round ← ok (resolve_file printed []);
  Some (all [eqs (rs_network round) Testnet; p_is round cc_concurrency 32%N;
             eqs (cc_request_interval <$> c round) (cc_request_interval <$> c r);
             eqs (cc_backfill_floor <$> p round) (cc_backfill_floor <$> p r)])).

(** ** The example file *)

Definition example_parses_under_the_deny_unknown_fields_schema : bool := passes (
  tree ← toml_parse EXAMPLE_CONFIG;
  file ← ok (deserialize_tree tree);
  chains ← file_chains file;
  Some (eqs (chains.*1) [C; P])).

(** The names the schema accepts under a header. *)
Definition schema_keys (table_header : string) : list string :=
  if String.eqb table_header "" then FILE_KEYS
  else if String.eqb table_header "upstream" then UPSTREAM_KEYS
  else if String.eqb table_header "server" then SERVER_KEYS else CHAIN_KEYS.

Definition NO_LIVE_DEFAULT : list string := ["token_file"; "base"; "max_rps"; "rpc_url"; "ws_url"; "data_dir"].

(** Every wanted key is there or, without a live default, in a disabled line;
    and how many were there. *)
Definition check (want have : list string) : bool * nat :=
  let live := List.filter (fun k => negb (bool_decide (k ∈ NO_LIVE_DEFAULT))) want in
  let disabled := List.filter (fun k => bool_decide (k ∈ NO_LIVE_DEFAULT)) want in
  (forallb (fun k => contains (nl ++ "#" ++ k ++ " = ") EXAMPLE_CONFIG) disabled
   && forallb (fun k => bool_decide (k ∈ have)) live, length live).

Definition keys_of (t : option TValue) : list string := from_option (fun t : Table => t.*1) [] (t ≫= as_table).

Definition example_documents_every_key_the_schema_accepts : bool := passes (
  example ← toml_parse EXAMPLE_CONFIG;
  let under k := assoc k example in
  let chains := keys_of (under "chains") in
  let chain k := keys_of (under "defaults") ++ keys_of (get_path ["chains"; k] (TTable example)) in
  let checks := [check (schema_keys "") (example.*1); check (schema_keys "upstream") (keys_of (under "upstream"));
                 check (schema_keys "server") (keys_of (under "server"));
                 check (schema_keys "defaults") (chain "c"); check (schema_keys "defaults") (chain "p")] in
  Some (all [forallb fst checks; eqs chains ["c"; "p"]; (30 <? foldr (fun c n => c.2 + n) 0 checks)%nat]))%list.

(** [assert_same_config] *)
Definition same_config (example builtin : string) : bool := eqs (lines example) (lines builtin).

Definition example_resolves_to_the_builtin_defaults : bool := passes (
  from_example ← ok (resolve_file EXAMPLE_CONFIG []); bare ← resolve [];
  printed ← ok (to_redacted_toml from_example); printed' ← ok (to_redacted_toml bare);
  let up := rs_upstream from_example in let up' := rs_upstream bare in
  let rest r := map (fun cfg => (cc_subscribe_blocks cfg, components (cc_data_dir cfg), cc_ws_url cfg)) (cfgs r) in
  Some (all [same_config printed printed'; eqs (rs_network from_example) (rs_network bare);
             eqs (rs_log_level from_example) (rs_log_level bare); eqs (up_kind up) (up_kind up');
             eqs (up_max_rps up) (up_max_rps up'); eqs (host_paced from_example) (host_paced bare);
             eqs (srv_idle_timeout (rs_server from_example)) (srv_idle_timeout (rs_server bare));
             eqs (keys from_example) (keys bare); eqs (rest from_example) (rest bare)])).

(** The walk over the lines: the line above, the keys so far, and whether each
    was documented. *)
Definition walk (s : option string * nat * bool) (line : string) : option string * nat * bool :=
  let '(previous, keys, documented) := s in
  let trimmed := trim line in
  if String.eqb trimmed "" then s
  else
    let is_key := negb (starts_with "#" trimmed) && negb (starts_with "[" trimmed) && contains " = " trimmed in
    (Some line, if is_key then S keys else keys,
     documented && (negb is_key || starts_with "#" (trim_start (default "" previous)))).

Definition every_example_key_is_documented_by_a_comment_above_it : bool :=
  let '(_, keys, documented) := foldl walk (None, O, true) (lines EXAMPLE_CONFIG) in
  documented && (20 <? keys)%nat.

(** ** Validation *)

Definition zero_valued_knobs_that_would_break_a_run_are_rejected : bool :=
  forallb (fun ak => match resolve_env ["--set"; ak.1] [] with
                     | Err (EMustBePositive key) => contains ak.2 key | _ => false end)
    [("chains.p.concurrency=0", "concurrency"); ("defaults.join_buffer_cap=0", "join_buffer_cap");
     ("defaults.summary_period=0", "summary_period"); ("server.max_connections=0", "max_connections");
     ("server.max_blocks_per_request=0", "max_blocks_per_request")].

(** ** The suite *)

Definition config_suite : list (string * bool) := [
  ("no_configuration_enables_both_chains", no_configuration_enables_both_chains);
  ("builtin_per_chain_defaults", builtin_per_chain_defaults);
  ("precedence_runs_builtin_defaults_chain_env_flag_set", precedence_runs_builtin_defaults_chain_env_flag_set);
  ("deprecated_inputs_warn_once", deprecated_inputs_warn_once);
  ("set_reaches_a_nested_key_and_creates_missing_tables", set_reaches_a_nested_key_and_creates_missing_tables);
  ("set_with_an_unknown_key_is_an_error_naming_it", set_with_an_unknown_key_is_an_error_naming_it);
  ("set_values_parse_as_toml_then_fall_back_to_strings", set_values_parse_as_toml_then_fall_back_to_strings);
  ("set_without_an_equals_sign_is_rejected", set_without_an_equals_sign_is_rejected);
  ("durations_accept_a_string_or_a_bare_integer", durations_accept_a_string_or_a_bare_integer);
  ("backfill_floor_accepts_an_integer_or_tip", backfill_floor_accepts_an_integer_or_tip);
  ("durations_round_trip_through_the_printed_form", durations_round_trip_through_the_printed_form);
  ("idle_timeout_zero_disables_the_reaper", idle_timeout_zero_disables_the_reaper);
  ("per_chain_endpoints", per_chain_endpoints);
  ("mirror_from_overrides_every_chain", mirror_from_overrides_every_chain);
  ("derive_ws_url_maps_schemes", derive_ws_url_maps_schemes);
  ("token_is_appended_to_every_url_shape", token_is_appended_to_every_url_shape);
  ("token_from_a_file_lands_on_every_chain_url", token_from_a_file_lands_on_every_chain_url);
  ("token_comes_from_the_environment_when_no_file_is_configured", token_comes_from_the_environment_when_no_file_is_configured);
  ("the_token_never_appears_in_debug_or_printed_output", the_token_never_appears_in_debug_or_printed_output);
  ("max_rps_defaults_to_the_public_cap_unless_a_token_or_a_neve_upstream", max_rps_defaults_to_the_public_cap_unless_a_token_or_a_neve_upstream);
  ("chains_flag_selects_a_subset_and_enables_chains_the_file_omits", chains_flag_selects_a_subset_and_enables_chains_the_file_omits);
  ("a_chains_table_in_the_file_is_the_enabled_set", a_chains_table_in_the_file_is_the_enabled_set);
  ("a_c_chain_flag_does_not_disable_the_p_chain", a_c_chain_flag_does_not_disable_the_p_chain);
  ("a_chainless_flag_beats_a_per_chain_key", a_chainless_flag_beats_a_per_chain_key);
  ("ingest_logs_is_a_c_chain_setting_however_it_is_set", ingest_logs_is_a_c_chain_setting_however_it_is_set);
  ("enabled_false_disables_a_chain_and_chains_flag_overrides_it", enabled_false_disables_a_chain_and_chains_flag_overrides_it);
  ("disabling_every_chain_is_an_error", disabling_every_chain_is_an_error);
  ("enabled_is_rejected_in_defaults", enabled_is_rejected_in_defaults);
  ("a_set_for_an_idle_chain_is_refused", a_set_for_an_idle_chain_is_refused);
  ("a_token_written_into_a_url_also_lifts_the_cap", a_token_written_into_a_url_also_lifts_the_cap);
  ("the_host_cap_skips_a_chain_pointed_somewhere_else", the_host_cap_skips_a_chain_pointed_somewhere_else);
  ("an_unknown_chain_key_is_rejected", an_unknown_chain_key_is_rejected);
  ("per_chain_data_dirs", per_chain_data_dirs);
  ("two_chains_may_not_share_a_data_dir", two_chains_may_not_share_a_data_dir);
  ("per_chain_backfill_floors", per_chain_backfill_floors);
  ("an_unknown_file_key_is_rejected_with_its_position", an_unknown_file_key_is_rejected_with_its_position);
  ("an_explicitly_requested_config_file_must_exist", an_explicitly_requested_config_file_must_exist);
  ("neve_config_names_the_file_like_the_flag", neve_config_names_the_file_like_the_flag);
  ("print_modes_are_reported", print_modes_are_reported);
  ("printed_config_is_a_config_file", printed_config_is_a_config_file);
  ("example_parses_under_the_deny_unknown_fields_schema", example_parses_under_the_deny_unknown_fields_schema);
  ("example_documents_every_key_the_schema_accepts", example_documents_every_key_the_schema_accepts);
  ("example_resolves_to_the_builtin_defaults", example_resolves_to_the_builtin_defaults);
  ("every_example_key_is_documented_by_a_comment_above_it", every_example_key_is_documented_by_a_comment_above_it);
  ("zero_valued_knobs_that_would_break_a_run_are_rejected", zero_valued_knobs_that_would_break_a_run_are_rejected)
].

(** The program's tests of its configuration all pass on the model, the annotated
    example file included. *)
Theorem config_tests_pass : Forall (fun t => t.2 = true) config_suite.
Proof. apply Forall_fold_right. vm_compute. repeat split; reflexivity. Qed.
