(* ===== verification/TestsMetrics.v ===== *)
(** * The unit tests, run on the model: metrics

    The test of src/metrics.rs and the gauges test of src/join.rs, as booleans
    over the samples the model emits; see [TestsCore].  A recorder keeps one
    value a series, and an assertion on a rendered line is one on its value. *)

From Stdlib Require Import ZArith NArith Lia String Ascii SpecFloat.
From S2P Require Import Prelude Str Json ToyJson RefJson Chain Record Backing Storage StorageSpec Join Upstream Float64 Toml.
From S2P Require Import Subscribe Metrics Serve TestsCore.

#[local] Open Scope string_scope.
#[local] Existing Instances MapStore MapDb RefJson.

#[local] Instance f64_eq_dec : EqDecision f64.
Proof. solve_decision. Defined.

(** ** A recorder *)

(** The value of a series once the samples are recorded: a counter's total, a
    gauge's last setting and what was added since, a histogram's count. *)
Definition record_sample (series : string * Labels) (value : option f64) (s : Sample) : option f64 :=
  if negb (series_eqb series (sample_series s)) then value
  else let now := default f64_zero value in
       Some match s with
            | CounterAdd _ _ n => f64_add now (f64_of_N n)
            | GaugeSet _ _ x => x
            | GaugeAdd _ _ d => f64_add now (f64_of_Z d)
            | HistogramRecord _ _ _ => f64_add now f64_one
            end.

Definition rendered (out : list Sample) (name : string) (labels : Labels) : option f64 :=
  foldl (record_sample (name, labels)) None out.

Definition shows (out : list Sample) (name : string) (labels : Labels) (n : N) : bool :=
  eqs (rendered out name labels) (Some (f64_of_N n)).

Definition present (out : list Sample) (name : string) (labels : Labels) : bool :=
  bool_decide (is_Some (rendered out name labels)).

(** ** src/metrics.rs *)

(** A thousandth of [n]. *)
Definition thousandths (n : N) : f64 := f64_div (f64_of_N n) (f64_of_N 1000).

Definition recorded (start now : f64) : list Sample :=
  let '(guard, opened) := sub_guard_new C NewHeads in
  (process_metadata CARGO_PKG_VERSION "unknown" start
   ++ rpc_call "eth_chainId" "ok" (thousandths 1) ++ rpc_misdirected ++ getlogs_served "range"
   ++ ingest_heights C 100 90 10 ++ block_persisted C Live ++ block_persisted C Backfill
   ++ logs_persisted C Backfill 3 ++ block_rejected P "id_mismatch" ++ last_block_timestamp C 1780000000
   ++ upstream_request C OutcomeOk (thousandths 12) ++ upstream_request C OutcomeEmpty (thousandths 12)
   ++ upstream_request C TooManyRequests (thousandths 12) ++ upstream_first_attempt C false (thousandths 40)
   ++ upstream_retry_after C 7 ++ upstream_connected C now ++ ws_reconnect C ++ ws_idle_timeout C
   ++ opened ++ sub_sent_bytes guard 512 ++ sub_lagged guard 3 ++ sub_guard_drop guard
   ++ ingest_heights P 500 500 0 ++ block_persisted P Backfill)%list.

Definition helpers_render_expected_series : bool :=
  let out := recorded (f64_of_N 1780000000) (f64_of_N 1780000001) in
  let c := on_chain C in let p := on_chain P in let heads := ("kind", "newHeads") in
  all [shows out "neve_build_info" [("version", CARGO_PKG_VERSION); ("commit", "unknown")] 1;
       present out "neve_process_start_time_seconds" [];
       shows out "neve_rpc_requests_total" [("method", "eth_chainId"); ("status", "ok")] 1;
       present out "neve_rpc_request_duration_seconds" [("method", "eth_chainId")];
       shows out "neve_rpc_misdirected_total" [] 1; shows out "neve_getlogs_served_total" [("scan", "range")] 1;
       shows out "neve_ingest_head_height" [c] 100; shows out "neve_ingest_behind_blocks" [c] 10;
       shows out "neve_ingest_blocks_total" [c; ("source", "live")] 1;
       shows out "neve_ingest_blocks_total" [c; ("source", "backfill")] 1;
       shows out "neve_ingest_logs_total" [c; ("source", "backfill")] 3;
       shows out "neve_ingest_last_block_timestamp_seconds" [c] 1780000000;
       shows out "neve_upstream_requests_total" [c; ("outcome", "empty")] 1;
       shows out "neve_upstream_requests_total" [c; ("outcome", "429")] 1;
       shows out "neve_upstream_first_attempt_total" [c; ("outcome", "empty")] 1;
       eqs (rendered out "neve_upstream_prefetch_delay_seconds" [c]) (Some (thousandths 40));
       shows out "neve_upstream_request_duration_seconds" [c] 3;
       present out "neve_upstream_connected_since_seconds" [c];
       shows out "neve_upstream_ws_reconnects_total" [c] 1; shows out "neve_upstream_ws_idle_timeouts_total" [c] 1;
       shows out "neve_upstream_retry_after_seconds" [c] 1;
       shows out "neve_sub_open" [c; heads] 0; shows out "neve_sub_sent_bytes_total" [c; heads] 512;
       shows out "neve_sub_lagged_total" [c; heads] 3;
       shows out "neve_ingest_head_height" [p] 500; shows out "neve_ingest_blocks_total" [p; ("source", "backfill")] 1;
       shows out "neve_ingest_rejected_total" [p; ("reason", "id_mismatch")] 1].

(** ** src/join.rs *)

Definition sample_reports_per_half_levels : bool := passes (
  buf ← buffer 16;
  '(b1, _) ← unwrap (on_block 0 1 (rep 32 Byte.x01) [] JOIN_BLOCK) buf;
  '(b2, _) ← unwrap (on_logs 0 2 LOGS) b1;
  let out := join_gauges as_secs_f64 (st_chain (jb_storage b2)) (sample (jb_max_entries b2) 0 (jb_pending b2)) in
  Some (all [shows out "neve_join_buffer_incomplete" [on_chain C; ("half", "block")] 1;
             shows out "neve_join_buffer_incomplete" [on_chain C; ("half", "log")] 1;
             shows out "neve_join_buffer_capacity" [on_chain C] 16])).

(** ** The suite *)

Definition metrics_suite : list (string * bool) := [
  ("helpers_render_expected_series", helpers_render_expected_series);
  ("sample_reports_per_half_levels", sample_reports_per_half_levels)
].

(** The program's tests of what it exports all pass on the model. *)
Theorem metrics_tests_pass : Forall (fun t => t.2 = true) metrics_suite.
Proof. apply Forall_fold_right. vm_compute. repeat split; reflexivity. Qed.
