(* ===== verification/Suite.v ===== *)
(** * The unit tests, together

    The program's own test suite, run on the model: 203 of its 204 unit tests.
    The one left out, [hyper_keepalive_idle_connection_is_reaped] of src/conn.rs,
    drives the HTTP library over a socket. *)

From Stdlib Require Import String.
From S2P Require Import Prelude TestsCore TestsServe TestsPlatform TestsEth TestsConfig TestsMetrics.

Definition test_suite : list (string * bool) :=
  core_suite ++ serve_suite ++ platform_suite ++ eth_suite ++ config_suite ++ metrics_suite.

Example test_suite_size : length test_suite = 203%nat.
Proof. vm_compute. reflexivity. Qed.

(** Conformance: each of the program's 203 modelled unit tests, with the
    inputs and the assertions its source has, holds of the definitions that model
    the code under test, on real JSON, hashes, identifiers and configuration
    files. *)
Theorem model_passes_the_unit_tests : Forall (fun t => t.2 = true) test_suite.
Proof.
  unfold test_suite. rewrite !Forall_app.
  repeat split; [apply core_tests_pass|apply serve_tests_pass|apply platform_tests_pass|apply eth_tests_pass
                |apply config_tests_pass|apply metrics_tests_pass].
Qed.
