(* ===== verification/TaskWitnesses.v ===== *)
(** * Witnesses for concurrent use and replication

    The properties of [Concurrent], [Replica], [ReplicaLive], [ReplicaSessions],
    [ReplicaBlocks], [Handoff] and [Listener] applied at concrete inputs: two
    writers and a reader under a schedule that interleaves their stages; a mirror
    of each chain bootstrapped from a server of the other instance, following it,
    and healed after a session that was cut; the hand-over from a bootstrap
    that fails to the backfill; and a listener that accepts one socket, which goes
    silent. *)

From Stdlib Require Import ZArith NArith Lia String Ascii.
From stdpp Require Import relations.
From S2P Require Import Prelude Str Json ToyJson Chain Record Backing Storage StorageSpec Concurrent Join.
From S2P Require Import Codec Upstream Progress Subscribe Http Socket EthFetch Backfill Serve Health.
From S2P Require Import EthIngest Handoff EthRpc PlatformIngest Mirror PlatformRpc Bulk EndToEnd Server Replica ReplicaLive ReplicaSessions ReplicaBlocks.
From S2P Require Import Conn Float64 Toml Config ConfigLayers ConfigResolve ToyConfig Listener Witnesses LiveWitnesses.

#[local] Existing Instances MapStore MapDb ToyJson Toy.ToyHex Toy.ToyCodec.
#[local] Existing Instances MapStore_laws MapDb_laws ToyJson_laws Toy.ToyHex_laws Toy.ToyCodec_laws.

(** ** Two writers and a reader *)

Definition hash2 : bytes := replicate 32 Byte.x03.
Definition cmd2 : PutCmd :=
  {| cmd_height := 6; cmd_hash := hash2; cmd_txs := []; cmd_elements := [bare; EMPTY_ARRAY] |}.

Lemma cmd2_ok : cmd_ok cmd2.
Proof. split; [by vm_compute|]. split; [exact pair_text|]. by vm_compute. Qed.

Definition pool0 : list Task := [PutReady cmd1; PutReady cmd2; GetReady hash1].

Lemma pool0_starting : Forall starting pool0.
Proof. apply Forall_cons_2; [exact cmd1_ok|]. apply Forall_cons_2; [exact cmd2_ok|]. by apply Forall_cons_2. Qed.

(** The first writes its block, the second writes and commits, the first commits,
    and the reader follows. *)
Definition moves_rest : list nat := [0; 1; 1; 0]%nat.
Definition mid : Storage * list Task := run_schedule moves_rest (st0 C, pool0).
Definition end_ : Storage * list Task := run_schedule [2; 2]%nat mid.

Lemma mid_reached : rtc sched (st0 C, pool0) mid.
Proof. apply run_schedule_sched. Qed.

Lemma end_reached : rtc sched (st0 C, pool0) (end_.1, end_.2).
Proof. rewrite <- surjective_pairing. etrans; [exact mid_reached|apply run_schedule_sched]. Qed.

(** Every task of the pool has returned, and none was refused. *)
Definition done_with (r : Task) : bool :=
  match r with PutReturned _ (Ok _) | GetReturned _ (Ok (Some _)) => true | _ => false end.

Lemma end_done : forallb done_with end_.2 = true.
Proof. vm_compute. reflexivity. Qed.

Lemma end_whole h : whole end_.2 h.
Proof.
  intros c e Hin. pose proof end_done as Hd. rewrite forallb_forall in Hd.
  apply list_elem_of_In in Hin. by specialize (Hd _ Hin).
Qed.

Lemma end_succeeded : Forall Concurrent.succeeded end_.2.
Proof.
  apply Forall_forall. intros t Hin. pose proof end_done as Hd. rewrite forallb_forall in Hd.
  apply list_elem_of_In in Hin. specialize (Hd _ Hin). by destruct t as [| | |? [[]|]| | |].
Qed.

Lemma concurrent_reads_sound_witness :
  exists o, height_of_hash end_.1 hash2 = Ok o /\ o = Some 6%N.
Proof.
  destruct (concurrent_reads_sound abs_empty (st0 C) pool0 end_.1 end_.2 (st0_refines C) index_sound_empty
              pool0_starting end_reached) as (_ & H2 & _ & _).
  destruct (H2 hash2) as (o & Ho & _). exists o. split; [exact Ho|].
  assert (E : height_of_hash end_.1 hash2 = Ok (Some 6%N)) by (vm_compute; reflexivity). congruence.
Defined.

Lemma concurrent_puts_linearize_witness :
  exists order, order ≡ₚ [cmd1; cmd2] /\ refines end_.1 (abs_run order abs_empty).
Proof.
  refine (concurrent_puts_linearize abs_empty (st0 C) pool0 end_.1 end_.2 (st0_refines C) index_sound_empty
            pool0_starting _ end_reached end_succeeded).
  intros c c' Hc Hc' _. cbn in Hc, Hc'.
  repeat (apply elem_of_cons in Hc as [->|Hc]); repeat (apply elem_of_cons in Hc' as [->|Hc']);
    try (by apply not_elem_of_nil in Hc); try (by apply not_elem_of_nil in Hc'); reflexivity.
Defined.

Lemma read_after_put_witness :
  exists r el, end_.2 !! 2%nat = Some (GetReturned hash1 r) /\ r = Ok (Some el).
Proof.
  assert (E : match end_.2 !! 2%nat with Some (GetReturned k _) => bool_decide (k = hash1) | _ => false end = true)
    by (vm_compute; reflexivity).
  destruct (end_.2 !! 2%nat) as [[| | | | | |k r]|] eqn:Er; try discriminate E.
  apply bool_decide_eq_true in E. subst k.
  destruct (read_after_put abs_empty (st0 C) pool0 mid end_ 2 cmd1 r (st0_refines C) index_sound_empty
              pool0_starting mid_reached) as [el Hel].
  - change (cmd1 ∈ [cmd1; cmd2]). left.
  - vm_compute. reflexivity.
  - apply run_schedule_sched.
  - exact Er.
  - exact end_whole.
  - exists r, el. split; [reflexivity|exact Hel].
Defined.

(** ** The bootstrap and the backfill *)

(** A [Notify] with at most one permit. *)
#[local] Instance Permit : NotifyLib :=
  {| Notify := bool; notify_new := false; notify_one _ := true; notified n := if n then Some false else None |}.

#[local] Instance Permit_laws : NotifyLaws Permit.
Proof. split; [reflexivity|]. by eexists. Qed.

(** The health probe fails, so does the bootstrap; the signal is given all the
    same and the backfill starts. *)
Lemma backfill_waits_for_bootstrap_witness :
  let W := delivers [] in
  exists t s', rtc (move (WL := W) cfg0) (launched cfg0 (st0 C) (net [])) t /\
    tk_ingest t = Loop /\ tk_backfill t = Await Loop /\
    proc_step (WL := W) cfg0 (tk_shared t) (tk_backfill t) s' Loop.
Proof.
  intros W. set (s := bootstrap_via_oldblocks (W := W) cfg0 (fun _ => false) (st0 C, net [])).
  assert (Hs : s = ((s.1.1, s.1.2), Done (Err EHttp))).
  { rewrite <- surjective_pairing. apply pair_to. vm_compute. reflexivity. }
  set (t := {| tk_shared := {| sh_storage := s.1.1; sh_net := s.1.2; sh_bootstrap_done := notify_one notify_new |};
               tk_ingest := Loop; tk_backfill := Await Loop |}).
  assert (Hr : rtc (move (WL := W) cfg0) (launched cfg0 (st0 C) (net [])) t).
  { eapply rtc_l; [exact (move_ingest (WL := W) cfg0 _ _ _ _ _
                            (boot_ends (WL := W) cfg0 (fun _ => false) _ _ _ _ _ _ (Err EHttp) Hs))|].
    eapply rtc_l; [apply (move_ingest (WL := W)), (signals (WL := W))|]. apply rtc_refl. }
  destruct (proj2 (proj1 (backfill_waits_for_bootstrap (WL := W) cfg0 (st0 C) (net []) t Hr) eq_refl) eq_refl)
    as [Hb|[s' Hs']]; [discriminate Hb|].
  exists t, s'. split; [exact Hr|]. split; [reflexivity|]. split; [reflexivity|exact Hs'].
Defined.

(** ** Mirrors *)

(** Frames printed as JSON objects. *)
Definition frame_text (v : Value) : string := bytes_str (default [] (to_vec v)).

Lemma frame_reads fields : from_slice (str_bytes (frame_text (VObject fields))) = Some (VObject fields).
Proof.
  unfold frame_text. rewrite str_bytes_of_str. set (v := VObject fields).
  destruct (toy_to_vec_cases v) as [[E _]|E]; [done|].
  change (to_vec v) with (toy_to_vec v). rewrite E. cbn [default]. by apply toy_from_to_vec.
Qed.

#[local] Instance ToyPush : PushLib := {|
  write_subscribed id r := frame_text (VObject [("id", id); ("result", Null)]);
  write_notification method payload :=
    frame_text (VObject [("method", VString method);
                         ("params", VObject [("result", default Null (from_slice payload))])])
|}.

#[local] Instance ToyPush_laws : PushLaws.
Proof.
  split.
  - intros id r _. eexists. split; [apply frame_reads|done].
  - intros method payload v Hv _. eexists. split; [apply frame_reads|]. by rewrite Hv.
Qed.

(** A disk that takes the one height of the range. *)
Definition accepts (c : Chain) (h : N) (st : Storage) : Prop :=
  st_chain st = c /\ st_anchor_floor st = None /\ forall s : map_store, st_store st = Some s -> (ms_min s <= h)%N.

Lemma accepts_takes c h : takes (accepts c h) h h (arity c).
Proof.
  intros st h' hash txs es (Hc & Hf & Hs) Hh Hl. assert (h' = h) as -> by lia.
  assert (Hw : exists s', put_block h (Record.encode es) st = (set_store s' st, Ok tt) /\ (ms_min s' <= h)%N).
  { unfold put_block. destruct (st_store st) as [s|] eqn:Es; cbn; unfold ms_write.
    - specialize (Hs s eq_refl). rewrite decide_False by lia. by eexists.
    - unfold anchor_for. rewrite Hf. cbn. rewrite decide_False by lia. eexists. split; [reflexivity|]. cbn. lia. }
  destruct Hw as (s' & Hw & Hm). eexists. split.
  { unfold put. rewrite Hc, decide_False by lia. unfold bind. rewrite Hw. reflexivity. }
  split; [done|]. split; [done|]. by intros s [= <-].
Qed.

(** A server of one chain at the end of the socket. *)
Definition serves_socket (c : Chain) (st : Storage) : WsLib Scripted := {|
  connect_async _ w := (w, Opened (sub_stream c 4 (fun _ => st) []))
|}.

Definition health_of (c : Chain) (st : Storage) : HttpReply :=
  Response 200 None (Some (build_health_response host0 [serve0 c st])).

Lemma reports_of c st url :
  is_empty st = false -> reports url c (serve0 c st) (net [health_of c st]) [].
Proof.
  intros He. exists 200%N, None, host0, [serve0 c st]. split; [reflexivity|]. split; [reflexivity|].
  split; [apply NoDup_singleton|]. split; [|exact He]. by destruct c.
Qed.

Definition cfg_p7 : IngestCfg :=
  {| cfg_chain := P; cfg_max_wait := 0; cfg_ws_idle_timeout := 0; cfg_ws_url := "ws://up";
     cfg_rpc_url := "http://up"; cfg_poll_interval := 0;
     cfg_subscribe_blocks := true; cfg_backfill_inter_fetch := 0; cfg_fetch_concurrency := 1;
     cfg_backfill_floor := Some 7%N; cfg_prefetch_delay_cap := 0; cfg_progress_period := 0;
     cfg_ingest_logs := false; cfg_logs_source := GetLogs |}.

Definition abs7 : Abs := abs_run [cmd7] abs_empty.

Lemma cmd7_ok : cmd_ok cmd7.
Proof.
  split; [by vm_compute|]. split; [|by vm_compute].
  apply Forall_cons_2; [apply (to_vec_text json7); vm_compute; reflexivity|].
  apply Forall_cons_2; [apply (to_vec_text (bytes_of raw7)); vm_compute; reflexivity|].
  apply Forall_cons_2; [apply empty_array_text|apply Forall_nil_2].
Qed.

Lemma st7_refines : refines st7 abs7.
Proof.
  apply (run_puts_refines [cmd7] (st0 P) st7 abs_empty (st0_refines P) index_sound_empty); [|exact st7_run].
  constructor; [exact cmd7_ok|constructor].
Qed.

Lemma st7_keeps : keeps abs7 7 7 st7.
Proof.
  eapply refines_keeps; [exact st7_refines|reflexivity| |vm_compute; discriminate..].
  apply ms_present. vm_compute. split; [discriminate|by eexists].
Qed.

(** The P-chain mirror holds the upstream's record of height 7. *)
Lemma mirror_replicates_witness :
  exists m' n', mirror_bootstrap (W := serves_socket P st7) cfg_p7 (fun _ => false) (fun _ => 0%N) 0
                  (mirror0, net [health_of P st7]) = ((m', n'), Done (Ok tt)) /\
    stored (mi_storage m') 7 = stored st7 7.
Proof.
  destruct (mirror_replicates (W := serves_socket P st7) (accepts P 7) cfg_p7 (fun _ => false) (fun _ => 0%N) 0
              mirror0 (net [health_of P st7]) (serve0 P st7) (fun _ => st7) [] abs7 4 [] [])
    as (m' & n' & E & Hst).
  - apply reports_of. vm_compute. reflexivity.
  - reflexivity.
  - vm_compute. discriminate.
  - vm_compute. reflexivity.
  - intros _. exact st7_keeps.
  - vm_compute. lia.
  - intros h es Hh Hes. assert (h = 7%N) as ->.
    { change (max_contiguous_height (cs_storage (serve0 P st7))) with 7%N in Hh.
      change (mirror_from cfg_p7 (mi_storage mirror0)) with 7%N in Hh. lia. }
    assert (es = cmd_elements cmd7) as ->.
    { cut (a_blocks abs7 !! 7%N = Some (cmd_elements cmd7)); [congruence|vm_compute; reflexivity]. }
    exists (bytes_of raw7), json7, (VArray []), fb7, EMPTY_ARRAY. split_and!; vm_compute; reflexivity.
  - exact (accepts_takes P 7).
  - done.
  - done.
  - exists m', n'. split; [exact E|]. exact (Hst 7%N).
Defined.

(** The upstream emits the block of height 7 to one listener. *)
Definition emitting : PRun :=
  {| pr_storage := st0 P; pr_net := net []; pr_progress := Progress.new P 0; pr_behind_tip := 0; pr_live := [];
     pr_receivers := 1 |}.

Definition emitted7 : PRun := (p_emit (fun _ => 0%N) fb7 EMPTY_ARRAY 7 emitting).1.

Lemma record7 : record_write (bytes_of raw7) json7 (VArray []) fb7 EMPTY_ARRAY cmd7.
Proof. split_and!; vm_compute; reflexivity. Qed.

Lemma emits7 : emits emitting [cmd7] emitted7.
Proof.
  apply (emits_cons _ _ _ _ _ _ (fun _ => 0%N) 7 emitting emitted7 [] emitted7 record7); [by vm_compute| |apply emits_nil].
  apply pair_to. vm_compute. reflexivity.
Qed.

Lemma accepts_all : takes_all (accepts P 7) [cmd7].
Proof.
  intros st c Hg Hc. apply list_elem_of_singleton in Hc as ->.
  assert (Hh : cmd_height cmd7 = 7%N) by (vm_compute; reflexivity). unfold run_put. rewrite Hh.
  apply (accepts_takes P 7 st 7%N _ _ _ Hg); [lia|reflexivity].
Qed.

Definition feeds (us : list LiveUpdate) : WsLib Scripted := {|
  connect_async _ w := (w, Opened (sub_stream P 4 (fun _ => st0 P) (delivered us)))
|}.

(** The mirror, listening, has written the record too. *)
Lemma mirror_stays_replica_witness :
  exists m' n', follow_tip (W := feeds (pr_live emitted7)) cfg_p7 (fun _ => false) (mirror0, net [])
                  = ((m', n'), Done (Ok tt)) /\
    refines (pr_storage emitted7) abs7 /\ refines (mi_storage m') abs7.
Proof.
  destruct (mirror_stays_replica (W := feeds (pr_live emitted7)) (accepts P 7) cfg_p7 (fun _ => false) mirror0 (net [])
              emitting emitted7 abs_empty (pr_live emitted7) [cmd7] (fun _ => st0 P) 4 [])
    as (m' & n' & E & _ & H1 & H2).
  - exact (st0_refines P).
  - exact (st0_refines P).
  - exact index_sound_empty.
  - constructor; [exact cmd7_ok|constructor].
  - discriminate.
  - exact emits7.
  - reflexivity.
  - reflexivity.
  - exact accepts_all.
  - done.
  - done.
  - exists m', n'. split; [exact E|]. split; [exact H1|exact H2].
Defined.

(** Worlds that answer with the health of the upstream, or not at all. *)
Definition health_or_nothing (w : list HttpReply) : Prop := Forall (fun r => r = SendError \/ r = health_of P st7) w.

Lemma history7_honest : HonestUpstream (W := serves_socket P st7) cfg_p7 7 (a_blocks abs7) health_or_nothing.
Proof.
  split.
  - intros w w' r Hw E. assert (health_or_nothing w' /\ (r = SendError \/ r = health_of P st7)) as [Hw' Hr].
    { destruct Hw as [|r0 w Hr0 Hw]; injection E as <- <-; [split; [constructor|by left]|done]. }
    split; [done|]. intros status header v t -> Ht. destruct Hr as [|[= -> -> ->]]; [done|].
    assert (upstream_blocks_field (build_health_response host0 [serve0 P st7]) P "max_contiguous_height" = Some 7%N) as E7
      by (vm_compute; reflexivity).
    assert (t = 7%N) as -> by congruence. lia.
  - intros w w' r Hw [= <- <-]. split; [done|]. intros s [= <-].
    exists 4%nat, (fun _ => st7), []. split; [done|]. split; [|constructor].
    intros _. exists abs7. split; [exact st7_refines|done].
Qed.

Lemma history7_only h es : a_blocks abs7 !! h = Some es -> h = 7%N /\ es = cmd_elements cmd7.
Proof.
  assert (E : a_blocks abs7 = {[7%N := cmd_elements cmd7]}) by (vm_compute; reflexivity).
  rewrite E. intros [<- <-]%lookup_singleton_Some. done.
Qed.

Lemma history7_working : WorkingHistory 7 (a_blocks abs7) (accepts P 7).
Proof.
  split.
  - intros h es [-> ->]%history7_only.
    exists (bytes_of raw7), json7, (VArray []), fb7, EMPTY_ARRAY. split_and!; vm_compute; reflexivity.
  - intros h es [-> _]%history7_only. vm_compute. reflexivity.
  - intros st h es hash txs Hg _ [-> ->]%history7_only. by apply (accepts_takes P 7); [|lia|].
Qed.

(** The mirror after a session that found nobody, and a second one. *)
Definition mirror_alone : MirrorSt * Net :=
  (mirror_turn (W := serves_socket P st7) cfg_p7 (fun _ => true) (fun _ => true) (fun _ => 0%N) 0 0 (mirror0, net [])).1.

Lemma alone_turn :
  mirror_turn (W := serves_socket P st7) cfg_p7 (fun _ => true) (fun _ => true) (fun _ => 0%N) 0 0 (mirror0, net [])
  = ((mirror_alone.1, mirror_alone.2), Done (1, 1000)%N).
Proof. rewrite <- surjective_pairing. apply pair_to. vm_compute. reflexivity. Qed.

Definition mirror_healed : MirrorSt * Net :=
  (mirror_turn (W := serves_socket P st7) cfg_p7 (fun _ => false) (fun _ => true) (fun _ => 0%N) 0 1
     (mirror_alone.1, net [health_of P st7])).1.

(** The second session fills what the first could not. *)
Lemma mirror_heals_witness :
  stored (mi_storage mirror_alone.1) 7 = Ok None /\
  stored (mi_storage mirror_healed.1) 7 = Ok (Some (Record.encode (cmd_elements cmd7))).
Proof.
  split; [vm_compute; reflexivity|].
  destruct (mirror_heals (W := serves_socket P st7) cfg_p7 7 (a_blocks abs7) health_or_nothing (accepts P 7)
              history7_honest history7_working (fun _ => true) (fun _ => 0%N) 0 0 mirror0 1 mirror_alone.1
              (net [health_of P st7]) (serve0 P st7) (fun _ => st7) [] abs7 4 [] [] mirror_healed.1 mirror_healed.2
              (mirror_turn (W := serves_socket P st7) cfg_p7 (fun _ => false) (fun _ => true) (fun _ => 0%N) 0 1
                 (mirror_alone.1, net [health_of P st7])).2)
    as [Hall _].
  - split; [by intros h b [=]|done|right; done].
  - apply (turns_cons (W := serves_socket P st7) _ _ (fun _ => true) (fun _ => true) (fun _ => 0%N) 0 0 mirror0 (net [])
             mirror_alone.1 mirror_alone.2 1 1000); [constructor|exact alone_turn|apply turns_nil].
  - constructor; [by right|constructor].
  - apply reports_of. vm_compute. reflexivity.
  - reflexivity.
  - vm_compute. reflexivity.
  - done.
  - intros _. exact st7_keeps.
  - vm_compute. lia.
  - unfold mirror_healed. by destruct (mirror_turn _ _ _ _ _ _ _) as [[m' n'] out].
  - destruct (Hall 7%N) as (es & [_ ->]%history7_only & ->); [|done]. vm_compute. split; discriminate.
Defined.

Lemma st5_keeps : keeps abs5 5 5 st5.
Proof.
  eapply refines_keeps; [exact st5_refines|reflexivity| |vm_compute; discriminate..].
  apply ms_present. vm_compute. split; [discriminate|by eexists].
Qed.


(** ** The listener *)

(** The block of height 5, written and announced without log ingestion. *)
Definition cmd5b : PutCmd :=
  {| cmd_height := 5; cmd_hash := hash1; cmd_txs := extract_tx_hashes block_value;
     cmd_elements := [block_bytes; EMPTY_ARRAY] |}.

Lemma cmd5b_ok : cmd_ok cmd5b.
Proof.
  split; [by vm_compute|]. split; [|by vm_compute].
  apply Forall_cons_2; [exact (to_vec_text block_value _ block_bytes_ok)|].
  apply Forall_cons_2; [apply empty_array_text|apply Forall_nil_2].
Qed.

Lemma block5_write : block_write block_value hash_text cmd5b.
Proof. split_and!; [vm_compute; reflexivity..|vm_compute; by eexists|reflexivity|]. exists block_bytes. split; [exact block_bytes_ok|done]. Qed.

Definition quiet_node : Node :=
  {| nd_net := net []; nd_buf := Join.new (st0 C) 4; nd_live := []; nd_receivers := 1; nd_aimd := aimd_new 0 |}.

Definition persisted5 : Node := (persist_block 5 hash_text block_value quiet_node).1.

Lemma persists5 : persists quiet_node [block_value] [cmd5b] persisted5.
Proof.
  apply (persists_cons _ hash_text _ quiet_node persisted5 [] [] persisted5 block5_write); [|apply persists_nil].
  apply pair_to. vm_compute. reflexivity.
Qed.

Lemma accepts_all5 : takes_all (accepts C 5) [cmd5b].
Proof.
  intros st c Hg Hc. apply list_elem_of_singleton in Hc as ->.
  apply (accepts_takes C 5 st 5%N _ _ _ Hg); [lia|reflexivity].
Qed.

Definition feeds_blocks (us : list LiveUpdate) : WsLib Scripted := {|
  connect_async _ w := (w, Opened (sub_stream C 4 (fun _ => st0 C) (delivered us)))
|}.

(** The mirror, listening, has written the block too. *)
Lemma blocks_stay_replicated_witness :
  exists nd', run_session (W := feeds_blocks (nd_live persisted5)) cfg0 false (fun _ => false) (fun _ => 0%N) quiet_node
                = (nd', Done (Ok tt)) /\
    refines (nd_storage persisted5) (abs_run [cmd5b] abs_empty) /\ refines (nd_storage nd') (abs_run [cmd5b] abs_empty).
Proof.
  destruct (blocks_stay_replicated (W := feeds_blocks (nd_live persisted5)) (accepts C 5) cfg0 (fun _ => false)
              (fun _ => 0%N) quiet_node quiet_node persisted5 abs_empty [block_value] (nd_live persisted5) [cmd5b]
              (fun _ => st0 C) 4 []) as (nd' & E & _ & _ & H1 & H2).
  - reflexivity.
  - exact (st0_refines C).
  - exact (st0_refines C).
  - exact index_sound_empty.
  - constructor; [exact cmd5b_ok|constructor].
  - discriminate.
  - exact persists5.
  - reflexivity.
  - reflexivity.
  - exact accepts_all5.
  - done.
  - done.
  - exists nd'. split; [exact E|]. split; [exact H1|exact H2].
Defined.

Section Listening.

(** A socket that has one byte to read and then nothing. *)
#[local] Instance OneByte : AsyncStream := {|
  Stream := bool; StreamError := unit;
  inner_poll_read s _ _ := if s then (false, Ready (inl [Byte.x78])) else (s, Pending_);
  inner_poll_write s _ _ := (s, Pending_);
  inner_poll_flush s _ := (s, Pending_); inner_poll_shutdown s _ := (s, Pending_)
|}.

Definition listen_cfg : ServeConfig :=
  {| sc_addr := socket_default; sc_max_connections := 10; sc_idle_timeout := Some 5%N; sc_max_blocks_per_request := 10 |}.

Definition answer_empty (max : N) (m : RpcModule) (req : HttpReq) : HttpResp := {| rp_status := 200; rp_body := Whole [] |}.

Definition arrivals : list AcceptEvent := [AcceptFailed; Accepted 3 true; Shutdown; Accepted 9 true].

Definition bound (addr : SocketAddr) : result TcpListener := Ok {| local_addr := Ok addr |}.

Definition listening : result (list Connection) :=
  Listener.serve (fun s => s) answer_empty (fun _ => None) bound listen_cfg [serve0 C st5] host0
    (fun _ => st5) [Byte.x23] arrivals.

(** The socket accepted before the shutdown is served; its byte is read at 4, and
    it is reaped at 9. *)
Lemma served_connections_witness :
  exists c, listening = Ok [c] /\
    (drive (cn_io c) [(4%N, PollRead 1); (8%N, PollRead 1); (9%N, PollRead 1)]).2
      = [(4%N, ReadBytes [Byte.x78]); (8%N, Waiting); (9%N, Reaped)] /\
    cn_service c {| rq_method := "GET"; rq_path := "/metrics"; rq_query := None; rq_body := [] |}
      = {| rp_status := 200; rp_body := Whole [Byte.x23] |}.
Proof.
  assert (Hm : exists m, build_module [serve0 C st5] = Ok m) .
  { rewrite build_module_eq, decide_True; [by eexists|]. split; [done|apply NoDup_singleton]. }
  destruct Hm as [m Hm].
  destruct (proj2 (proj2 (proj2 (served_connections (fun s => s) answer_empty (fun _ => None) bound listen_cfg
              [serve0 C st5] host0 (fun _ => st5) [Byte.x23] arrivals))) m _ _ Hm eq_refl eq_refl)
    as (conns & Hc & Hall).
  change (admitted arrivals) with [(3%N, true)] in Hall.
  pose proof (Forall2_length _ _ _ Hall) as Hl. destruct conns as [|c [|d conns]]; try discriminate Hl.
  exists c. split; [exact Hc|]. apply Forall2_cons in Hall as [(Hd & _ & _ & Hmet & _) _].
  split; [|by apply Hmet].
  specialize (Hd [(4%N, PollRead 1); (8%N, PollRead 1); (9%N, PollRead 1)]).
  destruct (drive (cn_io c) _) as [io seen]. cbn [snd]. apply (f_equal snd) in Hd. cbn [snd] in Hd. rewrite Hd.
  vm_compute. reflexivity.
Defined.

End Listening.
